(** * Verification of the clinical-document extraction pipeline

    A shallow embedding of the Python pipeline (hierarchy builder, form and
    item extractors, schedule parser, matrix reconciler and event grouper)
    together with the properties its specification states about it.

    Conventions.  Python [str] values are modelled by [string]; a character is
    a code point below 256; [str.lower] stays among these, [str.upper] does
    not and gives a list of code points.
    A JSON node is a rose tree; a [dict] used as a map is a [gmap], a [set] a
    [gset].  Regular expressions taken from configuration files are section
    variables: the properties proved hold for whatever they match. *)

From Stdlib Require Import ZArith QArith Lia List Ascii String.
From Stdlib Require Import DecimalString DecimalNat DecimalFacts Sorted.
From stdpp Require Import base option list gmap sets strings.

Local Open Scope string_scope.
Local Open Scope list_scope.

(** ** Python string primitives *)

Module Py.

Definition is_upper_ascii (c : ascii) : bool :=
  let n := nat_of_ascii c in (65 <=? n)%nat && (n <=? 90)%nat.

Definition is_lower_ascii (c : ascii) : bool :=
  let n := nat_of_ascii c in (97 <=? n)%nat && (n <=? 122)%nat.

(** The capital letters of Latin-1 above the ASCII ones: 192..222 but for
    the multiplication sign 215. *)
Definition is_upper_latin (c : ascii) : bool :=
  let n := nat_of_ascii c in
  ((192 <=? n)%nat && (n <=? 214)%nat) || ((216 <=? n)%nat && (n <=? 222)%nat).

(** The small letters of Latin-1 that have a capital 32 below them: 224..254
    but for the division sign 247. *)
Definition is_lower_latin (c : ascii) : bool :=
  let n := nat_of_ascii c in
  ((224 <=? n)%nat && (n <=? 246)%nat) || ((248 <=? n)%nat && (n <=? 254)%nat).

(** [str.lower] on one character. *)
Definition lower_char (c : ascii) : ascii :=
  if is_upper_ascii c || is_upper_latin c
  then ascii_of_nat (nat_of_ascii c + 32) else c.

(** The capital of an ASCII letter, as a pattern under [re.IGNORECASE]
    compares it. *)
Definition upper_ascii (c : ascii) : ascii :=
  if is_lower_ascii c then ascii_of_nat (nat_of_ascii c - 32) else c.

(** [str.upper] on one character, as code points: the sharp s 223 gives
    [SS], the micro sign 181 gives 924 and the y with diaeresis 255 gives
    376, which are above 255. *)
Definition upper_char (c : ascii) : list nat :=
  let n := nat_of_ascii c in
  if is_lower_ascii c || is_lower_latin c then [n - 32]
  else if (n =? 223)%nat then [83; 83]
  else if (n =? 181)%nat then [924]
  else if (n =? 255)%nat then [376]
  else [n].

Fixpoint map_string (f : ascii -> ascii) (s : string) : string :=
  match s with
  | EmptyString => EmptyString
  | String c s' => String (f c) (map_string f s')
  end.

(** [str.lower]. *)
Definition lower : string -> string := map_string lower_char.

(** [str.upper], as the code points of the result. *)
Fixpoint upper (s : string) : list nat :=
  match s with
  | EmptyString => []
  | String c s' => upper_char c ++ upper s'
  end.

(** The code points of a text of the model, and the text of a list of code
    points, which exists when all of them are below 256. *)
Fixpoint code_points (s : string) : list nat :=
  match s with
  | EmptyString => []
  | String c s' => nat_of_ascii c :: code_points s'
  end.

Fixpoint text_of (points : list nat) : option string :=
  match points with
  | [] => Some EmptyString
  | n :: rest =>
      if (n <? 256)%nat then
        match text_of rest with
        | Some s => Some (String (ascii_of_nat n) s)
        | None => None
        end
      else None
  end.

(** The characters [str.strip] removes: tab, line feed, vertical tab, form
    feed, carriage return, the four separators 28..31, space, and the two
    Latin-1 blanks 133 and 160. *)
Definition is_space (c : ascii) : bool :=
  let n := nat_of_ascii c in
  ((9 <=? n)%nat && (n <=? 13)%nat) || ((28 <=? n)%nat && (n <=? 32)%nat)
  || (n =? 133)%nat || (n =? 160)%nat.

Fixpoint lstrip (s : string) : string :=
  match s with
  | String c s' => if is_space c then lstrip s' else s
  | EmptyString => EmptyString
  end.

(** Removal of trailing blanks: a character is kept when something
    non-blank follows it or when it is not blank itself. *)
Fixpoint rstrip (s : string) : string :=
  match s with
  | EmptyString => EmptyString
  | String c s' =>
      match rstrip s' with
      | EmptyString => if is_space c then EmptyString else String c EmptyString
      | r => String c r
      end
  end.

Definition strip (s : string) : string := rstrip (lstrip s).

(** [s.startswith(p)]. *)
Fixpoint startswith (s p : string) : bool :=
  match p, s with
  | EmptyString, _ => true
  | String c p', String d s' => if ascii_dec c d then startswith s' p' else false
  | String _ _, EmptyString => false
  end.

(** [sub in s]. *)
Fixpoint contains (s sub : string) : bool :=
  startswith s sub
  || match s with
     | EmptyString => false
     | String _ s' => contains s' sub
     end.

(** Truthiness of a string: [if s:]. *)
Definition truthy (s : string) : bool :=
  match s with EmptyString => false | _ => true end.

Definition chars (s : string) : list ascii := list_ascii_of_string s.

End Py.

(** ** [difflib.SequenceMatcher] as the reconciler uses it

    The reconciler calls [SequenceMatcher(None, a, b).ratio()]: no junk
    predicate, the automatic junk heuristic left on.  The definitions follow
    the methods of the class one by one. *)

Module Difflib.

Record Match := mkMatch { m_a : nat; m_b : nat; m_size : nat }.

(** [sum(triple[-1] for triple in blocks)]. *)
Definition matches (blocks : list Match) : nat :=
  foldr (fun x n => (m_size x + n)%nat) O blocks.

Section Matcher.
Variables a b : list ascii.

(** [__chain_b]: positions of every element of [b], in increasing order. *)
Definition b2j_full : gmap ascii (list nat) :=
  fold_left (fun m ie => <[ie.2 := default [] (m !! ie.2) ++ [ie.1]]> m)
            (imap pair b) ∅.

(** No junk predicate is given, so the junk set stays empty. *)
Definition bjunk : gset ascii := ∅.
Definition isbjunk (c : ascii) : bool := bool_decide (c ∈ bjunk).

(** Elements occurring more than [n // 100 + 1] times in a [b] of 200 or
    more elements are "popular" and are dropped from the index. *)
Definition b2j : gmap ascii (list nat) :=
  let n := length b in
  if (200 <=? n)%nat then
    let ntest := (n / 100 + 1)%nat in
    filter (fun kv => (length kv.2 <= ntest)%nat) b2j_full
  else b2j_full.

Definition best := (nat * nat * nat)%type.
Definition bestsize (x : best) : nat := x.2.

(** The loop over [b2j.get(a[i], nothing)] for one [i]. *)
Fixpoint scan_row (i blo bhi : nat) (j2len : gmap nat nat) (js : list nat)
         (newj2len : gmap nat nat) (bst : best) : gmap nat nat * best :=
  match js with
  | [] => (newj2len, bst)
  | j :: js' =>
      if (j <? blo)%nat then scan_row i blo bhi j2len js' newj2len bst
      else if (bhi <=? j)%nat then (newj2len, bst)
      else
        let prev := match j with O => O | S j' => default O (j2len !! j') end in
        let k := (prev + 1)%nat in
        let bst' := if (bestsize bst <? k)%nat
                    then ((i + 1 - k)%nat, (j + 1 - k)%nat, k) else bst in
        scan_row i blo bhi j2len js' (<[j := k]> newj2len) bst'
  end.

(** The loop [for i in range(alo, ahi)]. *)
Fixpoint scan_rows (blo bhi : nat) (is_ : list nat) (j2len : gmap nat nat)
         (bst : best) : best :=
  match is_ with
  | [] => bst
  | i :: is' =>
      let js := match a !! i with
                | Some c => default [] (b2j !! c)
                | None => []
                end in
      let '(newj2len, bst') := scan_row i blo bhi j2len js ∅ bst in
      scan_rows blo bhi is' newj2len bst'
  end.

Definition same_at (i j : nat) : bool :=
  match a !! i, b !! j with
  | Some c, Some d => bool_decide (c = d)
  | _, _ => false
  end.

Definition junk_at (j : nat) : bool :=
  match b !! j with Some c => isbjunk c | None => false end.

(** The two [while] loops that grow the block to the left; [junk] tells
    which of the two (non-junk first, junk second) is running. *)
Fixpoint extend_left (junk : bool) (alo blo besti bestj size : nat) : best :=
  match besti, bestj with
  | S i', S j' =>
      if (alo <? besti)%nat && (blo <? bestj)%nat
         && Bool.eqb (junk_at j') junk && same_at i' j'
      then extend_left junk alo blo i' j' (size + 1)%nat
      else (besti, bestj, size)
  | _, _ => (besti, bestj, size)
  end.

(** The two [while] loops that grow the block to the right; [n] bounds the
    number of rounds by the room left below [ahi]. *)
Fixpoint extend_right (junk : bool) (n ahi bhi besti bestj size : nat) : nat :=
  match n with
  | O => size
  | S n' =>
      if (besti + size <? ahi)%nat && (bestj + size <? bhi)%nat
         && Bool.eqb (junk_at (bestj + size)) junk
         && same_at (besti + size) (bestj + size)
      then extend_right junk n' ahi bhi besti bestj (size + 1)%nat
      else size
  end.

Definition find_longest_match (alo ahi blo bhi : nat) : Match :=
  let '(i0, j0, k0) :=
    scan_rows blo bhi (seq alo (ahi - alo)) ∅ (alo, blo, O) in
  let '(i1, j1, k1) := extend_left false alo blo i0 j0 k0 in
  let k2 := extend_right false (ahi - (i1 + k1)) ahi bhi i1 j1 k1 in
  let '(i3, j3, k3) := extend_left true alo blo i1 j1 k2 in
  let k4 := extend_right true (ahi - (i3 + k3)) ahi bhi i3 j3 k3 in
  mkMatch i3 j3 k4.

Definition range := (nat * nat * nat * nat)%type.

(** The [while queue] loop of [get_matching_blocks]; the head of the list
    is the element [queue.pop()] returns. *)
Fixpoint blocks_loop (fuel : nat) (queue : list range) (acc : list Match)
  : option (list Match) :=
  match queue with
  | [] => Some acc
  | (alo, ahi, blo, bhi) :: rest =>
      match fuel with
      | O => None
      | S fuel' =>
          let x := find_longest_match alo ahi blo bhi in
          let i := m_a x in let j := m_b x in let k := m_size x in
          if (k =? 0)%nat then blocks_loop fuel' rest acc
          else
            let q1 := if (alo <? i)%nat && (blo <? j)%nat
                      then (alo, i, blo, j) :: rest else rest in
            let q2 := if (i + k <? ahi)%nat && (j + k <? bhi)%nat
                      then ((i + k)%nat, ahi, (j + k)%nat, bhi) :: q1 else q1 in
            blocks_loop fuel' q2 (acc ++ [x])
      end
  end.

Definition match_leb (x y : Match) : bool :=
  if (m_a x <? m_a y)%nat then true
  else if (m_a y <? m_a x)%nat then false
  else if (m_b x <? m_b y)%nat then true
  else if (m_b y <? m_b x)%nat then false
  else (m_size x <=? m_size y)%nat.

Fixpoint insert_sorted (x : Match) (l : list Match) : list Match :=
  match l with
  | [] => [x]
  | y :: l' => if match_leb x y then x :: l else y :: insert_sorted x l'
  end.

Definition sort_blocks (l : list Match) : list Match :=
  fold_right insert_sorted [] l.

(** Merging of adjacent blocks; [cur] is [(i1, j1, k1)]. *)
Fixpoint collapse (cur : Match) (l : list Match) : list Match :=
  match l with
  | [] => if (m_size cur =? 0)%nat then [] else [cur]
  | x :: l' =>
      if (m_a cur + m_size cur =? m_a x)%nat && (m_b cur + m_size cur =? m_b x)%nat
      then collapse (mkMatch (m_a cur) (m_b cur) (m_size cur + m_size x)) l'
      else (if (m_size cur =? 0)%nat then [] else [cur]) ++ collapse x l'
  end.

(** Every round of the loop either drops a range or splits it around a
    block of at least one element, so [2 * len(a) + 2] rounds suffice. *)
Definition blocks_fuel : nat := (2 * length a + 2)%nat.

Definition get_matching_blocks : option (list Match) :=
  raw ← blocks_loop blocks_fuel [(O, length a, O, length b)] [];
  Some (collapse (mkMatch 0 0 0) (sort_blocks raw)
          ++ [mkMatch (length a) (length b) 0]).

Definition calculate_ratio (matches len : nat) : Q :=
  if (len =? 0)%nat then 1%Q
  else Qmake (2 * Z.of_nat matches) (Pos.of_nat len).

(** [ratio()]: twice the matched length over the total length, as an exact
    rational (the Python value is the float nearest to it). *)
Definition ratio_opt : option Q :=
  blocks ← get_matching_blocks;
  Some (calculate_ratio (matches blocks) (length a + length b)).
End Matcher.

(** [SequenceMatcher(None, a, b).ratio()]; the default is never taken
    ([ratio_opt_total]). *)
Definition ratio (a b : list ascii) : Q := default 0%Q (ratio_opt a b).

End Difflib.


(** [enumerate(l, start)]. *)
Fixpoint enumerate {A : Type} (start : nat) (l : list A) : list (nat * A) :=
  match l with
  | [] => []
  | x :: l' => (start, x) :: enumerate (S start) l'
  end.

(** ** Matrix reconciler ([common_matrix.py]) *)

Module CommonMatrix.

(** [fuzzy_match(a, b, case_insensitive)]. *)
Definition fuzzy_match (a b : string) (case_insensitive : bool) : Q :=
  let a' := if case_insensitive then Py.lower a else a in
  let b' := if case_insensitive then Py.lower b else b in
  Difflib.ratio (Py.chars a') (Py.chars b').

Definition Qlt_bool (x y : Q) : bool := negb (Qle_bool y x).

(** The three variables of the inner loop of [generate_ordered_soa_matrix];
    [best_proc = None] is Python's [None]. *)
Record best_state := mkBest {
  best_score : Q;
  best_idx : nat;
  best_proc : option string
}.

(** What the loop leaves for one form label: an entry of [form_order_map]
    with its index and procedure, or a place in [unmapped_forms]. *)
Inductive mapping :=
| Mapped (index : nat) (procedure : string)
| Unmapped.

Section BestMatch.
(** [score proc form_label] stands for
    [fuzzy_match(proc, form_label, case_insensitive)]. *)
Variable score : string -> string -> Q.
Variable threshold : Q.

(** The index 9999 given to what is not mapped. *)
Definition unmapped_index : nat := 99 * 101.

Definition init_state : best_state := mkBest 0 unmapped_index None.

(** One round of [for idx, proc in enumerate(proc_order)]. *)
Definition step (form_label : string) (st : best_state) (ip : nat * string)
  : best_state :=
  let s := score ip.2 form_label in
  if Qle_bool threshold s && Qlt_bool (best_score st) s
  then mkBest s ip.1 (Some ip.2)
  else st.

Definition best_match_from (start : nat) (procs : list string)
           (form_label : string) (st : best_state) : best_state :=
  fold_left (step form_label) (enumerate start procs) st.

Definition best_match (proc_order : list string) (form_label : string)
  : best_state :=
  best_match_from 0 proc_order form_label init_state.

(** [if best_proc:] is false for [None] and for the empty string. *)
Definition mapping_of (st : best_state) : mapping :=
  match best_proc st with
  | Some p => if Py.truthy p then Mapped (best_idx st) p else Unmapped
  | None => Unmapped
  end.

Definition label_mapping (proc_order : list string) (form_label : string)
  : mapping :=
  mapping_of (best_match proc_order form_label).

(** The loop over the distinct form labels: [form_order_map] and
    [unmapped_forms]. *)
Definition map_forms (include_unmapped : bool) (proc_order labels : list string)
  : gmap string (nat * string) * list string :=
  fold_left
    (fun acc form_label =>
       match label_mapping proc_order form_label with
       | Mapped i p => (<[form_label := (i, p)]> acc.1, acc.2)
       | Unmapped =>
           (if include_unmapped
            then <[form_label := (unmapped_index, "Unmapped")]> acc.1 else acc.1,
            acc.2 ++ [form_label])
       end)
    labels (∅, []).

End BestMatch.

End CommonMatrix.

(** ** Event grouper ([event_grouping.py]) *)

Module EventGrouping.

Definition is_digit (c : ascii) : bool :=
  let n := nat_of_ascii c in (48 <=? n)%nat && (n <=? 57)%nat.

Definition is_alpha (c : ascii) : bool :=
  Py.is_upper_ascii c || Py.is_lower_ascii c.

(** The longest prefix of [s] made of characters accepted by [f], and what
    follows it: how a greedy [x+] or [x*] consumes its input. *)
Fixpoint span (f : ascii -> bool) (s : string) : string * string :=
  match s with
  | String c s' =>
      if f c then let '(p, r) := span f s' in (String c p, r)
      else (EmptyString, s)
  | EmptyString => (EmptyString, EmptyString)
  end.

(** Where [$] matches: at the end of the text or before a final line feed. *)
Definition at_end (s : string) : bool :=
  match s with
  | EmptyString => true
  | String c EmptyString => (nat_of_ascii c =? 10)%nat
  | _ => false
  end.

(** [re.match(r'^([VP]\d+)(?:\s([a-zA-Z]+))?$', s)] and its two groups;
    [None] when the pattern does not match, a suffix of [None] when the
    optional group took no part in the match. *)
Definition default_visit_pattern (s : string) : option (string * option string) :=
  match s with
  | String c s1 =>
      if bool_decide (c = "V"%char) || bool_decide (c = "P"%char) then
        let '(digits, r) := span is_digit s1 in
        if Py.truthy digits then
          let base := String c digits in
          let with_suffix :=
            match r with
            | String w r' =>
                if Py.is_space w then
                  let '(letters, r'') := span is_alpha r' in
                  if Py.truthy letters && at_end r''
                  then Some (base, Some letters) else None
                else None
            | EmptyString => None
            end in
          match with_suffix with
          | Some m => Some m
          | None => if at_end r then Some (base, None) else None
          end
        else None
      else None
  | EmptyString => None
  end.

(** The [visit_normalization] part of the configuration; [pattern] is the
    configured regular expression applied with [re.match], giving its two
    groups. *)
Record config := mkConfig {
  pattern : string -> option (string * option string);
  keep_suffix_length : nat;
  special_cases : list string
}.

(** The values [config.get] falls back to. *)
Definition default_config : config :=
  mkConfig default_visit_pattern 1 [].

Definition with_special_cases (cfg : config) (l : list string) : config :=
  mkConfig (pattern cfg) (keep_suffix_length cfg) l.

(** [t in special_cases] for the text [t] of the code points [points], and
    [t] itself then: the special cases are texts of the model, so a text
    with a code point above 255 is none of them. *)
Definition special_case (cfg : config) (points : list nat) : option string :=
  match Py.text_of points with
  | Some t => if bool_decide (t ∈ special_cases cfg) then Some t else None
  | None => None
  end.

Definition normalize_visit_name (v : string) (cfg : config) : option string :=
  let s := Py.strip v in
  match pattern cfg s with
  | None => special_case cfg (Py.upper s)
  | Some (base, suffix) =>
      match special_case cfg (Py.upper base) with
      | Some t => Some t
      | None =>
        match suffix with
        | Some suf =>
            if Py.truthy suf then
              if (String.length suf =? keep_suffix_length cfg)%nat
              then Some base else None
            else Some base
        | None => Some base
        end
      end
  end.

End EventGrouping.

(** ** Document nodes

    A node of the section tree: a JSON object with its [name], [text],
    [path] and [children]; a missing [text] or [path] is the empty string.
    The trees the extractors read are those the hierarchy builder writes,
    where every child is such an object. *)

#[local] Unset Elimination Schemes.
Inductive node : Type :=
| Node (name text path : string) (children : list node).
#[local] Set Elimination Schemes.

Definition node_name (n : node) : string :=
  match n with Node name _ _ _ => name end.
Definition node_text (n : node) : string :=
  match n with Node _ text _ _ => text end.
Definition node_path (n : node) : string :=
  match n with Node _ _ path _ => path end.
Definition node_children (n : node) : list node :=
  match n with Node _ _ _ children => children end.

(** [sep.join(l)]. *)
Fixpoint join (sep : string) (l : list string) : string :=
  match l with
  | [] => EmptyString
  | [x] => x
  | x :: l' => String.append x (String.append sep (join sep l'))
  end.

(** ** Study specific forms ([Final_study_specific_form.py]) *)

Module StudyForms.

(** [get_text]: the stripped text of the node or, when that is empty, the
    first non-empty text found below it. *)
Fixpoint get_text (n : node) : string :=
  match n with
  | Node _ text _ children =>
      let t := Py.strip text in
      if Py.truthy t then t
      else
        (fix first (l : list node) : string :=
           match l with
           | [] => EmptyString
           | c :: l' =>
               let s := get_text c in
               if Py.truthy s then s else first l'
           end) children
  end.

(** [find_nodes_by_name_pattern(node, '^' + prefix)]: every pattern the
    module passes is a literal anchored at the start of the name. *)
Fixpoint find_nodes_by_name_pattern (n : node) (prefix : string) : list node :=
  match n with
  | Node name _ _ children =>
      (if Py.startswith name prefix then [n] else [])
      ++ flat_map (fun c => find_nodes_by_name_pattern c prefix) children
  end.

(** [check_p_extracharspan_extracharspan_pattern]. *)
Fixpoint check_p_extracharspan_extracharspan_pattern (n : node) : bool :=
  match n with
  | Node name _ _ children =>
      (bool_decide (name = "P")
       && existsb (fun child =>
                     bool_decide (node_name child = "ExtraCharSpan")
                     && existsb (fun g => bool_decide (node_name g = "ExtraCharSpan"))
                                (node_children child))
                  children)
      || existsb check_p_extracharspan_extracharspan_pattern children
  end.

(** [check_p_sub_pattern]. *)
Fixpoint check_p_sub_pattern (n : node) : bool :=
  match n with
  | Node name _ _ children =>
      (bool_decide (name = "P")
       && existsb (fun child => bool_decide (node_name child = "Sub")) children)
      || existsb check_p_sub_pattern children
  end.

(** A form found by [extract_forms_cleaned]. *)
Record form := mkForm {
  form_label : string;
  form_name : string;
  h1_text : string;
  form_node : node;
  parent_h1_node : node
}.

(** An entry of [items_data]. *)
Record item := mkItem {
  item_group : string;
  item_name : string;
  option_td_node : option node
}.

(** A row of [all_item_rows], one field for each key the code sets. *)
Record item_row := mkRow {
  row_form_label : string;      (* 'CTDM Optional, if blank CDP to propose' *)
  row_form_name : string;       (* 'Input needed from SDTM' *)
  row_item_group : string;      (* 'CDAI input needed' *)
  row_repeating : string;       (* 'Unnamed: 4' *)
  row_repeat_maximum : nat;     (* 'Unnamed: 5' *)
  row_item_order : nat;         (* 'Unnamed: 8' *)
  row_item_label : string;      (* 'Unnamed: 9' *)
  row_item_name : string;       (* 'Unnamed: 10' *)
  row_data_type : string;       (* 'Unnamed: 16' *)
  row_field_length : string;    (* 'Unnamed: 17' *)
  row_precision : string;       (* 'Unnamed: 18' *)
  row_codelist : string;        (* 'Unnamed: 19' *)
  row_control_type : string;    (* 'Unnamed: 22' *)
  row_number_range : string;    (* 'Unnamed: 23' *)
  row_query_future_date : string; (* 'Unnamed: 24' *)
  row_required : string;        (* 'Unnamed: 25' *)
  row_open_query : string       (* 'Unnamed: 26' *)
}.

Section Extraction.

(** The checks made with regular expressions, some of them read from the
    configuration file. *)
Variable is_valid_form_name : string -> bool.
Variable is_valid_form_label : string -> bool.
Variable is_metadata_table : node -> bool.
Variable is_instruction : string -> bool.
Variable is_valid_option_content : node -> bool.
(** What the functions below compute for an option cell that is present and
    for a codelist text that is not empty. *)
Variable lbody_values_of : node -> string.
Variable data_type_of : node -> string -> string.
Variable field_length_of : string -> string.
Variable precision_of : string -> string.
Variable number_range_of : string -> string.

(** *** Forms *)

Definition forms_state := (list form * gset (string * string))%type.

(** [find_forms_in_node] inside [process_h1_section]; the state is
    [results] and [seen_forms]. *)
Fixpoint find_forms_in_node (h1_text : string) (h1_node : node) (n : node)
         (current_label : option string) (s : forms_state) : forms_state :=
  match n with
  | Node name _ _ children =>
      let text := get_text n in
      let current_label :=
        if Py.startswith name "H2" && is_valid_form_label text
           && negb (is_valid_form_name text)
        then Some text else current_label in
      let s :=
        if is_valid_form_name text then
          let label :=
            match current_label with
            | Some l => if Py.truthy l then l else h1_text
            | None => h1_text
            end in
          if bool_decide ((label, text) ∈ s.2) then s
          else (s.1 ++ [mkForm label text h1_text n h1_node],
                {[ (label, text) ]} ∪ s.2)
        else s in
      fold_left (fun s c => find_forms_in_node h1_text h1_node c current_label s)
                children s
  end.

Definition process_h1_section (h1_node : node) (s : forms_state) : forms_state :=
  let t := get_text h1_node in
  let h1_text := if is_valid_form_label t then t else "Unknown Section" in
  find_forms_in_node h1_text h1_node h1_node None s.

Fixpoint find_h1_sections (n : node) (s : forms_state) : forms_state :=
  match n with
  | Node name _ _ children =>
      let s := if Py.startswith name "H1" then process_h1_section n s else s in
      fold_left (fun s c => find_h1_sections c s) children s
  end.

Definition extract_forms_cleaned (data : node) : list form :=
  (find_h1_sections data ([], ∅)).1.

(** *** Items *)

(** [has_option_child]. *)
Fixpoint has_option_child (n : node) : bool :=
  match n with
  | Node name _ _ children =>
      if bool_decide (name ∈ ["LI"; "L"; "ExtraCharSpan"; "LBody"]) then true
      else if existsb has_option_child children then true
      else if check_p_extracharspan_extracharspan_pattern n then true
      else if check_p_sub_pattern n then true
      else if Py.startswith name "TD" then
        if negb (is_valid_option_content n) then false
        else existsb (fun p => Py.truthy (Py.strip (get_text p)))
                     (find_nodes_by_name_pattern n "P")
      else false
  end.

Definition only_asterisks (s : string) : bool :=
  bool_decide (Py.strip s ∈ ["*"; "**"; "***"]).

(** The text of the [P] nodes of a cell, joined by line feeds; [None] when
    every such node is a [ParagraphSpan] (the row is skipped). *)
Definition paragraph_text (cell : node) : option string :=
  let p_nodes := find_nodes_by_name_pattern cell "P" in
  match p_nodes with
  | [] => Some (get_text cell)
  | _ =>
      if forallb (fun p => Py.startswith (node_name p) "ParagraphSpan") p_nodes
      then None
      else Some (join (String (ascii_of_nat 10) EmptyString)
                      (List.filter Py.truthy (map get_text p_nodes)))
  end.

(** A row of three cells: label flag, question, options. *)
Definition three_column_row (group : string) (question_cell option_cell : node)
  : list item :=
  match paragraph_text question_cell with
  | None => []
  | Some question_text =>
      if negb (Py.truthy question_text) || negb (Py.truthy (Py.strip question_text))
         || only_asterisks question_text
      then []
      else if is_instruction question_text then []
      else if negb (is_valid_option_content option_cell) then []
      else [mkItem group question_text (Some option_cell)]
  end.

(** One round of [for i, cell in enumerate(cells)] with [i > 0]. *)
Definition two_column_cell (group : string) (prev_cell cell : node) : list item :=
  if has_option_child cell then
    let from_sub :=
      match find_nodes_by_name_pattern prev_cell "Sub" with
      | sub :: _ =>
          let main_sub_text := Py.strip (get_text sub) in
          if Py.truthy main_sub_text && negb (Py.startswith main_sub_text "[")
          then main_sub_text else EmptyString
      | [] => EmptyString
      end in
    let name_text :=
      if Py.truthy from_sub then Some from_sub
      else
        match paragraph_text prev_cell with
        | None => None
        | Some t =>
            if negb (Py.truthy t) || only_asterisks t then None else Some t
        end in
    match name_text with
    | None => []
    | Some t => if is_instruction t then [] else [mkItem group t (Some cell)]
    end
  else [].

Fixpoint two_column_cells (group : string) (prev : node) (cells : list node)
  : list item :=
  match cells with
  | [] => []
  | cell :: rest =>
      two_column_cell group prev cell ++ two_column_cells group cell rest
  end.

(** One table row: the state is [current_item_group] and [items_data]. *)
Definition process_row (tr : node) (s : string * list item) : string * list item :=
  let cells := List.filter (fun child => Py.startswith (node_name child) "TH"
                                         || Py.startswith (node_name child) "TD")
                           (node_children tr) in
  let group_header :=
    match cells with
    | [c] =>
        let t := get_text c in
        if is_valid_form_label t && negb (is_instruction t) then Some t else None
    | _ => None
    end in
  match group_header with
  | Some t => (t, s.2)
  | None =>
      match cells with
      | [_; question_cell; option_cell] =>
          (s.1, s.2 ++ three_column_row s.1 question_cell option_cell)
      | c :: rest => (s.1, s.2 ++ two_column_cells s.1 c rest)
      | [] => s
      end
  end.

Definition process_table (table : node) (s : string * list item)
  : string * list item :=
  if is_metadata_table table then s
  else fold_left (fun s tr => process_row tr s)
                 (find_nodes_by_name_pattern table "TR") s.

Definition items_data (form_node : node) : list item :=
  (fold_left (fun s table => process_table table s)
             (find_nodes_by_name_pattern form_node "Table")
             (EmptyString, [])).2.

(** The last loop of [extract_items_from_form]: the first item of every
    (Item Name, Item Group) pair is kept. *)
Definition dedup_items (items : list item) : list item :=
  (fold_left
     (fun (acc : list item * gset (string * string)) it =>
        let key := (item_name it, item_group it) in
        if bool_decide (key ∈ acc.2) then acc
        else (acc.1 ++ [it], {[ key ]} ∪ acc.2))
     items ([], ∅)).1.

Definition extract_items_from_form (form_node : node) : list item :=
  dedup_items (items_data form_node).

(** *** Repeating groups and rows *)

(** [analyze_item_groups_per_form]: the [Counter] of the stripped group
    values that are neither empty nor ['NaN'], and the groups counted more
    than once. *)
Definition counted_groups (items : list item) : list string :=
  List.filter (fun g => Py.truthy g && negb (bool_decide (g = "NaN")))
              (map (fun it => Py.strip (item_group it)) items).

Definition counter (l : list string) : gmap string nat :=
  fold_left (fun m g => <[g := S (default O (m !! g))]> m) l ∅.

Definition item_group_counts (items : list item) : gmap string nat :=
  counter (counted_groups items).

Definition repeating_groups (items : list item) : gset string :=
  dom (filter (fun kv : string * nat => 1 < kv.2) (item_group_counts items)).

Definition get_item_group_repeating_flag (item_group : string)
           (repeating : gset string) : string :=
  if negb (Py.truthy item_group) || bool_decide (item_group = "NaN")
     || bool_decide (Py.strip item_group = "")
  then "N"
  else if bool_decide (item_group ∈ repeating) then "Y" else "N".

Definition get_repeat_maximum (item_group flag : string)
           (counts : gmap string nat) : nat :=
  match counts !! item_group with
  | Some n => if bool_decide (flag = "Y") then n else 50
  | None => 50
  end.

(** [assign_item_order]: numbers from 1 in the order of the list. *)
Definition assign_item_order (items : list item) : list (nat * item) :=
  enumerate 1 items.

Definition check_query_future_date (data_type : string) : string :=
  if bool_decide (data_type = "Date/Time") then "Y" else "".

Definition check_required_field (item_name : string) : string :=
  if Py.startswith (Py.strip item_name) "*" then "Y" else "N".

Definition get_all_lbody_values (option_node : option node) : string :=
  match option_node with
  | None => ""
  | Some n => lbody_values_of n
  end.

Definition determine_data_type (option_node : option node) (codelist : string)
  : string :=
  match option_node with
  | None => "Text"
  | Some n => data_type_of n codelist
  end.

Definition calculate_field_length (codelist : string) : string :=
  if Py.truthy codelist then field_length_of codelist else "".

Definition calculate_precision (codelist : string) : string :=
  if Py.truthy codelist then precision_of codelist else "".

Definition extract_number_range (codelist : string) : string :=
  if Py.truthy codelist then number_range_of codelist else "".

(** The placeholder appended when a form has no item. *)
Definition placeholder_item : item := mkItem "" "" None.

Definition items_of_form (f : form) : list item :=
  match extract_items_from_form (form_node f) with
  | [] => [placeholder_item]
  | items => items
  end.

(** The body of [for item in items]; [streamed] tells the loop of
    [prepare_study_specific_forms_rows], which leaves the control type
    blank, from that of [process_clinical_forms]. *)
Definition row_of_item (streamed : bool) (f : form) (items : list item)
           (oi : nat * item) : item_row :=
  let it := oi.2 in
  let group_value := if Py.truthy (item_group it) then item_group it else "NaN" in
  let flag := get_item_group_repeating_flag group_value (repeating_groups items) in
  let repeat_maximum := get_repeat_maximum group_value flag (item_group_counts items) in
  let codelist := get_all_lbody_values (option_td_node it) in
  let data_type := determine_data_type (option_td_node it) codelist in
  let is_label := bool_decide (data_type = "Label") in
  let required := check_required_field (item_name it) in
  mkRow (form_label f) (form_name f) group_value flag repeat_maximum oi.1
        (item_name it) ""
        data_type
        (if bool_decide (data_type ∈ ["Text"; "Label"])
         then calculate_field_length codelist else "")
        (if is_label then calculate_precision codelist else "")
        codelist
        (if negb streamed && bool_decide (data_type = "Codelist")
         then "Radio Button-Vertical" else "")
        (if is_label then extract_number_range codelist else "")
        (check_query_future_date data_type)
        required
        (if bool_decide (required = "Y") then "Form,Item" else "").

Definition rows_of_form (streamed : bool) (f : form) : list item_row :=
  let items := items_of_form f in
  map (row_of_item streamed f items) (assign_item_order items).

(** [all_item_rows] as the two entry points build it. *)
Definition all_item_rows (streamed : bool) (data : node) : list item_row :=
  flat_map (rows_of_form streamed) (extract_forms_cleaned data).

Definition process_clinical_forms (data : node) : list item_row :=
  all_item_rows false data.

(** A cell of the sheet. *)
Inductive cell := CStr (s : string) | CInt (n : nat).

(** The values of a row in the order of the sub-headers. *)
Definition ordered_values (r : item_row) : list cell :=
  [ CStr ""; CStr (row_form_label r); CStr (row_form_name r);
    CStr (row_item_group r); CStr (row_repeating r); CInt (row_repeat_maximum r);
    CStr ""; CStr "";
    CInt (row_item_order r); CStr (row_item_label r); CStr (row_item_name r);
    CStr ""; CStr ""; CStr "";
    CStr (row_data_type r); CStr (row_field_length r); CStr (row_precision r);
    CStr (row_codelist r); CStr ""; CStr ""; CStr (row_control_type r);
    CStr (row_number_range r); CStr (row_query_future_date r);
    CStr (row_required r); CStr (row_open_query r);
    CStr "" ].

Definition prepare_study_specific_forms_rows (data : node) : list (list cell) :=
  map ordered_values (all_item_rows true data).

End Extraction.

End StudyForms.

(** What a stage entry point hands back: a value, or the exception it
    raises. *)
Inductive outcome (A : Type) : Type :=
| Returned (a : A)
| Raised (message : string).
Arguments Returned {A} a.
Arguments Raised {A} message.

(** [str(n)] for a natural number. *)
Definition str_of_nat (n : nat) : string :=
  NilEmpty.string_of_uint (Nat.to_uint n).

(** ** Schedule parser ([soa_parser.py]) *)

Module SoaParser.

Definition blank_newlines (s : string) : string :=
  Py.map_string
    (fun c => if bool_decide (c = ascii_of_nat 10) || bool_decide (c = ascii_of_nat 13)
              then " "%char else c) s.

(** [get_node_text]: the text of the node followed by that of its children,
    line breaks turned into blanks. *)
Fixpoint get_node_text (n : node) : string :=
  match n with
  | Node _ text _ children =>
      Py.strip (blank_newlines
        (fold_left (fun acc c => String.append acc (String.append " " (get_node_text c)))
                   children text))
  end.

Fixpoint find_nodes_by_name (n : node) (name_prefix : string) : list node :=
  match n with
  | Node name _ _ children =>
      (if Py.startswith name name_prefix then [n] else [])
      ++ flat_map (fun c => find_nodes_by_name c name_prefix) children
  end.

Definition flatten_row (row : node) : list string :=
  map get_node_text (node_children row).

(** [f"{original_visit}_{counter}"]. *)
Definition suffixed (original : string) (counter : nat) : string :=
  String.append original (String.append "_" (str_of_nat counter)).

(** [while visit_id in seen_visits]: the candidates [original_1],
    [original_2], ... are tried in turn; [fuel] bounds the number of rounds
    and is never used up when it exceeds the size of [seen_visits]. *)
Fixpoint disambiguate (fuel : nat) (original visit_id : string) (counter : nat)
         (seen_visits : gset string) : string :=
  if bool_decide (visit_id ∈ seen_visits) then
    match fuel with
    | O => visit_id
    | S fuel' =>
        disambiguate fuel' original (suffixed original counter)
                     (S counter) seen_visits
    end
  else visit_id.

(** The three variables the header loop fills. *)
Record columns := mkColumns {
  column_to_visit : list (nat * string);
  visit_order : list string;
  seen_visits : gset string
}.

Definition no_columns : columns := mkColumns [] [] ∅.

(** *** The visit pattern written in [merge_broken_tables]

    [extract_complete_visit_identifier(text, [r'\b(?:V|P)\d+[A-Za-z]*\b'])],
    the one call of the module whose pattern list is not read from the
    configuration. *)

Definition in_range (lo hi n : nat) : bool := (lo <=? n)%nat && (n <=? hi)%nat.

(** The characters [\w] accepts among the code points below 256. *)
Definition is_word (c : ascii) : bool :=
  let n := nat_of_ascii c in
  in_range 48 57 n || in_range 65 90 n || in_range 97 122 n || (n =? 95)%nat
  || (n =? 170)%nat || (n =? 178)%nat || (n =? 179)%nat || (n =? 181)%nat
  || (n =? 185)%nat || (n =? 186)%nat || in_range 188 190 n
  || in_range 192 214 n || in_range 216 246 n || in_range 248 255 n.

Definition is_digit (c : ascii) : bool := in_range 48 57 (nat_of_ascii c).

Definition is_alpha (c : ascii) : bool :=
  Py.is_upper_ascii c || Py.is_lower_ascii c.

Fixpoint span (f : ascii -> bool) (s : string) : string * string :=
  match s with
  | String c s' =>
      if f c then let '(p, r) := span f s' in (String c p, r)
      else (EmptyString, s)
  | EmptyString => (EmptyString, EmptyString)
  end.

(** A match of the pattern at the start of [s], the word boundary before it
    being granted: a letter V or P in either case, digits, letters, and a
    word boundary. *)
Definition match_visit_here (s : string) : option string :=
  match s with
  | String c s1 =>
      if bool_decide (Py.upper_ascii c = "V"%char)
         || bool_decide (Py.upper_ascii c = "P"%char) then
        let '(digits, r1) := span is_digit s1 in
        if Py.truthy digits then
          let '(letters, r2) := span is_alpha r1 in
          match r2 with
          | String d _ =>
              if is_word d then None
              else Some (String c (String.append digits letters))
          | EmptyString => Some (String c (String.append digits letters))
          end
        else None
      else None
  | EmptyString => None
  end.

(** [re.findall]: the matches from left to right; [skip] counts the
    characters still covered by the last match, [prev_word] tells whether the
    character before is a word character. *)
Fixpoint findall_visits (skip : nat) (prev_word : bool) (s : string)
  : list string :=
  match s with
  | EmptyString => []
  | String c s' =>
      match skip with
      | S k => findall_visits k (is_word c) s'
      | O =>
          if prev_word then findall_visits O (is_word c) s'
          else
            match match_visit_here s with
            | Some m => m :: findall_visits (String.length m - 1) (is_word c) s'
            | None => findall_visits O (is_word c) s'
            end
      end
  end.

(** [max(matches, key=len)]: the first of the longest matches. *)
Fixpoint longest (l : list string) : option string :=
  match l with
  | [] => None
  | x :: l' =>
      match longest l' with
      | Some y => if (String.length x <? String.length y)%nat then Some y else Some x
      | None => Some x
      end
  end.

Fixpoint remove_chars (drop : ascii -> bool) (s : string) : string :=
  match s with
  | EmptyString => EmptyString
  | String c s' => if drop c then remove_chars drop s' else String c (remove_chars drop s')
  end.

(** The match is kept when it covers more than 30% of the text. *)
Definition visit_or_period_identifier (text : string) : option string :=
  let text := Py.strip text in
  match longest (findall_visits O false text) with
  | Some longest_match =>
      let text_no_spaces :=
        remove_chars (fun c => bool_decide (c ∈ [" "; "("; ")"; "-"]%char)) text in
      if (3 * String.length text_no_spaces <? 10 * String.length longest_match)%nat
      then Some longest_match else None
  | None => None
  end.

Section Parser.

(** [extract_complete_visit_identifier(text, visit_patterns)] for the
    configured patterns. *)
Variable extract_complete_visit_identifier : string -> option string.
(** The number of configured header keywords found in a text. *)
Variable header_keyword_hits : string -> nat.
Variable min_visit_count : nat.
(** [cell_has_marker] with the markers read by [parse_protocol_schedule], and
    with those read by [find_schedule_end], whose default differs. *)
Variable cell_has_marker : string -> bool.
Variable end_cell_has_marker : string -> bool.
Variable section_break : string -> bool.
Variable min_procedures : nat.
Variable consecutive_threshold : nat.
Variable procedure_filters : list string.
(** [find_all_schedule_tables], which merges split tables in place. *)
Variable find_all_schedule_tables : node -> list node.

(** A visit identifier that passes [if visit_id:]. *)
Definition visit_identifier (cell : string) : option string :=
  match extract_complete_visit_identifier cell with
  | Some v => if Py.truthy v then Some v else None
  | None => None
  end.

Definition row_score (row : list string) : nat :=
  let unique_visits : gset (list nat) :=
    list_to_set (map Py.upper (omap visit_identifier row)) in
  size unique_visits + 2 * header_keyword_hits (join " " (map Py.lower row)).

(** [detect_visit_header_row]; the state is [best_row] and [best_score]. *)
Definition detect_visit_header_row (all_rows : list (list string))
  : option (list string) :=
  (fold_left
     (fun (best : option (list string) * nat) row =>
        match row with
        | [] => best
        | _ =>
            let score := row_score row in
            if (best.2 <? score)%nat && (min_visit_count <=? score)%nat
            then (Some row, score) else best
        end)
     all_rows (None, O)).1.

(** One round of [for i, cell in enumerate(visit_row)]. *)
Definition add_column (cols : columns) (ic : nat * string) : columns :=
  match visit_identifier ic.2 with
  | Some visit_id =>
      let visit_id' :=
        disambiguate (S (size (seen_visits cols))) visit_id visit_id 1
                     (seen_visits cols) in
      mkColumns (column_to_visit cols ++ [(ic.1, visit_id')])
                (visit_order cols ++ [visit_id'])
                ({[ visit_id' ]} ∪ seen_visits cols)
  | None => cols
  end.

Definition build_columns (visit_row : list string) : columns :=
  fold_left add_column (enumerate 0 visit_row) no_columns.

Definition row_has_markers (marker : string -> bool)
           (cols : list (nat * string)) (row : list string) : bool :=
  existsb (fun cv => match row !! cv.1 with
                     | Some cell => marker cell
                     | None => false
                     end) cols.

(** The second loop of [find_schedule_end] over the rows from [i] on. *)
Fixpoint schedule_end_loop (cols : list (nat * string)) (rows : list (list string))
         (i procedure_count consecutive total : nat) : nat :=
  match rows with
  | [] => total
  | row :: rest =>
      match row with
      | [] => schedule_end_loop cols rest (S i) procedure_count consecutive total
      | first :: _ =>
          if row_has_markers end_cell_has_marker cols row
          then schedule_end_loop cols rest (S i) (S procedure_count) O total
          else
            let consecutive' := S consecutive in
            if (min_procedures <=? procedure_count)%nat
               && (consecutive_threshold <? consecutive')%nat
            then i
            else if (min_procedures <=? procedure_count)%nat
                    && section_break (Py.strip first)
            then i
            else schedule_end_loop cols rest (S i) procedure_count consecutive' total
      end
  end.

Definition find_schedule_end (all_rows : list (list string))
           (cols : list (nat * string)) (start_from : nat) : nat :=
  schedule_end_loop cols (drop start_from all_rows) start_from O O (length all_rows).

(** The position of the header row among the rows, plus one; 0 stands for
    the initial [-1 + 1]. *)
Fixpoint after_header (all_rows : list (list string)) (visit_row : list string)
  : nat :=
  match all_rows with
  | [] => O
  | row :: rest =>
      if bool_decide (row = visit_row) then 1%nat
      else match after_header rest visit_row with
           | O => O
           | n => S n
           end
  end.

Definition skip_row (first_cell : string) : bool :=
  existsb (fun filter_term =>
             bool_decide (Py.lower first_cell = Py.lower filter_term)
             || match extract_complete_visit_identifier first_cell with
                | Some v => Py.truthy v
                | None => false
                end)
          procedure_filters.

Definition schedule_map := gmap string (list string).

(** One round of the loop over the rows between header and end; the state
    is [schedule] and [procedure_order]. *)
Definition add_procedure (cols : list (nat * string))
           (s : schedule_map * list string) (row : list string)
  : schedule_map * list string :=
  match row with
  | [] => s
  | first :: _ =>
      let procedure := Py.strip first in
      if skip_row procedure then s
      else if row_has_markers cell_has_marker cols row then
        let order := if bool_decide (procedure ∈ s.2) then s.2
                     else s.2 ++ [procedure] in
        (fold_left
           (fun (m : schedule_map) cv =>
              if cell_has_marker (default EmptyString (row !! cv.1))
              then <[cv.2 := default [] (m !! cv.2) ++ [procedure]]> m
              else m)
           cols s.1,
         order)
      else s
  end.

(** [all_rows]: the flattened rows of the schedule tables. *)
Definition table_rows (tables : list node) : list (list string) :=
  flat_map (fun table => map flatten_row (find_nodes_by_name table "TR")) tables.

(** [parse_protocol_schedule]; [None] is the triple [(None, None, None)]. *)
Definition parse_protocol_schedule (protocol_data : node)
  : option (schedule_map * list string * list string) :=
  match find_all_schedule_tables protocol_data with
  | [] => None
  | tables =>
      let all_rows := table_rows tables in
      match detect_visit_header_row all_rows with
      | None => None
      | Some [] => None
      | Some visit_row =>
          let cols := build_columns visit_row in
          match visit_order cols with
          | [] => None
          | _ =>
              let start := after_header all_rows visit_row in
              let end_index :=
                find_schedule_end all_rows (column_to_visit cols) start in
              let body := drop start (take end_index all_rows) in
              let '(schedule, procedure_order) :=
                fold_left (add_procedure (column_to_visit cols)) body (∅, []) in
              Some (schedule, visit_order cols, procedure_order)
          end
      end
  end.

(** The sheet [save_schedule_to_csv] writes: a header line, then a line for
    each procedure with its marks. *)
Definition schedule_csv (schedule : schedule_map)
           (visits procedures : list string) : list (list string) :=
  ("Procedure" :: visits)
  :: map (fun proc =>
            proc :: map (fun visit =>
                           if bool_decide (proc ∈ default [] (schedule !! visit))
                           then "X" else "")
                        visits)
         procedures.

(** [parse_soa] for a protocol that has been read: the path returned and
    the file written, or the [ValueError] raised. *)
Definition parse_soa (protocol_data : node) (output_csv : string)
  : outcome (string * list (list string)) :=
  match parse_protocol_schedule protocol_data with
  | Some (schedule, visits, procedures) =>
      if bool_decide (schedule = ∅)
      then Raised "Failed to parse schedule from protocol JSON"
      else Returned (output_csv, schedule_csv schedule visits procedures)
  | None => Raised "Failed to parse schedule from protocol JSON"
  end.

End Parser.

End SoaParser.

(** ** Form extractor ([form_extractor.py]) *)

Module FormExtractor.

(** [get_text]: the stripped text of the node itself. *)
Definition get_text (n : node) : string := Py.strip (node_text n).

(** A row of the forms table. *)
Record form_row := mkFormRow {
  fr_label : string;            (* "Form Label" *)
  fr_name : string;             (* "Form Name" *)
  fr_source : string;           (* "Source" *)
  fr_visits : string;           (* "Visits" *)
  fr_dynamic_trigger : string;  (* "Dynamic Trigger" *)
  fr_trigger_details : string;  (* "Trigger Details" *)
  fr_required : string          (* "Required" *)
}.

Definition is_digit (c : ascii) : bool :=
  let n := nat_of_ascii c in (48 <=? n)%nat && (n <=? 57)%nat.

(** [int(re.search(r'\d+', x).group())], or 9999 without a digit. *)
Fixpoint first_number_from (value : nat) (started : bool) (x : string) : nat :=
  match x with
  | EmptyString => if started then value else 99 * 101
  | String c x' =>
      if is_digit c
      then first_number_from (10 * value + (nat_of_ascii c - 48)) true x'
      else if started then value else first_number_from value false x'
  end.

Definition first_number (x : string) : nat := first_number_from 0 false x.

(** The order of the sort key [(number, x)]. *)
Definition visit_leb (x y : string) : bool :=
  let nx := first_number x in
  let ny := first_number y in
  if (nx <? ny)%nat then true
  else if (ny <? nx)%nat then false
  else String.leb x y.

Fixpoint insert_visit (x : string) (l : list string) : list string :=
  match l with
  | [] => [x]
  | y :: l' => if visit_leb x y then x :: l else y :: insert_visit x l'
  end.

(** [", ".join(sorted(form_visits, key=...))]. *)
Definition visits_string (form_visits : gset string) : string :=
  join ", " (fold_right insert_visit [] (elements form_visits)).

Definition forms_state := (list form_row * gset (string * string * string))%type.

Section Extractor.

Variable is_valid_form_label : string -> bool.
(** The checks and searches that depend on the configured patterns. *)
Variable is_valid_form_name : string -> bool.
Variable ignored : string -> bool.
Variable extract_visit_strings : string -> gset string.
Variable extract_trigger_info : string -> option string.
Variable determine_form_source : string -> string -> string -> string -> string.
Variable extract_document_context : node -> string.
(** The texts [find_all_required_patterns_globally] maps a legend to. *)
Variable required_mappings : node -> gset string.
(** The element [list(set(...))[0]] yields; the order in which a set is
    listed is not fixed by the language. *)
Variable first_of_set : gset string -> string.

Fixpoint deep_search_visits (n : node) : gset string :=
  match n with
  | Node _ text _ children =>
      extract_visit_strings (Py.strip text)
      ∪ union_list (map deep_search_visits children)
  end.

Definition trigger_of (text : string) : option string :=
  match extract_trigger_info text with
  | Some t => if Py.truthy t then Some t else None
  | None => None
  end.

Fixpoint deep_search_triggers (n : node) (max_depth current_depth : nat)
  : list (string * nat) :=
  match n with
  | Node _ text _ children =>
      if (max_depth <? current_depth)%nat then []
      else
        match trigger_of (Py.strip text) with
        | Some t => [(t, current_depth)]
        | None => []
        end
        ++ flat_map (fun c => deep_search_triggers c max_depth (S current_depth))
                    children
  end.

Fixpoint gather_h1_sections (n : node) : list node :=
  match n with
  | Node name _ _ children =>
      (if Py.startswith name "H1" then [n] else [])
      ++ flat_map gather_h1_sections children
  end.

(** The values shared by the forms of one [H1] section. *)
Record section_context := mkSection {
  sc_h1_text : string;
  sc_visits : gset string;
  sc_triggers : list (string * nat);
  sc_context : string;
  sc_document_context : string;
  sc_required : gset string
}.

(** The row appended for a form node whose key is new. *)
Definition new_form_row (sc : section_context) (n : node)
           (form_label form_name visits_str : string) : form_row :=
  let form_triggers :=
    match deep_search_triggers n 7 0 with
    | [] => sc_triggers sc
    | l => l
    end in
  let form_triggers :=
    if Py.contains form_name "[ENR]" then [] else form_triggers in
  let unique_triggers : gset string :=
    list_to_set
      (map fst (List.filter (fun t => bool_decide (is_Some (trigger_of t.1)))
                            form_triggers)) in
  let has_trigger := negb (bool_decide (unique_triggers = ∅)) in
  mkFormRow form_label form_name
    (determine_form_source form_name (get_text n)
       (String.append (sc_context sc)
          (String.append " " (extract_document_context n)))
       (sc_document_context sc))
    visits_str
    (if has_trigger then "Yes" else "No")
    (if has_trigger then first_of_set unique_triggers else "")
    (if bool_decide (form_name ∈ sc_required sc) then "Yes" else "No").

(** [find_forms_in_node]; the state is [results] and [seen_forms].  A form
    name caught by an ignore pattern ends the walk below that node. *)
Fixpoint find_forms_in_node (sc : section_context) (n : node)
         (current_label : option string) (s : forms_state) : forms_state :=
  match n with
  | Node name _ _ children =>
      let text := get_text n in
      let current_label :=
        if Py.startswith name "H2" && is_valid_form_label text
           && negb (is_valid_form_name text)
        then Some text else current_label in
      let walk s :=
        fold_left (fun s c => find_forms_in_node sc c current_label s) children s in
      if is_valid_form_name text then
        let form_label :=
          match current_label with
          | Some l => if Py.truthy l then l else sc_h1_text sc
          | None => sc_h1_text sc
          end in
        if ignored text then s
        else
          let own_visits := deep_search_visits n in
          let form_visits :=
            if bool_decide (own_visits = ∅) then sc_visits sc else own_visits in
          let visits_str := visits_string form_visits in
          let form_key := (form_label, text, visits_str) in
          walk (if bool_decide (form_key ∈ s.2) then s
                else (s.1 ++ [new_form_row sc n form_label text visits_str],
                      {[ form_key ]} ∪ s.2))
      else walk s
  end.

Definition section_of (data h1_node : node) : section_context :=
  let t := get_text h1_node in
  mkSection (if is_valid_form_label t then t else "Unknown Section")
            (deep_search_visits h1_node)
            (deep_search_triggers h1_node 6 0)
            (extract_document_context h1_node)
            (extract_document_context data)
            (required_mappings data).

Definition extract_forms_with_corrections (data : node) : list form_row :=
  (fold_left
     (fun s h1_node => find_forms_in_node (section_of data h1_node) h1_node None s)
     (gather_h1_sections data) ([], ∅)).1.

Definition fieldnames : list string :=
  ["Form Label"; "Form Name"; "Source"; "Visits";
   "Dynamic Trigger"; "Trigger Details"; "Required"].

Definition csv_line (r : form_row) : list string :=
  [fr_label r; fr_name r; fr_source r; fr_visits r;
   fr_dynamic_trigger r; fr_trigger_details r; fr_required r].

(** [extract_forms] for an eCRF that has been read: the path returned and
    the file written (header line first). *)
Definition extract_forms (data : node) (output_csv : string)
  : outcome (string * list (list string)) :=
  Returned (output_csv,
            fieldnames :: map csv_line (extract_forms_with_corrections data)).

End Extractor.

End FormExtractor.

(** ** Hierarchy builder ([json_struct_protocol.py])

    The builder creates dictionaries and appends to their [children] lists
    through several references ([header_context], [path_to_node]).  The
    dictionaries live in a store: a dictionary is known by its position in
    the store, and a [children] list holds positions. *)

Module Hierarchy.

(** An input element, with [elem.get("path") or elem.get("Path") or ""] as
    its path and likewise for its text. *)
Record element := mkElement { e_path : string; e_text : string }.

(** A dictionary of the tree; the root has neither ["text"] nor ["path"]. *)
Record dict := mkDict {
  d_name : string;
  d_text : option string;
  d_path : option string;
  d_children : list nat
}.

Abbreviation store := (list dict).

Record state := mkState {
  st_store : store;
  header_context : gmap nat nat;
  path_to_node : gmap string nat
}.

(** [path.lstrip("/")]. *)
Fixpoint lstrip_slash (s : string) : string :=
  match s with
  | String c s' => if bool_decide (c = "/"%char) then lstrip_slash s' else s
  | EmptyString => EmptyString
  end.

Definition normalize_path (path : string) : string :=
  let p := lstrip_slash path in
  if Py.truthy p then String.append "//" p else EmptyString.

(** [s.split("/")]. *)
Fixpoint split_slash (s : string) : list string :=
  match s with
  | EmptyString => [EmptyString]
  | String c s' =>
      if bool_decide (c = "/"%char) then EmptyString :: split_slash s'
      else match split_slash s' with
           | x :: l => String c x :: l
           | [] => [String c EmptyString]
           end
  end.

(** [s[2:]]. *)
Definition drop2 (s : string) : string :=
  match s with
  | String _ (String _ s') => s'
  | _ => EmptyString
  end.

Definition get_parent_path (path : string) : string :=
  let normalized := normalize_path path in
  if negb (Py.truthy normalized) || bool_decide (normalized = "//") then EmptyString
  else
    let parts := split_slash (drop2 normalized) in
    if (length parts <=? 1)%nat then EmptyString
    else String.append "//" (join "/" (removelast parts)).

(** [path.split("/")[-1]]. *)
Definition last_component (path : string) : string :=
  List.last (split_slash path) EmptyString.

Definition is_document_or_empty (path : string) : bool :=
  bool_decide (path = "//Document") || bool_decide (path = "").

(** A new dictionary takes the next free position of the store. *)
Definition alloc (d : dict) (st : state) : state * nat :=
  (mkState (st_store st ++ [d]) (header_context st) (path_to_node st),
   length (st_store st)).

(** [parent.setdefault("children", []).append(node)]. *)
Definition append_child (parent child : nat) (st : state) : state :=
  mkState
    (alter (fun d => mkDict (d_name d) (d_text d) (d_path d)
                            (d_children d ++ [child]))
           parent (st_store st))
    (header_context st) (path_to_node st).

Definition set_path (path : string) (n : nat) (st : state) : state :=
  mkState (st_store st) (header_context st) (<[path := n]> (path_to_node st)).

Definition levels (st : state) : list nat := elements (dom (header_context st)).

(** [header_context[max(header_context.keys())]]; level 0 is always there
    and holds the root at first. *)
Definition current_header (root : nat) (st : state) : nat :=
  default root (header_context st !! max_list (levels st)).

Section Builder.

(** The tests made on a path with regular expressions. *)
Variable get_header_level : string -> option nat.
Variable is_top_level_table : string -> bool.
Variable is_inline_content : string -> bool.
Variable is_table_or_complex_structure : string -> bool.

(** [ensure_path_exists]; every call passes a shorter path to the next, and
    [fuel] counts the calls that may still be made. *)
Fixpoint ensure_path_exists (fuel : nat) (root : nat) (target_path : string)
         (st : state) : state * nat :=
  let normalized := normalize_path target_path in
  if is_document_or_empty normalized then (st, root)
  else
    match path_to_node st !! normalized with
    | Some n => (st, n)
    | None =>
        let parent_path := get_parent_path normalized in
        let '(st1, parent_node) :=
          if is_document_or_empty parent_path then (st, current_header root st)
          else
            match fuel with
            | S fuel' => ensure_path_exists fuel' root parent_path st
            | O => (st, root)
            end in
        let '(st2, new_node) :=
          alloc (mkDict (last_component normalized) (Some EmptyString)
                        (Some normalized) [])
                st1 in
        (append_child parent_node new_node (set_path normalized new_node st2),
         new_node)
    end.

Definition ensure_parent (root : nat) (path : string) (st : state) : state * nat :=
  let parent_path := get_parent_path path in
  ensure_path_exists (String.length parent_path) root parent_path st.

(** A heading: it goes under the nearest heading of a lower level, takes its
    level in [header_context], and the deeper levels are forgotten. *)
Definition place_header (level node : nat) (root : nat) (st : state) : state :=
  let parent_level :=
    max_list (List.filter (fun lvl => (lvl <? level)%nat) (levels st)) in
  let parent := default root (header_context st !! parent_level) in
  let st1 := append_child parent node st in
  mkState (st_store st1)
          (filter (fun kv : nat * nat => kv.1 <= level)
                  (<[level := node]> (header_context st1)))
          (path_to_node st1).

(** The body of [for elem in elements]. *)
Definition add_element (root : nat) (st : state) (elem : element) : state :=
  let path := normalize_path (e_path elem) in
  let name := if Py.truthy path then last_component path else EmptyString in
  if bool_decide (name = "Document") && bool_decide (path = "//Document") then st
  else
    let '(st1, node) :=
      alloc (mkDict name (Some (e_text elem)) (Some path) []) st in
    let st2 := set_path path node st1 in
    match get_header_level path with
    | Some level => place_header level node root st2
    | None =>
        if is_top_level_table path
        then append_child (current_header root st2) node st2
        else if is_inline_content path || is_table_or_complex_structure path
        then let '(st3, parent) := ensure_parent root path st2 in
             append_child parent node st3
        else append_child (current_header root st2) node st2
    end.

(** [parse_hierarchy] run in a store that holds [s] already: the store it
    leaves and the position of the root it returns. *)
Definition parse_hierarchy (s : store) (elements : list element) : store * nat :=
  let root := length s in
  let st0 :=
    mkState (s ++ [mkDict "Document Root" None None []])
            {[ O := root ]}
            (<["//Document" := root]> {[ EmptyString := root ]}) in
  (st_store (fold_left (add_element root) elements st0), root).

End Builder.

(** The tree that hangs from a position of the store, down to a depth;
    what lies deeper, or a position the store does not hold, is [Cut]. *)
#[local] Unset Elimination Schemes.
Inductive tree : Type :=
| Tree (name : string) (text path : option string) (children : list tree)
| Cut.
#[local] Set Elimination Schemes.

Fixpoint unfold (depth : nat) (s : store) (position : nat) : tree :=
  match depth with
  | O => Cut
  | S depth' =>
      match s !! position with
      | Some d =>
          Tree (d_name d) (d_text d) (d_path d)
               (map (unfold depth' s) (d_children d))
      | None => Cut
      end
  end.

(** The number of nodes of a tree. *)
Fixpoint tree_size (t : tree) : nat :=
  match t with
  | Tree _ _ _ children => S (list_sum (map tree_size children))
  | Cut => O
  end.

End Hierarchy.

(** ** The tests the hierarchy builder makes on a path ([json_struct_protocol.py])

    Each test is a regular expression that is read here from the end of the
    path: [$] holds at the end of the text and before a line feed that ends
    it, and none of the expressions can end on a line feed. *)

Module PathTests.

Definition is_digit (c : ascii) : bool :=
  let n := nat_of_ascii c in (48 <=? n)%nat && (n <=? 57)%nat.

(** [int] of a text made of digits. *)
Definition int_of_digits (ds : list ascii) : nat :=
  fold_left (fun v c => (10 * v + (nat_of_ascii c - 48))%nat) ds O.

Fixpoint span (f : ascii -> bool) (l : list ascii) : list ascii * list ascii :=
  match l with
  | c :: l' =>
      if f c then let '(p, r) := span f l' in (c :: p, r) else ([], l)
  | [] => ([], [])
  end.

(** The characters of the text before the place where [$] holds, last
    character first. *)
Definition before_end (s : string) : list ascii :=
  match rev (Py.chars s) with
  | c :: r => if bool_decide (c = ascii_of_nat 10) then r else c :: r
  | [] => []
  end.

(** [l] read backwards starts with [s] read backwards. *)
Fixpoint ends_in (l : list ascii) (rs : list ascii) : bool :=
  match rs, l with
  | [], _ => true
  | c :: rs', d :: l' => bool_decide (c = d) && ends_in l' rs'
  | _ :: _, [] => false
  end.

Definition ends_with (l : list ascii) (s : string) : bool :=
  ends_in l (rev (Py.chars s)).

(** [(\[\d+\])?] read backwards: the text left when an index in brackets is
    taken off; [None] when the text ends with a bracket that closes no
    index. *)
Definition without_index (r : list ascii) : option (list ascii) :=
  match r with
  | c :: r1 =>
      if bool_decide (c = "]"%char) then
        match span is_digit r1 with
        | (_ :: _, d :: r2) => if bool_decide (d = "["%char) then Some r2 else None
        | _ => None
        end
      else Some r
  | [] => Some r
  end.

(** [/H(\d+)] read backwards, with the number of the first group. *)
Definition header_number (r : list ascii) : option nat :=
  match span is_digit r with
  | (d :: ds, h :: slash :: _) =>
      if bool_decide (h = "H"%char) && bool_decide (slash = "/"%char)
      then Some (int_of_digits (rev (d :: ds))) else None
  | _ => None
  end.

Definition get_header_level (path : string) : option nat :=
  let normalized := Hierarchy.normalize_path path in
  if ends_with (rev (Py.chars normalized)) "/Title" then Some O
  else
    match without_index (before_end normalized) with
    | Some r => header_number r
    | None => None
    end.

Definition is_table_or_complex_structure (path : string) : bool :=
  existsb (fun part => Py.contains path (String.append "/" part))
          ["TR"; "TD"; "TH"; "LBody"; "LI"; "Lbl"; "Caption"; "Footnote"; "Aside"].

Definition is_inline_content (path : string) : bool :=
  existsb (fun part => ends_with (before_end path) (String.append "/" part))
          ["Span"; "Sub"; "StyleSpan"; "ExtraCharSpan"].

Definition is_top_level_table (path : string) : bool :=
  match without_index (before_end (Hierarchy.normalize_path path)) with
  | Some r => bool_decide (r = rev (Py.chars "//Document/Table"))
  | None => false
  end.

(** [parse_hierarchy(elements)] as the module runs it: a new root, and the
    tests above. *)
Definition parse_hierarchy (elements : list Hierarchy.element)
  : Hierarchy.store * nat :=
  Hierarchy.parse_hierarchy get_header_level is_top_level_table
    is_inline_content is_table_or_complex_structure [] elements.

End PathTests.

(** ** What is read off the tree the hierarchy builder returns *)

Module TreeView.
Import Hierarchy.

(** The name, text and path of every node of a tree, parents first. *)
Fixpoint labels (t : tree) : list (string * option string * option string) :=
  match t with
  | Tree name text path children => (name, text, path) :: flat_map labels children
  | Cut => []
  end.

(** A tree that has been unfolded down to its leaves holds no [Cut]. *)
Fixpoint complete (t : tree) : bool :=
  match t with
  | Tree _ _ _ children => forallb complete children
  | Cut => false
  end.

(** The positions of the store met when the tree is unfolded from position
    [p], parents first: a dictionary listed as a child twice, or under two
    parents, is met twice. *)
Fixpoint positions (depth : nat) (s : store) (p : nat) : list nat :=
  match depth with
  | O => []
  | S depth' =>
      match s !! p with
      | Some d => p :: flat_map (positions depth' s) (d_children d)
      | None => []
      end
  end.

(** The element makes a node: the loop skips the [Document] element. *)
Definition kept (elem : element) : bool :=
  let path := normalize_path (e_path elem) in
  let name := if Py.truthy path then last_component path else EmptyString in
  negb (bool_decide (name = "Document") && bool_decide (path = "//Document")).

(** The name, text and path of the node made for an element. *)
Definition label_of (elem : element) : string * option string * option string :=
  let path := normalize_path (e_path elem) in
  (if Py.truthy path then last_component path else EmptyString,
   Some (e_text elem), Some path).

Definition label_of_tree (t : tree)
  : list (string * option string * option string) :=
  match t with
  | Tree name text path _ => [(name, text, path)]
  | Cut => []
  end.

(** The pairs of a node and one of its children, each given by its name,
    text and path. *)
Fixpoint edges (t : tree)
  : list ((string * option string * option string)
          * (string * option string * option string)) :=
  match t with
  | Tree name text path children =>
      flat_map (fun c => map (pair (name, text, path)) (label_of_tree c) ++ edges c)
               children
  | Cut => []
  end.

Definition root_label : string * option string * option string :=
  ("Document Root", None, None).

Section Headings.
Variable get_header_level : string -> option nat.

(** The level of the heading an element makes, if it makes one. *)
Definition heading_level (elem : element) : option nat :=
  if kept elem then get_header_level (normalize_path (e_path elem)) else None.

Definition below (bound : option nat) (level : nat) : bool :=
  match bound with
  | Some b => (level <? b)%nat
  | None => true
  end.

(** The last heading among the elements whose level is below the bound
    (any level when there is no bound). *)
Definition last_heading (bound : option nat) (elements : list element)
  : option element :=
  fold_left
    (fun found elem =>
       match heading_level elem with
       | Some level => if below bound level then Some elem else found
       | None => found
       end)
    elements None.

(** The name, text and path of that heading, or of the root when there is
    none. *)
Definition label_above (bound : option nat) (elements : list element)
  : string * option string * option string :=
  match last_heading bound elements with
  | Some h => label_of h
  | None => root_label
  end.

End Headings.

End TreeView.

(** ** The order of the forms in the matrix ([common_matrix.py]) *)

Module MatrixOrder.
Import CommonMatrix.

(** [form_order_map.get(x, {'index': 9999})['index']]: the value of the
    [SortIndex] column for a form label. *)
Definition sort_index (form_order_map : gmap string (nat * string))
           (form_label : string) : nat :=
  match form_order_map !! form_label with
  | Some (index, _) => index
  | None => unmapped_index
  end.

(** [str.split(separator)] for a separator that is not empty: [skip]
    counts the characters of a separator just met that are still to be
    passed over. *)
Fixpoint split_from (separator : string) (skip : nat) (s : string) : list string :=
  match s with
  | EmptyString => [EmptyString]
  | String c s' =>
      match skip with
      | S k => split_from separator k s'
      | O =>
          if Py.startswith s separator
          then EmptyString :: split_from separator (String.length separator - 1) s'
          else match split_from separator O s' with
               | x :: l => String c x :: l
               | [] => [String c EmptyString]
               end
      end
  end.

(** [str.split(separator)]; an empty separator raises [ValueError]. *)
Definition split (separator s : string) : outcome (list string) :=
  if Py.truthy separator then Returned (split_from separator O s)
  else Raised "empty separator".

(** [visits_list] of a row: [visits] is the text of the row's cell, [None]
    when the cell is missing ([pd.notna] fails). *)
Definition visits_list (separator : string) (strip_whitespace : bool)
           (visits : option string) : outcome (list string) :=
  match visits with
  | None => Returned []
  | Some visits_str =>
      match split separator visits_str with
      | Returned parts =>
          Returned
            (if strip_whitespace
             then List.filter Py.truthy (map Py.strip parts)
             else List.filter Py.truthy parts)
      | Raised e => Raised e
      end
  end.

(** A cell of a visit column: a number, or the empty text. *)
Inductive mark := Number (n : nat) | Blank.

(** The loop [for idx, row in matrix_df.iterrows()] for one visit: the
    state is [counter] and the cells written so far, from the top. *)
Definition number_row (visit : string) (state : nat * list mark)
           (row_visits : list string) : nat * list mark :=
  if bool_decide (visit ∈ row_visits)
  then (S state.1, state.2 ++ [Number state.1])
  else (state.1, state.2 ++ [Blank]).

Definition number_column (visit : string) (rows : list (list string)) : list mark :=
  (fold_left (number_row visit) rows (1%nat, [])).2.

End MatrixOrder.

(** ** Cell references of the sheet writer ([generate_ptd.py]) *)

Module SheetWriter.

(** The loop [while n:] of [_col_to_letter]; [result] is the list the loop
    appends to.  [n] gets smaller in every round, so [fuel = n] rounds are
    enough. *)
Fixpoint col_letters (fuel n : nat) (result : list ascii) : list ascii :=
  match n with
  | O => result
  | S m =>
      match fuel with
      | O => result
      | S fuel' =>
          col_letters fuel' (m / 26)
                      (result ++ [ascii_of_nat (65 + m mod 26)])
      end
  end.

(** [_col_to_letter(n)]: [''.join(reversed(result))]. *)
Definition _col_to_letter (n : nat) : string :=
  string_of_list_ascii (rev (col_letters n n [])).

(** [f'{_col_to_letter(col_idx)}{row_idx}']. *)
Definition cell_ref (col_idx row_idx : nat) : string :=
  String.append (_col_to_letter col_idx) (str_of_nat row_idx).

End SheetWriter.

(** ** Event names of the schedule grid ([schedule_layout.py]) *)

Module ScheduleLayout.

(** [s] without the prefix [literal], when it starts with it. *)
Fixpoint after_literal (literal s : string) : option string :=
  match literal, s with
  | EmptyString, _ => Some s
  | String c literal', String d s' =>
      if ascii_dec c d then after_literal literal' s' else None
  | String _ _, EmptyString => None
  end.

(** A match at the start of [s] of [\b literal \s*? (\d+) \b] (of
    [\b literal (\d+) \b] when [blanks] is off), the word boundary before
    it being granted: the text matched and the digits of the group. *)
Definition match_here (literal : string) (blanks : bool) (s : string)
  : option (string * string) :=
  match after_literal literal s with
  | Some r =>
      let '(white, r1) :=
        if blanks then SoaParser.span Py.is_space r else (EmptyString, r) in
      let '(digits, r2) := SoaParser.span SoaParser.is_digit r1 in
      if Py.truthy digits then
        let found := (String.append literal (String.append white digits), digits) in
        match r2 with
        | String d _ => if SoaParser.is_word d then None else Some found
        | EmptyString => Some found
        end
      else None
  | None => None
  end.

(** [re.search]: the leftmost match; [prev_word] tells whether the
    character before is a word character. *)
Fixpoint search (literal : string) (blanks : bool) (prev_word : bool) (s : string)
  : option (string * string) :=
  match (if prev_word then None else match_here literal blanks s) with
  | Some m => Some m
  | None =>
      match s with
      | EmptyString => None
      | String c s' => search literal blanks (SoaParser.is_word c) s'
      end
  end.

(** The part [event_name_mapping] of the configuration; the two formats are
    [visit_pattern.format(number=...)] and [phone_pattern.format(number=...)]. *)
Record event_mapping := mkMapping {
  screening : string;
  random : string;
  rtsm : string;
  visit_format : string -> string;
  phone_format : string -> string
}.

(** The values [event_mapping.get] falls back to. *)
Definition default_mapping : event_mapping :=
  mkMapping "SCRN" "RAND" "RTSM" (String.append "V") (String.append "P").

Definition make_event_name (mapping : event_mapping) (group label : string)
           (idx : nat) : string :=
  let g := Py.lower (Py.strip group) in
  let s := Py.lower (Py.strip label) in
  if Py.contains g "screen" then screening mapping
  else if Py.contains g "random" then random mapping
  else if Py.contains g "rtsm" then rtsm mapping
  else
    let m :=
      match search "V" true false s with
      | Some m => Some m
      | None =>
          match search "Visit" true false s with
          | Some m => Some m
          | None => search "P" false false s
          end
      end in
    match m with
    | Some (found, number) =>
        if Py.contains found "P" then phone_format mapping number
        else visit_format mapping number
    | None => String.append "V" (str_of_nat (idx + 1))
    end.

End ScheduleLayout.

(** ** The nodes of a document *)

Module Subtree.

(** A node and all the nodes below it, in document order. *)
Fixpoint nodes (n : node) : list node :=
  match n with
  | Node _ _ _ children => n :: flat_map nodes children
  end.

End Subtree.

(** * Part II: properties *)

(** ** The loops of the matcher stay inside their ranges and end *)

Module DifflibFacts.
Import Difflib.

Section MatcherFacts.
Variables a b : list ascii.

Definition in_box (alo ahi blo bhi : nat) (x : best) : Prop :=
  alo <= x.1.1 /\ x.1.1 + x.2 <= ahi /\ blo <= x.1.2 /\ x.1.2 + x.2 <= bhi.

(** What is known of the run lengths recorded before row [i]. *)
Definition row_ok (alo blo bhi i : nat) (m : gmap nat nat) : Prop :=
  forall j k, m !! j = Some k -> k + alo <= i /\ k + blo <= j + 1 /\ j < bhi.

Lemma row_ok_empty alo blo bhi i : row_ok alo blo bhi i ∅.
Proof. intros j k H. rewrite lookup_empty in H. discriminate. Qed.

Lemma scan_row_ok alo ahi blo bhi i j2len js new bst :
  alo <= i -> i < ahi ->
  row_ok alo blo bhi i j2len ->
  row_ok alo blo bhi (S i) new ->
  in_box alo ahi blo bhi bst ->
  row_ok alo blo bhi (S i) (scan_row i blo bhi j2len js new bst).1 /\
  in_box alo ahi blo bhi (scan_row i blo bhi j2len js new bst).2.
Proof.
  intros Hi Hhi Hold. revert new bst.
  induction js as [|j js IH]; intros new bst Hnew Hbox; simpl; [auto|].
  destruct (Nat.ltb_spec j blo) as [Hlt|Hge]; [apply IH; assumption|].
  destruct (Nat.leb_spec bhi j) as [Hout|Hin]; [simpl; auto|].
  set (prev := match j with O => O | S j' => default O (j2len !! j') end).
  assert (Hprev : prev + 1 + alo <= S i /\ prev + 1 + blo <= j + 1).
  { subst prev. destruct j as [|j']; [lia|].
    destruct (j2len !! j') as [k'|] eqn:E; simpl; [|lia].
    destruct (Hold _ _ E) as (? & ? & ?). lia. }
  apply IH.
  - intros j0 k0 H0. destruct (decide (j0 = j)) as [->|Hne].
    + rewrite lookup_insert_eq in H0. inversion H0; subst k0. lia.
    + rewrite lookup_insert_ne in H0 by congruence. eauto.
  - destruct (Nat.ltb_spec (bestsize bst) (prev + 1)); [|assumption].
    unfold in_box; simpl. lia.
Qed.

Lemma scan_rows_ok alo ahi blo bhi n : forall s j2len bst,
  alo <= s -> s + n <= ahi ->
  row_ok alo blo bhi s j2len ->
  in_box alo ahi blo bhi bst ->
  in_box alo ahi blo bhi (scan_rows a b blo bhi (seq s n) j2len bst).
Proof.
  induction n as [|n IH]; intros s j2len bst Hs Hn Hrow Hbox; simpl; [assumption|].
  match goal with |- context [scan_row ?i ?l ?h ?m ?js ?e ?x] =>
    pose proof (scan_row_ok alo ahi blo bhi i m js e x) as Hr;
    destruct (scan_row i l h m js e x) as [new bst'] end.
  destruct Hr as [Hr1 Hr2]; try assumption; try lia.
  { apply row_ok_empty. }
  apply IH; simpl in *; try assumption; lia.
Qed.

Lemma extend_left_ok junk alo ahi blo bhi : forall besti bestj size,
  in_box alo ahi blo bhi (besti, bestj, size) ->
  in_box alo ahi blo bhi (extend_left a b junk alo blo besti bestj size).
Proof.
  induction besti as [|i IH]; intros bestj size Hbox; simpl; [assumption|].
  destruct bestj as [|j]; [assumption|].
  destruct (Nat.ltb_spec alo (S i)); simpl; [|assumption].
  destruct (Nat.ltb_spec blo (S j)); simpl; [|assumption].
  destruct (Bool.eqb _ junk && same_at a b i j); [|assumption].
  apply IH. unfold in_box in *; simpl in *. lia.
Qed.

Lemma extend_right_ok junk alo ahi blo bhi besti bestj : forall n size,
  in_box alo ahi blo bhi (besti, bestj, size) ->
  in_box alo ahi blo bhi
    (besti, bestj, extend_right a b junk n ahi bhi besti bestj size).
Proof.
  induction n as [|n IH]; intros size Hbox; simpl; [assumption|].
  destruct (Nat.ltb_spec (besti + size) ahi); simpl; [|assumption].
  destruct (Nat.ltb_spec (bestj + size) bhi); simpl; [|assumption].
  destruct (Bool.eqb _ junk && same_at a b _ _); [|assumption].
  apply IH. unfold in_box in *; simpl in *. lia.
Qed.

(** The block returned lies inside the two ranges searched. *)
Lemma find_longest_match_in_range alo ahi blo bhi :
  alo <= ahi -> blo <= bhi ->
  let x := find_longest_match a b alo ahi blo bhi in
  alo <= m_a x /\ m_a x + m_size x <= ahi /\
  blo <= m_b x /\ m_b x + m_size x <= bhi.
Proof.
  intros Ha Hb. unfold find_longest_match.
  pose proof (scan_rows_ok alo ahi blo bhi (ahi - alo) alo ∅ (alo, blo, O)) as H0.
  destruct (scan_rows a b blo bhi (seq alo (ahi - alo)) ∅ (alo, blo, O))
    as [[i0 j0] k0].
  assert (Hb0 : in_box alo ahi blo bhi (i0, j0, k0)).
  { apply H0; try lia; [apply row_ok_empty|unfold in_box; simpl; lia]. }
  pose proof (extend_left_ok false alo ahi blo bhi i0 j0 k0 Hb0) as H1.
  destruct (extend_left a b false alo blo i0 j0 k0) as [[i1 j1] k1].
  pose proof (extend_right_ok false alo ahi blo bhi i1 j1 (ahi - (i1 + k1)) k1 H1) as H2.
  set (k2 := extend_right a b false (ahi - (i1 + k1)) ahi bhi i1 j1 k1) in *.
  pose proof (extend_left_ok true alo ahi blo bhi i1 j1 k2 H2) as H3.
  destruct (extend_left a b true alo blo i1 j1 k2) as [[i3 j3] k3].
  pose proof (extend_right_ok true alo ahi blo bhi i3 j3 (ahi - (i3 + k3)) k3 H3) as H4.
  exact H4.
Qed.

(** The work left in a queue: a range of [n] elements of [a] costs at most
    [2 * n + 1] rounds. *)
Definition range_ok (r : range) : Prop :=
  r.1.1.1 <= r.1.1.2 /\ r.1.2 <= r.2.
Definition range_cost (r : range) : nat := 2 * (r.1.1.2 - r.1.1.1) + 1.
Definition queue_cost (q : list range) : nat :=
  foldr (fun r n => range_cost r + n) O q.

Lemma queue_cost_cons r q : queue_cost (r :: q) = range_cost r + queue_cost q.
Proof. reflexivity. Qed.

Lemma blocks_loop_total fuel : forall queue acc,
  Forall range_ok queue -> queue_cost queue <= fuel ->
  is_Some (blocks_loop a b fuel queue acc).
Proof.
  induction fuel as [|fuel IH]; intros queue acc Hok Hcost.
  - destruct queue as [|[[[alo ahi] blo] bhi] rest]; simpl; [eauto|].
    rewrite queue_cost_cons in Hcost. unfold range_cost in Hcost. lia.
  - destruct queue as [|[[[alo ahi] blo] bhi] rest]; simpl; [eauto|].
    inversion Hok as [|? ? [Ha Hb] Hrest]; subst; cbn [fst snd] in Ha, Hb.
    rewrite queue_cost_cons in Hcost. unfold range_cost in Hcost.
    cbn [fst snd] in Hcost.
    pose proof (find_longest_match_in_range alo ahi blo bhi Ha Hb) as Hx.
    cbv zeta in Hx. destruct (find_longest_match a b alo ahi blo bhi) as [i j k].
    cbn [m_a m_b m_size] in *. destruct (Nat.eqb_spec k 0) as [->|Hk].
    + apply IH; [assumption|lia].
    + destruct (Nat.ltb_spec alo i), (Nat.ltb_spec blo j),
        (Nat.ltb_spec (i + k) ahi), (Nat.ltb_spec (j + k) bhi);
      cbn [andb];
      (apply IH;
       [repeat (constructor; [split; cbn [fst snd]; lia|]); assumption
       |rewrite ?queue_cost_cons; unfold range_cost; cbn [fst snd]; lia]).
Qed.

(** [get_matching_blocks] always returns. *)
Lemma get_matching_blocks_total : is_Some (get_matching_blocks a b).
Proof.
  unfold get_matching_blocks.
  destruct (blocks_loop_total (blocks_fuel a) [(O, length a, O, length b)] [])
    as [raw Hraw].
  - repeat constructor; simpl; lia.
  - rewrite queue_cost_cons. unfold range_cost, blocks_fuel; simpl. lia.
  - rewrite Hraw. simpl. eauto.
Qed.

Lemma matches_app l1 l2 : matches (l1 ++ l2) = matches l1 + matches l2.
Proof.
  induction l1 as [|x l1 IH]; simpl; [reflexivity|]. rewrite IH. lia.
Qed.

Lemma matches_insert_sorted x l : matches (insert_sorted x l) = m_size x + matches l.
Proof.
  induction l as [|y l IH]; simpl; [reflexivity|].
  destruct (match_leb x y); simpl; [reflexivity|]. rewrite IH. lia.
Qed.

Lemma matches_sort_blocks l : matches (sort_blocks l) = matches l.
Proof.
  induction l as [|x l IH]; simpl; [reflexivity|].
  rewrite matches_insert_sorted, IH. reflexivity.
Qed.

Lemma matches_collapse l : forall cur,
  matches (collapse cur l) = m_size cur + matches l.
Proof.
  induction l as [|x l IH]; intros cur; simpl.
  - destruct (Nat.eqb_spec (m_size cur) 0) as [E|E]; simpl; lia.
  - destruct (_ && _).
    + rewrite IH. simpl. lia.
    + rewrite matches_app, IH.
      destruct (Nat.eqb_spec (m_size cur) 0) as [E|E]; simpl; lia.
Qed.

(** Room left in a queue, counted in elements of [a] and of [b]. *)
Definition room_a (q : list range) : nat :=
  foldr (fun r n => (r.1.1.2 - r.1.1.1) + n) O q.
Definition room_b (q : list range) : nat :=
  foldr (fun r n => (r.2 - r.1.2) + n) O q.

Lemma room_a_cons r q : room_a (r :: q) = (r.1.1.2 - r.1.1.1) + room_a q.
Proof. reflexivity. Qed.

Lemma room_b_cons r q : room_b (r :: q) = (r.2 - r.1.2) + room_b q.
Proof. reflexivity. Qed.

Lemma blocks_loop_matches fuel : forall queue acc raw,
  Forall range_ok queue ->
  blocks_loop a b fuel queue acc = Some raw ->
  matches raw <= matches acc + room_a queue /\
  matches raw <= matches acc + room_b queue.
Proof.
  induction fuel as [|fuel IH]; intros queue acc raw Hok Hrun;
    destruct queue as [|[[[alo ahi] blo] bhi] rest]; simpl in Hrun;
    try discriminate; try (inversion Hrun; subst; simpl; lia).
  inversion Hok as [|? ? [Ha Hb] Hrest]; subst; cbn [fst snd] in Ha, Hb.
  pose proof (find_longest_match_in_range alo ahi blo bhi Ha Hb) as Hx.
  cbv zeta in Hx. destruct (find_longest_match a b alo ahi blo bhi) as [i j k].
  cbn [m_a m_b m_size] in *. rewrite room_a_cons, room_b_cons. cbn [fst snd].
  destruct k as [|k']; cbn [Nat.eqb] in Hrun.
  - destruct (IH _ _ _ Hrest Hrun). lia.
  - destruct (Nat.ltb_spec alo i), (Nat.ltb_spec blo j),
      (Nat.ltb_spec (i + S k') ahi), (Nat.ltb_spec (j + S k') bhi);
    cbn [andb] in Hrun;
    (apply IH in Hrun;
     [rewrite matches_app, ?room_a_cons, ?room_b_cons in Hrun;
      cbn [fst snd matches foldr m_size] in Hrun; lia
     |repeat (constructor; [split; cbn [fst snd]; lia|]); assumption]).
Qed.

(** The matched length never exceeds the length of either sequence. *)
Lemma get_matching_blocks_matches blocks :
  get_matching_blocks a b = Some blocks ->
  matches blocks <= length a /\ matches blocks <= length b.
Proof.
  unfold get_matching_blocks. intros H.
  destruct (blocks_loop a b (blocks_fuel a) [(O, length a, O, length b)] [])
    as [raw|] eqn:E; simpl in H; [|discriminate].
  inversion H; subst blocks; clear H.
  apply blocks_loop_matches in E.
  2:{ repeat constructor; simpl; lia. }
  rewrite matches_app, matches_collapse, matches_sort_blocks.
  rewrite room_a_cons, room_b_cons in E. simpl in *. lia.
Qed.

Lemma ratio_opt_total : is_Some (ratio_opt a b).
Proof.
  unfold ratio_opt. destruct get_matching_blocks_total as [bl ->]. simpl. eauto.
Qed.
Lemma Zpos_of_nat n : n <> O -> Z.pos (Pos.of_nat n) = Z.of_nat n.
Proof.
  intros Hn. rewrite <- positive_nat_Z, Nat2Pos.id by exact Hn. reflexivity.
Qed.

Lemma calculate_ratio_range m len :
  2 * m <= len -> (0 <= calculate_ratio m len <= 1)%Q.
Proof.
  intros H. unfold calculate_ratio.
  destruct (Nat.eqb_spec len 0) as [E|E].
  - split; discriminate.
  - unfold Qle; simpl. rewrite Zpos_of_nat by exact E. split; lia.
Qed.

(** The ratio is a number between 0 and 1. *)
Lemma ratio_range : (0 <= ratio a b <= 1)%Q.
Proof.
  unfold ratio, ratio_opt.
  destruct (get_matching_blocks a b) as [blocks|] eqn:E; simpl.
  - destruct (get_matching_blocks_matches _ E).
    apply calculate_ratio_range. lia.
  - split; discriminate.
Qed.
End MatcherFacts.

(** Against the empty sequence nothing is matched, on either side. *)
Lemma ratio_nil_r a : ratio a [] = calculate_ratio 0 (length a).
Proof.
  unfold ratio, ratio_opt.
  destruct (get_matching_blocks_total a []) as [blocks E]. rewrite E. simpl.
  destruct (get_matching_blocks_matches _ _ _ E) as [_ H]. simpl in H.
  replace (matches blocks) with O by lia. rewrite Nat.add_0_r. reflexivity.
Qed.

Lemma ratio_nil_l b : ratio [] b = calculate_ratio 0 (length b).
Proof.
  unfold ratio, ratio_opt.
  destruct (get_matching_blocks_total [] b) as [blocks E]. rewrite E. simpl.
  destruct (get_matching_blocks_matches _ _ _ E) as [H _]. simpl in H.
  replace (matches blocks) with O by lia. reflexivity.
Qed.

End DifflibFacts.

Lemma enumerate_app {A : Type} (l1 l2 : list A) : forall start,
  enumerate start (l1 ++ l2)
  = enumerate start l1 ++ enumerate (start + length l1) l2.
Proof.
  induction l1 as [|x l1 IH]; intros start; simpl.
  - f_equal. lia.
  - rewrite IH, Nat.add_succ_comm. reflexivity.
Qed.

Lemma enumerate_snd {A : Type} (l : list A) : forall start i x,
  In (i, x) (enumerate start l) -> In x l.
Proof.
  induction l as [|y l IH]; intros start i x; simpl; [tauto|].
  intros [H|H]; [inversion H; auto|eauto].
Qed.


(** ** The best-match loop of the reconciler *)

Module CommonMatrixFacts.
Import CommonMatrix.

Section BestMatchFacts.
Variable score : string -> string -> Q.
Variable threshold : Q.

Local Abbreviation best_match_from := (best_match_from score threshold).
Local Abbreviation best_match := (best_match score threshold).
Local Abbreviation step := (step score threshold).

(** Procedures that do not reach the threshold, or do not beat the best
    score so far, leave the state alone. *)
Lemma best_match_from_skip form_label st : forall procs start,
  (forall q, In q procs ->
     (score q form_label < threshold \/ score q form_label <= best_score st)%Q) ->
  best_match_from start procs form_label st = st.
Proof.
  unfold best_match_from.
  induction procs as [|q procs IH]; intros start H; simpl; [reflexivity|].
  assert (Hq : step form_label st (start, q) = st).
  { unfold step; simpl. destruct (H q (or_introl eq_refl)) as [Hlt|Hle].
    - destruct (Qle_bool threshold (score q form_label)) eqn:E; [|reflexivity].
      apply Qle_bool_iff in E. exfalso. exact (Qlt_not_le _ _ Hlt E).
    - unfold Qlt_bool. apply Qle_bool_iff in Hle. rewrite Hle.
      rewrite andb_false_r. reflexivity. }
  rewrite Hq. apply IH. intros q' Hq'. apply H. right. exact Hq'.
Qed.

Lemma best_match_below form_label procs :
  (forall q, In q procs -> (score q form_label < threshold)%Q) ->
  best_match procs form_label = init_state.
Proof.
  intros H. apply best_match_from_skip. intros q Hq. left. auto.
Qed.

Lemma best_match_first_at_threshold form_label procs idx p :
  (0 < threshold)%Q ->
  procs !! idx = Some p ->
  (score p form_label == threshold)%Q ->
  (forall q, In q procs -> (score q form_label <= threshold)%Q) ->
  (forall i q, i < idx -> procs !! i = Some q ->
               (score q form_label < threshold)%Q) ->
  best_match procs form_label = mkBest (score p form_label) idx (Some p).
Proof.
  intros Hpos Hlook Heq Hmax Hfirst.
  destruct (list_elem_of_split_length procs idx p Hlook) as (l1 & l2 & -> & Hlen).
  unfold best_match, best_match_from.
  rewrite enumerate_app, fold_left_app. simpl.
  fold (best_match_from 0 l1 form_label init_state).
  rewrite best_match_from_skip.
  2:{ intros q Hq. left. apply list_elem_of_In, list_elem_of_lookup in Hq.
      destruct Hq as [i Hi]. apply (Hfirst i q).
      - apply lookup_lt_Some in Hi. lia.
      - rewrite lookup_app_l; [exact Hi|]. apply lookup_lt_Some in Hi. exact Hi. }
  assert (Hstep : step form_label init_state (length l1, p)
                  = mkBest (score p form_label) idx (Some p)).
  { unfold step; simpl. unfold Qlt_bool.
    assert (E1 : Qle_bool threshold (score p form_label) = true).
    { apply Qle_bool_iff. rewrite Heq. apply Qle_refl. }
    assert (E2 : Qle_bool (score p form_label) 0 = false).
    { destruct (Qle_bool (score p form_label) 0) eqn:E; [|reflexivity].
      apply Qle_bool_iff in E. rewrite Heq in E.
      exfalso. exact (Qlt_not_le _ _ Hpos E). }
    rewrite E1, E2. simpl. rewrite Hlen. reflexivity. }
  rewrite Hstep.
  fold (best_match_from (S (0 + length l1)) l2 form_label
          (mkBest (score p form_label) idx (Some p))).
  apply best_match_from_skip. intros q Hq. right. simpl.
  rewrite Heq. apply Hmax. apply in_or_app. right. right. exact Hq.
Qed.
End BestMatchFacts.

End CommonMatrixFacts.

(** ** Induction on document nodes and loop invariants *)

Lemma node_ind (P : node -> Prop) :
  (forall name text path children,
      Forall P children -> P (Node name text path children)) ->
  forall n, P n.
Proof.
  intros H. fix IH 1. intros [name text path children]. apply H.
  induction children as [|c children IHc]; constructor; [apply IH|exact IHc].
Qed.

(** A property kept by every round of a loop holds when the loop ends. *)
Lemma fold_left_invariant {A B : Type} (f : A -> B -> A) (I : A -> Prop)
      (l : list B) :
  Forall (fun b => forall a, I a -> I (f a b)) l ->
  forall a, I a -> I (fold_left f l a).
Proof.
  induction 1 as [|b l Hb _ IH]; intros a Ha; simpl; [exact Ha|].
  apply IH, Hb, Ha.
Qed.

Lemma filter_nothing {A : Type} (f : A -> bool) (l : list A) :
  (forall x, In x l -> f x = false) -> List.filter f l = [].
Proof.
  induction l as [|x l IH]; simpl; intros H; [reflexivity|].
  rewrite (H x (or_introl eq_refl)). apply IH. intros y Hy. apply H. right. exact Hy.
Qed.

(** ** [str.strip] *)

Module PyFacts.
Import Py.

Lemma rstrip_idempotent s : rstrip (rstrip s) = rstrip s.
Proof.
  induction s as [|c s IH]; simpl; [reflexivity|].
  destruct (rstrip s) as [|d r] eqn:E.
  - destruct (is_space c) eqn:Ec; simpl; [reflexivity|]. rewrite Ec. reflexivity.
  - simpl in IH. simpl. destruct (rstrip r) as [|d' r'] eqn:E'.
    + destruct (is_space d); [discriminate|]. rewrite IH. reflexivity.
    + rewrite IH. reflexivity.
Qed.

Lemma lstrip_head s :
  lstrip s = EmptyString \/
  exists c r, lstrip s = String c r /\ is_space c = false.
Proof.
  induction s as [|c s IH]; simpl; [left; reflexivity|].
  destruct (is_space c) eqn:E; [exact IH|]. right. eauto.
Qed.

Lemma strip_idempotent s : strip (strip s) = strip s.
Proof.
  unfold strip. destruct (lstrip_head s) as [->|(c & r & -> & Hc)]; [reflexivity|].
  assert (H : exists r', rstrip (String c r) = String c r').
  { simpl. destruct (rstrip r); [rewrite Hc|]; eauto. }
  destruct H as [r' Hr']. rewrite Hr' at 1. simpl lstrip. rewrite Hc.
  rewrite <- Hr'. apply rstrip_idempotent.
Qed.

Lemma truthy_nonempty s : truthy s = true <-> s <> EmptyString.
Proof. destruct s; simpl; split; congruence. Qed.

End PyFacts.

(** ** Forms and items of the study-specific-forms module *)

Module StudyFormsFacts.
Import StudyForms.

Definition form_key (f : form) : string * string := (form_label f, form_name f).
Definition item_key (it : item) : string * string := (item_name it, item_group it).

(** What the loops keep true of [results] and [seen_forms]. *)
Definition forms_inv (s : forms_state) : Prop :=
  NoDup (map form_key s.1) /\ forall k, k ∈ s.2 <-> In k (map form_key s.1).

Lemma forms_inv_init : forms_inv ([], ∅).
Proof.
  split; [constructor|]. intros k. simpl. split; [|tauto].
  intros H. apply not_elem_of_empty in H. exact H.
Qed.

Lemma forms_inv_add s f :
  forms_inv s -> form_key f ∉ s.2 ->
  forms_inv (s.1 ++ [f], {[ form_key f ]} ∪ s.2).
Proof.
  intros [Hnd Hseen] Hnew. split; simpl.
  - rewrite map_app. simpl. apply NoDup_app. split; [exact Hnd|]. split.
    + intros k Hk Hk'. apply list_elem_of_In in Hk.
      apply list_elem_of_singleton in Hk'. subst k.
      apply Hnew, Hseen, Hk.
    + apply NoDup_singleton.
  - intros k. rewrite map_app, in_app_iff, elem_of_union, elem_of_singleton.
    rewrite Hseen. simpl. intuition congruence.
Qed.

Section ExtractionFacts.
Variable is_valid_form_name : string -> bool.
Variable is_valid_form_label : string -> bool.

Lemma find_forms_in_node_inv h1_text h1_node n : forall current_label s,
  forms_inv s ->
  forms_inv (find_forms_in_node is_valid_form_name is_valid_form_label
               h1_text h1_node n current_label s).
Proof.
  induction n as [name text path children IH] using node_ind.
  intros current_label s Hs. cbn [find_forms_in_node].
  match goal with |- forms_inv (fold_left ?f children ?s0) =>
    apply (fold_left_invariant f forms_inv) end.
  - eapply Forall_impl; [exact IH|]. intros c Hc a Ha. apply Hc, Ha.
  - destruct (is_valid_form_name _); [|exact Hs].
    case_bool_decide as Hin; [exact Hs|].
    match goal with |- forms_inv (_ ++ [?f], _) =>
      apply (forms_inv_add s f) end; assumption.
Qed.

Lemma find_h1_sections_inv n : forall s,
  forms_inv s ->
  forms_inv (find_h1_sections is_valid_form_name is_valid_form_label n s).
Proof.
  induction n as [name text path children IH] using node_ind.
  intros s Hs. cbn [find_h1_sections].
  match goal with |- forms_inv (fold_left ?f children ?s0) =>
    apply (fold_left_invariant f forms_inv) end.
  - eapply Forall_impl; [exact IH|]. intros c Hc a Ha. apply Hc, Ha.
  - destruct (Py.startswith name "H1"); [|exact Hs].
    apply find_forms_in_node_inv, Hs.
Qed.

Lemma extract_forms_cleaned_NoDup data :
  NoDup (map form_key
             (extract_forms_cleaned is_valid_form_name is_valid_form_label data)).
Proof.
  unfold extract_forms_cleaned.
  apply (find_h1_sections_inv data ([], ∅) forms_inv_init).
Qed.

End ExtractionFacts.

(** The last loop of the item extractor. *)
Definition items_inv (s : list item * gset (string * string)) : Prop :=
  NoDup (map item_key s.1) /\ forall k, k ∈ s.2 <-> In k (map item_key s.1).

Lemma dedup_items_NoDup items : NoDup (map item_key (dedup_items items)).
Proof.
  unfold dedup_items.
  match goal with |- NoDup (map _ (fold_left ?f _ ?s0).1) =>
    enough (H : items_inv (fold_left f items s0)) by apply H;
    apply (fold_left_invariant f items_inv) end.
  - apply Forall_forall. intros it _ s [Hnd Hseen].
    case_bool_decide as Hin; [split; assumption|]. split; simpl.
    + rewrite map_app. simpl. apply NoDup_app. split; [exact Hnd|]. split.
      * intros k Hk Hk'. apply list_elem_of_In in Hk.
        apply list_elem_of_singleton in Hk'. subst k. apply Hin, Hseen, Hk.
      * apply NoDup_singleton.
    + intros k. rewrite map_app, in_app_iff, elem_of_union, elem_of_singleton.
      rewrite Hseen. simpl. unfold item_key. intuition congruence.
  - split; [constructor|]. intros k. simpl. split; [|tauto].
    intros H. apply not_elem_of_empty in H. exact H.
Qed.

(** *** Item groups *)

Lemma get_text_stripped n : Py.strip (get_text n) = get_text n.
Proof.
  induction n as [name text path children IH] using node_ind. cbn [get_text].
  destruct (Py.truthy (Py.strip text)); [apply PyFacts.strip_idempotent|].
  induction IH as [|c children Hc _ IHc]; [reflexivity|].
  destruct (Py.truthy (get_text c)); [exact Hc|exact IHc].
Qed.

Definition stripped_group (it : item) : Prop :=
  Py.strip (item_group it) = item_group it.

Lemma dedup_items_Forall (P : item -> Prop) items :
  Forall P items -> Forall P (dedup_items items).
Proof.
  intros H. unfold dedup_items.
  match goal with |- Forall P (fold_left ?f _ ?s0).1 =>
    apply (fold_left_invariant f (fun s => Forall P s.1)) end.
  - eapply Forall_impl; [exact H|]. intros it Hit s Hs. simpl.
    case_bool_decide; [exact Hs|]. simpl. apply Forall_app. split; [exact Hs|].
    constructor; [exact Hit|constructor].
  - constructor.
Qed.

Section ItemFacts.
Variable is_valid_form_label : string -> bool.
Variable is_metadata_table : node -> bool.
Variable is_instruction : string -> bool.
Variable is_valid_option_content : node -> bool.

Local Abbreviation items_data :=
  (items_data is_valid_form_label is_metadata_table is_instruction
     is_valid_option_content).
Local Abbreviation process_row :=
  (process_row is_valid_form_label is_instruction is_valid_option_content).

(** The running group is a text returned by [get_text], or still empty. *)
Definition groups_inv (s : string * list item) : Prop :=
  Py.strip s.1 = s.1 /\ Forall stripped_group s.2.

Lemma two_column_cells_group group cells : forall prev,
  Forall (fun it => item_group it = group)
         (two_column_cells is_instruction is_valid_option_content group prev cells).
Proof.
  induction cells as [|cell rest IH]; intros prev; simpl; [constructor|].
  apply Forall_app. split; [|apply IH].
  unfold two_column_cell. destruct (has_option_child _ _); [|constructor].
  destruct (if Py.truthy _ then _ else _); [|constructor].
  destruct (is_instruction _); constructor; [reflexivity|constructor].
Qed.

Lemma three_column_row_group group q o :
  Forall (fun it => item_group it = group)
         (three_column_row is_instruction is_valid_option_content group q o).
Proof.
  unfold three_column_row. destruct (paragraph_text q); [|constructor].
  destruct (_ || _); [constructor|].
  destruct (is_instruction _); [constructor|].
  destruct (negb _); constructor; [reflexivity|constructor].
Qed.

Lemma process_row_inv tr s : groups_inv s -> groups_inv (process_row tr s).
Proof.
  intros [Hg Hitems]. unfold StudyForms.process_row.
  set (cells := List.filter _ _).
  assert (Hsame : forall l, Forall (fun it => item_group it = s.1) l ->
                            groups_inv (s.1, s.2 ++ l)).
  { intros l Hl. split; [exact Hg|]. simpl. apply Forall_app. split; [exact Hitems|].
    eapply Forall_impl; [exact Hl|]. intros it E. unfold stripped_group.
    rewrite E. exact Hg. }
  destruct (match cells with [c] => _ | _ => None end) as [t|] eqn:Eh.
  - split; [|exact Hitems]. simpl.
    destruct cells as [|c [|? ?]]; try discriminate.
    destruct (_ && _); [|discriminate]. inversion Eh. apply get_text_stripped.
  - destruct cells as [|c0 [|c1 [|c2 [|c3 rest]]]].
    + split; assumption.
    + apply Hsame, two_column_cells_group.
    + apply Hsame, two_column_cells_group.
    + apply Hsame, three_column_row_group.
    + apply Hsame, two_column_cells_group.
Qed.

Lemma items_data_stripped form_node : Forall stripped_group (items_data form_node).
Proof.
  unfold StudyForms.items_data.
  match goal with |- Forall _ (fold_left ?f ?l ?s0).2 =>
    enough (H : groups_inv (fold_left f l s0)) by apply H;
    apply (fold_left_invariant f groups_inv) end.
  - apply Forall_forall. intros table _ s Hs. unfold process_table.
    destruct (is_metadata_table table); [exact Hs|].
    match goal with |- groups_inv (fold_left ?f ?l ?s0) =>
      apply (fold_left_invariant f groups_inv) end; [|exact Hs].
    apply Forall_forall. intros tr _ s' Hs'. apply process_row_inv, Hs'.
  - split; [reflexivity|constructor].
Qed.

Lemma items_of_form_stripped f :
  Forall stripped_group
    (items_of_form is_valid_form_label is_metadata_table is_instruction
       is_valid_option_content f).
Proof.
  unfold items_of_form.
  pose proof (dedup_items_Forall stripped_group _
                (items_data_stripped (form_node f))) as H.
  unfold StudyForms.extract_items_from_form.
  destruct (dedup_items _); [|exact H].
  constructor; [reflexivity|constructor].
Qed.

End ItemFacts.

(** How many items of the list carry the group [g]. *)
Definition carried_by (g : string) (items : list item) : nat :=
  length (List.filter (fun it => bool_decide (item_group it = g)) items).

Definition occurrences (g : string) (l : list string) : nat :=
  length (List.filter (fun x => bool_decide (x = g)) l).

(** A [Counter] holds the number of occurrences of what occurs. *)
Lemma counter_from_lookup g l : forall m : gmap string nat,
  fold_left (fun m x => <[x := S (default O (m !! x))]> m) l m !! g
  = match occurrences g l with
    | O => m !! g
    | S n => Some (S n + default O (m !! g))
    end.
Proof.
  unfold occurrences.
  induction l as [|x l IH]; intros m; simpl; [reflexivity|].
  rewrite IH. case_bool_decide as E; simpl.
  - subst x. rewrite lookup_insert_eq. simpl.
    destruct (length _); f_equal; lia.
  - rewrite lookup_insert_ne by exact E. reflexivity.
Qed.

Lemma counter_lookup g l :
  counter l !! g = match occurrences g l with O => None | S n => Some (S n) end.
Proof.
  unfold counter. rewrite counter_from_lookup, lookup_empty. simpl.
  destruct (occurrences g l); [reflexivity|]. f_equal. lia.
Qed.

Lemma occurrences_counted_groups g items :
  Forall stripped_group items -> g <> "" -> g <> "NaN" ->
  occurrences g (counted_groups items) = carried_by g items.
Proof.
  intros Hs Hg Hn. unfold occurrences, counted_groups, carried_by.
  assert (Hvalid : Py.truthy g && negb (bool_decide (g = "NaN")) = true).
  { rewrite bool_decide_eq_false_2 by exact Hn.
    destruct g; [congruence|reflexivity]. }
  induction Hs as [|it items Hit _ IH]; simpl; [reflexivity|].
  rewrite Hit. destruct (decide (item_group it = g)) as [E|E].
  - rewrite (bool_decide_eq_true_2 _ E), E, Hvalid. simpl.
    rewrite bool_decide_eq_true_2 by reflexivity. simpl. rewrite IH. reflexivity.
  - rewrite (bool_decide_eq_false_2 _ E).
    destruct (Py.truthy (item_group it) && negb (bool_decide (item_group it = "NaN")));
      simpl; [rewrite bool_decide_eq_false_2 by exact E|]; exact IH.
Qed.

Lemma item_group_counts_lookup g items :
  Forall stripped_group items -> g <> "" -> g <> "NaN" ->
  item_group_counts items !! g
  = match carried_by g items with O => None | S n => Some (S n) end.
Proof.
  intros Hs Hg Hn. unfold item_group_counts.
  rewrite counter_lookup, occurrences_counted_groups by assumption. reflexivity.
Qed.

Lemma repeating_groups_spec g items :
  g ∈ repeating_groups items <->
  exists n, item_group_counts items !! g = Some n /\ 1 < n.
Proof.
  unfold repeating_groups. rewrite elem_of_dom. unfold is_Some.
  setoid_rewrite map_lookup_filter_Some. simpl. reflexivity.
Qed.

(** *** Rows *)

Section RowFacts.
Variable is_valid_form_name : string -> bool.
Variable is_valid_form_label : string -> bool.
Variable is_metadata_table : node -> bool.
Variable is_instruction : string -> bool.
Variable is_valid_option_content : node -> bool.
Variable lbody_values_of : node -> string.
Variable data_type_of : node -> string -> string.
Variable field_length_of : string -> string.
Variable precision_of : string -> string.
Variable number_range_of : string -> string.

Local Abbreviation rows_of_form :=
  (rows_of_form is_valid_form_label is_metadata_table is_instruction
     is_valid_option_content lbody_values_of data_type_of field_length_of
     precision_of number_range_of).
Local Abbreviation extract_items_from_form :=
  (extract_items_from_form is_valid_form_label is_metadata_table
     is_instruction is_valid_option_content).

Definition row_key (r : item_row) : string * string :=
  (row_form_label r, row_form_name r).

Lemma rows_of_form_key streamed f r :
  In r (rows_of_form streamed f) -> row_key r = form_key f.
Proof.
  unfold StudyForms.rows_of_form. intros H. apply in_map_iff in H.
  destruct H as (oi & <- & _). reflexivity.
Qed.

(** The rows of one form, picked out of the rows of all the forms. *)
Lemma rows_of_one_form streamed (forms : list form) f :
  NoDup (map form_key forms) -> In f forms ->
  List.filter (fun r => bool_decide (row_key r = form_key f))
              (flat_map (rows_of_form streamed) forms)
  = rows_of_form streamed f.
Proof.
  assert (Hall : forall g, form_key g = form_key f ->
            List.filter (fun r => bool_decide (row_key r = form_key f))
                        (rows_of_form streamed g) = rows_of_form streamed g).
  { intros g Hg. apply forallb_filter_id. apply forallb_forall. intros r Hr.
    apply bool_decide_eq_true. rewrite (rows_of_form_key _ _ _ Hr). exact Hg. }
  assert (Hnone : forall g, form_key g <> form_key f ->
            List.filter (fun r => bool_decide (row_key r = form_key f))
                        (rows_of_form streamed g) = []).
  { intros g Hg. apply filter_nothing. intros r Hr.
    apply bool_decide_eq_false. rewrite (rows_of_form_key _ _ _ Hr). exact Hg. }
  induction forms as [|g forms IH]; simpl; [tauto|].
  intros Hnd Hin. apply NoDup_cons in Hnd. destruct Hnd as [Hg Hnd].
  rewrite List.filter_app. destruct Hin as [->|Hin].
  - rewrite Hall by reflexivity.
    assert (Hrest : List.filter (fun r => bool_decide (row_key r = form_key f))
                      (flat_map (rows_of_form streamed) forms) = []).
    { clear IH Hnd. induction forms as [|h forms IH]; simpl; [reflexivity|].
      rewrite List.filter_app, IH.
      - rewrite app_nil_r. apply Hnone. intros E. apply Hg. rewrite <- E.
        simpl. left.
      - intros H. apply Hg. simpl. right. exact H. }
    rewrite Hrest, app_nil_r. reflexivity.
  - rewrite (IH Hnd Hin). rewrite Hnone; [reflexivity|].
    intros E. apply Hg. rewrite E. apply list_elem_of_In, in_map, Hin.
Qed.

End RowFacts.

End StudyFormsFacts.

(** ** Forms of the form extractor *)

Module FormExtractorFacts.
Import FormExtractor.

Definition row_key (r : form_row) : string * string * string :=
  (fr_label r, fr_name r, fr_visits r).

(** What the walk keeps true of [results] and [seen_forms]. *)
Definition rows_inv (s : forms_state) : Prop :=
  NoDup (map row_key s.1) /\ forall k, k ∈ s.2 <-> In k (map row_key s.1).

Lemma rows_inv_init : rows_inv ([], ∅).
Proof.
  split; [constructor|]. intros k. simpl. split; [|tauto].
  intros H. apply not_elem_of_empty in H. exact H.
Qed.

Lemma rows_inv_add s r :
  rows_inv s -> row_key r ∉ s.2 ->
  rows_inv (s.1 ++ [r], {[ row_key r ]} ∪ s.2).
Proof.
  intros [Hnd Hseen] Hnew. split; simpl.
  - rewrite map_app. simpl. apply NoDup_app. split; [exact Hnd|]. split.
    + intros k Hk Hk'. apply list_elem_of_In in Hk.
      apply list_elem_of_singleton in Hk'. subst k.
      apply Hnew, Hseen, Hk.
    + apply NoDup_singleton.
  - intros k. rewrite map_app, in_app_iff, elem_of_union, elem_of_singleton.
    rewrite Hseen. simpl. intuition congruence.
Qed.

Section ExtractorFacts.
Variable is_valid_form_label : string -> bool.
Variable is_valid_form_name : string -> bool.
Variable ignored : string -> bool.
Variable extract_visit_strings : string -> gset string.
Variable extract_trigger_info : string -> option string.
Variable determine_form_source : string -> string -> string -> string -> string.
Variable extract_document_context : node -> string.
Variable required_mappings : node -> gset string.
Variable first_of_set : gset string -> string.

Local Abbreviation find_forms_in_node :=
  (find_forms_in_node is_valid_form_label is_valid_form_name ignored
     extract_visit_strings extract_trigger_info determine_form_source
     extract_document_context first_of_set).

Lemma find_forms_rows_inv sc n : forall current_label s,
  rows_inv s -> rows_inv (find_forms_in_node sc n current_label s).
Proof.
  induction n as [name text path children IH] using node_ind.
  intros current_label s Hs. cbn [FormExtractor.find_forms_in_node].
  set (label' := if _ && _ && _ then _ else current_label).
  assert (Hwalk : forall s0, rows_inv s0 ->
            rows_inv (fold_left (fun s1 c => find_forms_in_node sc c label' s1)
                                 children s0)).
  { intros s0 Hs0.
    apply (fold_left_invariant _ rows_inv); [|exact Hs0].
    eapply Forall_impl; [exact IH|]. intros c Hc a Ha. apply Hc, Ha. }
  destruct (is_valid_form_name _); [|apply Hwalk, Hs].
  destruct (ignored _); [exact Hs|].
  apply Hwalk. case_bool_decide as Hin; [exact Hs|].
  match goal with |- rows_inv (_ ++ [?r], _) =>
    apply (rows_inv_add s r) end; assumption.
Qed.

Lemma extract_forms_with_corrections_NoDup data :
  NoDup (map row_key
           (extract_forms_with_corrections is_valid_form_label
              is_valid_form_name ignored extract_visit_strings
              extract_trigger_info determine_form_source
              extract_document_context required_mappings first_of_set data)).
Proof.
  unfold extract_forms_with_corrections.
  match goal with |- NoDup (map _ (fold_left ?f ?l ?s0).1) =>
    enough (H : rows_inv (fold_left f l s0)) by apply H;
    apply (fold_left_invariant f rows_inv) end.
  - apply Forall_forall. intros h1 _ s Hs. apply find_forms_rows_inv, Hs.
  - apply rows_inv_init.
Qed.

End ExtractorFacts.

End FormExtractorFacts.

(** ** The header loop of the schedule parser *)

Module SoaParserFacts.
Import SoaParser.

Lemma str_of_nat_injective n m : str_of_nat n = str_of_nat m -> n = m.
Proof.
  unfold str_of_nat. intros H. apply Unsigned.to_uint_inj.
  assert (E : Some (Nat.to_uint n) = Some (Nat.to_uint m)).
  { rewrite <- !NilEmpty.usu. rewrite H. reflexivity. }
  congruence.
Qed.

Lemma append_injective s a b : String.append s a = String.append s b -> a = b.
Proof.
  induction s as [|c s IH]; simpl; intros H; [exact H|].
  apply IH. injection H as H. exact H.
Qed.

Lemma append_not_self s c a : String.append s (String c a) <> s.
Proof.
  intros H. assert (L : String.length (String.append s (String c a))
                        = String.length s) by (rewrite H; reflexivity).
  clear H. induction s as [|d s IH]; simpl in L; [discriminate|].
  apply IH. injection L as L. exact L.
Qed.

Lemma suffixed_injective v n m : suffixed v n = suffixed v m -> n = m.
Proof.
  unfold suffixed. intros H. apply append_injective in H. simpl in H.
  apply str_of_nat_injective. injection H as H. exact H.
Qed.

Lemma suffixed_not_original v n : suffixed v n <> v.
Proof. unfold suffixed. simpl. apply append_not_self. Qed.

Lemma size_pos_of_elem (T : gset string) x : x ∈ T -> size T <> 0.
Proof.
  intros Hin. apply size_non_empty_iff. intros E. set_solver.
Qed.

(** The loop that looks for a free name ends on a name that is not in
    [seen_visits], having tried the candidates in order. *)
Lemma disambiguate_spec seen original : forall fuel (T : gset string) cur c,
  size T <= fuel ->
  (cur ∈ seen -> cur ∈ T) ->
  (forall k, c <= k -> suffixed original k ∈ seen -> suffixed original k ∈ T) ->
  (forall k, c <= k -> cur <> suffixed original k) ->
  let r := disambiguate fuel original cur c seen in
  (r ∉ seen) /\ (r = cur \/ exists k, c <= k /\ r = suffixed original k)
  /\ (cur ∈ seen -> r <> cur).
Proof.
  induction fuel as [|fuel IH]; intros T cur c Hsize Hcur Hcand Hne; simpl.
  - case_bool_decide as Hin.
    + exfalso. apply Hcur, size_pos_of_elem in Hin. lia.
    + split; [exact Hin|]. split; [left; reflexivity|]. intros H. contradiction.
  - case_bool_decide as Hin.
    + destruct (IH (T ∖ {[ cur ]}) (suffixed original c) (S c)) as (Hr1 & Hr2 & Hr3).
      * assert (Hsz : size T = S (size (T ∖ {[ cur ]}))).
        { rewrite (size_difference T {[ cur ]}).
          - rewrite size_singleton.
            assert (size T <> 0) by apply (size_pos_of_elem T cur), Hcur, Hin.
            lia.
          - apply singleton_subseteq_l. apply Hcur, Hin. }
        lia.
      * intros H. apply elem_of_difference. split; [apply Hcand; [lia|exact H]|].
        intros E. apply elem_of_singleton in E. apply (Hne c); [lia|]. congruence.
      * intros k Hk H. apply elem_of_difference. split; [apply Hcand; [lia|exact H]|].
        intros E. apply elem_of_singleton in E. apply (Hne k); [lia|]. congruence.
      * intros k Hk E. apply suffixed_injective in E. lia.
      * split; [exact Hr1|]. split.
        -- right. destruct Hr2 as [->|(k & Hk & ->)]; [exists c|exists k]; split;
             try reflexivity; lia.
        -- intros _ E. destruct Hr2 as [Hr2|(k & Hk & Hr2)];
             rewrite Hr2 in E; symmetry in E; apply Hne in E; [exact E|lia|exact E|lia].
    + split; [exact Hin|]. split; [left; reflexivity|]. intros H. contradiction.
Qed.

(** The name given to a detected identifier [v]: new, equal to [v] when [v]
    is new, and [v] with a numeric suffix otherwise. *)
Lemma disambiguate_fresh (seen : gset string) v :
  let r := disambiguate (S (size seen)) v v 1 seen in
  (r ∉ seen) /\
  (r = v \/ exists k, 1 <= k /\ r = suffixed v k) /\
  (v ∈ seen -> exists k, 1 <= k /\ r = suffixed v k) /\
  (v ∉ seen -> r = v).
Proof.
  destruct (disambiguate_spec seen v (S (size seen)) seen v 1) as (H1 & H2 & H3).
  - lia.
  - tauto.
  - tauto.
  - intros k _ E. symmetry in E. exact (suffixed_not_original _ _ E).
  - split; [exact H1|]. split; [exact H2|]. split.
    + intros Hin. destruct H2 as [E|H2]; [|exact H2]. exfalso. exact (H3 Hin E).
    + intros Hout. simpl. rewrite bool_decide_eq_false_2 by exact Hout. reflexivity.
Qed.

(** How the visit list relates to the identifiers detected in the header
    row, column by column. *)
Inductive renaming : list string -> list string -> Prop :=
| renaming_nil : renaming [] []
| renaming_snoc ids outs v out :
    renaming ids outs ->
    (out = v \/ exists k, 1 <= k /\ out = suffixed v k) ->
    (In v ids -> exists k, 1 <= k /\ out = suffixed v k) ->
    renaming (ids ++ [v]) (outs ++ [out]).

Section ParserFacts.
Variable extract_complete_visit_identifier : string -> option string.

Local Abbreviation visit_identifier :=
  (visit_identifier extract_complete_visit_identifier).
Local Abbreviation add_column := (add_column extract_complete_visit_identifier).

(** What the header loop keeps true once the cells yielding [ids] are
    done. *)
Definition columns_inv (ids : list string) (cols : columns) : Prop :=
  renaming ids (visit_order cols) /\
  NoDup (visit_order cols) /\
  (forall x, x ∈ seen_visits cols <-> In x (visit_order cols)) /\
  (forall v, In v ids -> v ∈ seen_visits cols) /\
  map snd (column_to_visit cols) = visit_order cols.

Lemma add_column_inv ids cols i cell :
  columns_inv ids cols ->
  columns_inv (ids ++ omap visit_identifier [cell]) (add_column cols (i, cell)).
Proof.
  intros (Hren & Hnd & Hseen & Hids & Hmap).
  unfold SoaParser.add_column. simpl omap. cbn [fst snd].
  destruct (visit_identifier cell) as [v|].
  2:{ rewrite app_nil_r. repeat split; try assumption; apply Hseen. }
  destruct (disambiguate_fresh (seen_visits cols) v)
    as (Hfresh & Hshape & Hdup & Hnew).
  set (r := disambiguate _ v v 1 _) in *.
  repeat split; cbn [visit_order seen_visits column_to_visit].
  - apply renaming_snoc; [exact Hren|exact Hshape|].
    intros Hin. apply Hdup, Hids, Hin.
  - apply NoDup_app. split; [exact Hnd|]. split; [|apply NoDup_singleton].
    intros x Hx Hx'. apply list_elem_of_singleton in Hx'. subst x.
    apply Hfresh, Hseen, list_elem_of_In, Hx.
  - rewrite elem_of_union, elem_of_singleton, in_app_iff, Hseen. simpl. intuition.
  - rewrite elem_of_union, elem_of_singleton, in_app_iff, Hseen. simpl. intuition.
  - intros x Hx. apply in_app_iff in Hx. apply elem_of_union.
    destruct Hx as [Hx|[<-|[]]].
    + right. apply Hids, Hx.
    + destruct (decide (v ∈ seen_visits cols)) as [Hv|Hv]; [right; exact Hv|].
      left. apply elem_of_singleton. symmetry. apply Hnew, Hv.
  - rewrite map_app, Hmap. reflexivity.
Qed.

Lemma build_columns_from_inv row : forall start ids cols,
  columns_inv ids cols ->
  columns_inv (ids ++ omap visit_identifier row)
              (fold_left add_column (enumerate start row) cols).
Proof.
  induction row as [|cell row IH]; intros start ids cols Hinv; simpl.
  - rewrite app_nil_r. exact Hinv.
  - pose proof (add_column_inv ids cols start cell Hinv) as H1.
    apply (IH (S start)) in H1. simpl in H1.
    destruct (visit_identifier cell) as [v|]; simpl in *.
    + rewrite <- app_assoc in H1. exact H1.
    + rewrite app_nil_r in H1. exact H1.
Qed.

Lemma build_columns_inv row :
  columns_inv (omap visit_identifier row)
              (build_columns extract_complete_visit_identifier row).
Proof.
  apply (build_columns_from_inv row 0 [] no_columns).
  repeat split; simpl; try constructor; try tauto.
  - intros H. apply not_elem_of_empty in H. exact H.
Qed.

End ParserFacts.

End SoaParserFacts.

(** ** The hierarchy builder in a store that is not empty *)

Module HierarchyFacts.
Import Hierarchy.

Definition shift (n i : nat) : nat := n + i.

Definition shift_dict (n : nat) (d : dict) : dict :=
  mkDict (d_name d) (d_text d) (d_path d) (map (shift n) (d_children d)).

(** The state of a run started in the store [pre], seen from the state of
    the same run started in the empty store: every position has moved by the
    length of [pre]. *)
Definition lift (pre : store) (st : state) : state :=
  mkState (pre ++ map (shift_dict (length pre)) (st_store st))
          (shift (length pre) <$> header_context st)
          (shift (length pre) <$> path_to_node st).

Lemma alloc_lift pre d st :
  alloc (shift_dict (length pre) d) (lift pre st)
  = (lift pre (alloc d st).1, shift (length pre) (alloc d st).2).
Proof.
  unfold alloc, lift; simpl. f_equal.
  - f_equal. rewrite map_app, <- app_assoc. reflexivity.
  - rewrite length_app, length_map. reflexivity.
Qed.

Lemma append_child_lift pre p c st :
  append_child (shift (length pre) p) (shift (length pre) c) (lift pre st)
  = lift pre (append_child p c st).
Proof.
  unfold append_child, lift, shift; cbn [st_store header_context path_to_node].
  f_equal. rewrite alter_app_r. f_equal.
  change (map (shift_dict (length pre))) with (fmap (M := list) (shift_dict (length pre))).
  symmetry. apply list_fmap_alter. apply Forall_forall. intros d _.
  unfold shift_dict; simpl. rewrite map_app. reflexivity.
Qed.

Lemma set_path_lift pre path i st :
  set_path path (shift (length pre) i) (lift pre st) = lift pre (set_path path i st).
Proof.
  unfold set_path, lift; simpl. f_equal. rewrite fmap_insert. reflexivity.
Qed.

Lemma levels_lift pre st : levels (lift pre st) = levels st.
Proof. unfold levels, lift; simpl. rewrite dom_fmap_L. reflexivity. Qed.

Lemma header_lookup_lift pre st root k :
  default (shift (length pre) root) (header_context (lift pre st) !! k)
  = shift (length pre) (default root (header_context st !! k)).
Proof.
  unfold lift; simpl. rewrite lookup_fmap.
  destruct (header_context st !! k); reflexivity.
Qed.

Lemma current_header_lift pre root st :
  current_header (shift (length pre) root) (lift pre st)
  = shift (length pre) (current_header root st).
Proof.
  unfold current_header. rewrite levels_lift. apply header_lookup_lift.
Qed.

(** *** Paths get shorter on the way to the root *)

Lemma length_append a b :
  String.length (String.append a b) = String.length a + String.length b.
Proof. induction a as [|c a IH]; simpl; [reflexivity|]. rewrite IH. reflexivity. Qed.

Lemma lstrip_slash_length s : String.length (lstrip_slash s) <= String.length s.
Proof.
  induction s as [|c s IH]; simpl; [lia|].
  case_bool_decide; simpl; lia.
Qed.

(** A path that starts with two slashes, as [get_parent_path] returns it. *)
Definition rooted (p : string) : Prop := exists r, p = String.append "//" r.

Lemma normalize_path_rooted p :
  normalize_path p = EmptyString \/ rooted (normalize_path p).
Proof.
  unfold normalize_path. destruct (Py.truthy (lstrip_slash p)); [|left; reflexivity].
  right. eexists. reflexivity.
Qed.

Lemma normalize_path_length p :
  rooted p -> String.length (normalize_path p) <= String.length p.
Proof.
  intros [r ->]. unfold normalize_path.
  assert (E : lstrip_slash (String.append "//" r) = lstrip_slash r).
  { reflexivity. }
  rewrite E. change (String.length (String.append "//" r))
    with (S (S (String.length r))).
  destruct (Py.truthy (lstrip_slash r)).
  - change (String.length (String.append "//" (lstrip_slash r)))
      with (S (S (String.length (lstrip_slash r)))).
    pose proof (lstrip_slash_length r). lia.
  - simpl. lia.
Qed.

Lemma split_slash_nonempty s : split_slash s <> [].
Proof.
  induction s as [|c s IH]; simpl; [discriminate|].
  case_bool_decide; [discriminate|]. destruct (split_slash s); discriminate.
Qed.

Lemma join_split_slash s : join "/" (split_slash s) = s.
Proof.
  induction s as [|c s IH]; simpl; [reflexivity|].
  case_bool_decide as E.
  - subst c. destruct (split_slash s) as [|x l] eqn:El.
    + exfalso. exact (split_slash_nonempty s El).
    + simpl in *. rewrite IH. reflexivity.
  - destruct (split_slash s) as [|x l] eqn:El.
    + exfalso. exact (split_slash_nonempty s El).
    + rewrite <- IH. destruct l; reflexivity.
Qed.

Lemma join_removelast_length (l : list string) :
  2 <= length l ->
  String.length (join "/" (removelast l)) < String.length (join "/" l).
Proof.
  induction l as [|x [|y l] IH]; simpl; try lia. intros _.
  destruct l as [|z l].
  - simpl. rewrite length_append. simpl. lia.
  - assert (H : 2 <= length (y :: z :: l)) by (simpl; lia).
    specialize (IH H).
    change (join "/" (x :: removelast (y :: z :: l)))
      with (String.append x (String.append "/" (join "/" (removelast (y :: z :: l))))).
    change (String.append x (String.append "/" (String.append y
              (String.append "/" (join "/" (z :: l))))))
      with (String.append x (String.append "/" (join "/" (y :: z :: l)))).
    change (removelast (y :: z :: l)) with (y :: removelast (z :: l)) in IH.
    rewrite !length_append. lia.
Qed.

Lemma get_parent_path_rooted p :
  get_parent_path p = EmptyString \/ rooted (get_parent_path p).
Proof.
  unfold get_parent_path. destruct (_ || _); [left; reflexivity|].
  destruct (_ <=? _)%nat; [left; reflexivity|]. right. eexists. reflexivity.
Qed.

(** The parent path is shorter than the normalized path it is taken from. *)
Lemma get_parent_path_length p :
  get_parent_path p <> EmptyString ->
  String.length (get_parent_path p) < String.length (normalize_path p).
Proof.
  unfold get_parent_path. destruct (_ || _); [congruence|].
  destruct (Nat.leb_spec (length (split_slash (drop2 (normalize_path p)))) 1)
    as [|Hlen]; [congruence|]. intros _.
  pose proof (join_removelast_length _ Hlen) as H.
  rewrite join_split_slash in H.
  destruct (normalize_path_rooted p) as [E|[r E]]; rewrite E in *.
  - simpl in *. lia.
  - change (drop2 (String.append "//" r)) with r in *.
    rewrite !length_append. simpl. lia.
Qed.

(** *** Positions stay inside the store *)

(** Every child recorded in the store is a position of the store. *)
Definition closed (s : store) : Prop :=
  Forall (fun d => Forall (fun c => c < length s) (d_children d)) s.

Definition state_ok (root : nat) (st : state) : Prop :=
  closed (st_store st) /\
  root < length (st_store st) /\
  (forall k v, header_context st !! k = Some v -> v < length (st_store st)) /\
  (forall k v, path_to_node st !! k = Some v -> v < length (st_store st)).

Lemma closed_grow s d :
  closed s -> Forall (fun c => c < S (length s)) (d_children d) ->
  closed (s ++ [d]).
Proof.
  intros Hs Hd. unfold closed. rewrite length_app. simpl.
  apply Forall_app. split.
  - eapply Forall_impl; [exact Hs|]. intros d' Hd'.
    eapply Forall_impl; [exact Hd'|]. intros c Hc. simpl in *. lia.
  - constructor; [|constructor].
    eapply Forall_impl; [exact Hd|]. intros c Hc. simpl in *. lia.
Qed.

Lemma alloc_ok root d st :
  state_ok root st -> d_children d = [] ->
  state_ok root (alloc d st).1 /\
  (alloc d st).2 < length (st_store (alloc d st).1).
Proof.
  intros (Hc & Hr & Hh & Hp) Hd. unfold alloc, state_ok; cbn [fst snd st_store
    header_context path_to_node]. rewrite !length_app. cbn [length].
  split; [|lia]. split.
  { pose proof (closed_grow (st_store st) d Hc) as H. rewrite Hd in H.
    apply H. constructor. }
  split; [lia|]. split; intros k v E.
  - apply Hh in E. lia.
  - apply Hp in E. lia.
Qed.

Lemma append_child_ok root p c st :
  state_ok root st -> c < length (st_store st) ->
  state_ok root (append_child p c st).
Proof.
  intros (Hc & Hr & Hh & Hp) Hlt. unfold append_child, state_ok;
    cbn [st_store header_context path_to_node]. rewrite length_alter.
  split; [|auto]. unfold closed. rewrite length_alter.
  apply Forall_alter; [exact Hc|]. intros d _ Hd. simpl.
  apply Forall_app. split; [exact Hd|]. constructor; [exact Hlt|constructor].
Qed.

Lemma set_path_ok root path i st :
  state_ok root st -> i < length (st_store st) ->
  state_ok root (set_path path i st).
Proof.
  intros (Hc & Hr & Hh & Hp) Hlt. unfold set_path, state_ok;
    cbn [st_store header_context path_to_node].
  split; [exact Hc|]. split; [exact Hr|]. split; [exact Hh|].
  intros k v E. apply lookup_insert_Some in E.
  destruct E as [[_ <-]|[_ E]]; [exact Hlt|eapply Hp, E].
Qed.

Lemma header_lookup_ok root st k :
  state_ok root st ->
  default root (header_context st !! k) < length (st_store st).
Proof.
  intros (_ & Hr & Hh & _). destruct (header_context st !! k) eqn:E; simpl;
    [eapply Hh, E|exact Hr].
Qed.

Lemma current_header_ok root st :
  state_ok root st -> current_header root st < length (st_store st).
Proof. apply header_lookup_ok. Qed.

(** What lies at a position of a store put between two others. *)
Lemma unfold_embedded pre t post :
  closed t ->
  forall depth i, i < length t ->
    unfold depth (pre ++ map (shift_dict (length pre)) t ++ post)
           (shift (length pre) i)
    = unfold depth t i.
Proof.
  intros Hc. induction depth as [|depth IH]; intros i Hi; [reflexivity|].
  cbn [unfold]. unfold shift at 1.
  rewrite lookup_app_r by lia.
  replace (length pre + i - length pre) with i by lia.
  rewrite lookup_app_l by (rewrite length_map; exact Hi).
  change (map (shift_dict (length pre)) t) with (shift_dict (length pre) <$> t).
  rewrite list_lookup_fmap.
  destruct (t !! i) as [d|] eqn:E; [|reflexivity]. cbn [fmap option_fmap option_map].
  unfold shift_dict at 1 2 3; cbn [d_name d_text d_path]. f_equal.
  unfold shift_dict; cbn [d_children]. rewrite map_map.
  apply map_ext_in. intros c Hin. apply IH.
  unfold closed in Hc. rewrite Forall_forall in Hc.
  specialize (Hc d (list_elem_of_lookup_2 _ _ _ E)).
  rewrite Forall_forall in Hc. apply Hc, list_elem_of_In, Hin.
Qed.

Section BuilderFacts.
Variable get_header_level : string -> option nat.
Variable is_top_level_table : string -> bool.
Variable is_inline_content : string -> bool.
Variable is_table_or_complex_structure : string -> bool.

Local Abbreviation add_element :=
  (add_element get_header_level is_top_level_table is_inline_content
     is_table_or_complex_structure).
Local Abbreviation parse_hierarchy :=
  (parse_hierarchy get_header_level is_top_level_table is_inline_content
     is_table_or_complex_structure).

Lemma ensure_path_exists_lift pre root : forall fuel target st,
  ensure_path_exists fuel (shift (length pre) root) target (lift pre st)
  = (lift pre (ensure_path_exists fuel root target st).1,
     shift (length pre) (ensure_path_exists fuel root target st).2).
Proof.
  assert (Hstep : forall (target : string) (st : state)
            (rec : state * nat) ,
            let normalized := normalize_path target in
            (let '(st1, parent_node) := (lift pre rec.1, shift (length pre) rec.2) in
             let '(st2, new_node) :=
               alloc (mkDict (last_component normalized) (Some EmptyString)
                             (Some normalized) []) st1 in
             (append_child parent_node new_node (set_path normalized new_node st2),
              new_node))
            = (lift pre
                 (let '(st1, parent_node) := rec in
                  let '(st2, new_node) :=
                    alloc (mkDict (last_component normalized) (Some EmptyString)
                                  (Some normalized) []) st1 in
                  (append_child parent_node new_node
                     (set_path normalized new_node st2), new_node)).1,
               shift (length pre)
                 (let '(st1, parent_node) := rec in
                  let '(st2, new_node) :=
                    alloc (mkDict (last_component normalized) (Some EmptyString)
                                  (Some normalized) []) st1 in
                  (append_child parent_node new_node
                     (set_path normalized new_node st2), new_node)).2)).
  { intros target st [st1 parent] normalized. cbn [fst snd].
    pose proof (alloc_lift pre (mkDict (last_component normalized)
                  (Some EmptyString) (Some normalized) []) st1) as Ha.
    change (shift_dict (length pre) _) with
      (mkDict (last_component normalized) (Some EmptyString) (Some normalized) [])
      in Ha.
    rewrite Ha. destruct (alloc _ st1) as [st2 new_node]. cbn [fst snd].
    rewrite set_path_lift, append_child_lift. reflexivity. }
  induction fuel as [|fuel IH]; intros target st; cbn [ensure_path_exists].
  - destruct (is_document_or_empty (normalize_path target)); [reflexivity|].
    unfold lift at 1; cbn [path_to_node]. rewrite lookup_fmap.
    destruct (path_to_node st !! normalize_path target) as [i|]; [reflexivity|].
    cbn [fmap option_fmap option_map]. fold (lift pre st).
    destruct (is_document_or_empty (get_parent_path (normalize_path target))).
    + rewrite current_header_lift.
      apply (Hstep target st (st, current_header root st)).
    + apply (Hstep target st (st, root)).
  - destruct (is_document_or_empty (normalize_path target)); [reflexivity|].
    unfold lift at 1; cbn [path_to_node]. rewrite lookup_fmap.
    destruct (path_to_node st !! normalize_path target) as [i|]; [reflexivity|].
    cbn [fmap option_fmap option_map]. fold (lift pre st).
    destruct (is_document_or_empty (get_parent_path (normalize_path target))).
    + rewrite current_header_lift.
      apply (Hstep target st (st, current_header root st)).
    + rewrite IH.
      apply (Hstep target st
               (ensure_path_exists fuel root
                  (get_parent_path (normalize_path target)) st)).
Qed.

(** [ensure_path_exists] never uses up its calls: with a path that is empty
    or starts with two slashes, any two amounts at least equal to the length
    of the path give the same result. *)
Lemma ensure_path_exists_fuel root n : forall fuel1 fuel2 target st,
  String.length target <= n -> n <= fuel1 -> n <= fuel2 ->
  target = EmptyString \/ rooted target ->
  ensure_path_exists fuel1 root target st = ensure_path_exists fuel2 root target st.
Proof.
  induction n as [|n IH]; intros fuel1 fuel2 target st Hlen H1 H2 Hshape.
  - destruct target; [|simpl in Hlen; lia].
    destruct fuel1, fuel2; reflexivity.
  - assert (Hnorm : String.length (normalize_path target) <= S n).
    { destruct Hshape as [->|Hr]; [simpl; lia|].
      pose proof (normalize_path_length _ Hr). lia. }
    assert (Hparent : get_parent_path (normalize_path target) <> EmptyString ->
              String.length (get_parent_path (normalize_path target)) <= n).
    { intros Hne. pose proof (get_parent_path_length _ Hne) as Hlt.
      assert (String.length (normalize_path (normalize_path target))
              <= String.length (normalize_path target)).
      { destruct (normalize_path_rooted target) as [E|Hr];
          [rewrite E; simpl; lia|apply normalize_path_length, Hr]. }
      lia. }
    destruct fuel1 as [|fuel1]; [lia|]. destruct fuel2 as [|fuel2]; [lia|].
    cbn [ensure_path_exists].
    destruct (is_document_or_empty (normalize_path target)); [reflexivity|].
    destruct (path_to_node st !! normalize_path target); [reflexivity|].
    destruct (is_document_or_empty (get_parent_path (normalize_path target)))
      eqn:Edoc; [reflexivity|].
    rewrite (IH fuel1 fuel2); [reflexivity| |lia|lia|apply get_parent_path_rooted].
    apply Hparent. intros E. rewrite E in Edoc.
    unfold is_document_or_empty in Edoc. simpl in Edoc. discriminate.
Qed.

(** The amount [ensure_parent] starts with is enough. *)
Lemma ensure_parent_fuel root path st extra :
  ensure_path_exists (String.length (get_parent_path path) + extra) root
    (get_parent_path path) st
  = ensure_parent root path st.
Proof.
  unfold ensure_parent.
  apply (ensure_path_exists_fuel root (String.length (get_parent_path path)));
    [lia|lia|lia|apply get_parent_path_rooted].
Qed.

Lemma ensure_parent_lift pre root path st :
  ensure_parent (shift (length pre) root) path (lift pre st)
  = (lift pre (ensure_parent root path st).1,
     shift (length pre) (ensure_parent root path st).2).
Proof. apply ensure_path_exists_lift. Qed.

Lemma place_header_lift pre level i root st :
  place_header level (shift (length pre) i) (shift (length pre) root) (lift pre st)
  = lift pre (place_header level i root st).
Proof.
  unfold place_header. rewrite levels_lift, header_lookup_lift, append_child_lift.
  unfold lift at 2; cbn [st_store header_context path_to_node].
  unfold lift at 1; cbn [st_store header_context path_to_node]. f_equal.
  rewrite <- fmap_insert, map_filter_fmap. f_equal.
Qed.

Lemma add_element_lift pre root st elem :
  add_element (shift (length pre) root) (lift pre st) elem
  = lift pre (add_element root st elem).
Proof.
  unfold Hierarchy.add_element.
  set (path := normalize_path (e_path elem)).
  set (name := if Py.truthy path then last_component path else EmptyString).
  destruct (bool_decide (name = "Document") && bool_decide (path = "//Document"));
    [reflexivity|].
  pose proof (alloc_lift pre (mkDict name (Some (e_text elem)) (Some path) []) st)
    as Ha.
  change (shift_dict (length pre) _) with
    (mkDict name (Some (e_text elem)) (Some path) []) in Ha.
  rewrite Ha. destruct (alloc _ st) as [st1 i]. cbn [fst snd].
  rewrite set_path_lift.
  destruct (get_header_level path) as [level|]; [apply place_header_lift|].
  destruct (is_top_level_table path).
  { rewrite current_header_lift. apply append_child_lift. }
  destruct (is_inline_content path || is_table_or_complex_structure path).
  - rewrite ensure_parent_lift.
    destruct (ensure_parent root path (set_path path i st1)) as [st3 parent].
    cbn [fst snd]. apply append_child_lift.
  - rewrite current_header_lift. apply append_child_lift.
Qed.

Lemma fold_add_element_lift pre root elements : forall st,
  fold_left (add_element (shift (length pre) root)) elements (lift pre st)
  = lift pre (fold_left (add_element root) elements st).
Proof.
  induction elements as [|elem elements IH]; intros st; simpl; [reflexivity|].
  rewrite add_element_lift. apply IH.
Qed.

(** A run started in the store [pre] leaves [pre] as it is and adds to it
    what the run started in the empty store builds, moved by the length of
    [pre]. *)
Lemma parse_hierarchy_lift pre elements :
  parse_hierarchy pre elements
  = (pre ++ map (shift_dict (length pre)) (parse_hierarchy [] elements).1,
     shift (length pre) (parse_hierarchy [] elements).2).
Proof.
  unfold Hierarchy.parse_hierarchy. cbn [fst snd length app].
  set (st0 := mkState [mkDict "Document Root" None None []] {[ O := O ]}
                      (<["//Document" := O]> {[ EmptyString := O ]})).
  assert (Hinit : mkState (pre ++ [mkDict "Document Root" None None []])
                    {[ O := length pre ]}
                    (<["//Document" := length pre]> {[ EmptyString := length pre ]})
                  = lift pre st0).
  { unfold lift, st0; cbn [st_store header_context path_to_node]. f_equal.
    - rewrite map_fmap_singleton. unfold shift. rewrite Nat.add_0_r. reflexivity.
    - rewrite fmap_insert, map_fmap_singleton. unfold shift.
      rewrite Nat.add_0_r. reflexivity. }
  rewrite Hinit.
  pose proof (fold_add_element_lift pre O elements st0) as Hrun.
  unfold shift in Hrun at 1. rewrite Nat.add_0_r in Hrun. rewrite Hrun.
  unfold shift. rewrite Nat.add_0_r. reflexivity.
Qed.

Lemma ensure_path_exists_ok root : forall fuel target st,
  state_ok root st ->
  state_ok root (ensure_path_exists fuel root target st).1 /\
  (ensure_path_exists fuel root target st).2
  < length (st_store (ensure_path_exists fuel root target st).1).
Proof.
  assert (Hstep : forall (normalized : string) (rec : state * nat),
            state_ok root rec.1 -> rec.2 < length (st_store rec.1) ->
            let r :=
              (let '(st1, parent_node) := rec in
               let '(st2, new_node) :=
                 alloc (mkDict (last_component normalized) (Some EmptyString)
                               (Some normalized) []) st1 in
               (append_child parent_node new_node
                  (set_path normalized new_node st2), new_node)) in
            state_ok root r.1 /\ r.2 < length (st_store r.1)).
  { intros normalized [st1 parent] Hok Hlt. cbn [fst snd] in *.
    destruct (alloc_ok root (mkDict (last_component normalized)
                (Some EmptyString) (Some normalized) []) st1 Hok eq_refl)
      as [Hok2 Hlt2].
    destruct (alloc _ st1) as [st2 new_node]. cbn [fst snd] in *.
    split.
    - apply append_child_ok; [apply set_path_ok; assumption|exact Hlt2].
    - unfold append_child, set_path; cbn [st_store]. rewrite length_alter.
      exact Hlt2. }
  induction fuel as [|fuel IH]; intros target st Hok; cbn [ensure_path_exists];
    (destruct (is_document_or_empty (normalize_path target));
     [split; [exact Hok|apply Hok]|]);
    (destruct (path_to_node st !! normalize_path target) as [i|] eqn:E;
     [split; [exact Hok|]; destruct Hok as (_ & _ & _ & Hp); eapply Hp, E|]);
    destruct (is_document_or_empty (get_parent_path (normalize_path target))).
  - apply (Hstep _ (st, current_header root st)); [exact Hok|].
    apply current_header_ok, Hok.
  - apply (Hstep _ (st, root)); [exact Hok|apply Hok].
  - apply (Hstep _ (st, current_header root st)); [exact Hok|].
    apply current_header_ok, Hok.
  - apply Hstep; apply IH, Hok.
Qed.

Lemma place_header_ok level i root st :
  state_ok root st -> i < length (st_store st) ->
  state_ok root (place_header level i root st).
Proof.
  intros Hok Hlt. unfold place_header.
  set (parent := default root _).
  pose proof (append_child_ok root parent i st Hok Hlt) as (Hc & Hr & Hh & Hp).
  unfold state_ok; cbn [st_store header_context path_to_node].
  split; [exact Hc|]. split; [exact Hr|]. split; [|exact Hp].
  intros k v E. apply map_lookup_filter_Some in E. destruct E as [E _].
  apply lookup_insert_Some in E. destruct E as [[_ <-]|[_ E]].
  - unfold append_child; cbn [st_store]. rewrite length_alter. exact Hlt.
  - eapply Hh, E.
Qed.

Lemma add_element_ok root st elem :
  state_ok root st -> state_ok root (add_element root st elem).
Proof.
  intros Hok. unfold Hierarchy.add_element.
  set (path := normalize_path (e_path elem)).
  set (name := if Py.truthy path then last_component path else EmptyString).
  destruct (bool_decide (name = "Document") && bool_decide (path = "//Document"));
    [exact Hok|].
  destruct (alloc_ok root (mkDict name (Some (e_text elem)) (Some path) []) st
              Hok eq_refl) as [Hok1 Hlt1].
  destruct (alloc _ st) as [st1 i]. cbn [fst snd] in *.
  assert (Hok2 : state_ok root (set_path path i st1))
    by (apply set_path_ok; assumption).
  assert (Hlt2 : i < length (st_store (set_path path i st1))) by exact Hlt1.
  destruct (get_header_level path) as [level|];
    [apply place_header_ok; assumption|].
  destruct (is_top_level_table path); [apply append_child_ok; assumption|].
  destruct (is_inline_content path || is_table_or_complex_structure path);
    [|apply append_child_ok; assumption].
  unfold ensure_parent.
  pose proof (ensure_path_exists_ok root
                (String.length (get_parent_path path)) (get_parent_path path)
                (set_path path i st1) Hok2) as [Hok3 _].
  assert (Hgrow : forall fuel target st',
            length (st_store st')
            <= length (st_store (ensure_path_exists fuel root target st').1)).
  { induction fuel as [|fuel IHf]; intros target st'; cbn [ensure_path_exists];
      (destruct (is_document_or_empty (normalize_path target)); [reflexivity|]);
      (destruct (path_to_node st' !! normalize_path target); [reflexivity|]);
      destruct (is_document_or_empty (get_parent_path (normalize_path target)));
      unfold alloc, append_child, set_path; cbn [fst snd st_store];
      try (rewrite length_alter, length_app; simpl; lia).
    specialize (IHf (get_parent_path (normalize_path target)) st').
    destruct (ensure_path_exists fuel root _ st') as [st1' parent'].
    cbn [fst snd st_store] in *. rewrite length_alter, length_app. simpl. lia. }
  specialize (Hgrow (String.length (get_parent_path path)) (get_parent_path path)
                (set_path path i st1)).
  destruct (ensure_path_exists _ root _ (set_path path i st1)) as [st3 parent].
  cbn [fst snd] in *. apply append_child_ok; [exact Hok3|lia].
Qed.

Lemma parse_hierarchy_closed elements :
  closed (parse_hierarchy [] elements).1 /\
  (parse_hierarchy [] elements).2 < length (parse_hierarchy [] elements).1.
Proof.
  unfold Hierarchy.parse_hierarchy. cbn [fst snd length app].
  match goal with |- closed (st_store (fold_left ?f ?l ?s0)) /\ _ =>
    assert (H : state_ok O (fold_left f l s0)) end.
  { apply (fold_left_invariant _ (state_ok O)).
    - apply Forall_forall. intros elem _ st Hst. apply add_element_ok, Hst.
    - unfold state_ok; cbn [st_store header_context path_to_node length].
      split; [repeat constructor|]. split; [lia|]. split; intros k v E.
      + apply lookup_singleton_Some in E. destruct E as [_ <-]. lia.
      + apply lookup_insert_Some in E. destruct E as [[_ <-]|[_ E]]; [lia|].
        apply lookup_singleton_Some in E. destruct E as [_ <-]. lia. }
  split; apply H.
Qed.

End BuilderFacts.

End HierarchyFacts.

Lemma NoDup_map_injective {A B : Type} (f : A -> B) (l : list A) :
  NoDup (map f l) ->
  forall x y, In x l -> In y l -> f x = f y -> x = y.
Proof.
  induction l as [|a l IH]; simpl; [tauto|].
  intros Hnd x y Hx Hy Hxy. apply NoDup_cons in Hnd. destruct Hnd as [Ha Hnd].
  destruct Hx as [<-|Hx], Hy as [<-|Hy]; [reflexivity| | |apply IH; assumption].
  - exfalso. apply Ha. rewrite Hxy. apply list_elem_of_In, in_map, Hy.
  - exfalso. apply Ha. rewrite <- Hxy. apply list_elem_of_In, in_map, Hx.
Qed.

(** * The claims of the specification *)

Import CommonMatrix.

(** ** C1: no duplicate among the extracted forms and items *)

(** C1: whatever the configured patterns, the forms returned by
    [extract_forms_with_corrections] are pairwise distinct in their
    (Form Label, Form Name, Visits) triple, and the items returned by
    [extract_items_from_form] for a form are pairwise distinct in their
    (Item Name, Item Group) pair. *)
Theorem C1_dedup_invariant
  (is_valid_form_label is_valid_form_name ignored : string -> bool)
  (extract_visit_strings : string -> gset string)
  (extract_trigger_info : string -> option string)
  (determine_form_source : string -> string -> string -> string -> string)
  (extract_document_context : node -> string)
  (required_mappings : node -> gset string)
  (first_of_set : gset string -> string)
  (is_metadata_table : node -> bool)
  (is_instruction : string -> bool)
  (is_valid_option_content : node -> bool)
  (data form_node : node) :
  NoDup (map (fun r => (FormExtractor.fr_label r, FormExtractor.fr_name r,
                        FormExtractor.fr_visits r))
             (FormExtractor.extract_forms_with_corrections
                is_valid_form_label is_valid_form_name ignored
                extract_visit_strings extract_trigger_info
                determine_form_source extract_document_context
                required_mappings first_of_set data))
  /\
  NoDup (map (fun it => (StudyForms.item_name it, StudyForms.item_group it))
             (StudyForms.extract_items_from_form
                is_valid_form_label is_metadata_table is_instruction
                is_valid_option_content form_node)).
Proof.
  split.
  - apply FormExtractorFacts.extract_forms_with_corrections_NoDup.
  - apply StudyFormsFacts.dedup_items_NoDup.
Qed.

(** ** C7: duplicate visit names in the header row *)

(** C7: whatever the configured visit patterns, the visit list built from
    the header row has no duplicate; it lists the detected identifiers in
    column order, each one kept as it is or given a suffix [_k] with [k >= 1],
    and an identifier already met in an earlier column always gets a suffix;
    the column map pairs the columns with that list.  When the patterns
    detect nothing in ["Procedure"] and detect ["V1"] and ["V2"] in
    themselves, the row ["Procedure", "V1", "V1", "V2"] gives
    ["V1", "V1_1", "V2"]. *)
Theorem C7_duplicate_visit_headers
  (extract_complete_visit_identifier : string -> option string)
  (visit_row : list string) :
  let cols := SoaParser.build_columns extract_complete_visit_identifier visit_row in
  let ids :=
    omap (SoaParser.visit_identifier extract_complete_visit_identifier) visit_row in
  NoDup (SoaParser.visit_order cols)
  /\ SoaParserFacts.renaming ids (SoaParser.visit_order cols)
  /\ map snd (SoaParser.column_to_visit cols) = SoaParser.visit_order cols
  /\ (extract_complete_visit_identifier "Procedure" = None ->
      extract_complete_visit_identifier "V1" = Some "V1" ->
      extract_complete_visit_identifier "V2" = Some "V2" ->
      SoaParser.visit_order
        (SoaParser.build_columns extract_complete_visit_identifier
           ["Procedure"; "V1"; "V1"; "V2"])
      = ["V1"; "V1_1"; "V2"]).
Proof.
  intros cols ids.
  destruct (SoaParserFacts.build_columns_inv extract_complete_visit_identifier
              visit_row) as (Hren & Hnd & _ & _ & Hmap).
  split; [exact Hnd|]. split; [exact Hren|]. split; [exact Hmap|].
  intros Hp H1 H2.
  unfold SoaParser.build_columns. cbn [enumerate fold_left].
  unfold SoaParser.add_column, SoaParser.visit_identifier. cbn [fst snd].
  rewrite Hp, H1, H2. vm_compute. reflexivity.
Qed.

Lemma C7_duplicate_visit_headers_witness :
  SoaParser.visit_order
    (SoaParser.build_columns SoaParser.visit_or_period_identifier
       ["Procedure"; "V1"; "V1"; "V2"])
  = ["V1"; "V1_1"; "V2"].
Proof.
  apply (C7_duplicate_visit_headers SoaParser.visit_or_period_identifier []).
  - reflexivity.
  - reflexivity.
  - reflexivity.
Defined.

(** ** C5: repeating item groups *)

(** C5: in the item list of a form, an item whose group value is carried
    by that item alone gets the flag ['N'] and the maximum 50, and an item
    whose group value is carried by [k > 1] items gets the flag ['Y'] and the
    maximum [k]; a group value is a group that is not empty and is not
    ['NaN'], the mark of an item without group.  An item without group
    (its group is empty or ['NaN']) gets ['N'] and 50, however many such
    items the form has. *)
Theorem C5_repeating_group_law
  (is_valid_form_label : string -> bool)
  (is_metadata_table : node -> bool) (is_instruction : string -> bool)
  (is_valid_option_content : node -> bool)
  (lbody_values_of : node -> string) (data_type_of : node -> string -> string)
  (field_length_of precision_of number_range_of : string -> string)
  (f : StudyForms.form) (streamed : bool) (i : nat) (it : StudyForms.item) :
  let items :=
    StudyForms.items_of_form is_valid_form_label is_metadata_table
      is_instruction is_valid_option_content f in
  let row :=
    StudyForms.row_of_item lbody_values_of data_type_of field_length_of
      precision_of number_range_of streamed f items (i, it) in
  let k := StudyFormsFacts.carried_by (StudyForms.item_group it) items in
  In (i, it) (StudyForms.assign_item_order items) ->
  In row (StudyForms.rows_of_form is_valid_form_label is_metadata_table
            is_instruction is_valid_option_content lbody_values_of
            data_type_of field_length_of precision_of number_range_of
            streamed f)
  /\ (StudyForms.item_group it <> "" -> StudyForms.item_group it <> "NaN" ->
      (k = 1 ->
       StudyForms.row_repeating row = "N"
       /\ StudyForms.row_repeat_maximum row = 50)
      /\ (1 < k ->
          StudyForms.row_repeating row = "Y"
          /\ StudyForms.row_repeat_maximum row = k))
  /\ (StudyForms.item_group it = "" \/ StudyForms.item_group it = "NaN" ->
      StudyForms.row_repeating row = "N"
      /\ StudyForms.row_repeat_maximum row = 50).
Proof.
  intros items row k Hin.
  split; [apply in_map, Hin|].
  assert (Hit : In it items) by exact (enumerate_snd _ _ _ _ Hin).
  pose proof (StudyFormsFacts.items_of_form_stripped is_valid_form_label
                is_metadata_table is_instruction is_valid_option_content f)
    as Hstripped.
  fold items in Hstripped.
  unfold row, StudyForms.row_of_item. cbn [snd StudyForms.row_repeating
    StudyForms.row_repeat_maximum].
  set (g := StudyForms.item_group it) in *.
  split.
  - intros Hne Hnan.
    assert (Hstrip : Py.strip g = g).
    { rewrite Forall_forall in Hstripped. apply Hstripped, list_elem_of_In, Hit. }
    pose proof (StudyFormsFacts.item_group_counts_lookup _ items Hstripped Hne Hnan)
      as Hcount.
    fold g k in Hcount.
    pose proof (StudyFormsFacts.repeating_groups_spec g items) as Hrep.
    assert (Hvalue : (if Py.truthy g then g else "NaN") = g).
    { destruct g; [congruence|reflexivity]. }
    rewrite Hvalue. unfold StudyForms.get_item_group_repeating_flag,
      StudyForms.get_repeat_maximum.
    assert (Hguard : negb (Py.truthy g) || bool_decide (g = "NaN")
                     || bool_decide (Py.strip g = "") = false).
    { rewrite Hstrip, !bool_decide_eq_false_2 by assumption.
      destruct g; [congruence|reflexivity]. }
    rewrite Hguard. split.
    + intros Hk. rewrite Hk in Hcount. rewrite Hcount.
      rewrite bool_decide_eq_false_2.
      * split; reflexivity.
      * intros Hg. apply Hrep in Hg. destruct Hg as (n & Hn & Hlt).
        rewrite Hcount in Hn. inversion Hn. lia.
    + intros Hk. destruct k as [|k']; [lia|]. rewrite Hcount.
      rewrite bool_decide_eq_true_2.
      * split; reflexivity.
      * apply Hrep. exists (S k'). split; [exact Hcount|lia].
  - intros Hnone.
    assert (Hvalue : (if Py.truthy g then g else "NaN") = "NaN").
    { destruct Hnone as [-> | ->]; reflexivity. }
    rewrite Hvalue. split; [reflexivity|].
    unfold StudyForms.get_repeat_maximum.
    destruct (StudyForms.item_group_counts items !! "NaN"); reflexivity.
Qed.

(** A form whose one table has a group header followed by two questions. *)
Definition vitals_form : StudyForms.form :=
  let row question :=
    Node "TR" "" ""
      [Node "TH" question "" []; Node "TD" "" "" [Node "LBody" "Value" "" []]] in
  let table :=
    Node "Table" "" ""
      [Node "TR" "" "" [Node "TD" "Vitals" "" []]; row "Pulse"; row "Weight"] in
  let form_node := Node "H2" "[VS] Vital signs" "" [table] in
  StudyForms.mkForm "Vital signs" "[VS] Vital signs" "Vital signs"
                    form_node form_node.

Lemma C5_repeating_group_law_witness :
  let it := StudyForms.mkItem "Vitals" "Pulse"
              (Some (Node "TD" "" "" [Node "LBody" "Value" "" []])) in
  let items :=
    StudyForms.items_of_form (fun _ => true) (fun _ => false) (fun _ => false)
      (fun _ => true) vitals_form in
  let row :=
    StudyForms.row_of_item (fun _ => "") (fun _ _ => "Codelist") (fun _ => "")
      (fun _ => "") (fun _ => "") true vitals_form items (1, it) in
  StudyForms.row_repeating row = "Y" /\ StudyForms.row_repeat_maximum row = 2.
Proof.
  intros it items row.
  destruct (C5_repeating_group_law (fun _ => true) (fun _ => false)
              (fun _ => false) (fun _ => true)
              (fun _ => "") (fun _ _ => "Codelist") (fun _ => "")
              (fun _ => "") (fun _ => "") vitals_form true 1 it)
    as (_ & Hgroup & _).
  - vm_compute. left. reflexivity.
  - destruct Hgroup as [_ Hmany]; [discriminate|discriminate|].
    apply Hmany. vm_compute. lia.
Defined.

(** ** C8: running the hierarchy builder twice *)

(** C8: whatever the store [parse_hierarchy] starts in, a second run on the
    same elements, made in the store the first run has left, returns a root
    from which hangs the same tree as from the root of the first run: the
    same name, text, path and sequence of children at every position down to
    any depth, hence the same number of nodes; and the second run leaves the
    tree of the first as it was. *)
Theorem C8_parse_hierarchy_twice
  (get_header_level : string -> option nat)
  (is_top_level_table is_inline_content is_table_or_complex_structure
     : string -> bool)
  (s0 : list Hierarchy.dict) (elements : list Hierarchy.element) (depth : nat) :
  let run1 :=
    Hierarchy.parse_hierarchy get_header_level is_top_level_table
      is_inline_content is_table_or_complex_structure s0 elements in
  let run2 :=
    Hierarchy.parse_hierarchy get_header_level is_top_level_table
      is_inline_content is_table_or_complex_structure run1.1 elements in
  Hierarchy.unfold depth run2.1 run2.2 = Hierarchy.unfold depth run2.1 run1.2
  /\ Hierarchy.unfold depth run2.1 run1.2 = Hierarchy.unfold depth run1.1 run1.2
  /\ Hierarchy.tree_size (Hierarchy.unfold depth run2.1 run2.2)
     = Hierarchy.tree_size (Hierarchy.unfold depth run1.1 run1.2).
Proof.
  intros run1 run2.
  pose proof (HierarchyFacts.parse_hierarchy_lift get_header_level
                is_top_level_table is_inline_content
                is_table_or_complex_structure s0 elements) as H1.
  pose proof (HierarchyFacts.parse_hierarchy_lift get_header_level
                is_top_level_table is_inline_content
                is_table_or_complex_structure run1.1 elements) as H2.
  destruct (HierarchyFacts.parse_hierarchy_closed get_header_level
              is_top_level_table is_inline_content
              is_table_or_complex_structure elements) as [Hclosed Hroot].
  fold run1 in H1. fold run2 in H2.
  set (base := Hierarchy.parse_hierarchy get_header_level is_top_level_table
                 is_inline_content is_table_or_complex_structure [] elements)
    in *.
  assert (E2 : Hierarchy.unfold depth run2.1 run2.2
               = Hierarchy.unfold depth base.1 base.2).
  { rewrite H2. cbn [fst snd].
    rewrite <- (app_nil_r (map _ base.1)).
    apply HierarchyFacts.unfold_embedded; assumption. }
  assert (E1 : Hierarchy.unfold depth run1.1 run1.2
               = Hierarchy.unfold depth base.1 base.2).
  { rewrite H1. cbn [fst snd].
    rewrite <- (app_nil_r (map _ base.1)).
    apply HierarchyFacts.unfold_embedded; assumption. }
  assert (E12 : Hierarchy.unfold depth run2.1 run1.2
                = Hierarchy.unfold depth base.1 base.2).
  { rewrite H2. cbn [fst]. rewrite H1 at 1 3. cbn [fst snd].
    rewrite <- app_assoc.
    apply HierarchyFacts.unfold_embedded; assumption. }
  rewrite E2, E12, E1. repeat split.
Qed.

(** A small document: a heading, a paragraph, and a paragraph in a table
    cell whose table, row and cell were never listed on their own. *)
Definition sample_elements : list Hierarchy.element :=
  [ Hierarchy.mkElement "//Document/H1" "Intro";
    Hierarchy.mkElement "//Document/P" "para";
    Hierarchy.mkElement "//Document/Table/TR/TD/P" "x" ].

Definition sample_header_level (path : string) : option nat :=
  if bool_decide (Hierarchy.last_component path = "H1") then Some 1 else None.

Example parse_hierarchy_sample :
  let run :=
    Hierarchy.parse_hierarchy sample_header_level
      (fun path => bool_decide (path = "//Document/Table"))
      (fun path => bool_decide (Hierarchy.last_component path = "Span"))
      (fun path => Py.contains path "/TR" || Py.contains path "/TD")
      [] sample_elements in
  Hierarchy.unfold 7 run.1 run.2
  = Hierarchy.Tree "Document Root" None None
      [ Hierarchy.Tree "H1" (Some "Intro") (Some "//Document/H1")
          [ Hierarchy.Tree "P" (Some "para") (Some "//Document/P") [];
            Hierarchy.Tree "Table" (Some "") (Some "//Document/Table")
              [ Hierarchy.Tree "TR" (Some "") (Some "//Document/Table/TR")
                  [ Hierarchy.Tree "TD" (Some "") (Some "//Document/Table/TR/TD")
                      [ Hierarchy.Tree "P" (Some "x")
                          (Some "//Document/Table/TR/TD/P") [] ] ] ] ] ].
Proof. vm_compute. reflexivity. Qed.

(** ** C9: the row written for a form without items *)

(** C9: for a form found by [extract_forms_cleaned] whose item list is
    empty, both entry points produce exactly one row carrying the label and
    name of that form: empty Item Label, Item Group ['NaN'], Item group
    Repeating ['N'], Repeat Maximum 50, Item Order 1, Data type ['Text'],
    Required ['N'], the other cells blank. *)
Theorem C9_placeholder_row
  (is_valid_form_name is_valid_form_label : string -> bool)
  (is_metadata_table : node -> bool) (is_instruction : string -> bool)
  (is_valid_option_content : node -> bool)
  (lbody_values_of : node -> string) (data_type_of : node -> string -> string)
  (field_length_of precision_of number_range_of : string -> string)
  (data : node) (f : StudyForms.form) (streamed : bool) :
  In f (StudyForms.extract_forms_cleaned is_valid_form_name is_valid_form_label data) ->
  StudyForms.extract_items_from_form is_valid_form_label is_metadata_table
    is_instruction is_valid_option_content (StudyForms.form_node f) = [] ->
  List.filter
    (fun r => bool_decide
                (StudyForms.row_form_label r = StudyForms.form_label f /\
                 StudyForms.row_form_name r = StudyForms.form_name f))
    (StudyForms.all_item_rows is_valid_form_name is_valid_form_label
       is_metadata_table is_instruction is_valid_option_content
       lbody_values_of data_type_of field_length_of precision_of
       number_range_of streamed data)
  = [ StudyForms.mkRow (StudyForms.form_label f) (StudyForms.form_name f)
        "NaN" "N" 50 1 "" "" "Text" "" "" "" "" "" "" "N" "" ].
Proof.
  intros Hin Hempty. unfold StudyForms.all_item_rows.
  erewrite List.filter_ext.
  - rewrite (StudyFormsFacts.rows_of_one_form is_valid_form_label
               is_metadata_table is_instruction is_valid_option_content
               lbody_values_of data_type_of field_length_of precision_of
               number_range_of streamed _ f).
    + unfold StudyForms.rows_of_form, StudyForms.items_of_form.
      rewrite Hempty. destruct streamed; vm_compute; reflexivity.
    + apply StudyFormsFacts.extract_forms_cleaned_NoDup.
    + exact Hin.
  - intros r. unfold StudyFormsFacts.row_key, StudyFormsFacts.form_key.
    apply bool_decide_ext. split; [intros [-> ->]; reflexivity|].
    intros E. injection E as -> ->. split; reflexivity.
Qed.

(** A document with one section and one form that holds no table. *)
Definition one_empty_form : node :=
  Node "Document Root" "" ""
    [Node "H1" "Demographics" "//Document/H1"
       [Node "H2" "[DEMOG]" "//Document/H2" []]].

Lemma C9_placeholder_row_witness :
  List.filter
    (fun r => bool_decide
                (StudyForms.row_form_label r = "Demographics" /\
                 StudyForms.row_form_name r = "[DEMOG]"))
    (StudyForms.all_item_rows
       (fun s => Py.startswith s "[") (fun s => negb (Py.startswith s "["))
       (fun _ => false) (fun _ => false) (fun _ => true)
       (fun _ => "") (fun _ _ => "Text") (fun _ => "") (fun _ => "") (fun _ => "")
       true one_empty_form)
  = [ StudyForms.mkRow "Demographics" "[DEMOG]"
        "NaN" "N" 50 1 "" "" "Text" "" "" "" "" "" "" "N" "" ].
Proof.
  apply (C9_placeholder_row
           (fun s => Py.startswith s "[") (fun s => negb (Py.startswith s "["))
           (fun _ => false) (fun _ => false) (fun _ => true)
           (fun _ => "") (fun _ _ => "Text") (fun _ => "") (fun _ => "")
           (fun _ => "") one_empty_form
           (StudyForms.mkForm "Demographics" "[DEMOG]" "Demographics"
              (Node "H2" "[DEMOG]" "//Document/H2" [])
              (Node "H1" "Demographics" "//Document/H1"
                 [Node "H2" "[DEMOG]" "//Document/H2" []]))
           true).
  - vm_compute. left. reflexivity.
  - vm_compute. reflexivity.
Defined.

(** ** C10: the items pipeline keys its forms by label and name *)

(** C10: the forms returned by [extract_forms_cleaned] are pairwise distinct
    in their (Form Label, Form Name) pair: two returned forms with the same
    label and name are one and the same record, so a later node with that
    pair, whatever stands below it, adds nothing. *)
Theorem C10_pair_key_deduplication
  (is_valid_form_name is_valid_form_label : string -> bool) (data : node) :
  let forms :=
    StudyForms.extract_forms_cleaned is_valid_form_name is_valid_form_label data in
  NoDup (map (fun f => (StudyForms.form_label f, StudyForms.form_name f)) forms)
  /\
  (forall f1 f2, In f1 forms -> In f2 forms ->
     StudyForms.form_label f1 = StudyForms.form_label f2 ->
     StudyForms.form_name f1 = StudyForms.form_name f2 ->
     f1 = f2).
Proof.
  intros forms.
  pose proof (StudyFormsFacts.extract_forms_cleaned_NoDup
                is_valid_form_name is_valid_form_label data) as Hnd.
  fold forms in Hnd. split; [exact Hnd|].
  intros f1 f2 H1 H2 Hl Hn.
  apply (NoDup_map_injective _ _ Hnd f1 f2 H1 H2).
  unfold StudyFormsFacts.form_key. congruence.
Qed.

(** ** C4: what the stages do when nothing is extracted *)

(** The second half of the claim as the specification words it: with no
    form extracted, [extract_forms] raises. *)
Definition extract_forms_fails_when_empty : Prop :=
  forall (is_valid_form_label is_valid_form_name ignored : string -> bool)
         (extract_visit_strings : string -> gset string)
         (extract_trigger_info : string -> option string)
         (determine_form_source : string -> string -> string -> string -> string)
         (extract_document_context : node -> string)
         (required_mappings : node -> gset string)
         (first_of_set : gset string -> string)
         (data : node) (output_csv : string),
    FormExtractor.extract_forms_with_corrections
      is_valid_form_label is_valid_form_name ignored extract_visit_strings
      extract_trigger_info determine_form_source extract_document_context
      required_mappings first_of_set data = [] ->
    exists message,
      FormExtractor.extract_forms
        is_valid_form_label is_valid_form_name ignored extract_visit_strings
        extract_trigger_info determine_form_source extract_document_context
        required_mappings first_of_set data output_csv = Raised message.

(** C4, counterexample: for a document made of its root alone no form is
    extracted, and [extract_forms] returns the path of the table as for any
    other document. *)
Lemma C4_extract_forms_returns_when_empty : ~ extract_forms_fails_when_empty.
Proof.
  intros H.
  destruct (H (fun _ => false) (fun _ => false) (fun _ => false)
              (fun _ => ∅) (fun _ => None) (fun _ _ _ _ => "Library")
              (fun _ => "") (fun _ => ∅) (fun _ => "")
              (Node "Document Root" "" "" []) "forms.csv") as [message Hm].
  - reflexivity.
  - discriminate Hm.
Qed.

(** C4 (amended): [parse_soa] raises when no schedule table is found and
    when no visit header row is found among the rows of the tables;
    [extract_forms], when no form is extracted, writes the header line alone
    and returns the path of the table. *)
Theorem C4_extraction_miss
  (extract_complete_visit_identifier : string -> option string)
  (header_keyword_hits : string -> nat) (min_visit_count : nat)
  (cell_has_marker end_cell_has_marker section_break : string -> bool)
  (min_procedures consecutive_threshold : nat)
  (procedure_filters : list string)
  (find_all_schedule_tables : node -> list node)
  (is_valid_form_label is_valid_form_name ignored : string -> bool)
  (extract_visit_strings : string -> gset string)
  (extract_trigger_info : string -> option string)
  (determine_form_source : string -> string -> string -> string -> string)
  (extract_document_context : node -> string)
  (required_mappings : node -> gset string)
  (first_of_set : gset string -> string)
  (data : node) (output_csv : string) :
  (find_all_schedule_tables data = [] \/
   SoaParser.detect_visit_header_row extract_complete_visit_identifier
     header_keyword_hits min_visit_count
     (SoaParser.table_rows (find_all_schedule_tables data)) = None ->
   SoaParser.parse_soa extract_complete_visit_identifier header_keyword_hits
     min_visit_count cell_has_marker end_cell_has_marker section_break
     min_procedures consecutive_threshold procedure_filters
     find_all_schedule_tables data output_csv
   = Raised "Failed to parse schedule from protocol JSON")
  /\
  (FormExtractor.extract_forms_with_corrections
     is_valid_form_label is_valid_form_name ignored extract_visit_strings
     extract_trigger_info determine_form_source extract_document_context
     required_mappings first_of_set data = [] ->
   FormExtractor.extract_forms
     is_valid_form_label is_valid_form_name ignored extract_visit_strings
     extract_trigger_info determine_form_source extract_document_context
     required_mappings first_of_set data output_csv
   = Returned (output_csv, [FormExtractor.fieldnames])).
Proof.
  split.
  - intros Hmiss. unfold SoaParser.parse_soa, SoaParser.parse_protocol_schedule.
    destruct Hmiss as [-> | Hrow]; [reflexivity|].
    destruct (find_all_schedule_tables data) as [|t ts]; [reflexivity|].
    rewrite Hrow. reflexivity.
  - intros Hnone. unfold FormExtractor.extract_forms. rewrite Hnone. reflexivity.
Qed.

Lemma C4_extraction_miss_witness :
  SoaParser.parse_soa (fun _ => None) (fun _ => O) 3 (fun _ => false)
    (fun _ => false) (fun _ => false) 25 25 [] (fun _ => [])
    (Node "Document Root" "" "" []) "schedule.csv"
  = Raised "Failed to parse schedule from protocol JSON"
  /\
  FormExtractor.extract_forms (fun _ => false) (fun _ => false) (fun _ => false)
    (fun _ => ∅) (fun _ => None) (fun _ _ _ _ => "Library")
    (fun _ => "") (fun _ => ∅) (fun _ => "")
    (Node "Document Root" "" "" []) "forms.csv"
  = Returned ("forms.csv", [FormExtractor.fieldnames]).
Proof.
  split.
  - apply (proj1 (C4_extraction_miss (fun _ => None) (fun _ => O) 3
             (fun _ => false) (fun _ => false) (fun _ => false) 25 25 []
             (fun _ => [])
             (fun _ => false) (fun _ => false) (fun _ => false)
             (fun _ => ∅) (fun _ => None) (fun _ _ _ _ => "Library")
             (fun _ => "") (fun _ => ∅) (fun _ => "")
             (Node "Document Root" "" "" []) "schedule.csv")).
    left. reflexivity.
  - apply (proj2 (C4_extraction_miss (fun _ => None) (fun _ => O) 3
             (fun _ => false) (fun _ => false) (fun _ => false) 25 25 []
             (fun _ => [])
             (fun _ => false) (fun _ => false) (fun _ => false)
             (fun _ => ∅) (fun _ => None) (fun _ _ _ _ => "Library")
             (fun _ => "") (fun _ => ∅) (fun _ => "")
             (Node "Document Root" "" "" []) "forms.csv")).
    reflexivity.
Defined.

(** ** C2: the threshold of the matrix reconciler *)

(** The claim as the specification words it: a label whose best similarity
    sits exactly on the threshold is matched to the procedure reaching it. *)
Definition threshold_boundary_as_stated : Prop :=
  forall (threshold : Q) (ci : bool) (procs : list string) (label p : string),
    In p procs ->
    (fuzzy_match p label ci == threshold)%Q ->
    (forall q, In q procs -> (fuzzy_match q label ci <= threshold)%Q) ->
    exists idx,
      label_mapping (fun q l => fuzzy_match q l ci) threshold procs label
      = Mapped idx p.

(** C2, counterexample: with the threshold configured as 0, the label
    ["abc"] has similarity 0 (the threshold exactly) to the only procedure
    ["xyz"], and yet is left unmapped: a score must also exceed the initial
    best score 0. *)
Lemma C2_threshold_zero_not_matched : ~ threshold_boundary_as_stated.
Proof.
  intros H.
  destruct (H 0%Q true ["xyz"] "abc" "xyz") as [idx Hidx].
  - left. reflexivity.
  - vm_compute. reflexivity.
  - intros q [<-|[]]. vm_compute. discriminate.
  - vm_compute in Hidx. discriminate.
Qed.

(** C2 (amended): for a positive threshold, a form label whose best
    similarity equals the threshold exactly is matched to the first
    procedure (of non-empty name) that reaches it; and for any threshold a
    label whose similarity to every procedure is strictly below the
    threshold is unmapped. *)
Theorem C2_threshold_boundary_inclusive
  (threshold : Q) (ci : bool) (procs : list string) (label : string) :
  (forall idx p,
      (0 < threshold)%Q ->
      procs !! idx = Some p ->
      p <> "" ->
      (fuzzy_match p label ci == threshold)%Q ->
      (forall q, In q procs -> (fuzzy_match q label ci <= threshold)%Q) ->
      (forall i q, i < idx -> procs !! i = Some q ->
                   (fuzzy_match q label ci < threshold)%Q) ->
      label_mapping (fun q l => fuzzy_match q l ci) threshold procs label
      = Mapped idx p)
  /\
  ((forall q, In q procs -> (fuzzy_match q label ci < threshold)%Q) ->
   label_mapping (fun q l => fuzzy_match q l ci) threshold procs label
   = Unmapped).
Proof.
  split.
  - intros idx p Hpos Hlook Hne Heq Hmax Hfirst. unfold label_mapping.
    rewrite (CommonMatrixFacts.best_match_first_at_threshold
               (fun q l => fuzzy_match q l ci) threshold label procs idx p)
      by assumption.
    unfold mapping_of; simpl. destruct p; [congruence|reflexivity].
  - intros Hbelow. unfold label_mapping.
    rewrite CommonMatrixFacts.best_match_below by assumption. reflexivity.
Qed.

Lemma C2_threshold_boundary_inclusive_witness :
  label_mapping (fun q l => fuzzy_match q l true) (1 # 2) ["xyz"; "abcdef"] "ab"
  = Mapped 1 "abcdef"
  /\ label_mapping (fun q l => fuzzy_match q l true) (1 # 2) ["xyz"] "ab"
     = Unmapped.
Proof.
  split.
  - apply (proj1 (C2_threshold_boundary_inclusive (1 # 2) true
                    ["xyz"; "abcdef"] "ab")).
    + reflexivity.
    + reflexivity.
    + discriminate.
    + vm_compute. reflexivity.
    + intros q [<-|[<-|[]]]; vm_compute; discriminate.
    + intros [|[|i]] q Hi Hq; [|lia|lia].
      inversion Hq; subst q. vm_compute. reflexivity.
  - apply (proj2 (C2_threshold_boundary_inclusive (1 # 2) true ["xyz"] "ab")).
    intros q [<-|[]]. vm_compute. reflexivity.
Defined.

(** ** C3: symmetry of the similarity function *)

(** C3, counterexample: [fuzzy_match("tide", "diet")] is 1/4 while
    [fuzzy_match("diet", "tide")] is 1/2. *)
Lemma C3_fuzzy_match_not_symmetric :
  ~ (forall a b : string, (fuzzy_match a b true == fuzzy_match b a true)%Q).
Proof.
  intros H. specialize (H "tide" "diet"). vm_compute in H. discriminate.
Qed.

(** C3 (amended): the similarity is a number between 0 and 1 in either
    order of its arguments, and the two orders agree when one of the strings
    is empty; it is not symmetric in general. *)
Theorem C3_fuzzy_match_range_and_empty (a b : string) (ci : bool) :
  (0 <= fuzzy_match a b ci <= 1)%Q /\
  (0 <= fuzzy_match b a ci <= 1)%Q /\
  fuzzy_match a "" ci = fuzzy_match "" a ci.
Proof.
  unfold fuzzy_match. repeat split; try apply DifflibFacts.ratio_range.
  replace (Py.chars (if ci then Py.lower "" else "")) with (@nil ascii)
    by (destruct ci; reflexivity).
  rewrite DifflibFacts.ratio_nil_r, DifflibFacts.ratio_nil_l. reflexivity.
Qed.

Example ratio_tide_diet :
  Difflib.ratio (Py.chars "tide") (Py.chars "diet") = Qmake 2 8.
Proof. vm_compute. reflexivity. Qed.

(** * Part III: further properties of the code *)

(** ** Texts and numbers *)

Module TextFacts.

Lemma append_cons c a b :
  String.append (String c a) b = String c (String.append a b).
Proof. reflexivity. Qed.

Lemma append_nil_r a : String.append a EmptyString = a.
Proof. induction a as [|c a IH]; [reflexivity|]. rewrite append_cons, IH. reflexivity. Qed.

Lemma append_assoc a b c :
  String.append (String.append a b) c = String.append a (String.append b c).
Proof. induction a as [|d a IH]; [reflexivity|]. rewrite !append_cons, IH. reflexivity. Qed.

Lemma chars_append a b : Py.chars (String.append a b) = Py.chars a ++ Py.chars b.
Proof. induction a as [|c a IH]; simpl; [reflexivity|]. unfold Py.chars in *. simpl. rewrite IH. reflexivity. Qed.

Lemma chars_inj a b : Py.chars a = Py.chars b -> a = b.
Proof.
  revert b. induction a as [|c a IH]; intros [|d b] H; try discriminate; [reflexivity|].
  unfold Py.chars in *. simpl in H. injection H as -> H. f_equal. apply IH, H.
Qed.

Definition digit (c : ascii) : bool := PathTests.is_digit c.

Lemma of_uint_acc_digits u : forall acc,
  fold_left (fun v c => (10 * v + (nat_of_ascii c - 48))%nat)
            (Py.chars (NilEmpty.string_of_uint u)) acc
  = Nat.of_uint_acc u acc.
Proof.
  induction u; intros acc; cbn [NilEmpty.string_of_uint Py.chars list_ascii_of_string
    fold_left Nat.of_uint_acc]; try reflexivity;
    unfold Py.chars in IHu; rewrite IHu; f_equal; rewrite Nat.tail_mul_spec;
    vm_compute nat_of_ascii; lia.
Qed.

Lemma int_of_str_of_nat n :
  PathTests.int_of_digits (Py.chars (str_of_nat n)) = n.
Proof.
  unfold PathTests.int_of_digits, str_of_nat. rewrite of_uint_acc_digits.
  change (Nat.of_uint_acc (Nat.to_uint n) 0) with (Nat.of_uint (Nat.to_uint n)).
  apply Unsigned.of_to.
Qed.

Lemma string_of_uint_digits u :
  Forall (fun c => digit c = true) (Py.chars (NilEmpty.string_of_uint u)).
Proof.
  induction u; cbn [NilEmpty.string_of_uint Py.chars list_ascii_of_string];
    constructor; try reflexivity; exact IHu.
Qed.

Lemma str_of_nat_digits n :
  Forall (fun c => digit c = true) (Py.chars (str_of_nat n)).
Proof. apply string_of_uint_digits. Qed.

Lemma str_of_nat_nonempty n : Py.chars (str_of_nat n) <> [].
Proof.
  unfold str_of_nat. destruct (Nat.to_uint n) eqn:E; try discriminate.
  exfalso. pose proof (Unsigned.to_of (Nat.to_uint n)) as H.
  rewrite Unsigned.of_to, E in H. symmetry in H.
  exact (DecimalFacts.unorm_nonnil _ H).
Qed.

Lemma span_digits ds rest :
  Forall (fun c => digit c = true) ds ->
  match rest with c :: _ => digit c = false | [] => True end ->
  PathTests.span PathTests.is_digit (ds ++ rest) = (ds, rest).
Proof.
  intros Hds Hrest. unfold digit in *.
  induction Hds as [|c ds Hc _ IH]; cbn [app PathTests.span].
  - destruct rest as [|c rest]; [reflexivity|]. cbn [PathTests.span].
    rewrite Hrest. reflexivity.
  - rewrite Hc, IH. reflexivity.
Qed.

End TextFacts.

(** ** The paths of the hierarchy builder *)

Module PathFacts.
Import Hierarchy HierarchyFacts TextFacts.

Lemma lstrip_slash_idempotent s : lstrip_slash (lstrip_slash s) = lstrip_slash s.
Proof.
  induction s as [|c s IH]; [reflexivity|]. simpl.
  case_bool_decide as E; [exact IH|]. simpl. rewrite bool_decide_eq_false_2 by exact E.
  reflexivity.
Qed.

Lemma lstrip_slash_slash s : lstrip_slash (String "/" s) = lstrip_slash s.
Proof. reflexivity. Qed.

Lemma lstrip_slash_other c s :
  c <> "/"%char -> lstrip_slash (String c s) = String c s.
Proof. intros H. cbn [lstrip_slash]. rewrite bool_decide_eq_false_2 by exact H. reflexivity. Qed.

Lemma normalize_path_spec p :
  normalize_path p =
    if Py.truthy (lstrip_slash p) then String "/" (String "/" (lstrip_slash p))
    else EmptyString.
Proof. unfold normalize_path. destruct (Py.truthy _); reflexivity. Qed.

Lemma normalize_path_idempotent p :
  normalize_path (normalize_path p) = normalize_path p.
Proof.
  rewrite (normalize_path_spec p). destruct (Py.truthy (lstrip_slash p)) eqn:E;
    [|reflexivity].
  rewrite normalize_path_spec.
  change (lstrip_slash (String "/" (String "/" (lstrip_slash p))))
    with (lstrip_slash (lstrip_slash p)).
  rewrite lstrip_slash_idempotent, E. reflexivity.
Qed.

(** The first component of a path without leading slashes is not empty. *)
Lemma split_slash_head s x l :
  Py.truthy (lstrip_slash s) = true -> split_slash (lstrip_slash s) = x :: l ->
  exists c x', x = String c x' /\ c <> "/"%char.
Proof.
  induction s as [|c s IH]; [discriminate|]. simpl.
  case_bool_decide as E; [exact IH|]. intros _. simpl.
  rewrite bool_decide_eq_false_2 by exact E.
  destruct (split_slash s); intros [= <- <-]; eauto.
Qed.

Lemma join_removelast_head (x : string) l :
  l <> [] -> join "/" (removelast (x :: l)) = String.append x (match removelast l with [] => "" | _ => String.append "/" (join "/" (removelast l)) end).
Proof.
  destruct l as [|y l]; [congruence|]. intros _.
  change (removelast (x :: y :: l)) with (x :: removelast (y :: l)).
  destruct (removelast (y :: l)) eqn:E.
  - cbn [join]. symmetry. apply append_nil_r.
  - reflexivity.
Qed.

Lemma get_parent_path_normalized p :
  normalize_path (get_parent_path p) = get_parent_path p.
Proof.
  unfold get_parent_path. destruct (_ || _); [reflexivity|].
  destruct (Nat.leb_spec (length (split_slash (drop2 (normalize_path p)))) 1)
    as [|Hlen]; [reflexivity|].
  revert Hlen. rewrite (normalize_path_spec p).
  destruct (Py.truthy (lstrip_slash p)) eqn:E; [|simpl; lia].
  change (drop2 (String "/" (String "/" (lstrip_slash p)))) with (lstrip_slash p).
  destruct (split_slash (lstrip_slash p)) as [|x l] eqn:El; [simpl; lia|].
  destruct (split_slash_head _ _ _ E El) as (c & x' & -> & Hc).
  intros Hlen. assert (Hl : l <> []) by (destruct l; [simpl in Hlen; lia|discriminate]).
  rewrite (join_removelast_head _ _ Hl).
  set (rest := match removelast l with [] => "" | _ => _ end).
  change (String.append "//" (String.append (String c x') rest))
    with (String "/" (String "/" (String c (String.append x' rest)))).
  rewrite normalize_path_spec, !lstrip_slash_slash, (lstrip_slash_other _ _ Hc).
  reflexivity.
Qed.

Lemma join_removelast_last (l : list string) :
  (2 <= length l)%nat ->
  join "/" l
  = String.append (join "/" (removelast l))
      (String.append "/" (List.last l EmptyString)).
Proof.
  induction l as [|x [|y l] IH]; simpl; try lia. intros _.
  destruct l as [|z l].
  - simpl. reflexivity.
  - assert (H : (2 <= length (y :: z :: l))%nat) by (simpl; lia).
    specialize (IH H).
    change (join "/" (x :: removelast (y :: z :: l)))
      with (String.append x (String.append "/" (join "/" (removelast (y :: z :: l))))).
    change (String.append x (String.append "/" (String.append y
              (String.append "/" (join "/" (z :: l))))))
      with (String.append x (String.append "/" (join "/" (y :: z :: l)))).
    change (removelast (y :: z :: l)) with (y :: removelast (z :: l)) in IH.
    change (match l with [] => z | _ :: _ => List.last l "" end)
      with (List.last (y :: z :: l) "").
    rewrite IH.
    rewrite !append_assoc. reflexivity.
Qed.

End PathFacts.

Module PathTestFacts.
Import Hierarchy HierarchyFacts TextFacts PathFacts PathTests.

Lemma normalize_path_chars a c b :
  c <> "/"%char ->
  exists pre,
    Py.chars (normalize_path (String.append a (String "/" (String c b))))
    = pre ++ "/"%char :: c :: Py.chars b.
Proof.
  intros Hc. induction a as [|d a IH].
  - exists ["/"%char]. change (String.append "" (String "/" (String c b)))
      with (String "/" (String c b)).
    rewrite normalize_path_spec, lstrip_slash_slash, (lstrip_slash_other _ _ Hc).
    reflexivity.
  - rewrite append_cons. destruct (decide (d = "/"%char)) as [->|Hd].
    + destruct IH as [pre IH]. exists pre. rewrite <- IH.
      rewrite !normalize_path_spec, lstrip_slash_slash. reflexivity.
    + exists ("/"%char :: "/"%char :: d :: Py.chars a).
      rewrite normalize_path_spec, (lstrip_slash_other _ _ Hd).
      cbn [Py.truthy]. unfold Py.chars. cbn [list_ascii_of_string].
      fold (Py.chars (String.append a (String "/" (String c b)))).
      rewrite chars_append. reflexivity.
Qed.

Lemma ends_in_app rs l : ends_in (rs ++ l) rs = true.
Proof.
  induction rs as [|c rs IH]; [destruct l; reflexivity|].
  cbn [app ends_in]. rewrite bool_decide_eq_true_2 by reflexivity. exact IH.
Qed.

Lemma rev_digits_head ds :
  Forall (fun c => digit c = true) ds -> ds <> [] ->
  exists d l, rev ds = d :: l /\ digit d = true.
Proof.
  intros Hds Hne. destruct (rev ds) as [|d l] eqn:E.
  - exfalso. apply Hne. apply (f_equal (@rev ascii)) in E.
    rewrite rev_involutive in E. exact E.
  - exists d, l. split; [reflexivity|].
    rewrite Forall_forall in Hds. apply Hds. apply list_elem_of_In, in_rev.
    rewrite E. left. reflexivity.
Qed.

Lemma digit_not c (x : ascii) :
  digit c = true -> digit x = false -> c <> x.
Proof. intros Hc Hx ->. congruence. Qed.

Lemma header_number_digits ds pre :
  Forall (fun c => digit c = true) ds -> ds <> [] ->
  header_number (rev ds ++ "H"%char :: "/"%char :: pre)
  = Some (int_of_digits ds).
Proof.
  intros Hds Hne. unfold header_number.
  rewrite span_digits; [|apply Forall_rev, Hds|reflexivity].
  destruct (rev_digits_head ds Hds Hne) as (d & l & E & _).
  rewrite E. rewrite !bool_decide_eq_true_2 by reflexivity. cbn [andb].
  rewrite <- E, rev_involutive. reflexivity.
Qed.

End PathTestFacts.

(** X1: normalising a path twice changes nothing more, and the parent path
    [get_parent_path] returns is already in normal form.  The builder relies
    on it: it normalises a path, stores the node under it, and normalises it
    again in [get_header_level], [get_parent_path] and
    [ensure_path_exists]. *)
Theorem normalize_path_is_idempotent (path : string) :
  Hierarchy.normalize_path (Hierarchy.normalize_path path)
  = Hierarchy.normalize_path path
  /\ Hierarchy.normalize_path (Hierarchy.get_parent_path path)
     = Hierarchy.get_parent_path path.
Proof.
  split; [apply PathFacts.normalize_path_idempotent
         |apply PathFacts.get_parent_path_normalized].
Qed.

(** X2: a path that has a parent is its parent path, a slash, and its last
    component (the name the builder gives the node); the parent path is
    strictly shorter, which is why [ensure_path_exists] stops. *)
Theorem parent_path_and_name_rebuild_path (path : string) :
  Hierarchy.get_parent_path path <> EmptyString ->
  Hierarchy.normalize_path path
  = String.append (Hierarchy.get_parent_path path)
      (String.append "/" (Hierarchy.last_component (Hierarchy.normalize_path path)))
  /\ String.length (Hierarchy.get_parent_path path)
     < String.length (Hierarchy.normalize_path path).
Proof.
  intros Hne. split; [|apply HierarchyFacts.get_parent_path_length, Hne].
  revert Hne. unfold Hierarchy.get_parent_path.
  destruct (_ || _); [congruence|].
  destruct (Nat.leb_spec
              (length (Hierarchy.split_slash
                         (Hierarchy.drop2 (Hierarchy.normalize_path path)))) 1)
    as [|Hlen]; [congruence|]. intros _.
  revert Hlen. rewrite (PathFacts.normalize_path_spec path).
  destruct (Py.truthy (Hierarchy.lstrip_slash path)); [|simpl; lia].
  set (r := Hierarchy.lstrip_slash path).
  change (Hierarchy.drop2 (String "/" (String "/" r))) with r. intros Hlen.
  assert (Hlast : Hierarchy.last_component (String "/" (String "/" r))
                  = List.last (Hierarchy.split_slash r) EmptyString).
  { unfold Hierarchy.last_component.
    change (Hierarchy.split_slash (String "/" (String "/" r)))
      with (EmptyString :: EmptyString :: Hierarchy.split_slash r).
    destruct (Hierarchy.split_slash r) eqn:E; [simpl in Hlen; lia|reflexivity]. }
  rewrite Hlast.
  pose proof (PathFacts.join_removelast_last _ Hlen) as H.
  rewrite HierarchyFacts.join_split_slash in H.
  rewrite TextFacts.append_assoc. simpl String.append at 1.
  change (String.append "//" ?x) with (String "/" (String "/" x)).
  rewrite <- H. reflexivity.
Qed.

Lemma parent_path_and_name_rebuild_path_witness :
  Hierarchy.get_parent_path "//Document/Table/TR" = "//Document/Table"
  /\ Hierarchy.last_component "//Document/Table/TR" = "TR"
  /\ String.length "//Document/Table" < String.length "//Document/Table/TR".
Proof.
  pose proof (parent_path_and_name_rebuild_path "//Document/Table/TR") as H.
  split; [reflexivity|]. split; [reflexivity|]. apply H. discriminate.
Defined.

(** X3: the level of a heading is read back from its path: a path that ends
    with [/H] and the decimal writing of [n], with or without an index in
    brackets after it, has level [n], whatever comes before; a path that ends
    with [/Title] has level 0. *)
Theorem get_header_level_reads_the_number (before : string) (n index : nat) :
  PathTests.get_header_level
    (String.append before (String.append "/H" (str_of_nat n))) = Some n
  /\ PathTests.get_header_level
       (String.append before
          (String.append "/H"
             (String.append (str_of_nat n)
                (String.append "[" (String.append (str_of_nat index) "]")))))
     = Some n
  /\ PathTests.get_header_level (String.append before "/Title") = Some O.
Proof.
  assert (HH : "H"%char <> "/"%char) by discriminate.
  assert (HT : "T"%char <> "/"%char) by discriminate.
  pose proof (TextFacts.str_of_nat_digits n) as Hds.
  pose proof (TextFacts.str_of_nat_nonempty n) as Hne.
  pose proof (TextFacts.str_of_nat_digits index) as Hks.
  pose proof (TextFacts.str_of_nat_nonempty index) as Hke.
  split; [|split].
  - destruct (PathTestFacts.normalize_path_chars before "H" (str_of_nat n) HH)
      as [pre E].
    unfold PathTests.get_header_level, PathTests.ends_with, PathTests.before_end.
    change (String.append "/H" (str_of_nat n)) with (String "/" (String "H" (str_of_nat n))).
    rewrite E. clear E.
    replace (rev (pre ++ "/"%char :: "H"%char :: Py.chars (str_of_nat n)))
      with (rev (Py.chars (str_of_nat n)) ++ "H"%char :: "/"%char :: rev pre)
      by (rewrite rev_app_distr; cbn [rev]; rewrite <- !app_assoc; reflexivity).
    destruct (PathTestFacts.rev_digits_head _ Hds Hne) as (d & l & El & Hd).
    rewrite El. cbn [app].
    assert (Hd1 : d <> "e"%char) by (apply (PathTestFacts.digit_not _ _ Hd); reflexivity).
    assert (Hd2 : d <> ascii_of_nat 10) by (apply (PathTestFacts.digit_not _ _ Hd); reflexivity).
    assert (Hd3 : d <> "]"%char) by (apply (PathTestFacts.digit_not _ _ Hd); reflexivity).
    cbn [rev Py.chars list_ascii_of_string app PathTests.ends_in].
    rewrite (bool_decide_eq_false_2 ("e"%char = d)) by congruence.
    cbn [andb]. rewrite (bool_decide_eq_false_2 _ Hd2).
    cbn [PathTests.without_index]. rewrite (bool_decide_eq_false_2 _ Hd3).
    change (d :: l ++ "H"%char :: "/"%char :: rev pre)
      with ((d :: l) ++ "H"%char :: "/"%char :: rev pre).
    rewrite <- El, PathTestFacts.header_number_digits by assumption.
    rewrite TextFacts.int_of_str_of_nat. reflexivity.
  - set (tail := String.append (str_of_nat n)
                   (String.append "[" (String.append (str_of_nat index) "]"))).
    destruct (PathTestFacts.normalize_path_chars before "H" tail HH) as [pre E].
    unfold PathTests.get_header_level, PathTests.ends_with, PathTests.before_end.
    change (String.append "/H" tail) with (String "/" (String "H" tail)).
    rewrite E. clear E. unfold tail.
    rewrite !TextFacts.chars_append.
    change (Py.chars "[") with ["["%char]. change (Py.chars "]") with ["]"%char].
    replace (rev (pre ++ "/"%char :: "H"%char :: Py.chars (str_of_nat n)
                    ++ ["["%char] ++ Py.chars (str_of_nat index) ++ ["]"%char]))
      with ("]"%char :: rev (Py.chars (str_of_nat index))
              ++ "["%char :: (rev (Py.chars (str_of_nat n))
              ++ "H"%char :: "/"%char :: rev pre)).
    2:{ rewrite rev_app_distr. cbn [rev]. rewrite !rev_app_distr. cbn [rev app].
        rewrite <- !app_assoc. cbn [app]. reflexivity. }
    cbn [rev Py.chars list_ascii_of_string app PathTests.ends_in].
    rewrite (bool_decide_eq_false_2 ("e"%char = "]"%char)) by discriminate.
    cbn [andb]. rewrite (bool_decide_eq_false_2 ("]"%char = ascii_of_nat 10)) by discriminate.
    cbn [PathTests.without_index].
    rewrite (bool_decide_eq_true_2 ("]"%char = "]"%char)) by reflexivity.
    rewrite TextFacts.span_digits; [|apply Forall_rev, Hks|reflexivity].
    destruct (PathTestFacts.rev_digits_head _ Hks Hke) as (d & l & El & Hd).
    rewrite El. rewrite (bool_decide_eq_true_2 ("["%char = "["%char)) by reflexivity.
    rewrite PathTestFacts.header_number_digits by assumption.
    rewrite TextFacts.int_of_str_of_nat. reflexivity.
  - destruct (PathTestFacts.normalize_path_chars before "T" "itle" HT) as [pre E].
    unfold PathTests.get_header_level, PathTests.ends_with.
    change (String.append before "/Title")
      with (String.append before (String "/" (String "T" "itle"))).
    rewrite E. clear E.
    replace (rev (pre ++ "/"%char :: "T"%char :: Py.chars "itle"))
      with (rev (Py.chars "/Title") ++ rev pre)
      by (rewrite rev_app_distr; reflexivity).
    rewrite PathTestFacts.ends_in_app. reflexivity.
Qed.

(** ** The shape of the tree the hierarchy builder returns *)

Module TreeFacts.
Import Hierarchy HierarchyFacts TextFacts PathFacts TreeView.

Definition children_of (s : store) (q : nat) : list nat :=
  match s !! q with Some d => d_children d | None => [] end.

Definition linked (s : store) (q c : nat) : Prop := c ∈ children_of s q.

Definition attached (s : store) (root p : nat) : Prop :=
  p = root \/ exists q, linked s q p.

(** The node that has been made and not yet hung, with the path it is
    stored under. *)
Definition pending := option (nat * string).

Definition slack (pend : pending) : nat :=
  match pend with Some _ => 1 | None => 0 end.

Record shape (root : nat) (rank : nat -> nat) (pend : pending) (st : state)
  : Prop := mkShape {
  s_root : root < length (st_store st);
  s_link : forall q c, linked (st_store st) q c ->
             c < length (st_store st) /\ c <> root /\ rank q < rank c
             /\ attached (st_store st) root q;
  s_single : forall q1 q2 c, linked (st_store st) q1 c ->
               linked (st_store st) q2 c -> q1 = q2;
  s_nodup : forall q, NoDup (children_of (st_store st) q);
  s_all : forall p, p < length (st_store st) ->
            attached (st_store st) root p \/ exists k, pend = Some (p, k);
  s_rank : forall p, attached (st_store st) root p ->
             rank p < length (st_store st) - slack pend;
  s_pending : forall p k, pend = Some (p, k) ->
                p < length (st_store st) /\ ~ attached (st_store st) root p
                /\ children_of (st_store st) p = [];
  s_header : forall k v, header_context st !! k = Some v ->
               attached (st_store st) root v;
  s_paths : forall k v, path_to_node st !! k = Some v ->
              attached (st_store st) root v \/ pend = Some (v, k)
}.

(** The store grows: dictionaries keep their place, name, text and path,
    and children are only added. *)
Definition grows (s s' : store) : Prop :=
  forall p d, s !! p = Some d ->
    exists d', s' !! p = Some d' /\ d_name d' = d_name d
               /\ d_text d' = d_text d /\ d_path d' = d_path d
               /\ (forall c, c ∈ d_children d -> c ∈ d_children d').

Lemma grows_refl s : grows s s.
Proof. intros p d E. exists d. auto. Qed.

Lemma grows_trans s1 s2 s3 : grows s1 s2 -> grows s2 s3 -> grows s1 s3.
Proof.
  intros H12 H23 p d E. destruct (H12 p d E) as (d2 & E2 & Hn & Ht & Hp & Hc).
  destruct (H23 p d2 E2) as (d3 & E3 & Hn3 & Ht3 & Hp3 & Hc3).
  exists d3. repeat split; try congruence. auto.
Qed.

Lemma grows_length s s' : grows s s' -> length s <= length s'.
Proof.
  intros G. destruct (decide (length s = 0)) as [|Hne]; [lia|].
  destruct (lookup_lt_is_Some_2 s (length s - 1)) as [d E]; [lia|].
  destruct (G _ _ E) as (d' & E' & _). apply lookup_lt_Some in E'. lia.
Qed.

Lemma grows_linked s s' q c : grows s s' -> linked s q c -> linked s' q c.
Proof.
  unfold linked, children_of. intros G. destruct (s !! q) as [d|] eqn:E.
  - destruct (G q d E) as (d' & -> & _ & _ & _ & Hc). apply Hc.
  - intros H. inversion H.
Qed.

Lemma grows_attached s s' root p :
  grows s s' -> attached s root p -> attached s' root p.
Proof.
  intros G [->|[q H]]; [left; reflexivity|right].
  exists q. eapply grows_linked; eauto.
Qed.

Lemma linked_lt s q c : linked s q c -> q < length s.
Proof.
  unfold linked, children_of. destruct (s !! q) eqn:E.
  - intros _. eapply lookup_lt_Some, E.
  - intros H. inversion H.
Qed.

(** *** The store after a dictionary has been added *)

Lemma children_of_app s d q :
  children_of (s ++ [d]) q
  = if decide (q = length s) then d_children d else children_of s q.
Proof.
  unfold children_of. destruct (decide (q = length s)) as [->|Hq].
  - rewrite lookup_app_r by lia. rewrite Nat.sub_diag. reflexivity.
  - destruct (decide (q < length s)).
    + rewrite lookup_app_l by lia. reflexivity.
    + rewrite !lookup_ge_None_2; [reflexivity|lia|rewrite length_app; simpl; lia].
Qed.

Lemma linked_app s d q c :
  d_children d = [] -> linked (s ++ [d]) q c <-> linked s q c.
Proof.
  intros Hd. unfold linked. rewrite children_of_app.
  destruct (decide (q = length s)) as [->|]; [|reflexivity].
  rewrite Hd. unfold children_of. rewrite lookup_ge_None_2 by lia. reflexivity.
Qed.

Lemma attached_app s d root p :
  d_children d = [] -> attached (s ++ [d]) root p <-> attached s root p.
Proof.
  intros Hd. unfold attached. split; intros [->|[q H]]; auto; right; exists q;
    eapply linked_app; eauto.
Qed.

Lemma grows_app s d : grows s (s ++ [d]).
Proof.
  intros p e E. exists e. rewrite lookup_app_l by (eapply lookup_lt_Some, E). auto.
Qed.

(** *** The store after a child has been appended *)

Definition add_child (c : nat) (d : dict) : dict :=
  mkDict (d_name d) (d_text d) (d_path d) (d_children d ++ [c]).

Lemma children_of_alter s q c q' :
  q < length s ->
  children_of (alter (add_child c) q s) q'
  = if decide (q' = q) then children_of s q ++ [c] else children_of s q'.
Proof.
  intros Hq. unfold children_of. destruct (decide (q' = q)) as [->|Hne].
  - rewrite list_lookup_alter_eq. destruct (lookup_lt_is_Some_2 s q Hq) as [d E].
    rewrite E. reflexivity.
  - rewrite list_lookup_alter_ne by congruence. reflexivity.
Qed.

Lemma linked_alter s q c q' c' :
  q < length s ->
  linked (alter (add_child c) q s) q' c'
  <-> linked s q' c' \/ (q' = q /\ c' = c).
Proof.
  intros Hq. unfold linked. rewrite children_of_alter by exact Hq.
  destruct (decide (q' = q)) as [->|Hne].
  - rewrite elem_of_app, list_elem_of_singleton. tauto.
  - split; [auto|]. intros [H|[H _]]; [exact H|congruence].
Qed.

Lemma grows_alter s q c : grows s (alter (add_child c) q s).
Proof.
  intros p d E. destruct (decide (p = q)) as [->|Hne].
  - exists (add_child c d). rewrite list_lookup_alter_eq, E. repeat split.
    intros x Hx. apply elem_of_app. left. exact Hx.
  - exists d. rewrite list_lookup_alter_ne by congruence. auto.
Qed.

Lemma store_append_child q c st :
  st_store (append_child q c st) = alter (add_child c) q (st_store st).
Proof. reflexivity. Qed.

(** *** The three steps that change the tree *)

Lemma attached_lt root rank pend st p :
  shape root rank pend st -> attached (st_store st) root p ->
  p < length (st_store st).
Proof.
  intros S [->|[q H]]; [apply (s_root _ _ _ _ S)|].
  apply (s_link _ _ _ _ S) in H. tauto.
Qed.

Lemma shape_alloc_pending root rank st d k :
  shape root rank None st -> d_children d = [] ->
  shape root rank (Some (length (st_store st), k))
        (set_path k (length (st_store st)) (alloc d st).1).
Proof.
  intros S Hd. pose proof (s_root _ _ _ _ S) as Hr.
  assert (Hfresh : ~ attached (st_store st) root (length (st_store st))).
  { intros [E|[q H]]; [lia|]. apply (s_link _ _ _ _ S) in H. lia. }
  constructor; cbn [alloc set_path fst st_store header_context path_to_node].
  - rewrite length_app. simpl. lia.
  - intros q c H. rewrite linked_app in H by exact Hd.
    destruct (s_link _ _ _ _ S q c H) as (H1 & H2 & H3 & H4).
    rewrite length_app, attached_app by exact Hd. simpl. repeat split; auto; lia.
  - intros q1 q2 c H1 H2. rewrite linked_app in H1, H2 by exact Hd.
    eapply (s_single _ _ _ _ S); eauto.
  - intros q. rewrite children_of_app. destruct (decide _).
    + rewrite Hd. constructor.
    + apply (s_nodup _ _ _ _ S).
  - intros p Hp. rewrite length_app in Hp. simpl in Hp.
    destruct (decide (p = length (st_store st))) as [->|Hne]; [right; eauto|].
    left. rewrite attached_app by exact Hd.
    destruct (s_all _ _ _ _ S p) as [H|[k' H]]; [lia|exact H|discriminate].
  - intros p H. rewrite attached_app in H by exact Hd.
    apply (s_rank _ _ _ _ S) in H. rewrite length_app. simpl in *. lia.
  - intros p k' [= <- <-]. rewrite length_app, attached_app by exact Hd.
    simpl. split; [lia|]. split; [exact Hfresh|].
    rewrite children_of_app, decide_True by reflexivity. exact Hd.
  - intros k' v H. rewrite attached_app by exact Hd. apply (s_header _ _ _ _ S _ _ H).
  - intros k' v H. rewrite attached_app by exact Hd.
    apply lookup_insert_Some in H. destruct H as [[<- <-]|[_ H]]; [right; reflexivity|].
    destruct (s_paths _ _ _ _ S _ _ H) as [H'|H']; [left; exact H'|discriminate].
Qed.

Lemma shape_header root rank pend st h :
  shape root rank pend st ->
  (forall k v, h !! k = Some v -> attached (st_store st) root v) ->
  shape root rank pend (mkState (st_store st) h (path_to_node st)).
Proof. intros S Hh. destruct S. constructor; auto. Qed.

Lemma shape_attach_pending root rank st x k q :
  shape root rank (Some (x, k)) st -> attached (st_store st) root q ->
  (exists rank', shape root rank' None (append_child q x st))
  /\ attached (st_store (append_child q x st)) root x
  /\ grows (st_store st) (st_store (append_child q x st)).
Proof.
  intros S Hq. pose proof (s_root _ _ _ _ S) as Hr.
  pose proof (attached_lt _ _ _ _ _ S Hq) as Hql.
  destruct (s_pending _ _ _ _ S x k eq_refl) as (Hx & Hxa & Hxc).
  set (L := length (st_store st)) in *.
  assert (G : grows (st_store st) (st_store (append_child q x st))).
  { rewrite store_append_child. apply grows_alter. }
  assert (Hnew : linked (st_store (append_child q x st)) q x).
  { rewrite store_append_child. apply linked_alter; [exact Hql|]. right. auto. }
  split; [|split; [right; exists q; exact Hnew|exact G]].
  exists (fun p => if decide (p = x) then L - 1 else rank p).
  assert (Hold : forall q' c', linked (st_store st) q' c' -> q' <> x /\ c' <> x).
  { intros q' c' H. split; intros ->.
    - unfold linked in H. rewrite Hxc in H. inversion H.
    - apply Hxa. right. eauto. }
  constructor; rewrite ?store_append_child;
    cbn [append_child header_context path_to_node]; rewrite ?length_alter.
  - exact Hr.
  - intros q' c' H. apply linked_alter in H; [|exact Hql].
    destruct H as [H|[-> ->]].
    + destruct (Hold _ _ H) as [Hq' Hc'].
      destruct (s_link _ _ _ _ S q' c' H) as (H1 & H2 & H3 & H4).
      rewrite !decide_False by assumption. repeat split; auto.
      rewrite <- store_append_child. eapply grows_attached; eauto.
    + assert (Hqx : q <> x) by (intros ->; auto).
      rewrite decide_False by exact Hqx. rewrite decide_True by reflexivity.
      pose proof (s_rank _ _ _ _ S q Hq) as Hrk. simpl in Hrk.
      repeat split; auto.
      * intros ->. apply Hxa. left. reflexivity.
      * rewrite <- store_append_child. eapply grows_attached; eauto.
  - intros q1 q2 c H1 H2. apply linked_alter in H1, H2; try exact Hql.
    destruct H1 as [H1|[-> ->]], H2 as [H2|[-> E2]]; try congruence.
    + eapply (s_single _ _ _ _ S); eauto.
    + subst c. exfalso. apply Hxa. right. eauto.
    + exfalso. apply Hxa. right. eauto.
  - intros q'. rewrite children_of_alter by exact Hql.
    destruct (decide (q' = q)) as [->|]; [|apply (s_nodup _ _ _ _ S)].
    apply NoDup_app. split; [apply (s_nodup _ _ _ _ S)|].
    split; [|apply NoDup_singleton].
    intros c Hc Hin. apply list_elem_of_singleton in Hin. subst c.
    apply Hxa. right. exists q. exact Hc.
  - intros p Hp. left. destruct (s_all _ _ _ _ S p Hp) as [H|[k' [= -> ->]]].
    + rewrite <- store_append_child. eapply grows_attached; eauto.
    + right. exists q. rewrite <- store_append_child. exact Hnew.
  - intros p H. simpl. rewrite Nat.sub_0_r.
    assert (Hp : p = x \/ (p <> x /\ attached (st_store st) root p)).
    { destruct (decide (p = x)) as [|Hne]; [left; assumption|right].
      split; [exact Hne|]. destruct H as [->|[q' H]]; [left; reflexivity|].
      apply linked_alter in H; [|exact Hql]. destruct H as [H|[_ ->]]; [|congruence].
      right. eauto. }
    destruct Hp as [->|[Hne Hp]].
    + rewrite decide_True by reflexivity. fold L. lia.
    + rewrite decide_False by exact Hne.
      pose proof (s_rank _ _ _ _ S p Hp) as Hrk. simpl in Hrk. fold L in Hrk |- *. lia.
  - discriminate.
  - intros k' v H. rewrite <- store_append_child. eapply grows_attached; eauto.
    apply (s_header _ _ _ _ S _ _ H).
  - intros k' v H. left. rewrite <- store_append_child.
    destruct (s_paths _ _ _ _ S _ _ H) as [H'|[= -> ->]].
    + eapply grows_attached; eauto.
    + right. exists q. exact Hnew.
Qed.

Lemma shape_attach_new root rank pend st q d k :
  shape root rank pend st -> attached (st_store st) root q ->
  d_children d = [] ->
  let m := length (st_store st) in
  let st' := append_child q m (set_path k m (alloc d st).1) in
  (exists rank', shape root rank' pend st')
  /\ attached (st_store st') root m
  /\ grows (st_store st) (st_store st').
Proof.
  intros S Hq Hd m st'. pose proof (s_root _ _ _ _ S) as Hr.
  pose proof (attached_lt _ _ _ _ _ S Hq) as Hql.
  assert (Hst : st_store st' = alter (add_child m) q (st_store st ++ [d])) by reflexivity.
  assert (Hql' : q < length (st_store st ++ [d])) by (rewrite length_app; simpl; lia).
  assert (G : grows (st_store st) (st_store st')).
  { rewrite Hst. eapply grows_trans; [apply grows_app|apply grows_alter]. }
  assert (Hlink : forall q' c', linked (st_store st') q' c'
                    <-> linked (st_store st) q' c' \/ (q' = q /\ c' = m)).
  { intros q' c'. rewrite Hst, linked_alter by exact Hql'.
    rewrite linked_app by exact Hd. reflexivity. }
  assert (Hnew : linked (st_store st') q m) by (apply Hlink; auto).
  assert (Hold : forall q' c', linked (st_store st) q' c' -> q' < m /\ c' < m).
  { intros q' c' H. split; [eapply linked_lt, H|].
    apply (s_link _ _ _ _ S) in H. tauto. }
  assert (Hslack : slack pend <= 1) by (destruct pend; simpl; lia).
  split; [|split; [right; exists q; exact Hnew|exact G]].
  exists (fun p => if decide (p = m) then m - slack pend else rank p).
  constructor; rewrite ?Hst; rewrite ?length_alter, ?length_app; rewrite <- ?Hst;
    cbn [length]; fold m.
  - lia.
  - intros q' c' H. apply Hlink in H. destruct H as [H|[-> ->]].
    + destruct (Hold _ _ H) as [Hq' Hc'].
      destruct (s_link _ _ _ _ S q' c' H) as (H1 & H2 & H3 & H4).
      rewrite !decide_False by lia. repeat split; auto; [lia|].
      eapply grows_attached; eauto.
    + rewrite decide_False by (unfold m; lia). rewrite decide_True by reflexivity.
      pose proof (s_rank _ _ _ _ S q Hq) as Hrk. fold m in Hrk.
      repeat split; auto; [lia|unfold m; lia|]. eapply grows_attached; eauto.
  - intros q1 q2 c H1 H2. apply Hlink in H1, H2.
    destruct H1 as [H1|[-> ->]], H2 as [H2|[-> E2]]; try congruence.
    + eapply (s_single _ _ _ _ S); eauto.
    + subst c. apply Hold in H1. lia.
    + apply Hold in H2. lia.
  - intros q'. rewrite Hst, children_of_alter by exact Hql'.
    rewrite !children_of_app.
    destruct (decide (q' = q)) as [->|].
    + rewrite decide_False by (unfold m in *; lia).
      apply NoDup_app. split; [apply (s_nodup _ _ _ _ S)|].
      split; [|apply NoDup_singleton].
      intros c Hc Hin. apply list_elem_of_singleton in Hin. subst c.
      assert (H : linked (st_store st) q m) by exact Hc. apply Hold in H. lia.
    + destruct (decide _); [rewrite Hd; constructor|apply (s_nodup _ _ _ _ S)].
  - intros p Hp. destruct (decide (p = m)) as [->|Hne].
    + left. right. exists q. exact Hnew.
    + destruct (s_all _ _ _ _ S p) as [H|H]; [unfold m in *; lia| |right; exact H].
      left. eapply grows_attached; eauto.
  - intros p H.
    assert (Hp : p = m \/ (p <> m /\ attached (st_store st) root p)).
    { destruct (decide (p = m)) as [|Hne]; [left; assumption|right].
      split; [exact Hne|]. destruct H as [->|[q' H]]; [left; reflexivity|].
      apply Hlink in H. destruct H as [H|[_ ->]]; [|congruence]. right. eauto. }
    destruct Hp as [->|[Hne Hp]].
    + rewrite decide_True by reflexivity. unfold m in *. lia.
    + rewrite decide_False by exact Hne.
      pose proof (s_rank _ _ _ _ S p Hp) as Hrk. fold m in Hrk. lia.
  - intros p k' E. destruct (s_pending _ _ _ _ S p k' E) as (Hx & Hxa & Hxc).
    fold m in Hx. split; [lia|]. split.
    + intros [->|[q' H]]; [apply Hxa; left; reflexivity|].
      apply Hlink in H. destruct H as [H|[_ ->]]; [|lia]. apply Hxa. right. eauto.
    + rewrite Hst, children_of_alter by exact Hql'.
      assert (p <> q) by (intros ->; auto).
      rewrite decide_False by assumption.
      rewrite children_of_app, decide_False by (unfold m in *; lia). exact Hxc.
  - intros k' v H. eapply grows_attached; eauto. apply (s_header _ _ _ _ S _ _ H).
  - intros k' v H. cbn [st' append_child set_path alloc fst path_to_node] in H.
    apply lookup_insert_Some in H. destruct H as [[<- <-]|[_ H]].
    + left. right. exists q. exact Hnew.
    + destruct (s_paths _ _ _ _ S _ _ H) as [H'|H'];
        [left; eapply grows_attached; eauto|right; exact H'].
Qed.

(** *** What the shape says of the unfolded tree *)

Definition label_at (s : store) (p : nat) : string * option string * option string :=
  match s !! p with
  | Some d => (d_name d, d_text d, d_path d)
  | None => (EmptyString, None, None)
  end.

Lemma flat_map_map {A B C} (f : B -> list C) (g : A -> B) (l : list A) :
  flat_map f (map g l) = flat_map (fun x => f (g x)) l.
Proof. induction l as [|x l IH]; simpl; [reflexivity|]. rewrite IH. reflexivity. Qed.

Lemma flat_map_ext_Forall {A B} (f g : A -> list B) (l : list A) :
  Forall (fun x => f x = g x) l -> flat_map f l = flat_map g l.
Proof. induction 1 as [|x l H _ IH]; simpl; [reflexivity|]. rewrite H, IH. reflexivity. Qed.

Lemma labels_unfold s : forall depth p,
  labels (unfold depth s p) = map (label_at s) (positions depth s p).
Proof.
  induction depth as [|depth IH]; intros p; [reflexivity|].
  cbn [unfold positions]. destruct (s !! p) as [d|] eqn:E; [|reflexivity].
  cbn [labels map]. unfold label_at at 1. rewrite E. f_equal.
  rewrite flat_map_map.
  induction (d_children d) as [|c l IHl]; [reflexivity|].
  cbn [flat_map]. rewrite map_app, IH, IHl. reflexivity.
Qed.

Lemma tree_size_unfold s : forall depth p,
  tree_size (unfold depth s p) = length (positions depth s p).
Proof.
  induction depth as [|depth IH]; intros p; [reflexivity|].
  cbn [unfold positions]. destruct (s !! p) as [d|] eqn:E; [|reflexivity].
  cbn [tree_size length]. f_equal.
  induction (d_children d) as [|c l IHl]; [reflexivity|].
  simpl in *. rewrite length_app, IH. f_equal. exact IHl.
Qed.

Lemma unfold_stable s : forall depth p,
  complete (unfold depth s p) = true ->
  forall depth', depth <= depth' -> unfold depth' s p = unfold depth s p.
Proof.
  induction depth as [|depth IH]; intros p Hc depth' Hle; [discriminate|].
  destruct depth' as [|depth']; [lia|].
  cbn [unfold] in *. destruct (s !! p) as [d|]; [|discriminate].
  cbn [complete] in Hc. f_equal.
  induction (d_children d) as [|c l IHl]; [reflexivity|].
  cbn [map forallb] in *. apply andb_true_iff in Hc. destruct Hc as [Hc1 Hc2].
  f_equal; [apply IH; [exact Hc1|lia]|apply IHl, Hc2].
Qed.

Section FinalShape.
Variables (root : nat) (rank : nat -> nat) (st : state).
Hypothesis Sh : shape root rank None st.
Local Abbreviation s := (st_store st).

Lemma final_attached p : p < length s -> attached s root p.
Proof.
  intros Hp. destruct (s_all _ _ _ _ Sh p Hp) as [H|[k H]]; [exact H|discriminate].
Qed.

Lemma final_rank p : p < length s -> rank p < length s.
Proof.
  intros Hp. pose proof (s_rank _ _ _ _ Sh p (final_attached p Hp)) as H.
  simpl in H. lia.
Qed.

Lemma complete_unfold : forall depth p,
  p < length s -> length s <= rank p + depth ->
  complete (unfold depth s p) = true.
Proof.
  induction depth as [|depth IH]; intros p Hp Hd.
  - pose proof (final_rank p Hp). lia.
  - cbn [unfold]. destruct (lookup_lt_is_Some_2 s p Hp) as [d E]. rewrite E.
    cbn [complete]. rewrite forallb_forall. intros t Ht.
    apply in_map_iff in Ht. destruct Ht as (c & <- & Hc).
    assert (Hl : linked s p c).
    { unfold linked, children_of. rewrite E. apply list_elem_of_In, Hc. }
    destruct (s_link _ _ _ _ Sh p c Hl) as (H1 & _ & H3 & _).
    apply IH; [exact H1|lia].
Qed.

(** A position met below [a] is reached from [a] along the children. *)
Inductive reach : nat -> nat -> Prop :=
| reach_refl a : reach a a
| reach_step a b c : reach a b -> linked s b c -> reach a c.

Lemma reach_first a b c : linked s a b -> reach b c -> reach a c.
Proof.
  intros H R. induction R as [b|b x c R IH L]; [|eapply reach_step; eauto].
  eapply reach_step; [apply reach_refl|exact H].
Qed.

Lemma reach_rank a b : reach a b -> rank a <= rank b.
Proof.
  induction 1 as [a|a b c R IH L]; [lia|].
  apply (s_link _ _ _ _ Sh) in L. lia.
Qed.

Lemma reach_comparable a b x : reach a x -> reach b x -> reach a b \/ reach b a.
Proof.
  intros Ra. revert b. induction Ra as [a|a y x Ra IH L]; intros b Rb.
  - right. exact Rb.
  - inversion Rb as [|b' y' x' Rb' L']; subst.
    + left. eapply reach_step; eauto.
    + assert (y' = y) by (eapply (s_single _ _ _ _ Sh); eauto). subst y'.
      apply IH, Rb'.
Qed.

Lemma positions_reach : forall depth p x, x ∈ positions depth s p -> reach p x.
Proof.
  induction depth as [|depth IH]; intros p x H; [inversion H|].
  cbn [positions] in H. destruct (s !! p) as [d|] eqn:E; [|inversion H].
  apply elem_of_cons in H. destruct H as [->|H]; [apply reach_refl|].
  apply list_elem_of_In, in_flat_map in H. destruct H as (c & Hc & Hx).
  apply list_elem_of_In in Hx. apply IH in Hx.
  eapply reach_first; [|exact Hx]. unfold linked, children_of. rewrite E.
  apply list_elem_of_In, Hc.
Qed.

Lemma NoDup_flat_map {A B} (f : A -> list B) (l : list A) :
  NoDup l -> (forall x, x ∈ l -> NoDup (f x)) ->
  (forall x y z, x ∈ l -> y ∈ l -> z ∈ f x -> z ∈ f y -> x = y) ->
  NoDup (flat_map f l).
Proof.
  induction 1 as [|x l Hx Hl IH]; intros Hf Hd; cbn [flat_map]; [constructor|].
  apply NoDup_app. split; [apply Hf; left|]. split.
  - intros z Hz Hin. apply list_elem_of_In, in_flat_map in Hin.
    destruct Hin as (y & Hy & Hzy). apply list_elem_of_In in Hy, Hzy.
    assert (x = y) by (eapply Hd; eauto; [left|right; exact Hy]). subst y. auto.
  - apply IH.
    + intros y Hy. apply Hf. right. exact Hy.
    + intros y1 y2 z H1 H2. apply Hd; right; assumption.
Qed.

Lemma positions_NoDup : forall depth p, NoDup (positions depth s p).
Proof.
  induction depth as [|depth IH]; intros p; [constructor|].
  cbn [positions]. destruct (s !! p) as [d|] eqn:E; [|constructor].
  assert (Hch : forall c, c ∈ d_children d -> linked s p c).
  { intros c Hc. unfold linked, children_of. rewrite E. exact Hc. }
  constructor.
  - intros H. apply list_elem_of_In, in_flat_map in H. destruct H as (c & Hc & Hx).
    apply list_elem_of_In in Hc, Hx. apply positions_reach, reach_rank in Hx.
    apply Hch, (s_link _ _ _ _ Sh) in Hc. lia.
  - apply NoDup_flat_map.
    + pose proof (s_nodup _ _ _ _ Sh p) as H. unfold children_of in H.
      rewrite E in H. exact H.
    + intros c _. apply IH.
    + intros c1 c2 x H1 H2 Hx1 Hx2. apply positions_reach in Hx1, Hx2.
      apply Hch in H1, H2.
      assert (Hno : forall a b, linked s p a -> linked s p b -> reach a b -> a = b).
      { intros a b La Lb R. inversion R as [|a' y b' R' L]; subst; [reflexivity|].
        assert (y = p) by (eapply (s_single _ _ _ _ Sh); eauto). subst y.
        apply reach_rank in R'. apply (s_link _ _ _ _ Sh) in La. lia. }
      destruct (reach_comparable _ _ _ Hx1 Hx2) as [R|R];
        [|symmetry]; eapply Hno; eauto.
Qed.

Lemma positions_child : forall depth r q c,
  q ∈ positions depth s r -> linked s q c -> c ∈ positions (S depth) s r.
Proof.
  induction depth as [|depth IH]; intros r q c H L; [inversion H|].
  cbn [positions] in H. destruct (s !! r) as [d|] eqn:E; [|inversion H].
  apply elem_of_cons in H. destruct H as [->|H].
  - cbn [positions]. rewrite E. right.
    apply list_elem_of_In, in_flat_map. exists c.
    destruct (s_link _ _ _ _ Sh _ _ L) as (Hc & _).
    unfold linked, children_of in L. rewrite E in L.
    split; [apply list_elem_of_In, L|].
    destruct (lookup_lt_is_Some_2 s c Hc) as [dc Ec].
    rewrite Ec. left. reflexivity.
  - change (positions (S (S depth)) s r)
      with (match s !! r with
            | Some d => r :: flat_map (positions (S depth) s) (d_children d)
            | None => []
            end).
    rewrite E. right.
    apply list_elem_of_In, in_flat_map in H. destruct H as (c' & Hc' & Hq).
    apply list_elem_of_In, in_flat_map. exists c'. split; [exact Hc'|].
    apply list_elem_of_In. eapply IH; [apply list_elem_of_In, Hq|exact L].
Qed.

Lemma positions_all : forall n p,
  rank p <= n -> p < length s -> p ∈ positions (S n) s root.
Proof.
  induction n as [n IH] using lt_wf_ind. intros p Hr Hp.
  destruct (final_attached p Hp) as [->|[q L]].
  - cbn [positions]. destruct (lookup_lt_is_Some_2 s root Hp) as [d E].
    rewrite E. left.
  - destruct (s_link _ _ _ _ Sh q p L) as (_ & _ & Hlt & _).
    pose proof (linked_lt _ _ _ L) as Hq.
    destruct n as [|n]; [lia|].
    eapply positions_child; [|exact L]. apply (IH n); [lia|lia|exact Hq].
Qed.

Lemma positions_mono : forall depth p x,
  x ∈ positions depth s p -> x ∈ positions (S depth) s p.
Proof.
  induction depth as [|depth IH]; intros p x H; [inversion H|].
  cbn [positions] in H.
  change (positions (S (S depth)) s p)
    with (match s !! p with
          | Some d => p :: flat_map (positions (S depth) s) (d_children d)
          | None => []
          end).
  destruct (s !! p) as [d|]; [|inversion H].
  apply elem_of_cons in H. destruct H as [->|H]; [left|right].
  apply list_elem_of_In, in_flat_map in H. destruct H as (c & Hc & Hx).
  apply list_elem_of_In, in_flat_map. exists c. split; [exact Hc|].
  apply list_elem_of_In, IH, list_elem_of_In, Hx.
Qed.

Lemma positions_lt : forall depth p x, x ∈ positions depth s p -> x < length s.
Proof.
  induction depth as [|depth IH]; intros p x H; [inversion H|].
  cbn [positions] in H. destruct (s !! p) as [d|] eqn:E; [|inversion H].
  apply elem_of_cons in H. destruct H as [->|H]; [eapply lookup_lt_Some, E|].
  apply list_elem_of_In, in_flat_map in H. destruct H as (c & Hc & Hx).
  eapply IH, list_elem_of_In, Hx.
Qed.

Lemma positions_full :
  positions (length s) s root ≡ₚ seq 0 (length s).
Proof.
  apply NoDup_Permutation; [apply positions_NoDup|apply NoDup_seq|].
  intros x. rewrite elem_of_seq. split.
  - intros H. apply positions_lt in H. lia.
  - intros [_ Hx]. simpl in Hx.
    pose proof (final_rank x Hx) as Hr.
    destruct (length s) as [|n] eqn:El; [lia|].
    apply positions_all; lia.
Qed.

End FinalShape.

(** *** The builder keeps the shape *)

Definition Shape (root : nat) (pend : pending) (st : state) : Prop :=
  exists rank, shape root rank pend st.

Lemma current_header_attached root pend st :
  Shape root pend st -> attached (st_store st) root (current_header root st).
Proof.
  intros [rank S]. unfold current_header.
  destruct (header_context st !! _) eqn:E; simpl;
    [apply (s_header _ _ _ _ S _ _ E)|left; reflexivity].
Qed.

Lemma ensure_path_exists_shape root pend : forall fuel target st,
  Shape root pend st ->
  (forall x pk, pend = Some (x, pk) ->
     normalize_path target = EmptyString
     \/ String.length (normalize_path target) < String.length pk) ->
  Shape root pend (ensure_path_exists fuel root target st).1
  /\ attached (st_store (ensure_path_exists fuel root target st).1) root
              (ensure_path_exists fuel root target st).2
  /\ grows (st_store st) (st_store (ensure_path_exists fuel root target st).1).
Proof.
  induction fuel as [|fuel IH]; intros target st HS HC;
    cbn [ensure_path_exists];
    set (normalized := normalize_path target) in *;
    (destruct (is_document_or_empty normalized) eqn:Hdoc;
     [cbn [fst snd]; split; [exact HS|split; [left; reflexivity|apply grows_refl]]|]);
    (destruct (path_to_node st !! normalized) as [n|] eqn:Elook;
     [cbn [fst snd]; split; [exact HS|split; [|apply grows_refl]];
      destruct HS as [rank S];
      destruct (s_paths _ _ _ _ S _ _ Elook) as [H|H]; [exact H|];
      destruct (HC _ _ H) as [E|E];
      [rewrite E in Hdoc; discriminate|lia]|]).
  - set (parent := if is_document_or_empty (get_parent_path normalized)
                   then (st, current_header root st) else (st, root)).
    assert (HP : Shape root pend parent.1
                 /\ attached (st_store parent.1) root parent.2
                 /\ grows (st_store st) (st_store parent.1)).
    { unfold parent.
      destruct (is_document_or_empty (get_parent_path normalized)); cbn [fst snd].
      - split; [exact HS|]. split; [eapply current_header_attached, HS|apply grows_refl].
      - split; [exact HS|]. split; [left; reflexivity|apply grows_refl]. }
    destruct parent as [st1 parent_node]. cbn [fst snd] in HP.
    destruct HP as ([rank1 S1] & Hatt & G1).
    destruct (shape_attach_new root rank1 pend st1 parent_node
                (mkDict (last_component normalized) (Some EmptyString)
                        (Some normalized) [])
                normalized S1 Hatt eq_refl) as (HS' & Hm & G').
    cbn [alloc fst snd] in *. split; [exact HS'|]. split; [exact Hm|].
    eapply grows_trans; eauto.
  - set (parent := if is_document_or_empty (get_parent_path normalized)
                   then (st, current_header root st)
                   else ensure_path_exists fuel root (get_parent_path normalized) st).
    assert (HP : Shape root pend parent.1
                 /\ attached (st_store parent.1) root parent.2
                 /\ grows (st_store st) (st_store parent.1)).
    { unfold parent.
      destruct (is_document_or_empty (get_parent_path normalized)) eqn:Hpar;
        cbn [fst snd].
      - split; [exact HS|]. split; [eapply current_header_attached, HS|apply grows_refl].
      - apply IH; [exact HS|]. intros x pk E.
        rewrite get_parent_path_normalized.
        destruct (HC _ _ E) as [E'|Hlt].
        + fold normalized in E'. rewrite E' in Hdoc. discriminate.
        + right. assert (Hne : get_parent_path normalized <> EmptyString).
          { intros E'. rewrite E' in Hpar. discriminate. }
          pose proof (get_parent_path_length _ Hne) as Hlen.
          unfold normalized in Hlen at 2. rewrite normalize_path_idempotent in Hlen.
          fold normalized in Hlen. lia. }
    destruct parent as [st1 parent_node]. cbn [fst snd] in HP.
    destruct HP as ([rank1 S1] & Hatt & G1).
    destruct (shape_attach_new root rank1 pend st1 parent_node
                (mkDict (last_component normalized) (Some EmptyString)
                        (Some normalized) [])
                normalized S1 Hatt eq_refl) as (HS' & Hm & G').
    cbn [alloc fst snd] in *. split; [exact HS'|]. split; [exact Hm|].
    eapply grows_trans; eauto.
Qed.

Lemma header_lookup_attached root pend st k :
  Shape root pend st ->
  attached (st_store st) root (default root (header_context st !! k)).
Proof.
  intros [rank S]. destruct (header_context st !! k) eqn:E; simpl;
    [apply (s_header _ _ _ _ S _ _ E)|left; reflexivity].
Qed.

Lemma place_header_shape root st x k level :
  Shape root (Some (x, k)) st ->
  Shape root None (place_header level x root st)
  /\ attached (st_store (place_header level x root st)) root x
  /\ grows (st_store st) (st_store (place_header level x root st)).
Proof.
  intros HS. unfold place_header.
  set (parent := default root (header_context st !! _)).
  assert (Hp : attached (st_store st) root parent)
    by (eapply header_lookup_attached, HS).
  destruct HS as [rank S].
  destruct (shape_attach_pending _ _ _ _ _ _ S Hp) as ([rank' S'] & Hx & G).
  cbn [st_store]. split; [|split; [exact Hx|exact G]].
  exists rank'. apply (shape_header _ _ _ _ _ S').
  intros lvl v H. apply map_lookup_filter_Some in H. destruct H as [H _].
  apply lookup_insert_Some in H. destruct H as [[_ <-]|[_ H]]; [exact Hx|].
  apply (s_header _ _ _ _ S' _ _ H).
Qed.

Section BuilderShape.
Variable get_header_level : string -> option nat.
Variable is_top_level_table : string -> bool.
Variable is_inline_content : string -> bool.
Variable is_table_or_complex_structure : string -> bool.

Local Abbreviation add_element :=
  (add_element get_header_level is_top_level_table is_inline_content
               is_table_or_complex_structure).
Local Abbreviation parse_hierarchy :=
  (parse_hierarchy get_header_level is_top_level_table is_inline_content
                   is_table_or_complex_structure).

(** The node made for an element is in the store, with its name, text and
    path, and it hangs from a node of the tree. *)
Definition placed (root : nat) (s : store) (elem : element) : Prop :=
  exists p d, s !! p = Some d
              /\ (d_name d, d_text d, d_path d) = label_of elem
              /\ attached s root p.

Lemma placed_grows root s s' elem :
  grows s s' -> placed root s elem -> placed root s' elem.
Proof.
  intros G (p & d & E & Hl & Ha). destruct (G p d E) as (d' & E' & Hn & Ht & Hp & _).
  exists p, d'. split; [exact E'|]. split; [|eapply grows_attached; eauto].
  rewrite Hn, Ht, Hp. exact Hl.
Qed.

Lemma add_element_shape root st elem :
  Shape root None st ->
  Shape root None (add_element root st elem)
  /\ grows (st_store st) (st_store (add_element root st elem))
  /\ (kept elem = true ->
      placed root (st_store (add_element root st elem)) elem
      /\ length (st_store st) < length (st_store (add_element root st elem))).
Proof.
  intros HS. unfold Hierarchy.add_element, kept, label_of, placed.
  set (path := normalize_path (e_path elem)).
  set (name := if Py.truthy path then last_component path else EmptyString).
  destruct (bool_decide (name = "Document") && bool_decide (path = "//Document")).
  { split; [exact HS|]. split; [apply grows_refl|discriminate]. }
  cbn [alloc]. set (d := mkDict name (Some (e_text elem)) (Some path) []).
  set (x := length (st_store st)).
  set (st2 := set_path path x _).
  assert (S2 : Shape root (Some (x, path)) st2).
  { destruct HS as [rank S]. exists rank.
    apply (shape_alloc_pending _ _ _ d path S eq_refl). }
  assert (G2 : grows (st_store st) (st_store st2)) by apply grows_app.
  assert (E2 : st_store st2 !! x = Some d).
  { cbn [st2 set_path st_store]. rewrite lookup_app_r by (unfold x; lia).
    unfold x. rewrite Nat.sub_diag. reflexivity. }
  assert (Hfin : forall st',
            Shape root None st' /\ attached (st_store st') root x
            /\ grows (st_store st2) (st_store st') ->
            Shape root None st' /\ grows (st_store st) (st_store st')
            /\ (negb false = true ->
                (exists p d', st_store st' !! p = Some d'
                  /\ (d_name d', d_text d', d_path d') = (name, Some (e_text elem), Some path)
                  /\ attached (st_store st') root p)
                /\ length (st_store st) < length (st_store st'))).
  { intros st' (HS' & Hx & G'). split; [exact HS'|].
    split; [eapply grows_trans; eauto|]. intros _.
    destruct (G' x d E2) as (d' & E' & Hn & Ht & Hp & _). split.
    - exists x, d'. split; [exact E'|]. split; [|exact Hx].
      rewrite Hn, Ht, Hp. reflexivity.
    - apply lookup_lt_Some in E'. unfold x in E'. exact E'. }
  assert (Hcur : forall st',
            st' = append_child (current_header root st2) x st2 ->
            Shape root None st' /\ attached (st_store st') root x
            /\ grows (st_store st2) (st_store st')).
  { intros st' ->. pose proof (current_header_attached _ _ _ S2) as Hq.
    destruct S2 as [rank S]. exact (shape_attach_pending _ _ _ _ _ _ S Hq). }
  destruct (get_header_level path) as [level|].
  { apply Hfin. exact (place_header_shape root st2 x path level S2). }
  destruct (is_top_level_table path); [apply Hfin, Hcur; reflexivity|].
  destruct (is_inline_content path || is_table_or_complex_structure path);
    [|apply Hfin, Hcur; reflexivity].
  unfold ensure_parent.
  destruct (ensure_path_exists_shape root (Some (x, path))
              (String.length (get_parent_path path)) (get_parent_path path) st2 S2)
    as (S3 & Hq & G3).
  { intros x' pk [= <- <-]. rewrite get_parent_path_normalized.
    destruct (decide (get_parent_path path = EmptyString)) as [E|Hne]; [left; exact E|].
    right. pose proof (get_parent_path_length _ Hne) as Hlen.
    unfold path in Hlen at 2. rewrite normalize_path_idempotent in Hlen. exact Hlen. }
  destruct (ensure_path_exists _ root (get_parent_path path) st2) as [st3 parent].
  cbn [fst snd] in *. apply Hfin.
  destruct S3 as [rank S].
  destruct (shape_attach_pending _ _ _ _ _ _ S Hq) as (HS' & Hx & G').
  split; [exact HS'|]. split; [exact Hx|]. eapply grows_trans; eauto.
Qed.

Lemma fold_add_element_shape root elements : forall st,
  Shape root None st ->
  Shape root None (fold_left (add_element root) elements st)
  /\ grows (st_store st) (st_store (fold_left (add_element root) elements st))
  /\ (forall elem, elem ∈ elements -> kept elem = true ->
        placed root (st_store (fold_left (add_element root) elements st)) elem)
  /\ length (st_store st) + length (List.filter kept elements)
     <= length (st_store (fold_left (add_element root) elements st)).
Proof.
  induction elements as [|e elements IH]; intros st HS; cbn [fold_left].
  - split; [exact HS|]. split; [apply grows_refl|]. split; [|simpl; lia].
    intros elem H. inversion H.
  - destruct (add_element_shape root st e HS) as (HS1 & G1 & Hp1).
    destruct (IH _ HS1) as (HS2 & G2 & Hp2 & Hlen).
    split; [exact HS2|]. split; [eapply grows_trans; eauto|]. split.
    + intros elem Hin Hk. apply elem_of_cons in Hin. destruct Hin as [->|Hin].
      * eapply placed_grows; [exact G2|]. apply Hp1, Hk.
      * apply Hp2; assumption.
    + cbn [List.filter]. pose proof (grows_length _ _ G1) as Hg.
      destruct (kept e) eqn:Hk; [|lia].
      destruct (Hp1 eq_refl) as [_ Hlt]. cbn [length]. lia.
Qed.

Lemma initial_shape :
  Shape 0 None
    (mkState [mkDict "Document Root" None None []] {[ O := O ]}
             (<["//Document" := O]> {[ EmptyString := O ]})).
Proof.
  exists (fun _ => O). constructor; cbn [st_store header_context path_to_node length].
  - lia.
  - intros q c H. unfold linked, children_of in H.
    destruct q as [|q]; simpl in H; inversion H.
  - intros q1 q2 c H. unfold linked, children_of in H.
    destruct q1 as [|q]; simpl in H; inversion H.
  - intros q. unfold children_of. destruct q; simpl; constructor.
  - intros p Hp. left. left. lia.
  - intros p _. simpl. lia.
  - discriminate.
  - intros k v H. apply lookup_singleton_Some in H. left. lia.
  - intros k v H. left. left. apply lookup_insert_Some in H.
    destruct H as [[_ <-]|[_ H]]; [reflexivity|].
    apply lookup_singleton_Some in H. lia.
Qed.

Lemma parse_hierarchy_shape elements :
  let run := parse_hierarchy [] elements in
  run.2 = O
  /\ (exists rank st, st_store st = run.1 /\ shape 0 rank None st)
  /\ (forall elem, elem ∈ elements -> kept elem = true -> placed 0 run.1 elem)
  /\ 1 + length (List.filter kept elements) <= length run.1.
Proof.
  cbn [Hierarchy.parse_hierarchy fst snd length app].
  destruct (fold_add_element_shape 0 elements _ initial_shape)
    as ([rank S] & _ & Hp & Hlen).
  split; [reflexivity|]. split; [eauto|]. split; [exact Hp|exact Hlen].
Qed.

End BuilderShape.

End TreeFacts.

(** X4: whatever the tests on paths answer, [parse_hierarchy] returns a
    tree: unfolded to the depth of the number of dictionaries made, it
    holds no cut (no dictionary is below itself, so the tree can be
    written out); the positions met on the way are those of all the
    dictionaries made, each met exactly once (no dictionary is left out,
    none is a child twice or of two parents), so the tree has as many nodes
    as dictionaries were made; it has at least one node for the root and
    one for every element that is not the skipped [Document] element; and
    unfolding deeper changes nothing. *)
Theorem parse_hierarchy_returns_a_tree
        (get_header_level : string -> option nat)
        (is_top_level_table is_inline_content is_table_or_complex_structure
           : string -> bool)
        (elements : list Hierarchy.element) :
  let run := Hierarchy.parse_hierarchy get_header_level is_top_level_table
               is_inline_content is_table_or_complex_structure [] elements in
  let t := Hierarchy.unfold (length run.1) run.1 run.2 in
  TreeView.complete t = true
  /\ TreeView.positions (length run.1) run.1 run.2 ≡ₚ seq 0 (length run.1)
  /\ Hierarchy.tree_size t = length run.1
  /\ 1 + length (List.filter TreeView.kept elements) <= Hierarchy.tree_size t
  /\ forall depth, length run.1 <= depth ->
       Hierarchy.unfold depth run.1 run.2 = t.
Proof.
  intros run t.
  destruct (TreeFacts.parse_hierarchy_shape get_header_level is_top_level_table
              is_inline_content is_table_or_complex_structure elements)
    as (Hroot & (rank & st & Est & Sh) & _ & Hlen).
  fold run in Hroot, Est, Hlen. subst t. rewrite Hroot, <- Est in *.
  assert (Hc : TreeView.complete
                 (Hierarchy.unfold (length (Hierarchy.st_store st))
                                   (Hierarchy.st_store st) 0) = true).
  { apply (TreeFacts.complete_unfold _ _ _ Sh); [apply (TreeFacts.s_root _ _ _ _ Sh)|lia]. }
  assert (Hsize : Hierarchy.tree_size
                    (Hierarchy.unfold (length (Hierarchy.st_store st))
                                      (Hierarchy.st_store st) 0)
                  = length (Hierarchy.st_store st)).
  { rewrite TreeFacts.tree_size_unfold.
    rewrite (Permutation_length (TreeFacts.positions_full _ _ _ Sh)).
    apply length_seq. }
  split; [exact Hc|]. split; [exact (TreeFacts.positions_full _ _ _ Sh)|].
  split; [exact Hsize|]. split; [rewrite Hsize; exact Hlen|].
  intros depth Hd. apply TreeFacts.unfold_stable; assumption.
Qed.

(** X5: no element is lost: every element of the input other than the
    skipped [Document] element has a node in the tree returned, with the
    last component of its normalised path as name, its text, and its
    normalised path. *)
Theorem parse_hierarchy_keeps_every_element
        (get_header_level : string -> option nat)
        (is_top_level_table is_inline_content is_table_or_complex_structure
           : string -> bool)
        (elements : list Hierarchy.element) (elem : Hierarchy.element) :
  In elem elements -> TreeView.kept elem = true ->
  let run := Hierarchy.parse_hierarchy get_header_level is_top_level_table
               is_inline_content is_table_or_complex_structure [] elements in
  In (TreeView.label_of elem)
     (TreeView.labels (Hierarchy.unfold (length run.1) run.1 run.2)).
Proof.
  intros Hin Hk run.
  destruct (TreeFacts.parse_hierarchy_shape get_header_level is_top_level_table
              is_inline_content is_table_or_complex_structure elements)
    as (Hroot & (rank & st & Est & Sh) & Hp & _).
  fold run in Hroot, Est, Hp. rewrite Hroot.
  destruct (Hp elem (proj2 (list_elem_of_In _ _) Hin) Hk) as (p & d & E & Hl & _).
  rewrite <- Est in *. rewrite TreeFacts.labels_unfold.
  apply in_map_iff. exists p. split.
  - unfold TreeFacts.label_at. rewrite E. exact Hl.
  - apply list_elem_of_In.
    rewrite (TreeFacts.positions_full _ _ _ Sh). apply elem_of_seq.
    apply lookup_lt_Some in E. lia.
Qed.

Definition sample_cell_elements : list Hierarchy.element :=
  [ Hierarchy.mkElement "//Document/H1" "Schedule";
    Hierarchy.mkElement "//Document/Table/TR/TD/P" "X";
    Hierarchy.mkElement "//Document" "";
    Hierarchy.mkElement "//Document/P" "after" ].

Lemma parse_hierarchy_keeps_every_element_witness :
  In ("P", Some "X", Some "//Document/Table/TR/TD/P")
     (TreeView.labels
        (Hierarchy.unfold 7 (PathTests.parse_hierarchy sample_cell_elements).1 0)).
Proof.
  apply (parse_hierarchy_keeps_every_element
           PathTests.get_header_level PathTests.is_top_level_table
           PathTests.is_inline_content PathTests.is_table_or_complex_structure
           sample_cell_elements
           (Hierarchy.mkElement "//Document/Table/TR/TD/P" "X")).
  - right. left. reflexivity.
  - reflexivity.
Defined.

(** ** Where the hierarchy builder hangs a node *)

Module NestingFacts.
Import Hierarchy HierarchyFacts TextFacts PathFacts TreeView TreeFacts.

Lemma label_at_grows s s' p :
  grows s s' -> p < length s -> label_at s' p = label_at s p.
Proof.
  intros G Hp. destruct (lookup_lt_is_Some_2 s p Hp) as [d E].
  destruct (G p d E) as (d' & E' & Hn & Ht & Hpa & _).
  unfold label_at. rewrite E, E', Hn, Ht, Hpa. reflexivity.
Qed.

Section FinalEdges.
Variables (root : nat) (rank : nat -> nat) (st : state).
Hypothesis Sh : shape root rank None st.
Local Abbreviation s := (st_store st).

Lemma unfold_label depth p :
  p < length s -> label_of_tree (unfold (S depth) s p) = [label_at s p].
Proof.
  intros Hp. destruct (lookup_lt_is_Some_2 s p Hp) as [d E].
  cbn [unfold]. unfold label_at. rewrite E. reflexivity.
Qed.

Lemma edges_positions : forall depth r q c,
  q ∈ positions depth s r -> linked s q c ->
  In (label_at s q, label_at s c) (edges (unfold (S depth) s r)).
Proof.
  induction depth as [|depth IH]; intros r q c H L; [inversion H|].
  cbn [positions] in H. destruct (s !! r) as [d|] eqn:E; [|inversion H].
  change (unfold (S (S depth)) s r)
    with (match s !! r with
          | Some d => Tree (d_name d) (d_text d) (d_path d)
                           (map (unfold (S depth) s) (d_children d))
          | None => Cut
          end).
  rewrite E. cbn [edges]. apply in_flat_map.
  apply elem_of_cons in H. destruct H as [->|H].
  - exists (unfold (S depth) s c). split.
    + apply in_map. unfold linked, children_of in L. rewrite E in L.
      apply list_elem_of_In, L.
    + apply in_or_app. left.
      destruct (s_link _ _ _ _ Sh _ _ L) as (Hc & _).
      rewrite (unfold_label _ _ Hc). left. unfold label_at at 2. rewrite E. reflexivity.
  - apply list_elem_of_In, in_flat_map in H. destruct H as (c' & Hc' & Hq).
    exists (unfold (S depth) s c'). split; [apply in_map, Hc'|].
    apply in_or_app. right. apply IH; [apply list_elem_of_In, Hq|exact L].
Qed.

Lemma final_edge q c :
  linked s q c ->
  In (label_at s q, label_at s c) (edges (unfold (length s) s root)).
Proof.
  intros L. destruct (s_link _ _ _ _ Sh _ _ L) as (Hc & _ & Hr & _).
  pose proof (final_rank _ _ _ Sh c Hc) as Hrc.
  pose proof (linked_lt _ _ _ L) as Hq.
  destruct (length s) as [|[|n]] eqn:El; [lia|lia|].
  apply edges_positions; [|exact L]. rewrite <- El in *.
  apply (positions_all _ _ _ Sh); [lia|rewrite El; lia].
Qed.

End FinalEdges.

Lemma s_link_lt {root pend} st q c :
  Shape root pend st -> linked (st_store st) q c ->
  c < length (st_store st) /\ q < length (st_store st).
Proof.
  intros [rank S] L. split; [apply (s_link _ _ _ _ S) in L; tauto|].
  eapply linked_lt, L.
Qed.

(** *** The dictionary stored under a path carries that path *)

Definition paths_ok (st : state) : Prop :=
  forall k v, path_to_node st !! k = Some v ->
    is_document_or_empty k = true
    \/ exists d, st_store st !! v = Some d /\ d_path d = Some k
                 /\ d_name d = last_component k.

Lemma paths_ok_grows st s' h :
  paths_ok st -> grows (st_store st) s' ->
  paths_ok (mkState s' h (path_to_node st)).
Proof.
  intros H G k v E. destruct (H k v E) as [Hd|(d & Ed & Hp & Hn)]; [left; exact Hd|].
  right. destruct (G v d Ed) as (d' & E' & Hn' & _ & Hp' & _).
  exists d'. split; [exact E'|]. split; congruence.
Qed.

Lemma ensure_path_exists_paths root : forall fuel target st,
  paths_ok st ->
  paths_ok (ensure_path_exists fuel root target st).1
  /\ header_context (ensure_path_exists fuel root target st).1 = header_context st
  /\ (if is_document_or_empty (normalize_path target)
      then (ensure_path_exists fuel root target st).2 = root
      else exists d, st_store (ensure_path_exists fuel root target st).1
                       !! (ensure_path_exists fuel root target st).2 = Some d
                     /\ d_path d = Some (normalize_path target)
                     /\ d_name d = last_component (normalize_path target)).
Proof.
  assert (Hnew : forall st1 parent_node normalized (st0 : state),
            paths_ok st1 -> header_context st1 = header_context st0 ->
            let d := mkDict (last_component normalized) (Some EmptyString)
                            (Some normalized) [] in
            let st' := append_child parent_node (length (st_store st1))
                         (set_path normalized (length (st_store st1)) (alloc d st1).1) in
            paths_ok st' /\ header_context st' = header_context st0
            /\ exists d', st_store st' !! length (st_store st1) = Some d'
                          /\ d_path d' = Some normalized
                          /\ d_name d' = last_component normalized).
  { intros st1 parent_node normalized st0 H1 Hh d st'.
    assert (G : grows (st_store st1) (st_store st')).
    { eapply grows_trans; [apply (grows_app _ d)|apply grows_alter]. }
    assert (Ex : exists d', st_store st' !! length (st_store st1) = Some d'
                            /\ d_path d' = Some normalized
                            /\ d_name d' = last_component normalized).
    { destruct (grows_alter (st_store st1 ++ [d]) parent_node (length (st_store st1))
                  (length (st_store st1)) d) as (d' & E' & Hn & _ & Hp & _).
      { rewrite lookup_app_r by lia. rewrite Nat.sub_diag. reflexivity. }
      exists d'. split; [exact E'|]. split; [exact Hp|exact Hn]. }
    split; [|split; [exact Hh|exact Ex]].
    intros k v E. cbn [st' append_child set_path alloc fst path_to_node] in E.
    apply lookup_insert_Some in E. destruct E as [[<- <-]|[_ E]]; [right; exact Ex|].
    destruct (H1 k v E) as [Hd|(d0 & Ed & Hp & Hn)]; [left; exact Hd|].
    right. destruct (G v d0 Ed) as (d' & E' & Hn' & _ & Hp' & _).
    exists d'. split; [exact E'|]. split; congruence. }
  induction fuel as [|fuel IH]; intros target st HS;
    cbn [ensure_path_exists];
    set (normalized := normalize_path target) in *;
    (destruct (is_document_or_empty normalized) eqn:Hdoc;
     [cbn [fst snd]; split; [exact HS|split; reflexivity]|]);
    (destruct (path_to_node st !! normalized) as [n|] eqn:Elook;
     [cbn [fst snd]; split; [exact HS|split; [reflexivity|]];
      destruct (HS _ _ Elook) as [H|H]; [congruence|exact H]|]).
  - set (parent := if is_document_or_empty (get_parent_path normalized)
                   then (st, current_header root st) else (st, root)).
    assert (HP : paths_ok parent.1 /\ header_context parent.1 = header_context st).
    { unfold parent.
      destruct (is_document_or_empty (get_parent_path normalized)); cbn [fst snd]; auto. }
    destruct parent as [st1 parent_node]. cbn [fst snd] in HP. destruct HP as [H1 Hh].
    destruct (Hnew st1 parent_node normalized st H1 Hh) as (Ha & Hb & Hc).
    cbn [alloc fst snd] in *. auto.
  - set (parent := if is_document_or_empty (get_parent_path normalized)
                   then (st, current_header root st)
                   else ensure_path_exists fuel root (get_parent_path normalized) st).
    assert (HP : paths_ok parent.1 /\ header_context parent.1 = header_context st).
    { unfold parent.
      destruct (is_document_or_empty (get_parent_path normalized)); cbn [fst snd]; auto.
      destruct (IH (get_parent_path normalized) st HS) as (Ha & Hb & _). auto. }
    destruct parent as [st1 parent_node]. cbn [fst snd] in HP. destruct HP as [H1 Hh].
    destruct (Hnew st1 parent_node normalized st H1 Hh) as (Ha & Hb & Hc).
    cbn [alloc fst snd] in *. auto.
Qed.

(** *** The keys of [header_context] *)

Definition key_below (bound : nat) (ctx : gmap nat nat) : nat :=
  max_list (List.filter (fun lvl => (lvl <? bound)%nat) (elements (dom ctx))).

Lemma max_list_ext l1 l2 :
  (forall x : nat, x ∈ l1 <-> x ∈ l2) -> max_list l1 = max_list l2.
Proof.
  intros H. destruct l1 as [|a l1], l2 as [|b l2]; [reflexivity| | |].
  - exfalso. assert (Hb : b ∈ @nil nat) by (apply H; left). inversion Hb.
  - exfalso. assert (Ha : a ∈ @nil nat) by (apply H; left). inversion Ha.
  - apply Nat.le_antisymm; apply max_list_elem_of_le, H, max_list_elem_of; discriminate.
Qed.

Lemma max_list_top (l : list nat) (m : nat) :
  m ∈ l -> (forall x, x ∈ l -> x <= m) -> max_list l = m.
Proof.
  intros Hm Hle. apply Nat.le_antisymm; [|apply max_list_elem_of_le, Hm].
  apply Hle, max_list_elem_of. intros ->. inversion Hm.
Qed.

Definition placed_context (level x : nat) (ctx : gmap nat nat) : gmap nat nat :=
  filter (fun kv : nat * nat => kv.1 <= level) (<[level := x]> ctx).

Lemma placed_context_keys level x ctx k :
  k ∈ elements (dom (placed_context level x ctx))
  <-> k <= level /\ (k = level \/ k ∈ dom ctx).
Proof.
  rewrite elem_of_elements, elem_of_dom. unfold placed_context, is_Some. split.
  - intros [v H]. apply map_lookup_filter_Some in H. destruct H as [H Hle].
    simpl in Hle. split; [exact Hle|]. apply lookup_insert_Some in H.
    destruct H as [[-> _]|[_ H]]; [left; reflexivity|right].
    apply elem_of_dom. eauto.
  - intros [Hle [->|H]].
    + exists x. apply map_lookup_filter_Some. split; [|simpl; lia].
      apply lookup_insert_eq.
    + destruct (decide (k = level)) as [->|Hne].
      * exists x. apply map_lookup_filter_Some. split; [|simpl; lia].
        apply lookup_insert_eq.
      * apply elem_of_dom in H. destruct H as [v H]. exists v.
        apply map_lookup_filter_Some. split; [|simpl; lia].
        rewrite lookup_insert_ne by congruence. exact H.
Qed.

Lemma placed_context_lookup level x ctx k :
  k < level -> placed_context level x ctx !! k = ctx !! k.
Proof.
  intros Hk. unfold placed_context. destruct (ctx !! k) as [v|] eqn:E.
  - apply map_lookup_filter_Some. split; [|simpl; lia].
    rewrite lookup_insert_ne by lia. exact E.
  - apply map_lookup_filter_None. left. rewrite lookup_insert_ne by lia. exact E.
Qed.

Lemma elem_of_filter_below bound (l : list nat) k :
  k ∈ List.filter (fun lvl => (lvl <? bound)%nat) l <-> k ∈ l /\ k < bound.
Proof.
  rewrite !list_elem_of_In, filter_In, Nat.ltb_lt. reflexivity.
Qed.

Lemma key_below_lt bound ctx : 1 <= bound -> key_below bound ctx < bound.
Proof.
  intros Hb. unfold key_below.
  destruct (List.filter _ _) as [|a l] eqn:E; [simpl; lia|].
  assert (H : max_list (a :: l) ∈ a :: l) by (apply max_list_elem_of; discriminate).
  rewrite <- E in H. apply elem_of_filter_below in H. rewrite E in H. tauto.
Qed.

Lemma key_below_placed_new level x ctx bound :
  level < bound ->
  key_below bound (placed_context level x ctx) = level
  /\ placed_context level x ctx !! level = Some x.
Proof.
  intros Hlt. split.
  - apply max_list_top.
    + apply elem_of_filter_below. split; [|exact Hlt].
      apply placed_context_keys. auto.
    + intros k Hk. apply elem_of_filter_below in Hk. destruct Hk as [Hk _].
      apply placed_context_keys in Hk. tauto.
  - apply map_lookup_filter_Some. split; [|simpl; lia]. apply lookup_insert_eq.
Qed.

Lemma key_below_placed_old level x ctx bound :
  bound <= level -> 1 <= bound ->
  key_below bound (placed_context level x ctx) = key_below bound ctx
  /\ placed_context level x ctx !! key_below bound ctx
     = ctx !! key_below bound ctx.
Proof.
  intros Hle Hb. split.
  - apply max_list_ext. intros k. rewrite !elem_of_filter_below.
    rewrite placed_context_keys, elem_of_elements. split.
    + intros [[_ [->|H]] Hk]; [lia|tauto].
    + intros [H Hk]. split; [|exact Hk]. split; [lia|auto].
  - apply placed_context_lookup. pose proof (key_below_lt bound ctx Hb). lia.
Qed.

Lemma current_key_placed level x ctx :
  max_list (elements (dom (placed_context level x ctx))) = level.
Proof.
  apply max_list_top.
  - apply placed_context_keys. auto.
  - intros k Hk. apply placed_context_keys in Hk. tauto.
Qed.

Lemma key_below_zero ctx : key_below 0 ctx = key_below 1 ctx.
Proof.
  unfold key_below.
  assert (E0 : List.filter (fun lvl => (lvl <? 0)%nat) (elements (dom ctx)) = []).
  { induction (elements (dom ctx)) as [|a l IH]; [reflexivity|]. simpl. exact IH. }
  rewrite E0. pose proof (key_below_lt 1 ctx (le_n 1)) as H.
  unfold key_below in H. simpl. lia.
Qed.

(** *** The parent an element gets *)

Section BuilderNesting.
Variable get_header_level : string -> option nat.
Variable is_top_level_table : string -> bool.
Variable is_inline_content : string -> bool.
Variable is_table_or_complex_structure : string -> bool.
Variable root : nat.

Local Abbreviation add_element :=
  (add_element get_header_level is_top_level_table is_inline_content
               is_table_or_complex_structure root).

Lemma add_element_skipped st elem : kept elem = false -> add_element st elem = st.
Proof.
  unfold kept, Hierarchy.add_element. intros H. apply negb_false_iff in H.
  rewrite H. reflexivity.
Qed.

(** The element hangs under the current heading: it is a top-level table,
    or neither inline content nor part of a table or list. *)
Definition under_heading (path : string) : bool :=
  is_top_level_table path
  || negb (is_inline_content path || is_table_or_complex_structure path).

Lemma add_element_link st elem :
  Shape root None st -> paths_ok st -> kept elem = true ->
  let x := length (st_store st) in
  let st' := add_element st elem in
  let path := normalize_path (e_path elem) in
  label_at (st_store st') x = label_of elem
  /\ paths_ok st'
  /\ exists q, linked (st_store st') q x /\ q < length (st_store st')
     /\ match get_header_level path with
        | Some level =>
            q = default root (header_context st !! key_below level (header_context st))
            /\ header_context st' = placed_context level x (header_context st)
        | None =>
            header_context st' = header_context st
            /\ if under_heading path then q = current_header root st
               else if is_document_or_empty (get_parent_path path) then q = root
               else exists d, st_store st' !! q = Some d
                              /\ d_path d = Some (get_parent_path path)
                              /\ d_name d = last_component (get_parent_path path)
        end.
Proof.
  intros HS HP Hk x st' path. subst st'.
  unfold kept in Hk. apply negb_true_iff in Hk.
  unfold Hierarchy.add_element, label_of, under_heading. cbv zeta. fold path.
  fold path in Hk.
  set (name := if Py.truthy path then last_component path else EmptyString) in *.
  rewrite Hk. cbn [alloc]. fold x.
  set (d := mkDict name (Some (e_text elem)) (Some path) []).
  set (st2 := set_path path x _).
  assert (S2 : Shape root (Some (x, path)) st2).
  { destruct HS as [rank S]. exists rank.
    apply (shape_alloc_pending _ _ _ d path S eq_refl). }
  assert (E2 : st_store st2 !! x = Some d).
  { cbn [st2 set_path st_store]. rewrite lookup_app_r by (unfold x; lia).
    unfold x. rewrite Nat.sub_diag. reflexivity. }
  assert (P2 : paths_ok st2).
  { intros k v E. cbn [st2 set_path path_to_node] in E.
    apply lookup_insert_Some in E. destruct E as [[<- <-]|[_ E]].
    - right. exists d. split; [exact E2|]. split; [reflexivity|].
      unfold d, name. cbn [d_name]. destruct path; reflexivity.
    - destruct (HP k v E) as [Hd|(d0 & Ed & Hp & Hn)]; [left; exact Hd|].
      right. exists d0. split; [|split; [exact Hp|exact Hn]].
      cbn [st2 set_path st_store]. rewrite lookup_app_l; [exact Ed|].
      eapply lookup_lt_Some, Ed. }
  assert (Hlab : forall s', grows (st_store st2) s' ->
            label_at s' x = (name, Some (e_text elem), Some path)).
  { intros s' G. rewrite (label_at_grows _ _ _ G) by (eapply lookup_lt_Some, E2).
    unfold label_at. rewrite E2. reflexivity. }
  assert (Hhang : forall st3 q,
            Shape root (Some (x, path)) st3 -> paths_ok st3 ->
            grows (st_store st2) (st_store st3) ->
            attached (st_store st3) root q ->
            label_at (st_store (append_child q x st3)) x
              = (name, Some (e_text elem), Some path)
            /\ paths_ok (append_child q x st3)
            /\ linked (st_store (append_child q x st3)) q x
            /\ q < length (st_store (append_child q x st3))
            /\ header_context (append_child q x st3) = header_context st3
            /\ forall dq, st_store st3 !! q = Some dq ->
                 exists d', st_store (append_child q x st3) !! q = Some d'
                            /\ d_path d' = d_path dq /\ d_name d' = d_name dq).
  { intros st3 q [rank S3] P3 G3 Hq.
    pose proof (attached_lt _ _ _ _ _ S3 Hq) as Hql.
    assert (Ga : grows (st_store st3) (st_store (append_child q x st3))).
    { rewrite store_append_child. apply grows_alter. }
    split; [apply Hlab; eapply grows_trans; eauto|].
    split; [exact (paths_ok_grows st3 _ _ P3 Ga)|].
    split; [rewrite store_append_child; apply linked_alter; auto|].
    split; [rewrite store_append_child, length_alter; exact Hql|].
    split; [reflexivity|].
    intros dq Eq. destruct (Ga q dq Eq) as (d' & E' & Hn & _ & Hp & _). eauto. }
  destruct (get_header_level path) as [level|].
  { pose proof (header_lookup_attached root _ st2
                  (key_below level (header_context st2)) S2) as Hq.
    destruct (Hhang st2 _ S2 P2 (grows_refl _) Hq) as (H1 & H2 & H3 & H4 & _).
    split; [exact H1|]. split; [exact (paths_ok_grows _ _ _ H2 (grows_refl _))|].
    eexists. split; [exact H3|]. split; [exact H4|]. split; reflexivity. }
  assert (Hcur : let st' := append_child (current_header root st2) x st2 in
            label_at (st_store st') x = (name, Some (e_text elem), Some path)
            /\ paths_ok st'
            /\ exists q, linked (st_store st') q x /\ q < length (st_store st')
               /\ header_context st' = header_context st
               /\ q = current_header root st).
  { pose proof (current_header_attached _ _ _ S2) as Hq.
    destruct (Hhang st2 _ S2 P2 (grows_refl _) Hq) as (H1 & H2 & H3 & H4 & _).
    split; [exact H1|]. split; [exact H2|].
    eexists. split; [exact H3|]. split; [exact H4|]. split; reflexivity. }
  destruct (is_top_level_table path); cbn [orb].
  { destruct Hcur as (H1 & H2 & q & H3 & H4 & H5 & H6). eauto 10. }
  destruct (is_inline_content path || is_table_or_complex_structure path);
    cbn [negb].
  2:{ destruct Hcur as (H1 & H2 & q & H3 & H4 & H5 & H6). eauto 10. }
  unfold ensure_parent.
  destruct (ensure_path_exists_shape root (Some (x, path))
              (String.length (get_parent_path path)) (get_parent_path path) st2 S2)
    as (S3 & Hq & G3).
  { intros x' pk [= <- <-]. rewrite get_parent_path_normalized.
    destruct (decide (get_parent_path path = EmptyString)) as [E|Hne]; [left; exact E|].
    right. pose proof (get_parent_path_length _ Hne) as Hlen.
    unfold path in Hlen at 2. rewrite normalize_path_idempotent in Hlen. exact Hlen. }
  destruct (ensure_path_exists_paths root
              (String.length (get_parent_path path)) (get_parent_path path) st2 P2)
    as (P3 & Hh3 & Hd3).
  rewrite get_parent_path_normalized in Hd3.
  destruct (ensure_path_exists _ root (get_parent_path path) st2) as [st3 parent].
  cbn [fst snd] in *.
  destruct (Hhang st3 parent S3 P3 G3 Hq) as (H1 & H2 & H3 & H4 & H5 & H6).
  split; [exact H1|]. split; [exact H2|].
  exists parent. split; [exact H3|]. split; [exact H4|].
  split; [rewrite H5; exact Hh3|].
  destruct (is_document_or_empty (get_parent_path path)); [exact Hd3|].
  destruct Hd3 as (dq & Eq & Hp & Hn).
  destruct (H6 dq Eq) as (d' & E' & Hp' & Hn'). exists d'.
  split; [exact E'|]. split; congruence.
Qed.

(** *** The headings that are open *)

Local Abbreviation label_above := (label_above get_header_level).
Local Abbreviation heading_level := (heading_level get_header_level).

Definition open_headings (done : list element) (st : state) : Prop :=
  (forall bound, 1 <= bound ->
     label_at (st_store st)
       (default root (header_context st !! key_below bound (header_context st)))
     = label_above (Some bound) done)
  /\ label_at (st_store st) (current_header root st) = label_above None done.

Lemma label_above_snoc bound done elem :
  label_above bound (done ++ [elem])
  = match heading_level elem with
    | Some level => if below bound level then label_of elem
                    else label_above bound done
    | None => label_above bound done
    end.
Proof.
  unfold TreeView.label_above, last_heading. rewrite fold_left_app. cbn [fold_left].
  destruct (TreeView.heading_level _ elem) as [level|]; [|reflexivity].
  destruct (below bound level); reflexivity.
Qed.

Lemma open_headings_step done st elem :
  Shape root None st -> paths_ok st -> open_headings done st ->
  open_headings (done ++ [elem]) (add_element st elem).
Proof.
  intros HS HP [Hb Hc]. destruct (kept elem) eqn:Hk.
  2:{ rewrite add_element_skipped by exact Hk. split.
      - intros bound Hbound. rewrite label_above_snoc.
        unfold TreeView.heading_level. rewrite Hk. apply Hb, Hbound.
      - rewrite label_above_snoc. unfold TreeView.heading_level. rewrite Hk. exact Hc. }
  destruct (add_element_shape get_header_level is_top_level_table is_inline_content
              is_table_or_complex_structure root st elem HS) as (_ & G & _).
  destruct (add_element_link st elem HS HP Hk) as (Hx & _ & q & _ & _ & Hq).
  assert (Hold : forall k,
            label_at (st_store (add_element st elem))
                     (default root (header_context st !! k))
            = label_at (st_store st) (default root (header_context st !! k))).
  { intros k. apply label_at_grows; [exact G|].
    destruct HS as [rank S].
    eapply attached_lt; [exact S|]. eapply header_lookup_attached. exists rank. exact S. }
  assert (Hlevel : heading_level elem = get_header_level (normalize_path (e_path elem))).
  { unfold TreeView.heading_level. rewrite Hk. reflexivity. }
  destruct (get_header_level (normalize_path (e_path elem))) as [level|] eqn:El.
  - destruct Hq as [_ Hctx]. split.
    + intros bound Hbound. rewrite label_above_snoc, Hlevel, Hctx. cbn [below].
      destruct (Nat.ltb_spec level bound) as [Hlt|Hge].
      * destruct (key_below_placed_new level (length (st_store st))
                    (header_context st) bound Hlt) as [-> ->].
        exact Hx.
      * destruct (key_below_placed_old level (length (st_store st))
                    (header_context st) bound Hge Hbound) as [-> ->].
        rewrite Hold. apply Hb, Hbound.
    + rewrite label_above_snoc, Hlevel. cbn [below]. unfold current_header, levels.
      rewrite Hctx, current_key_placed.
      destruct (key_below_placed_new level (length (st_store st))
                  (header_context st) (S level) (Nat.lt_succ_diag_r _)) as [_ ->].
      exact Hx.
  - destruct Hq as [Hctx _]. split.
    + intros bound Hbound. rewrite label_above_snoc, Hlevel, Hctx, Hold.
      apply Hb, Hbound.
    + rewrite label_above_snoc, Hlevel. unfold current_header, levels in *.
      rewrite Hctx, Hold. exact Hc.
Qed.

Definition nesting (done : list element) (st : state) : Prop :=
  Shape root None st /\ paths_ok st /\ open_headings done st.

Lemma nesting_step done st elem :
  nesting done st -> nesting (done ++ [elem]) (add_element st elem).
Proof.
  intros (HS & HP & HO). split; [|split].
  - apply add_element_shape, HS.
  - destruct (kept elem) eqn:Hk.
    + apply (add_element_link st elem HS HP Hk).
    + rewrite add_element_skipped by exact Hk. exact HP.
  - apply open_headings_step; assumption.
Qed.

Lemma nesting_fold : forall elements done st,
  nesting done st ->
  nesting (done ++ elements) (fold_left add_element elements st).
Proof.
  induction elements as [|e elements IH]; intros done st H; cbn [fold_left].
  - rewrite app_nil_r. exact H.
  - replace (done ++ e :: elements) with ((done ++ [e]) ++ elements)
      by (rewrite <- app_assoc; reflexivity).
    apply IH, nesting_step, H.
Qed.

End BuilderNesting.

Section ParentInTree.
Variable get_header_level : string -> option nat.
Variable is_top_level_table : string -> bool.
Variable is_inline_content : string -> bool.
Variable is_table_or_complex_structure : string -> bool.

Local Abbreviation add_element :=
  (Hierarchy.add_element get_header_level is_top_level_table is_inline_content
                         is_table_or_complex_structure 0).
Local Abbreviation parse_hierarchy :=
  (Hierarchy.parse_hierarchy get_header_level is_top_level_table
                             is_inline_content is_table_or_complex_structure).

Definition initial_state : state :=
  mkState [mkDict "Document Root" None None []] {[ O := O ]}
          (<["//Document" := O]> {[ EmptyString := O ]}).

Lemma initial_nesting : nesting get_header_level 0 [] initial_state.
Proof.
  split; [apply initial_shape|]. split.
  - intros k v E. left. unfold initial_state in E. cbn [path_to_node] in E.
    apply lookup_insert_Some in E. destruct E as [[<- _]|[_ E]]; [reflexivity|].
    apply lookup_singleton_Some in E. destruct E as [<- _]. reflexivity.
  - assert (H : forall k, label_at (st_store initial_state)
                            (default 0 (header_context initial_state !! k))
                          = root_label).
    { intros k. unfold initial_state. cbn [st_store header_context].
      destruct (({[0 := 0]} : gmap nat nat) !! k) as [v|] eqn:E; [|reflexivity].
      apply lookup_singleton_Some in E. destruct E as [_ <-]. reflexivity. }
    split; [intros bound _; apply H|apply H].
Qed.

(** The parent of the node made for an element, in the tree returned. *)
Lemma parent_in_tree (before after : list element) (elem : element) :
  kept elem = true ->
  let run := parse_hierarchy [] (before ++ elem :: after) in
  let t := unfold (length run.1) run.1 run.2 in
  let path := normalize_path (e_path elem) in
  exists parent,
    In (parent, label_of elem) (edges t)
    /\ match get_header_level path with
       | Some level =>
           parent = label_above get_header_level (Some (Nat.max level 1)) before
       | None =>
           if under_heading is_top_level_table is_inline_content
                            is_table_or_complex_structure path
           then parent = label_above get_header_level None before
           else if is_document_or_empty (get_parent_path path)
           then parent = root_label
           else exists text,
                  parent = (last_component (get_parent_path path), text,
                            Some (get_parent_path path))
       end.
Proof.
  intros Hk run t path. subst run t.
  unfold Hierarchy.parse_hierarchy. cbn [fst snd length app].
  fold initial_state. rewrite fold_left_app. cbn [fold_left].
  pose proof (nesting_fold get_header_level is_top_level_table is_inline_content
                is_table_or_complex_structure 0 before [] initial_state
                initial_nesting) as (S1 & P1 & [Hb Hc]).
  cbn [app] in S1, P1, Hb, Hc.
  set (st1 := fold_left add_element before initial_state) in *.
  destruct (add_element_shape get_header_level is_top_level_table is_inline_content
              is_table_or_complex_structure 0 st1 elem S1) as (S2 & G12 & _).
  destruct (add_element_link get_header_level is_top_level_table is_inline_content
              is_table_or_complex_structure 0 st1 elem S1 P1 Hk)
    as (Hx & _ & q & Hl & Hq & Hpar).
  set (st2 := add_element st1 elem) in *.
  destruct (fold_add_element_shape get_header_level is_top_level_table
              is_inline_content is_table_or_complex_structure 0 after st2 S2)
    as ([rank Sf] & G2f & _).
  set (stf := fold_left add_element after st2) in *.
  assert (Hxl : length (st_store st1) < length (st_store st2)).
  { exact (proj1 (s_link_lt st2 q (length (st_store st1)) S2 Hl)). }
  exists (label_at (st_store st2) q). split.
  - rewrite <- (label_at_grows _ _ _ G2f) by exact Hq.
    rewrite <- Hx. rewrite <- (label_at_grows _ _ (length (st_store st1)) G2f) by exact Hxl.
    apply (final_edge _ _ _ Sf). eapply grows_linked; eauto.
  - fold path in Hpar.
    assert (Hold : forall k,
              label_at (st_store st2) (default 0 (header_context st1 !! k))
              = label_at (st_store st1) (default 0 (header_context st1 !! k))).
    { intros k. apply label_at_grows; [exact G12|].
      destruct S1 as [rank1 Sh1].
      eapply attached_lt; [exact Sh1|]. eapply header_lookup_attached.
      exists rank1. exact Sh1. }
    destruct (get_header_level path) as [level|].
    + destruct Hpar as [-> _]. rewrite Hold.
      destruct level as [|level].
      * rewrite key_below_zero. apply Hb. cbn. lia.
      * rewrite Nat.max_l by lia. apply Hb. lia.
    + destruct Hpar as [_ Hpar].
      destruct (under_heading _ _ _ path).
      * subst q. unfold current_header in *. rewrite Hold. exact Hc.
      * destruct (is_document_or_empty (get_parent_path path)).
        -- subst q. destruct S2 as [rank2 Sh2].
           pose proof (s_root _ _ _ _ Sh2) as Hr.
           rewrite (label_at_grows (st_store initial_state)); [reflexivity| |simpl; lia].
           eapply grows_trans; [|exact G12].
           apply (fold_add_element_shape get_header_level is_top_level_table
                    is_inline_content is_table_or_complex_structure 0 before
                    initial_state initial_shape).
        -- destruct Hpar as (d & E & Hp & Hn). exists (d_text d).
           unfold label_at. rewrite E, Hp, Hn. reflexivity.
Qed.

End ParentInTree.

End NestingFacts.

(** X6: a part of a table or list, or inline content, hangs from the node
    of its parent path: in the tree returned, the node made for such an
    element is a child of a node whose path is [get_parent_path] of the
    element's path and whose name is the last component of that path (a
    node made for an element, or a placeholder with empty text), and a
    child of the root when the parent path is [//Document] or empty,
    whatever heading is open. *)
Theorem table_parts_hang_from_their_parent_path
        (get_header_level : string -> option nat)
        (is_top_level_table is_inline_content is_table_or_complex_structure
           : string -> bool)
        (before after : list Hierarchy.element) (elem : Hierarchy.element) :
  let path := Hierarchy.normalize_path (Hierarchy.e_path elem) in
  let parent_path := Hierarchy.get_parent_path path in
  TreeView.kept elem = true ->
  get_header_level path = None ->
  is_top_level_table path = false ->
  is_inline_content path || is_table_or_complex_structure path = true ->
  let run := Hierarchy.parse_hierarchy get_header_level is_top_level_table
               is_inline_content is_table_or_complex_structure []
               (before ++ elem :: after) in
  exists parent,
    In (parent, TreeView.label_of elem)
       (TreeView.edges (Hierarchy.unfold (length run.1) run.1 run.2))
    /\ if Hierarchy.is_document_or_empty parent_path
       then parent = TreeView.root_label
       else exists text,
              parent = (Hierarchy.last_component parent_path, text, Some parent_path).
Proof.
  intros path parent_path Hk Hlevel Htop Hpart run.
  destruct (NestingFacts.parent_in_tree get_header_level is_top_level_table
              is_inline_content is_table_or_complex_structure before after elem Hk)
    as (parent & Hin & Hpar).
  exists parent. split; [exact Hin|].
  fold path in Hpar. rewrite Hlevel in Hpar.
  unfold NestingFacts.under_heading in Hpar. rewrite Htop, Hpart in Hpar.
  exact Hpar.
Qed.

Lemma table_parts_hang_from_their_parent_path_witness :
  exists parent,
    In (parent, ("P", Some "X", Some "//Document/Table/TR/TD/P"))
       (TreeView.edges
          (Hierarchy.unfold 7 (PathTests.parse_hierarchy sample_cell_elements).1 0))
    /\ exists text, parent = ("TD", text, Some "//Document/Table/TR/TD").
Proof.
  apply (table_parts_hang_from_their_parent_path
           PathTests.get_header_level PathTests.is_top_level_table
           PathTests.is_inline_content PathTests.is_table_or_complex_structure
           [Hierarchy.mkElement "//Document/H1" "Schedule"]
           [Hierarchy.mkElement "//Document" "";
            Hierarchy.mkElement "//Document/P" "after"]
           (Hierarchy.mkElement "//Document/Table/TR/TD/P" "X"));
    reflexivity.
Defined.

(** X7: text hangs from the last heading: the node made for an element
    that is no heading and is a top-level table, or is neither inline
    content nor part of a table or list, is in the tree returned a child of
    the node of the last heading element that comes before it in the input
    (of the root when no heading comes before it). *)
Theorem content_hangs_from_the_last_heading
        (get_header_level : string -> option nat)
        (is_top_level_table is_inline_content is_table_or_complex_structure
           : string -> bool)
        (before after : list Hierarchy.element) (elem : Hierarchy.element) :
  let path := Hierarchy.normalize_path (Hierarchy.e_path elem) in
  TreeView.kept elem = true ->
  get_header_level path = None ->
  is_top_level_table path
  || negb (is_inline_content path || is_table_or_complex_structure path) = true ->
  let run := Hierarchy.parse_hierarchy get_header_level is_top_level_table
               is_inline_content is_table_or_complex_structure []
               (before ++ elem :: after) in
  In (TreeView.label_above get_header_level None before, TreeView.label_of elem)
     (TreeView.edges (Hierarchy.unfold (length run.1) run.1 run.2)).
Proof.
  intros path Hk Hlevel Hunder run.
  destruct (NestingFacts.parent_in_tree get_header_level is_top_level_table
              is_inline_content is_table_or_complex_structure before after elem Hk)
    as (parent & Hin & Hpar).
  fold path in Hpar. rewrite Hlevel in Hpar.
  unfold NestingFacts.under_heading in Hpar. rewrite Hunder in Hpar.
  subst parent. exact Hin.
Qed.

Definition sample_outline : list Hierarchy.element :=
  [ Hierarchy.mkElement "//Document/H1" "One";
    Hierarchy.mkElement "//Document/H2" "One point one";
    Hierarchy.mkElement "//Document/H3" "Deep";
    Hierarchy.mkElement "//Document/P" "text";
    Hierarchy.mkElement "//Document/H2[2]" "One point two";
    Hierarchy.mkElement "//Document/P[2]" "more";
    Hierarchy.mkElement "//Document/Table" "" ].

Lemma content_hangs_from_the_last_heading_witness :
  In (("H2[2]", Some "One point two", Some "//Document/H2[2]"),
      ("P[2]", Some "more", Some "//Document/P[2]"))
     (TreeView.edges
        (Hierarchy.unfold 8 (PathTests.parse_hierarchy sample_outline).1 0)).
Proof.
  apply (content_hangs_from_the_last_heading
           PathTests.get_header_level PathTests.is_top_level_table
           PathTests.is_inline_content PathTests.is_table_or_complex_structure
           (firstn 5 sample_outline) (skipn 6 sample_outline)
           (Hierarchy.mkElement "//Document/P[2]" "more"));
    reflexivity.
Defined.

(** X8: headings nest by level: the node made for a heading of level
    [level] is in the tree returned a child of the node of the last
    heading before it in the input whose level is lower (whose level is 0,
    for a heading of level 0), and a child of the root when there is no
    such heading. *)
Theorem heading_hangs_from_the_last_lower_heading
        (get_header_level : string -> option nat)
        (is_top_level_table is_inline_content is_table_or_complex_structure
           : string -> bool)
        (before after : list Hierarchy.element) (elem : Hierarchy.element)
        (level : nat) :
  TreeView.kept elem = true ->
  get_header_level (Hierarchy.normalize_path (Hierarchy.e_path elem)) = Some level ->
  let run := Hierarchy.parse_hierarchy get_header_level is_top_level_table
               is_inline_content is_table_or_complex_structure []
               (before ++ elem :: after) in
  In (TreeView.label_above get_header_level (Some (Nat.max level 1)) before,
      TreeView.label_of elem)
     (TreeView.edges (Hierarchy.unfold (length run.1) run.1 run.2)).
Proof.
  intros Hk Hlevel run.
  destruct (NestingFacts.parent_in_tree get_header_level is_top_level_table
              is_inline_content is_table_or_complex_structure before after elem Hk)
    as (parent & Hin & Hpar).
  rewrite Hlevel in Hpar. subst parent. exact Hin.
Qed.

Lemma heading_hangs_from_the_last_lower_heading_witness :
  In (("H1", Some "One", Some "//Document/H1"),
      ("H2[2]", Some "One point two", Some "//Document/H2[2]"))
     (TreeView.edges
        (Hierarchy.unfold 8 (PathTests.parse_hierarchy sample_outline).1 0)).
Proof.
  apply (heading_hangs_from_the_last_lower_heading
           PathTests.get_header_level PathTests.is_top_level_table
           PathTests.is_inline_content PathTests.is_table_or_complex_structure
           (firstn 4 sample_outline) (skipn 5 sample_outline)
           (Hierarchy.mkElement "//Document/H2[2]" "One point two") 2);
    reflexivity.
Defined.

(** ** A text compared with itself *)

Module IdentityFacts.
Import Difflib DifflibFacts.

(** The positions of [c] in [l], counted from [start]. *)
Fixpoint occurrences (c : ascii) (l : list ascii) (start : nat) : list nat :=
  match l with
  | [] => []
  | x :: l' =>
      (if bool_decide (x = c) then [start] else []) ++ occurrences c l' (S start)
  end.

Lemma occurrences_ge c l : forall start j,
  j ∈ occurrences c l start -> start <= j.
Proof.
  induction l as [|x l IH]; intros start j H; [inversion H|].
  cbn [occurrences] in H. apply elem_of_app in H. destruct H as [H|H].
  - case_bool_decide; [|inversion H]. apply list_elem_of_singleton in H. lia.
  - apply IH in H. lia.
Qed.

Lemma occurrences_sorted c l : forall start,
  StronglySorted lt (occurrences c l start).
Proof.
  induction l as [|x l IH]; intros start; [constructor|].
  cbn [occurrences]. case_bool_decide; cbn [app]; [|apply IH].
  constructor; [apply IH|]. apply Forall_forall. intros j Hj.
  apply occurrences_ge in Hj. lia.
Qed.

Lemma occurrences_elem c l : forall start i,
  l !! i = Some c -> (start + i) ∈ occurrences c l start.
Proof.
  induction l as [|x l IH]; intros start i H; [discriminate|].
  cbn [occurrences]. apply elem_of_app. destruct i as [|i].
  - left. injection H as ->. rewrite bool_decide_eq_true_2 by reflexivity.
    rewrite Nat.add_0_r. left.
  - right. replace (start + S i) with (S start + i) by lia. apply IH, H.
Qed.

Lemma chain_fold (c : ascii) l : forall (f : nat -> nat) (m : gmap ascii (list nat)) start,
  (forall i, f i = start + i) ->
  default [] (fold_left
                (fun (m : gmap ascii (list nat)) (ie : nat * ascii) =>
                   <[ie.2 := default [] (m !! ie.2) ++ [ie.1]]> m)
                (imap (fun i x => (f i, x)) l) m !! c)
  = default [] (m !! c) ++ occurrences c l start.
Proof.
  induction l as [|x l IH]; intros f m start Hf; cbn [imap fold_left occurrences].
  - rewrite app_nil_r. reflexivity.
  - rewrite (IH (f ∘ S) _ (S start)) by (intros i; cbn; rewrite Hf; lia).
    cbn [fst snd]. rewrite Hf, Nat.add_0_r. case_bool_decide as E.
    + subst x. rewrite lookup_insert_eq. simpl. rewrite <- app_assoc.
      reflexivity.
    + rewrite lookup_insert_ne by exact E. reflexivity.
Qed.

Lemma b2j_full_occurrences (b : list ascii) (c : ascii) :
  default [] (b2j_full b !! c) = occurrences c b 0.
Proof.
  unfold b2j_full.
  change (imap pair b) with (imap (fun i x => (id i, x)) b).
  rewrite (chain_fold c b id ∅ 0) by reflexivity.
  rewrite lookup_empty. reflexivity.
Qed.

Lemma occurrences_lookup c l : forall start j,
  j ∈ occurrences c l start -> l !! (j - start) = Some c.
Proof.
  induction l as [|x l IH]; intros start j H; [inversion H|].
  cbn [occurrences] in H. apply elem_of_app in H. destruct H as [H|H].
  - case_bool_decide as E; [|inversion H]. apply list_elem_of_singleton in H.
    subst j x. rewrite Nat.sub_diag. reflexivity.
  - pose proof (occurrences_ge _ _ _ _ H) as Hge. apply IH in H.
    replace (j - start) with (S (j - S start)) by lia. exact H.
Qed.

Section Diagonal.
Variable a : list ascii.

(** The columns the search visits for a character: all its positions, or
    none when the character is left out of the index as too frequent. *)
Definition columns (c : ascii) : list nat := default [] (b2j a !! c).

Definition live (c : ascii) : bool :=
  match columns c with [] => false | _ => true end.

Fixpoint live_prefix (l : list ascii) : nat :=
  match l with
  | [] => 0
  | c :: l' => if live c then S (live_prefix l') else 0
  end.

(** The number of indexed characters in a row just before position [s]. *)
Definition run (s : nat) : nat := live_prefix (rev (take s a)).

Lemma run_S s c :
  a !! s = Some c -> run (S s) = if live c then S (run s) else 0.
Proof.
  intros H. unfold run. rewrite (take_S_r _ _ _ H), rev_app_distr. reflexivity.
Qed.

Lemma columns_cases c : columns c = occurrences c a 0 \/ columns c = [].
Proof.
  unfold columns, b2j. destruct (200 <=? length a)%nat.
  - cbv zeta.
    destruct (filter (fun kv : ascii * list nat =>
                        (length kv.2 <= length a / 100 + 1)%nat)
                     (b2j_full a) !! c) as [v|] eqn:E; [|right; reflexivity].
    apply map_lookup_filter_Some in E. destruct E as [E _].
    left. rewrite <- b2j_full_occurrences, E. reflexivity.
  - left. apply b2j_full_occurrences.
Qed.

Lemma columns_live c : live c = true -> columns c = occurrences c a 0.
Proof.
  unfold live. destruct (columns_cases c) as [E|E]; [intros _; exact E|].
  rewrite E. discriminate.
Qed.

Lemma columns_dead c : live c = false -> columns c = [].
Proof. unfold live. destruct (columns c); [reflexivity|discriminate]. Qed.

(** What holds of the run lengths recorded for the row before row [s]:
    none is longer than the run of indexed characters that ends in its
    column, or than the one that ends in its row, and the entry of the
    diagonal is that run. *)
Definition row_inv (s : nat) (m : gmap nat nat) : Prop :=
  (forall j v, m !! j = Some v -> v <= run (S j) /\ v <= run s)
  /\ match s with O => True | S s' => default 0 (m !! s') = run s end.

Definition prev_of (m : gmap nat nat) (j : nat) : nat :=
  match j with O => O | S j' => default O (m !! j') end.

Lemma prev_bound s m j : row_inv s m -> prev_of m j <= run j /\ prev_of m j <= run s.
Proof.
  intros [H _]. destruct j as [|j']; cbn [prev_of]; [lia|].
  destruct (m !! j') as [v|] eqn:E; cbn [default]; [apply H, E|lia].
Qed.

Lemma prev_diag s m : row_inv s m -> prev_of m s = run s.
Proof.
  intros [_ H]. destruct s as [|s']; [reflexivity|exact H].
Qed.

(** One row of the search keeps the best block on the diagonal. *)
Lemma scan_row_run s m c :
  row_inv s m -> a !! s = Some c -> live c = true ->
  forall js new bst,
    StronglySorted lt js ->
    (forall j, j ∈ js -> a !! j = Some c) ->
    bst.1.1 = bst.1.2 ->
    (forall t, t <= s -> run t <= bestsize bst) ->
    (forall j v, new !! j = Some v -> v <= run (S j) /\ v <= run (S s)) ->
    (s ∉ js -> run (S s) <= bestsize bst /\ new !! s = Some (run (S s))) ->
    let r := scan_row s 0 (length a) m js new bst in
    r.2.1.1 = r.2.1.2
    /\ (forall t, t <= S s -> run t <= bestsize r.2)
    /\ row_inv (S s) r.1.
Proof.
  intros Hrow Hs Hlive. pose proof (run_S s c Hs) as Hrs. rewrite Hlive in Hrs.
  induction js as [|j js IH]; intros new bst Hsort Hjs Hd Hbest Hnew Hdone;
    cbn [scan_row].
  - cbn [fst snd]. destruct Hdone as [H1 H2]; [intros H; inversion H|].
    split; [exact Hd|]. split.
    + intros t Ht. destruct (decide (t = S s)) as [->|Hne]; [exact H1|].
      apply Hbest. lia.
    + split; [exact Hnew|]. rewrite H2. reflexivity.
  - inversion Hsort as [|? ? Hsort' Hall]; subst.
    rewrite Forall_forall in Hall.
    assert (Hj : a !! j = Some c) by (apply Hjs; left).
    pose proof (lookup_lt_Some _ _ _ Hj) as Hjn.
    pose proof (run_S j c Hj) as Hrj. rewrite Hlive in Hrj.
    destruct (Nat.ltb_spec j 0) as [Hlt|_]; [lia|].
    destruct (Nat.leb_spec (length a) j) as [Hout|_]; [lia|].
    fold (prev_of m j).
    destruct (prev_bound s m j Hrow) as [Hp1 Hp2].
    set (prev := prev_of m j) in *.
    set (bst' := if (bestsize bst <? prev + 1)%nat
                 then ((s + 1 - (prev + 1))%nat, (j + 1 - (prev + 1))%nat, (prev + 1)%nat)
                 else bst).
    assert (Hnew' : forall j0 v, <[j := (prev + 1)%nat]> new !! j0 = Some v ->
                                 v <= run (S j0) /\ v <= run (S s)).
    { intros j0 v H. apply lookup_insert_Some in H.
      destruct H as [[<- <-]|[_ H]]; [lia|apply Hnew, H]. }
    assert (Hjs' : forall j0, j0 ∈ js -> a !! j0 = Some c).
    { intros j0 H. apply Hjs. right. exact H. }
    destruct (Nat.lt_trichotomy j s) as [Hlt|[->|Hgt]].
    + assert (Hsame : bst' = bst).
      { unfold bst'. destruct (Nat.ltb_spec (bestsize bst) (prev + 1)) as [H|_];
          [|reflexivity]. pose proof (Hbest (S j) ltac:(lia)). lia. }
      rewrite Hsame. apply IH; try assumption.
      intros Hnot. destruct Hdone as [H1 H2].
      { intros H. apply elem_of_cons in H. destruct H as [->|H]; [lia|auto]. }
      split; [exact H1|]. rewrite lookup_insert_ne by lia. exact H2.
    + assert (Hp : prev = run s) by (apply prev_diag, Hrow).
      assert (Hb : bst'.1.1 = bst'.1.2 /\ bestsize bst <= bestsize bst'
                   /\ run (S s) <= bestsize bst').
      { unfold bst'. destruct (Nat.ltb_spec (bestsize bst) (prev + 1));
          unfold bestsize in *; cbn [fst snd]; lia. }
      destruct Hb as (Hb1 & Hb2 & Hb3).
      apply IH; try assumption.
      * intros t Ht. specialize (Hbest t Ht). lia.
      * intros _. split; [exact Hb3|]. rewrite lookup_insert_eq.
        f_equal. lia.
    + assert (Hnot : s ∉ j :: js).
      { intros H. apply elem_of_cons in H. destruct H as [->|H]; [lia|].
        apply Hall in H. lia. }
      destruct (Hdone Hnot) as [H1 H2].
      assert (Hsame : bst' = bst).
      { unfold bst'. destruct (Nat.ltb_spec (bestsize bst) (prev + 1)) as [H|_];
          [|reflexivity]. lia. }
      rewrite Hsame. apply IH; try assumption.
      intros _. split; [exact H1|]. rewrite lookup_insert_ne by lia. exact H2.
Qed.

Lemma scan_rows_run : forall n s m bst,
  s + n <= length a ->
  row_inv s m ->
  bst.1.1 = bst.1.2 ->
  (forall t, t <= s -> run t <= bestsize bst) ->
  let r := scan_rows a a 0 (length a) (seq s n) m bst in
  r.1.1 = r.1.2.
Proof.
  induction n as [|n IH]; intros s m bst Hlen Hrow Hd Hbest; cbn [seq scan_rows].
  - exact Hd.
  - destruct (lookup_lt_is_Some_2 a s) as [c Ec]; [lia|]. rewrite Ec.
    fold (columns c). destruct (live c) eqn:L.
    + rewrite (columns_live c L).
      pose proof (scan_row_run s m c Hrow Ec L (occurrences c a 0) ∅ bst
                    (occurrences_sorted c a 0)) as H.
      destruct (scan_row s 0 (length a) m (occurrences c a 0) ∅ bst) as [new bst'].
      cbn [fst snd] in H. destruct H as (H1 & H2 & H3).
      * intros j Hj. apply occurrences_lookup in Hj.
        rewrite Nat.sub_0_r in Hj. exact Hj.
      * exact Hd.
      * exact Hbest.
      * intros j v Hj. rewrite lookup_empty in Hj. discriminate.
      * intros Hnot. exfalso. apply Hnot. apply (occurrences_elem c a 0 s Ec).
      * apply IH; [lia|exact H3|exact H1|exact H2].
    + rewrite (columns_dead c L). cbn [scan_row].
      pose proof (run_S s c Ec) as Hrs. rewrite L in Hrs.
      apply IH; [lia| |exact Hd|].
      * split; [intros j v Hj; rewrite lookup_empty in Hj; discriminate|].
        rewrite lookup_empty, Hrs. reflexivity.
      * intros t Ht. destruct (decide (t = S s)) as [->|Hne]; [lia|].
        apply Hbest. lia.
Qed.

Lemma same_at_self i : i < length a -> same_at a a i i = true.
Proof.
  intros Hi. unfold same_at. destruct (lookup_lt_is_Some_2 a i Hi) as [c ->].
  apply bool_decide_eq_true_2. reflexivity.
Qed.

Lemma junk_at_never j : junk_at a j = false.
Proof. unfold junk_at. destruct (a !! j); reflexivity. Qed.

Lemma extend_left_diagonal : forall i size,
  i <= length a -> extend_left a a false 0 0 i i size = (0, 0, size + i).
Proof.
  induction i as [|i IH]; intros size Hi; cbn [extend_left].
  - rewrite Nat.add_0_r. reflexivity.
  - rewrite junk_at_never. rewrite same_at_self by lia.
    replace (0 <? S i)%nat with true by reflexivity. cbn [andb Bool.eqb].
    rewrite IH by lia. f_equal. lia.
Qed.

Lemma extend_right_diagonal : forall n size,
  size + n = length a ->
  extend_right a a false n (length a) (length a) 0 0 size = length a.
Proof.
  induction n as [|n IH]; intros size Hn; cbn [extend_right]; [lia|].
  cbn [Nat.add]. rewrite junk_at_never. rewrite same_at_self by lia.
  destruct (Nat.ltb_spec size (length a)) as [_|H]; [|lia].
  cbn [andb Bool.eqb]. apply IH. lia.
Qed.

Lemma extend_left_at_start junk j size :
  extend_left a a junk 0 0 0 j size = (0, j, size).
Proof. reflexivity. Qed.

Lemma find_longest_match_self :
  find_longest_match a a 0 (length a) 0 (length a) = mkMatch 0 0 (length a).
Proof.
  unfold find_longest_match. rewrite Nat.sub_0_r.
  pose proof (scan_rows_ok a a 0 (length a) 0 (length a) (length a) 0 ∅ (0, 0, 0)) as Hbox.
  pose proof (scan_rows_run (length a) 0 ∅ (0, 0, 0)) as Hdiag.
  destruct (scan_rows a a 0 (length a) (seq 0 (length a)) ∅ (0, 0, 0))
    as [[i0 j0] k0].
  assert (H : in_box 0 (length a) 0 (length a) (i0, j0, k0)).
  { apply Hbox; try lia; [apply row_ok_empty|unfold in_box; simpl; lia]. }
  assert (Hd : i0 = j0).
  { apply Hdiag; [simpl; lia| |reflexivity|].
    - split; [intros j v Hj; rewrite lookup_empty in Hj; discriminate|exact I].
    - intros t Ht. replace t with 0 by lia. unfold run, bestsize. simpl. lia. }
  unfold in_box in H. cbn [fst snd] in H. subst j0.
  rewrite extend_left_diagonal by lia.
  rewrite Nat.add_0_l, extend_right_diagonal by lia.
  rewrite extend_left_at_start.
  replace (length a - (0 + length a)) with 0 by lia. reflexivity.
Qed.

Lemma get_matching_blocks_self :
  a <> [] ->
  get_matching_blocks a a
  = Some [mkMatch 0 0 (length a); mkMatch (length a) (length a) 0].
Proof.
  intros Hne. assert (Hn : length a <> 0) by (destruct a; [congruence|discriminate]).
  unfold get_matching_blocks, blocks_fuel.
  replace (2 * length a + 2) with (S (S (2 * length a))) by lia.
  cbn [blocks_loop]. rewrite find_longest_match_self. cbn [m_a m_b m_size].
  destruct (Nat.eqb_spec (length a) 0) as [|_]; [congruence|].
  replace (0 <? 0)%nat with false by reflexivity. cbn [andb].
  replace (0 + length a <? length a)%nat with false
    by (symmetry; apply Nat.ltb_ge; lia).
  cbn [andb app mbind option_bind sort_blocks fold_right insert_sorted collapse
       m_a m_b m_size]. cbn [Nat.add Nat.eqb andb].
  destruct (Nat.eqb_spec (length a) 0) as [|_]; [congruence|]. reflexivity.
Qed.

Lemma ratio_self : (ratio a a == 1)%Q.
Proof.
  destruct (decide (a = [])) as [E|Hne]; [rewrite E; reflexivity|].
  unfold ratio, ratio_opt. rewrite get_matching_blocks_self by exact Hne.
  cbn [mbind option_bind default matches foldr m_size].
  unfold calculate_ratio.
  assert (Hn : length a + length a <> 0).
  { destruct a; [congruence|simpl; lia]. }
  destruct (Nat.eqb_spec (length a + length a) 0) as [|_]; [congruence|].
  unfold Qeq, id. cbn [Qnum Qden]. rewrite Zpos_of_nat by exact Hn. lia.
Qed.

End Diagonal.

End IdentityFacts.

(** ** The best match of a form label *)

Module MatrixFacts.
Import CommonMatrix MatrixOrder.

Section Best.
Variable score : string -> string -> Q.
Variable threshold : Q.
Variable form_label : string.

Local Abbreviation score_of := (fun q => score q form_label).

(** [p] at [idx] is the first of the procedures with the highest score,
    and that score reaches the threshold and is positive. *)
Definition first_best (procs : list string) (idx : nat) (p : string) : Prop :=
  procs !! idx = Some p
  /\ (threshold <= score_of p)%Q
  /\ (0 < score_of p)%Q
  /\ (forall q, In q procs -> (score_of q <= score_of p)%Q)
  /\ (forall i q, i < idx -> procs !! i = Some q -> (score_of q < score_of p)%Q).

Definition none_reaches (procs : list string) : Prop :=
  forall q, In q procs -> (score_of q < threshold)%Q \/ (score_of q <= 0)%Q.

Definition loop_state (seen : list string) (st : best_state) : Prop :=
  match best_proc st with
  | None => best_score st = 0%Q /\ none_reaches seen
  | Some p => best_score st = score_of p /\ first_best seen (best_idx st) p
  end.

Lemma step_state seen st q :
  loop_state seen st ->
  loop_state (seen ++ [q]) (step score threshold form_label st (length seen, q)).
Proof.
  unfold loop_state, step. cbn [fst snd]. intros H.
  destruct (Qle_bool threshold (score q form_label)) eqn:E1; cbn [andb].
  - apply Qle_bool_iff in E1. unfold Qlt_bool.
    destruct (Qle_bool (score q form_label) (best_score st)) eqn:E2; cbn [negb].
    + apply Qle_bool_iff in E2. destruct (best_proc st) as [p|].
      * destruct H as (Hs & Hl & Ht & Hp & Hall & Hfirst). split; [exact Hs|].
        split; [rewrite lookup_app_l; [exact Hl|eapply lookup_lt_Some, Hl]|].
        split; [exact Ht|]. split; [exact Hp|]. split.
        -- intros q' Hq'. apply in_app_or in Hq'. destruct Hq' as [Hq'|[<-|[]]];
             [apply Hall, Hq'|rewrite <- Hs; exact E2].
        -- intros i q' Hi Hq'. apply (Hfirst i q' Hi).
           rewrite lookup_app_l in Hq'; [exact Hq'|].
           apply lookup_lt_Some in Hl. lia.
      * destruct H as [Hs Hnone]. split; [exact Hs|].
        intros q' Hq'. apply in_app_or in Hq'. destruct Hq' as [Hq'|[<-|[]]];
          [apply Hnone, Hq'|]. right. rewrite <- Hs. exact E2.
    + assert (Hlt : (best_score st < score q form_label)%Q).
      { apply Qnot_le_lt. intros Hle. apply Qle_bool_iff in Hle. congruence. }
      cbn [best_proc best_score best_idx]. split; [reflexivity|].
      assert (Hbelow : forall q', In q' seen -> (score_of q' < score_of q)%Q).
      { intros q' Hq'. destruct (best_proc st) as [p|].
        - destruct H as (Hs & _ & _ & _ & Hall & _).
          eapply Qle_lt_trans; [apply Hall, Hq'|]. rewrite <- Hs. exact Hlt.
        - destruct H as [Hs Hnone]. rewrite Hs in Hlt.
          destruct (Hnone q' Hq') as [H'|H'];
            [eapply Qlt_le_trans; eauto|eapply Qle_lt_trans; eauto]. }
      split; [rewrite lookup_app_r, Nat.sub_diag by lia; reflexivity|].
      split; [exact E1|]. split.
      { destruct (best_proc st) as [p|].
        - destruct H as (Hs & _ & _ & Hp & _). rewrite <- Hs in Hp.
          eapply Qlt_trans; eauto.
        - destruct H as [Hs _]. rewrite Hs in Hlt. exact Hlt. }
      split.
      * intros q' Hq'. apply in_app_or in Hq'. destruct Hq' as [Hq'|[<-|[]]];
          [apply Qlt_le_weak, Hbelow, Hq'|apply Qle_refl].
      * intros i q' Hi Hq'. rewrite lookup_app_l in Hq' by exact Hi.
        apply Hbelow. apply list_elem_of_In. eapply list_elem_of_lookup_2, Hq'.
  - assert (Hlt : (score q form_label < threshold)%Q).
    { apply Qnot_le_lt. intros Hle. apply Qle_bool_iff in Hle. congruence. }
    destruct (best_proc st) as [p|].
    + destruct H as (Hs & Hl & Ht & Hp & Hall & Hfirst). split; [exact Hs|].
      split; [rewrite lookup_app_l; [exact Hl|eapply lookup_lt_Some, Hl]|].
      split; [exact Ht|]. split; [exact Hp|]. split.
      * intros q' Hq'. apply in_app_or in Hq'. destruct Hq' as [Hq'|[<-|[]]];
          [apply Hall, Hq'|]. apply Qlt_le_weak. eapply Qlt_le_trans; eauto.
      * intros i q' Hi Hq'. apply (Hfirst i q' Hi).
        rewrite lookup_app_l in Hq'; [exact Hq'|].
        apply lookup_lt_Some in Hl. lia.
    + destruct H as [Hs Hnone]. split; [exact Hs|].
      intros q' Hq'. apply in_app_or in Hq'. destruct Hq' as [Hq'|[<-|[]]];
        [apply Hnone, Hq'|]. left. exact Hlt.
Qed.

Lemma best_match_from_state : forall procs seen st,
  loop_state seen st ->
  loop_state (seen ++ procs)
    (best_match_from score threshold (length seen) procs form_label st).
Proof.
  unfold best_match_from.
  induction procs as [|q procs IH]; intros seen st H; cbn [enumerate fold_left].
  - rewrite app_nil_r. exact H.
  - replace (seen ++ q :: procs) with ((seen ++ [q]) ++ procs)
      by (rewrite <- app_assoc; reflexivity).
    replace (S (length seen)) with (length (seen ++ [q]))
      by (rewrite length_app; simpl; lia).
    apply IH, step_state, H.
Qed.

Lemma best_match_state procs :
  loop_state procs (best_match score threshold procs form_label).
Proof.
  apply (best_match_from_state procs [] init_state).
  split; [reflexivity|]. intros q [].
Qed.

End Best.

(** *** The map of the forms *)

Section Forms.
Variable score : string -> string -> Q.
Variable threshold : Q.
Variable include_unmapped : bool.
Variable procs : list string.

Local Abbreviation label_mapping := (label_mapping score threshold procs).

Definition index_of (m : mapping) : nat :=
  match m with Mapped i _ => i | Unmapped => unmapped_index end.

Definition is_unmapped (m : mapping) : bool :=
  match m with Mapped _ _ => false | Unmapped => true end.

(** The state of the loop once the labels [seen] are done. *)
Definition forms_state (seen : list string)
           (acc : gmap string (nat * string) * list string) : Prop :=
  acc.2 = List.filter (fun x => is_unmapped (label_mapping x)) seen
  /\ forall x, sort_index acc.1 x
               = if bool_decide (x ∈ seen) then index_of (label_mapping x)
                 else unmapped_index.

Lemma forms_state_step seen acc l :
  forms_state seen acc ->
  forms_state (seen ++ [l])
    (match label_mapping l with
     | Mapped i p => (<[l := (i, p)]> acc.1, acc.2)
     | Unmapped =>
         (if include_unmapped
          then <[l := (unmapped_index, "Unmapped")]> acc.1 else acc.1,
          acc.2 ++ [l])
     end).
Proof.
  intros [H1 H2]. unfold forms_state. rewrite List.filter_app. cbn [List.filter].
  assert (Hin : forall x, x <> l ->
                  bool_decide (x ∈ seen ++ [l]) = bool_decide (x ∈ seen)).
  { intros x Hne. apply bool_decide_ext. rewrite elem_of_app, list_elem_of_singleton.
    tauto. }
  assert (Hl : bool_decide (l ∈ seen ++ [l]) = true).
  { apply bool_decide_eq_true_2, elem_of_app. right. left. }
  destruct (label_mapping l) as [i p|] eqn:E; cbn [fst snd is_unmapped].
  - split; [rewrite app_nil_r; exact H1|]. intros x. unfold sort_index.
    destruct (decide (x = l)) as [->|Hne].
    + rewrite lookup_insert_eq, Hl, E. reflexivity.
    + rewrite lookup_insert_ne by congruence. rewrite (Hin x Hne). apply H2.
  - split; [rewrite H1; reflexivity|]. intros x.
    destruct (decide (x = l)) as [->|Hne].
    + rewrite Hl, E. cbn [index_of]. destruct include_unmapped.
      * unfold sort_index. rewrite lookup_insert_eq. reflexivity.
      * rewrite H2, E. cbn [index_of]. destruct (bool_decide (l ∈ seen)); reflexivity.
    + rewrite (Hin x Hne), <- H2. destruct include_unmapped; [|reflexivity].
      unfold sort_index. rewrite lookup_insert_ne by congruence. reflexivity.
Qed.

Lemma forms_state_fold : forall labels seen acc,
  forms_state seen acc ->
  forms_state (seen ++ labels)
    (fold_left
       (fun acc form_label =>
          match label_mapping form_label with
          | Mapped i p => (<[form_label := (i, p)]> acc.1, acc.2)
          | Unmapped =>
              (if include_unmapped
               then <[form_label := (unmapped_index, "Unmapped")]> acc.1
               else acc.1,
               acc.2 ++ [form_label])
          end) labels acc).
Proof.
  induction labels as [|l labels IH]; intros seen acc H; cbn [fold_left].
  - rewrite app_nil_r. exact H.
  - replace (seen ++ l :: labels) with ((seen ++ [l]) ++ labels)
      by (rewrite <- app_assoc; reflexivity).
    apply IH, forms_state_step, H.
Qed.

Lemma map_forms_state labels :
  forms_state labels (map_forms score threshold include_unmapped procs labels).
Proof.
  apply (forms_state_fold labels [] (∅, [])). split; [reflexivity|].
  intros x. reflexivity.
Qed.

End Forms.

(** *** The numbers of a visit column *)

Definition holds (visit : string) (rows : list (list string)) : nat :=
  length (List.filter (fun row => bool_decide (visit ∈ row)) rows).

Lemma number_fold visit : forall rows counter cells,
  fold_left (number_row visit) rows (counter, cells)
  = (counter + holds visit rows,
     cells ++ (fold_left (number_row visit) rows (counter, [])).2).
Proof.
  induction rows as [|row rows IH]; intros counter cells; cbn [fold_left].
  - unfold holds. simpl. rewrite Nat.add_0_r, app_nil_r. reflexivity.
  - unfold number_row at 2 4. unfold holds. cbn [List.filter fst snd].
    destruct (bool_decide (visit ∈ row)); cbn [length app].
    + rewrite (IH (S counter) (cells ++ [Number counter])).
      rewrite (IH (S counter) [Number counter]). cbn [fst snd].
      rewrite <- app_assoc. f_equal. unfold holds. lia.
    + rewrite (IH counter (cells ++ [Blank])).
      rewrite (IH counter [Blank]). cbn [fst snd].
      rewrite <- app_assoc. reflexivity.
Qed.

Lemma number_column_app visit rows1 rows2 :
  number_column visit (rows1 ++ rows2)
  = number_column visit rows1
    ++ (fold_left (number_row visit) rows2 (1 + holds visit rows1, [])).2.
Proof.
  unfold number_column. rewrite fold_left_app.
  rewrite (number_fold visit rows1 1 []). cbn [app].
  rewrite (number_fold visit rows2). reflexivity.
Qed.

Lemma number_column_length visit rows :
  length (number_column visit rows) = length rows.
Proof.
  assert (H : forall rows cells counter,
            length (fold_left (number_row visit) rows (counter, cells)).2
            = length cells + length rows).
  { clear. induction rows as [|row rows IH]; intros cells counter; cbn [fold_left].
    - simpl. lia.
    - unfold number_row at 2. cbn [fst snd].
      destruct (bool_decide _); rewrite IH, length_app; simpl; lia. }
  unfold number_column. rewrite H. reflexivity.
Qed.

End MatrixFacts.

(** X9: the procedure a form label is mapped to is the first procedure of
    the schedule with the highest similarity: its name is not empty, its
    similarity reaches the threshold and is above 0, no procedure has a
    higher one and every earlier procedure has a strictly lower one.  A
    label is left unmapped only when no procedure has a similarity that
    reaches the threshold and is above 0, or when the first procedure of
    highest similarity has the empty name. *)
Theorem label_mapping_is_the_first_highest_score
        (score : string -> string -> Q) (threshold : Q)
        (proc_order : list string) (form_label : string) :
  match CommonMatrix.label_mapping score threshold proc_order form_label with
  | CommonMatrix.Mapped idx p =>
      p <> ""
      /\ proc_order !! idx = Some p
      /\ (threshold <= score p form_label)%Q
      /\ (0 < score p form_label)%Q
      /\ (forall q, In q proc_order ->
                    (score q form_label <= score p form_label)%Q)
      /\ (forall i q, i < idx -> proc_order !! i = Some q ->
                      (score q form_label < score p form_label)%Q)
  | CommonMatrix.Unmapped =>
      (forall q, In q proc_order ->
                 (score q form_label < threshold)%Q \/ (score q form_label <= 0)%Q)
      \/ exists idx,
           MatrixFacts.first_best score threshold form_label proc_order idx ""
  end.
Proof.
  unfold CommonMatrix.label_mapping, CommonMatrix.mapping_of.
  pose proof (MatrixFacts.best_match_state score threshold form_label proc_order) as H.
  unfold MatrixFacts.loop_state in H.
  destruct (CommonMatrix.best_proc
              (CommonMatrix.best_match score threshold proc_order form_label))
    as [p|].
  - destruct H as [_ H]. destruct p as [|c p]; cbn [Py.truthy].
    + right. eexists. exact H.
    + split; [discriminate|exact H].
  - left. exact (proj2 H).
Qed.

(** X10: a form label that has the name of a procedure is always mapped:
    when a procedure of non-empty name equals the label (after lowering
    both, if the comparison ignores case) and the threshold is at most 1,
    the label is mapped to a procedure of similarity 1 that stands no later
    in the schedule than that procedure. *)
Theorem same_name_is_always_mapped
        (threshold : Q) (case_insensitive : bool)
        (proc_order : list string) (form_label p : string) (i : nat) :
  (threshold <= 1)%Q ->
  proc_order !! i = Some p ->
  p <> "" ->
  (if case_insensitive then Py.lower p = Py.lower form_label
   else p = form_label) ->
  exists idx q,
    CommonMatrix.label_mapping
      (fun q l => CommonMatrix.fuzzy_match q l case_insensitive)
      threshold proc_order form_label
    = CommonMatrix.Mapped idx q
    /\ idx <= i
    /\ (CommonMatrix.fuzzy_match q form_label case_insensitive == 1)%Q.
Proof.
  intros Ht Hp Hne Hsame.
  set (score := fun q l => CommonMatrix.fuzzy_match q l case_insensitive).
  assert (Hone : (score p form_label == 1)%Q).
  { unfold score, CommonMatrix.fuzzy_match.
    replace (if case_insensitive then Py.lower form_label else form_label)
      with (if case_insensitive then Py.lower p else p)
      by (destruct case_insensitive; congruence).
    apply IdentityFacts.ratio_self. }
  assert (Hlabel : (if case_insensitive then Py.lower form_label else form_label)
                   <> "").
  { destruct case_insensitive.
    - rewrite <- Hsame. destruct p; [congruence|discriminate].
    - congruence. }
  assert (Hempty : (score "" form_label == 0)%Q).
  { unfold score, CommonMatrix.fuzzy_match.
    replace (Py.chars (if case_insensitive then Py.lower "" else ""))
      with (@nil ascii) by (destruct case_insensitive; reflexivity).
    rewrite DifflibFacts.ratio_nil_l. unfold Difflib.calculate_ratio.
    destruct (if case_insensitive then Py.lower form_label else form_label)
      as [|c s]; [congruence|]. reflexivity. }
  assert (Hrange : forall q, (score q form_label <= 1)%Q).
  { intros q. apply DifflibFacts.ratio_range. }
  pose proof (MatrixFacts.best_match_state score threshold form_label proc_order) as H.
  unfold MatrixFacts.loop_state in H.
  unfold CommonMatrix.label_mapping, CommonMatrix.mapping_of. fold score.
  assert (Hin : In p proc_order).
  { apply list_elem_of_In. eapply list_elem_of_lookup_2, Hp. }
  destruct (CommonMatrix.best_proc
              (CommonMatrix.best_match score threshold proc_order form_label))
    as [q|].
  - destruct H as (_ & Hq & _ & _ & Hall & Hfirst).
    assert (Hq1 : (score q form_label == 1)%Q).
    { apply Qle_antisym; [apply Hrange|]. rewrite <- Hone. apply Hall, Hin. }
    destruct q as [|c q]; cbn [Py.truthy].
    + rewrite Hempty in Hq1. discriminate.
    + eexists _, _. split; [reflexivity|]. split; [|exact Hq1].
      destruct (Nat.le_gt_cases
                  (CommonMatrix.best_idx
                     (CommonMatrix.best_match score threshold proc_order form_label))
                  i) as [Hle|Hgt]; [exact Hle|].
      pose proof (Hfirst i p Hgt Hp) as Hlt. rewrite Hone, Hq1 in Hlt.
      discriminate.
  - destruct H as [_ Hnone]. exfalso.
    destruct (Hnone p Hin) as [Hlt|Hle].
    + rewrite Hone in Hlt. exact (Qlt_not_le _ _ Hlt Ht).
    + rewrite Hone in Hle. apply Hle. reflexivity.
Qed.

Lemma same_name_is_always_mapped_witness :
  exists idx q,
    CommonMatrix.label_mapping
      (fun q l => CommonMatrix.fuzzy_match q l true) (1 # 2)
      ["Vital Signs"; "ECG"; "Ecg"] "ecg"
    = CommonMatrix.Mapped idx q
    /\ idx <= 2
    /\ (CommonMatrix.fuzzy_match q "ecg" true == 1)%Q.
Proof.
  apply (same_name_is_always_mapped (1 # 2) true
           ["Vital Signs"; "ECG"; "Ecg"] "ecg" "Ecg" 2).
  - discriminate.
  - reflexivity.
  - discriminate.
  - reflexivity.
Defined.

(** X11: the sort index of a form label is the index of the procedure it
    is mapped to, and 9999 when it is unmapped; the list of unmapped forms
    holds the labels without a mapping, in the order of the labels.  Neither
    depends on the option [include_unmapped], nor on the other labels. *)
Theorem sort_index_is_the_index_of_the_best_match
        (score : string -> string -> Q) (threshold : Q)
        (include_unmapped : bool) (proc_order labels : list string) :
  let forms :=
    CommonMatrix.map_forms score threshold include_unmapped proc_order labels in
  forms.2
  = List.filter
      (fun x => match CommonMatrix.label_mapping score threshold proc_order x with
                | CommonMatrix.Mapped _ _ => false
                | CommonMatrix.Unmapped => true
                end) labels
  /\ forall x, In x labels ->
       MatrixOrder.sort_index forms.1 x
       = match CommonMatrix.label_mapping score threshold proc_order x with
         | CommonMatrix.Mapped idx _ => idx
         | CommonMatrix.Unmapped => CommonMatrix.unmapped_index
         end.
Proof.
  intros forms.
  destruct (MatrixFacts.map_forms_state score threshold include_unmapped
              proc_order labels) as [H1 H2].
  split; [exact H1|]. intros x Hx. fold forms in H2. rewrite H2.
  rewrite bool_decide_eq_true_2 by (apply list_elem_of_In, Hx). reflexivity.
Qed.

Lemma sort_index_is_the_index_of_the_best_match_witness :
  (CommonMatrix.map_forms (fun q l => CommonMatrix.fuzzy_match q l true) (1 # 2)
     false ["Vital Signs"; "ECG"] ["ecg"; "zzz"]).2 = ["zzz"]
  /\ MatrixOrder.sort_index
       (CommonMatrix.map_forms (fun q l => CommonMatrix.fuzzy_match q l true)
          (1 # 2) false ["Vital Signs"; "ECG"] ["ecg"; "zzz"]).1 "zzz"
     = CommonMatrix.unmapped_index.
Proof.
  destruct (sort_index_is_the_index_of_the_best_match
              (fun q l => CommonMatrix.fuzzy_match q l true) (1 # 2) false
              ["Vital Signs"; "ECG"] ["ecg"; "zzz"]) as [H1 H2].
  split.
  - rewrite H1. vm_compute. reflexivity.
  - rewrite (H2 "zzz") by (right; left; reflexivity). vm_compute. reflexivity.
Defined.

(** X12: every visit column is numbered from 1 without gaps: the column
    has one cell for each row; the cell of a row is empty when the row's
    visits do not hold the visit of the column, and otherwise is 1 plus the
    number of rows above it that hold the visit. *)
Theorem visit_column_is_numbered_from_one
        (visit : string) (rows : list (list string)) :
  length (MatrixOrder.number_column visit rows) = length rows
  /\ forall i row,
       rows !! i = Some row ->
       MatrixOrder.number_column visit rows !! i
       = Some (if bool_decide (visit ∈ row)
               then MatrixOrder.Number
                      (1 + length (List.filter (fun r => bool_decide (visit ∈ r))
                                               (take i rows)))
               else MatrixOrder.Blank).
Proof.
  split; [apply MatrixFacts.number_column_length|].
  intros i row Hrow.
  rewrite <- (take_drop_middle rows i row Hrow) at 1.
  rewrite MatrixFacts.number_column_app.
  rewrite lookup_app_r; rewrite MatrixFacts.number_column_length, length_take;
    pose proof (lookup_lt_Some _ _ _ Hrow); [|lia].
  replace (i - i `min` length rows) with 0 by lia.
  cbn [fold_left]. unfold MatrixOrder.number_row at 2. cbn [fst snd app].
  fold (MatrixFacts.holds visit (take i rows)).
  destruct (bool_decide (visit ∈ row));
    rewrite MatrixFacts.number_fold; cbn [fst snd app]; reflexivity.
Qed.

Lemma visit_column_is_numbered_from_one_witness :
  MatrixOrder.number_column "V2" [["V1"; "V2"]; ["V1"]; ["V2"; "V3"]] !! 2
  = Some (MatrixOrder.Number 2).
Proof.
  apply (proj2 (visit_column_is_numbered_from_one
                  "V2" [["V1"; "V2"]; ["V1"]; ["V2"; "V3"]]) 2 ["V2"; "V3"]).
  reflexivity.
Defined.

(** ** The visits of a form, written and read back *)

Module VisitFacts.
Import FormExtractor MatrixOrder.

Lemma insert_visit_perm x l : insert_visit x l ≡ₚ x :: l.
Proof.
  induction l as [|y l IH]; cbn [insert_visit]; [reflexivity|].
  destruct (visit_leb x y); [reflexivity|].
  rewrite IH. apply Permutation_swap.
Qed.

Lemma sorted_visits_perm l : fold_right insert_visit [] l ≡ₚ l.
Proof.
  induction l as [|x l IH]; cbn [fold_right]; [reflexivity|].
  rewrite insert_visit_perm, IH. reflexivity.
Qed.

Lemma visit_leb_total x y : visit_leb x y = true \/ visit_leb y x = true.
Proof.
  unfold visit_leb.
  destruct (Nat.ltb_spec (first_number x) (first_number y)) as [H|H];
    [left; reflexivity|].
  destruct (Nat.ltb_spec (first_number y) (first_number x)) as [H'|H'];
    [right; reflexivity|].
  apply String.leb_total.
Qed.

Lemma visit_leb_number x y :
  visit_leb x y = true -> first_number x <= first_number y.
Proof.
  unfold visit_leb.
  destruct (Nat.ltb_spec (first_number x) (first_number y)) as [H|H]; [lia|].
  destruct (Nat.ltb_spec (first_number y) (first_number x)) as [H'|H'];
    [discriminate|lia].
Qed.

Lemma insert_visit_head x l y :
  head (insert_visit x l) = Some y -> y = x \/ head l = Some y.
Proof.
  destruct l as [|z l]; cbn [insert_visit head].
  - intros [= ->]. left. reflexivity.
  - destruct (visit_leb x z); cbn [head]; intros [= ->]; auto.
Qed.

Lemma insert_visit_sorted x l :
  Sorted (fun a b => visit_leb a b = true) l ->
  Sorted (fun a b => visit_leb a b = true) (insert_visit x l).
Proof.
  induction l as [|y l IH]; intros H; cbn [insert_visit].
  - repeat constructor.
  - destruct (visit_leb x y) eqn:E.
    + constructor; [exact H|]. constructor. exact E.
    + inversion H as [|? ? Hs Hh]; subst. constructor; [apply IH, Hs|].
      assert (Hyx : visit_leb y x = true).
      { destruct (visit_leb_total x y) as [F|F]; [congruence|exact F]. }
      destruct (insert_visit x l) as [|z l'] eqn:Ez; constructor.
      destruct (insert_visit_head x l z) as [->|Hz]; [rewrite Ez; reflexivity|exact Hyx|].
      destruct l as [|w l'']; [discriminate|]. injection Hz as ->.
      inversion Hh; subst. assumption.
Qed.

Lemma sorted_visits_sorted l :
  Sorted (fun a b => visit_leb a b = true) (fold_right insert_visit [] l).
Proof.
  induction l as [|x l IH]; cbn [fold_right]; [constructor|].
  apply insert_visit_sorted, IH.
Qed.

(** *** [split] on a text written by [join] *)

Definition comma : string := ",".

Lemma split_from_nonempty separator : forall s skip,
  split_from separator skip s <> [].
Proof.
  induction s as [|c s IH]; intros skip; cbn [split_from]; [discriminate|].
  destruct skip; [|apply IH].
  destruct (Py.startswith (String c s) separator); [discriminate|].
  destruct (split_from separator 0 s); discriminate.
Qed.

Lemma startswith_nothing s : Py.startswith s "" = true.
Proof. destruct s; reflexivity. Qed.

Lemma split_prefix v : forall t,
  Py.contains v comma = false ->
  split_from comma 0 (String.append v t)
  = match split_from comma 0 t with
    | x :: l => String.append v x :: l
    | [] => []
    end.
Proof.
  induction v as [|c v IH]; intros t H.
  - change (String.append "" t) with t.
    destruct (split_from comma 0 t); reflexivity.
  - rewrite TextFacts.append_cons. cbn [Py.contains] in H.
    apply orb_false_elim in H. destruct H as [Hc Hv].
    cbn [split_from]. unfold comma in Hc |- *. cbn [Py.startswith] in Hc |- *.
    destruct (ascii_dec "," c) as [E|E]; [destruct v; discriminate|].
    fold comma. rewrite (IH t Hv).
    pose proof (split_from_nonempty comma t 0) as Hne.
    destruct (split_from comma 0 t) as [|x l]; [congruence|].
    rewrite TextFacts.append_cons. reflexivity.
Qed.

Lemma split_join : forall v vs,
  Forall (fun v => Py.contains v comma = false) (v :: vs) ->
  split_from comma 0 (join ", " (v :: vs)) = v :: map (String " ") vs.
Proof.
  intros v vs. revert v. induction vs as [|w vs IH]; intros v H.
  - cbn [join map]. rewrite <- (TextFacts.append_nil_r v) at 1.
    rewrite split_prefix by (inversion H; assumption).
    cbn [split_from]. rewrite TextFacts.append_nil_r. reflexivity.
  - inversion H as [|? ? Hv Hrest]; subst.
    change (join ", " (v :: w :: vs))
      with (String.append v (String.append ", " (join ", " (w :: vs)))).
    rewrite split_prefix by exact Hv.
    change (String.append ", " (join ", " (w :: vs)))
      with (String "," (String.append " " (join ", " (w :: vs)))).
    cbn [split_from]. unfold comma at 1. cbn [Py.startswith].
    destruct (ascii_dec "," ",") as [_|E]; [|congruence].
    cbn [String.length Nat.sub].
    rewrite split_prefix by reflexivity. fold comma. rewrite (IH w Hrest).
    rewrite startswith_nothing, TextFacts.append_nil_r. reflexivity.
Qed.

Lemma strip_after_blank w : Py.strip (String " " w) = Py.strip w.
Proof. reflexivity. Qed.

Lemma read_back vs :
  Forall (fun v => v <> "" /\ Py.strip v = v /\ Py.contains v comma = false) vs ->
  visits_list comma true (Some (join ", " vs)) = Returned vs.
Proof.
  intros H. unfold visits_list, split. cbn [Py.truthy comma].
  destruct vs as [|v vs]; [reflexivity|].
  rewrite split_join by (eapply Forall_impl; [exact H|]; cbn; tauto).
  f_equal. inversion H as [|? ? (Hne & Hs & _) Hrest]; subst.
  cbn [map List.filter]. rewrite Hs.
  destruct v as [|c v]; [congruence|]. cbn [Py.truthy]. f_equal.
  clear -Hrest. induction Hrest as [|w ws (Hne & Hs & _) _ IH]; [reflexivity|].
  cbn [map List.filter]. rewrite strip_after_blank, Hs.
  destruct w as [|c w]; [congruence|]. cbn [Py.truthy]. f_equal. exact IH.
Qed.

End VisitFacts.

(** X13: the visits of a form are written in order: the text of the
    [Visits] column is the visits found, each once, joined by [", "], in
    increasing order of the first number in their names (9999 standing for a
    name without a digit), names of the same number in the order of their
    text. *)
Theorem visits_are_written_in_order (form_visits : gset string) :
  exists parts,
    FormExtractor.visits_string form_visits = join ", " parts
    /\ NoDup parts
    /\ (forall v, v ∈ parts <-> v ∈ form_visits)
    /\ Sorted (fun a b => FormExtractor.visit_leb a b = true) parts
    /\ StronglySorted
         (fun a b => FormExtractor.first_number a <= FormExtractor.first_number b)
         parts.
Proof.
  exists (fold_right FormExtractor.insert_visit [] (elements form_visits)).
  pose proof (VisitFacts.sorted_visits_perm (elements form_visits)) as Hp.
  split; [reflexivity|]. split; [rewrite Hp; apply NoDup_elements|].
  split; [intros v; rewrite Hp; apply elem_of_elements|].
  split; [apply VisitFacts.sorted_visits_sorted|].
  apply Sorted_StronglySorted.
  - intros x y z Hxy Hyz. lia.
  - eapply Sorted_ind with (P := fun l => Sorted _ l);
      [constructor| |apply VisitFacts.sorted_visits_sorted].
    intros a l _ IH Hh. constructor; [exact IH|].
    destruct Hh as [|b l' Hab]; constructor.
    apply VisitFacts.visit_leb_number, Hab.
Qed.

(** X14: the matrix reads back the visits the form extractor wrote: when no
    visit found for a form is empty, has white space around it or holds a
    comma, splitting the text of its [Visits] column at the commas and
    stripping the parts (the default visit parsing) gives the visits found,
    in the order written; so a visit is among those parsed exactly when it
    was found. *)
Theorem visits_written_are_read_back (form_visits : gset string) :
  (forall v, v ∈ form_visits ->
             v <> "" /\ Py.strip v = v /\ Py.contains v "," = false) ->
  exists parts,
    MatrixOrder.visits_list "," true
      (Some (FormExtractor.visits_string form_visits)) = Returned parts
    /\ FormExtractor.visits_string form_visits = join ", " parts
    /\ forall visit, visit ∈ parts <-> visit ∈ form_visits.
Proof.
  intros H.
  exists (fold_right FormExtractor.insert_visit [] (elements form_visits)).
  pose proof (VisitFacts.sorted_visits_perm (elements form_visits)) as Hp.
  split; [|split; [reflexivity|intros v; rewrite Hp; apply elem_of_elements]].
  apply VisitFacts.read_back. apply Forall_forall. intros v Hv.
  rewrite Hp in Hv. apply elem_of_elements in Hv. apply H, Hv.
Qed.

Lemma visits_written_are_read_back_witness :
  exists parts,
    MatrixOrder.visits_list "," true
      (Some (FormExtractor.visits_string {[ "V10"; "V2"; "V1" ]})) = Returned parts
    /\ FormExtractor.visits_string {[ "V10"; "V2"; "V1" ]} = join ", " parts
    /\ forall visit, visit ∈ parts <-> visit ∈ ({[ "V10"; "V2"; "V1" ]} : gset string).
Proof.
  apply (visits_written_are_read_back {[ "V10"; "V2"; "V1" ]}).
  intros v Hv. apply elem_of_union in Hv. destruct Hv as [Hv|Hv].
  - apply elem_of_union in Hv. destruct Hv as [Hv|Hv];
      apply elem_of_singleton in Hv; subst v; repeat split; discriminate.
  - apply elem_of_singleton in Hv; subst v; repeat split; discriminate.
Defined.

(** ** Visit names of the event grouper *)

Module EventFacts.
Import EventGrouping.

(** A visit code: [V] or [P] followed by digits. *)
Definition visit_code (r : string) : Prop :=
  exists c digits,
    r = String c digits
    /\ (c = "V"%char \/ c = "P"%char)
    /\ digits <> ""
    /\ Forall (fun d => is_digit d = true) (Py.chars digits).

Lemma span_accepted f s :
  Forall (fun d => f d = true) (Py.chars (span f s).1).
Proof.
  induction s as [|c s IH]; cbn [span]; [constructor|].
  destruct (f c) eqn:E; [|constructor].
  destruct (span f s) as [p r]. cbn [fst] in *. constructor; assumption.
Qed.

Lemma span_all f s :
  Forall (fun d => f d = true) (Py.chars s) -> span f s = (s, "").
Proof.
  induction s as [|c s IH]; intros H; cbn [span]; [reflexivity|].
  inversion H as [|? ? Hc Hs]; subst. rewrite Hc, (IH Hs). reflexivity.
Qed.

Lemma default_visit_pattern_base s base suffix :
  default_visit_pattern s = Some (base, suffix) -> visit_code base.
Proof.
  unfold default_visit_pattern. destruct s as [|c s1]; [discriminate|].
  destruct (bool_decide (c = "V"%char) || bool_decide (c = "P"%char)) eqn:Ec;
    [|discriminate].
  pose proof (span_accepted is_digit s1) as Hd.
  destruct (span is_digit s1) as [digits r]. cbn [fst] in Hd.
  destruct (Py.truthy digits) eqn:Et; [|discriminate].
  intros H.
  assert (Hbase : base = String c digits).
  { destruct r as [|w r']; [|destruct (Py.is_space w)].
    - destruct (at_end ""); congruence.
    - destruct (span is_alpha r') as [letters r''].
      destruct (Py.truthy letters && at_end r'');
        [|destruct (at_end (String w r'))]; congruence.
    - destruct (at_end (String w r')); congruence. }
  exists c, digits. split; [exact Hbase|]. split.
  - apply orb_true_iff in Ec. destruct Ec as [E|E]; apply bool_decide_eq_true in E; auto.
  - split; [|exact Hd]. destruct digits; [discriminate|discriminate].
Qed.

Lemma default_visit_pattern_code r :
  visit_code r -> default_visit_pattern r = Some (r, None).
Proof.
  intros (c & digits & -> & Hc & Hne & Hd). unfold default_visit_pattern.
  replace (bool_decide (c = "V"%char) || bool_decide (c = "P"%char)) with true
    by (destruct Hc as [-> | ->]; reflexivity).
  rewrite (span_all is_digit digits Hd).
  destruct digits; [congruence|]. reflexivity.
Qed.

Lemma digit_not_space d : is_digit d = true -> Py.is_space d = false.
Proof.
  unfold is_digit, Py.is_space. intros H. apply andb_true_iff in H.
  destruct H as [H1 H2]. apply Nat.leb_le in H1. apply Nat.leb_le in H2.
  repeat match goal with
         | |- context [(?x <=? ?y)%nat] => destruct (Nat.leb_spec x y)
         | |- context [(?x =? ?y)%nat] => destruct (Nat.eqb_spec x y)
         end; cbn; try reflexivity; lia.
Qed.

Lemma rstrip_no_space s :
  Forall (fun d => Py.is_space d = false) (Py.chars s) -> Py.rstrip s = s.
Proof.
  induction s as [|c s IH]; intros H; cbn [Py.rstrip]; [reflexivity|].
  inversion H as [|? ? Hc Hs]; subst. rewrite (IH Hs), Hc.
  destruct s; reflexivity.
Qed.

Lemma strip_code r : visit_code r -> Py.strip r = r.
Proof.
  intros (c & digits & -> & Hc & _ & Hd).
  assert (Hsp : Py.is_space c = false) by (destruct Hc as [-> | ->]; reflexivity).
  unfold Py.strip. cbn [Py.lstrip]. rewrite Hsp. apply rstrip_no_space.
  constructor; [exact Hsp|].
  eapply Forall_impl; [exact Hd|]. intros d. apply digit_not_space.
Qed.

(** *** Upper case, as code points *)

Lemma text_of_code_points t : Py.text_of (Py.code_points t) = Some t.
Proof.
  induction t as [|c t IH]; [reflexivity|]. cbn [Py.code_points Py.text_of].
  pose proof (nat_ascii_bounded c) as Hc. apply Nat.ltb_lt in Hc.
  rewrite Hc, IH, ascii_nat_embedding. reflexivity.
Qed.

Lemma text_of_Some : forall points t,
  Py.text_of points = Some t -> points = Py.code_points t.
Proof.
  induction points as [|n points IH]; intros t H; cbn [Py.text_of] in H.
  - injection H as <-. reflexivity.
  - destruct (Nat.ltb_spec n 256) as [Hn|Hn]; [|discriminate].
    destruct (Py.text_of points) as [u|] eqn:E; [|discriminate].
    injection H as <-. cbn [Py.code_points].
    rewrite (nat_ascii_embedding n Hn), (IH u eq_refl). reflexivity.
Qed.

(** [s.upper() in special_cases], and the text returned then. *)
Lemma special_case_Some cfg points t :
  special_case cfg points = Some t
  <-> points = Py.code_points t /\ t ∈ special_cases cfg.
Proof.
  unfold special_case. split.
  - destruct (Py.text_of points) as [u|] eqn:E; [|discriminate].
    case_bool_decide as Hin; [|discriminate]. intros [= <-].
    split; [apply text_of_Some, E|exact Hin].
  - intros [-> Hin]. rewrite text_of_code_points.
    rewrite bool_decide_eq_true_2 by exact Hin. reflexivity.
Qed.

Lemma special_case_None cfg t :
  special_case cfg (Py.code_points t) = None <-> ~ t ∈ special_cases cfg.
Proof.
  unfold special_case. rewrite text_of_code_points.
  case_bool_decide as Hin; split; intros H; congruence || tauto.
Qed.

Lemma upper_char_digit d :
  is_digit d = true -> Py.upper_char d = [nat_of_ascii d].
Proof.
  unfold is_digit, Py.upper_char, Py.is_lower_ascii, Py.is_lower_latin.
  intros H. apply andb_true_iff in H.
  destruct H as [H1 H2]. apply Nat.leb_le in H1. apply Nat.leb_le in H2.
  repeat match goal with
         | |- context [(?x <=? ?y)%nat] => destruct (Nat.leb_spec x y)
         | |- context [(?x =? ?y)%nat] => destruct (Nat.eqb_spec x y)
         end; cbn; try reflexivity; lia.
Qed.

(** A visit code is its own upper case. *)
Lemma upper_code r : visit_code r -> Py.upper r = Py.code_points r.
Proof.
  intros (c & digits & -> & Hc & _ & Hd). cbn [Py.upper Py.code_points].
  replace (Py.upper_char c) with [nat_of_ascii c]
    by (destruct Hc as [-> | ->]; reflexivity).
  cbn [app]. f_equal.
  induction digits as [|d digits IH]; [reflexivity|].
  inversion Hd as [|? ? H1 H2]; subst. cbn [Py.upper Py.code_points].
  rewrite (upper_char_digit d H1), (IH H2). reflexivity.
Qed.

(** What [normalize_visit_name] returns for a name the default pattern
    matches: the base, alone or with a suffix of the length kept. *)
Lemma normalize_matched cfg v base suffix r :
  pattern cfg = default_visit_pattern ->
  default_visit_pattern (Py.strip v) = Some (base, suffix) ->
  normalize_visit_name v cfg = Some r ->
  r = base.
Proof.
  intros Hp E H. unfold normalize_visit_name in H. rewrite Hp, E in H.
  pose proof (default_visit_pattern_base _ _ _ E) as Hb.
  rewrite (upper_code base Hb) in H.
  destruct (special_case cfg (Py.code_points base)) as [t|] eqn:Es.
  - apply special_case_Some in Es. destruct Es as [Ht _].
    injection H as <-.
    pose proof (text_of_code_points base) as H1.
    rewrite Ht, text_of_code_points in H1. congruence.
  - destruct suffix as [suf|]; [|congruence].
    destruct (Py.truthy suf); [|congruence].
    destruct (String.length suf =? keep_suffix_length cfg)%nat; congruence.
Qed.

(** A visit code is normalised to itself. *)
Lemma normalize_code cfg base :
  pattern cfg = default_visit_pattern ->
  visit_code base ->
  normalize_visit_name base cfg = Some base.
Proof.
  intros Hp Hb. unfold normalize_visit_name.
  rewrite (strip_code base Hb), Hp, (default_visit_pattern_code base Hb),
    (upper_code base Hb).
  destruct (special_case cfg (Py.code_points base)) as [t|] eqn:Es;
    [|reflexivity].
  apply special_case_Some in Es. destruct Es as [Ht _].
  pose proof (text_of_code_points base) as H1.
  rewrite Ht, text_of_code_points in H1. congruence.
Qed.

End EventFacts.

(** X15: with the default visit pattern, whatever the special cases and
    the suffix length kept, a name returned by [normalize_visit_name] is one
    of the special cases or a visit code ([V] or [P] followed by digits), and
    a visit code returned is a fixed point: normalising it again returns it
    unchanged. *)
Theorem normalize_visit_name_returns_a_visit_code
        (v r : string) (cfg : EventGrouping.config) :
  EventGrouping.pattern cfg = EventGrouping.default_visit_pattern ->
  EventGrouping.normalize_visit_name v cfg = Some r ->
  r ∈ EventGrouping.special_cases cfg
  \/ (EventFacts.visit_code r
      /\ EventGrouping.normalize_visit_name r cfg = Some r).
Proof.
  intros Hp H.
  destruct (EventGrouping.default_visit_pattern (Py.strip v))
    as [[base suffix]|] eqn:E.
  - pose proof (EventFacts.default_visit_pattern_base _ _ _ E) as Hb.
    rewrite (EventFacts.normalize_matched cfg v base suffix r Hp E H).
    right. split; [exact Hb|]. apply EventFacts.normalize_code; assumption.
  - unfold EventGrouping.normalize_visit_name in H. rewrite Hp, E in H.
    apply EventFacts.special_case_Some in H. left. exact (proj2 H).
Qed.

Lemma normalize_visit_name_returns_a_visit_code_witness :
  "V12" ∈ EventGrouping.special_cases EventGrouping.default_config
  \/ (EventFacts.visit_code "V12"
      /\ EventGrouping.normalize_visit_name "V12" EventGrouping.default_config
         = Some "V12").
Proof.
  apply (normalize_visit_name_returns_a_visit_code
           " V12 a " "V12" EventGrouping.default_config); reflexivity.
Defined.

(** ** C6: normalisation of visit names *)

(** The last part of the claim as the specification words it: a token of
    the configured special-case list is returned unchanged. *)
Definition listed_token_unchanged : Prop :=
  forall (special : list string) (t : string),
    In t special ->
    EventGrouping.normalize_visit_name t
      (EventGrouping.with_special_cases EventGrouping.default_config special)
    = Some t.

(** C6, counterexample: the token ["Rand"] of the special-case list
    ["Rand"] is dropped, because the list is searched for the upper-cased
    token ["RAND"]; and the token ["V1 A"] of the list ["V1 A"] comes back
    as ["V1"], because the pattern matches it and only its base is looked
    up. *)
Lemma C6_listed_token_not_returned : ~ listed_token_unchanged.
Proof.
  intros H.
  assert (Hrand : EventGrouping.normalize_visit_name "Rand"
                    (EventGrouping.with_special_cases
                       EventGrouping.default_config ["Rand"]) = None)
    by (vm_compute; reflexivity).
  assert (Hsuffix : EventGrouping.normalize_visit_name "V1 A"
                      (EventGrouping.with_special_cases
                         EventGrouping.default_config ["V1 A"]) = Some "V1")
    by (vm_compute; reflexivity).
  specialize (H ["Rand"] "Rand" ltac:(left; reflexivity)).
  rewrite Hrand in H. discriminate H.
Qed.

(** C6 (amended): with the default configuration ["V12 a"] is normalised to
    ["V12"] and ["V12 abc"] is dropped; with a special-case list that holds
    it, ["RAND"] comes back unchanged; and a token of the special-case list
    comes back unchanged exactly when either it is the upper case of itself
    stripped and the pattern does not match it stripped, or the pattern
    matches it stripped as a whole, without a suffix. *)
Theorem C6_normalize_visit_name :
  EventGrouping.normalize_visit_name "V12 a" EventGrouping.default_config
  = Some "V12"
  /\ EventGrouping.normalize_visit_name "V12 abc" EventGrouping.default_config
     = None
  /\ (forall special : list string,
        In "RAND" special ->
        EventGrouping.normalize_visit_name "RAND"
          (EventGrouping.with_special_cases EventGrouping.default_config special)
        = Some "RAND")
  /\ (forall (special : list string) (t : string),
        In t special ->
        EventGrouping.normalize_visit_name t
          (EventGrouping.with_special_cases EventGrouping.default_config special)
        = Some t
        <-> (Py.upper (Py.strip t) = Py.code_points t
             /\ EventGrouping.default_visit_pattern (Py.strip t) = None)
            \/ EventGrouping.default_visit_pattern (Py.strip t) = Some (t, None)).
Proof.
  assert (Hgen : forall (special : list string) (t : string),
        In t special ->
        EventGrouping.normalize_visit_name t
          (EventGrouping.with_special_cases EventGrouping.default_config special)
        = Some t
        <-> (Py.upper (Py.strip t) = Py.code_points t
             /\ EventGrouping.default_visit_pattern (Py.strip t) = None)
            \/ EventGrouping.default_visit_pattern (Py.strip t) = Some (t, None)).
  { intros special t Hin. apply list_elem_of_In in Hin.
    set (cfg := EventGrouping.with_special_cases EventGrouping.default_config
                  special).
    assert (Hp : EventGrouping.pattern cfg = EventGrouping.default_visit_pattern)
      by reflexivity.
    destruct (EventGrouping.default_visit_pattern (Py.strip t))
      as [[base suffix]|] eqn:E.
    - pose proof (EventFacts.default_visit_pattern_base _ _ _ E) as Hb.
      split.
      + intros H. right.
        pose proof (EventFacts.normalize_matched cfg t base suffix t Hp E H) as Ht.
        subst base. rewrite (EventFacts.strip_code t Hb) in E.
        rewrite (EventFacts.default_visit_pattern_code t Hb) in E.
        symmetry. exact E.
      + intros [[_ Hnone]|Hsome]; [discriminate Hnone|].
        injection Hsome as -> ->.
        apply EventFacts.normalize_code; assumption.
    - unfold EventGrouping.normalize_visit_name. rewrite Hp, E. split.
      + intros H. left. apply EventFacts.special_case_Some in H.
        split; [exact (proj1 H)|reflexivity].
      + intros [[Hup _]|Hsome]; [|discriminate Hsome].
        apply EventFacts.special_case_Some. split; [exact Hup|exact Hin]. }
  split; [|split; [|split]].
  - vm_compute. reflexivity.
  - vm_compute. reflexivity.
  - intros special Hin. apply Hgen; [exact Hin|]. left. split; reflexivity.
  - exact Hgen.
Qed.

Lemma C6_normalize_visit_name_witness :
  EventGrouping.normalize_visit_name "SCR"
    (EventGrouping.with_special_cases EventGrouping.default_config ["SCR"; "RAND"])
  = Some "SCR"
  /\ EventGrouping.normalize_visit_name "RAND"
       (EventGrouping.with_special_cases EventGrouping.default_config ["SCR"; "RAND"])
     = Some "RAND".
Proof.
  destruct C6_normalize_visit_name as (_ & _ & Hrand & Hgen). split.
  - apply Hgen.
    + left. reflexivity.
    + left. split; reflexivity.
  - apply Hrand. right. left. reflexivity.
Defined.

(** ** The schedule parser: header row, end of the schedule, procedures *)

Module ScheduleFacts.
Import SoaParser.

Section Facts.
Variable extract_complete_visit_identifier : string -> option string.
Variable header_keyword_hits : string -> nat.
Variable min_visit_count : nat.
Variable cell_has_marker : string -> bool.
Variable end_cell_has_marker : string -> bool.
Variable section_break : string -> bool.
Variable min_procedures : nat.
Variable consecutive_threshold : nat.
Variable procedure_filters : list string.

Local Abbreviation row_score :=
  (row_score extract_complete_visit_identifier header_keyword_hits).
Local Abbreviation detect_visit_header_row :=
  (detect_visit_header_row extract_complete_visit_identifier header_keyword_hits
                           min_visit_count).

(** *** The header row *)

(** [row], found at [idx], is the first of the non-empty rows of highest
    score, and that score reaches [min_visit_count] and is not 0. *)
Definition first_header (rows : list (list string)) (idx : nat)
           (row : list string) : Prop :=
  rows !! idx = Some row
  /\ row <> []
  /\ min_visit_count <= row_score row
  /\ 0 < row_score row
  /\ (forall r, r ∈ rows -> r <> [] -> row_score r <= row_score row)
  /\ (forall i r, i < idx -> rows !! i = Some r -> r <> [] ->
                  row_score r < row_score row).

Definition no_header (rows : list (list string)) : Prop :=
  forall r, r ∈ rows -> r <> [] ->
            row_score r < min_visit_count \/ row_score r = 0.

Definition header_state (seen : list (list string))
           (best : option (list string) * nat) : Prop :=
  match best.1 with
  | None => best.2 = 0 /\ no_header seen
  | Some row => best.2 = row_score row /\ exists idx, first_header seen idx row
  end.

Definition header_step (best : option (list string) * nat) (row : list string)
  : option (list string) * nat :=
  match row with
  | [] => best
  | _ =>
      if (best.2 <? row_score row)%nat && (min_visit_count <=? row_score row)%nat
      then (Some row, row_score row) else best
  end.

Lemma first_header_snoc seen idx row r :
  first_header seen idx row ->
  (r <> [] -> row_score r <= row_score row) ->
  first_header (seen ++ [r]) idx row.
Proof.
  intros (Hl & Hne & Hmin & Hpos & Hall & Hfirst) Hr.
  pose proof (lookup_lt_Some _ _ _ Hl) as Hlt.
  split; [rewrite lookup_app_l by exact Hlt; exact Hl|].
  split; [exact Hne|]. split; [exact Hmin|]. split; [exact Hpos|]. split.
  - intros r' Hr' Hne'. apply elem_of_app in Hr'. destruct Hr' as [Hr'|Hr'].
    + apply Hall; assumption.
    + apply list_elem_of_singleton in Hr'. subst r'. apply Hr, Hne'.
  - intros i r' Hi Hr' Hne'. apply (Hfirst i r' Hi); [|exact Hne'].
    rewrite lookup_app_l in Hr' by lia. exact Hr'.
Qed.

Lemma header_state_step seen best row :
  header_state seen best -> header_state (seen ++ [row]) (header_step best row).
Proof.
  unfold header_state, header_step. intros H.
  assert (Hskip : row = [] \/ row_score row <= best.2
                  \/ row_score row < min_visit_count ->
                  match best.1 with
                  | None => best.2 = 0 /\ no_header (seen ++ [row])
                  | Some row0 =>
                      best.2 = row_score row0
                      /\ exists idx, first_header (seen ++ [row]) idx row0
                  end).
  { intros Hc. destruct (best.1) as [row0|].
    - destruct H as [Hs [idx Hf]]. split; [exact Hs|]. exists idx.
      apply first_header_snoc; [exact Hf|]. intros Hne.
      destruct Hc as [Hc|[Hc|Hc]]; [congruence|lia|].
      destruct Hf as (_ & _ & Hmin & _). lia.
    - destruct H as [Hs Hnone]. split; [exact Hs|].
      intros r Hr Hne. apply elem_of_app in Hr. destruct Hr as [Hr|Hr].
      + apply Hnone; assumption.
      + apply list_elem_of_singleton in Hr. subst r.
        destruct Hc as [Hc|[Hc|Hc]]; [congruence|right; lia|left; exact Hc]. }
  destruct row as [|c row']; [apply Hskip; left; reflexivity|].
  set (row := c :: row') in *.
  destruct (Nat.ltb_spec best.2 (row_score row)) as [Hlt|Hge];
    [|apply Hskip; right; left; exact Hge].
  destruct (Nat.leb_spec min_visit_count (row_score row)) as [Hmin|Hmin];
    [|apply Hskip; right; right; exact Hmin].
  cbn [andb fst snd]. split; [reflexivity|]. exists (length seen).
  assert (Hbelow : forall r, r ∈ seen -> r <> [] -> row_score r < row_score row).
  { intros r Hr Hne. destruct (best.1) as [row0|].
    - destruct H as (Hs & idx & _ & _ & _ & _ & Hall & _).
      specialize (Hall r Hr Hne). lia.
    - destruct H as [Hs Hnone]. destruct (Hnone r Hr Hne); lia. }
  split; [rewrite lookup_app_r, Nat.sub_diag by lia; reflexivity|].
  split; [discriminate|]. split; [exact Hmin|]. split; [lia|]. split.
  - intros r Hr Hne. apply elem_of_app in Hr. destruct Hr as [Hr|Hr].
    + specialize (Hbelow r Hr Hne). lia.
    + apply list_elem_of_singleton in Hr. subst r. lia.
  - intros i r Hi Hr Hne. rewrite lookup_app_l in Hr by exact Hi.
    apply Hbelow; [eapply list_elem_of_lookup_2, Hr|exact Hne].
Qed.

Lemma header_state_fold : forall rows seen best,
  header_state seen best ->
  header_state (seen ++ rows) (fold_left header_step rows best).
Proof.
  induction rows as [|row rows IH]; intros seen best H; cbn [fold_left].
  - rewrite app_nil_r. exact H.
  - replace (seen ++ row :: rows) with ((seen ++ [row]) ++ rows)
      by (rewrite <- app_assoc; reflexivity).
    apply IH, header_state_step, H.
Qed.

Lemma detect_visit_header_row_state rows :
  match detect_visit_header_row rows with
  | Some row => exists idx, first_header rows idx row
  | None => no_header rows
  end.
Proof.
  pose proof (header_state_fold rows [] (None, 0)) as H.
  cbn [app] in H. unfold header_state in H.
  unfold SoaParser.detect_visit_header_row. fold header_step.
  destruct ((fold_left header_step rows (None, 0)).1) as [row|].
  - apply H. split; [reflexivity|]. intros r Hr. inversion Hr.
  - apply H. split; [reflexivity|]. intros r Hr. inversion Hr.
Qed.

(** *** The end of the schedule *)

Local Abbreviation schedule_end_loop :=
  (schedule_end_loop end_cell_has_marker section_break min_procedures
                     consecutive_threshold).
Local Abbreviation find_schedule_end :=
  (find_schedule_end end_cell_has_marker section_break min_procedures
                     consecutive_threshold).

(** The rows the loop counts as procedures. *)
Definition marked (cols : list (nat * string)) (row : list string) : bool :=
  match row with
  | [] => false
  | _ => row_has_markers end_cell_has_marker cols row
  end.

Lemma schedule_end_loop_spec cols : forall rows i count consecutive total,
  i + length rows = total ->
  let e := schedule_end_loop cols rows i count consecutive total in
  i <= e <= total
  /\ (e < total ->
      min_procedures
      <= count + length (List.filter (marked cols) (take (e - i) rows))
      /\ exists row, rows !! (e - i) = Some row /\ row <> []
                     /\ row_has_markers end_cell_has_marker cols row = false).
Proof.
  induction rows as [|row rows IH]; intros i count consecutive total Hlen;
    cbn [SoaParser.schedule_end_loop].
  - cbn [length] in Hlen. split; [lia|]. intros H. lia.
  - cbn [length] in Hlen.
    assert (Hnext : forall count' consecutive',
              count' = count + (if marked cols row then 1 else 0) ->
              let e := schedule_end_loop cols rows (S i) count' consecutive' total in
              i <= e <= total
              /\ (e < total ->
                  min_procedures
                  <= count + length (List.filter (marked cols)
                                                 (take (e - i) (row :: rows)))
                  /\ exists row0, (row :: rows) !! (e - i) = Some row0 /\ row0 <> []
                       /\ row_has_markers end_cell_has_marker cols row0 = false)).
    { intros count' consecutive' Hc.
      destruct (IH (S i) count' consecutive' total ltac:(lia)) as [Hb Hm].
      cbv zeta. split; [lia|]. intros He. destruct (Hm He) as [Hmin Hrow].
      replace (schedule_end_loop cols rows (S i) count' consecutive' total - i)
        with (S (schedule_end_loop cols rows (S i) count' consecutive' total - S i))
        by lia.
      cbn [take List.filter lookup list_lookup]. split; [|exact Hrow].
      destruct (marked cols row); cbn [length]; lia. }
    destruct row as [|first rest]; [apply Hnext; cbn; lia|].
    set (row := first :: rest) in *.
    destruct (row_has_markers end_cell_has_marker cols row) eqn:Em.
    + apply Hnext. unfold marked. subst row. rewrite Em. lia.
    + assert (Hstop : min_procedures <= count ->
                i <= i <= total
                /\ (i < total ->
                    min_procedures
                    <= count + length (List.filter (marked cols)
                                                   (take (i - i) (row :: rows)))
                    /\ exists row0, (row :: rows) !! (i - i) = Some row0
                         /\ row0 <> []
                         /\ row_has_markers end_cell_has_marker cols row0 = false)).
      { intros Hmin. split; [lia|]. intros _. rewrite Nat.sub_diag.
        cbn [take List.filter length]. split; [lia|]. exists row.
        split; [reflexivity|]. split; [discriminate|exact Em]. }
      destruct (Nat.leb_spec min_procedures count) as [Hmin|Hmin]; cbn [andb].
      * destruct (consecutive_threshold <? S consecutive)%nat; [apply Hstop, Hmin|].
        destruct (section_break (Py.strip first)); [apply Hstop, Hmin|].
        apply Hnext. unfold marked. subst row. rewrite Em. lia.
      * apply Hnext. unfold marked. subst row. rewrite Em. lia.
Qed.

Lemma find_schedule_end_spec all_rows cols start :
  start <= length all_rows ->
  let e := find_schedule_end all_rows cols start in
  start <= e <= length all_rows
  /\ (e < length all_rows ->
      min_procedures
      <= length (List.filter (marked cols) (drop start (take e all_rows)))
      /\ exists row, all_rows !! e = Some row /\ row <> []
                     /\ row_has_markers end_cell_has_marker cols row = false).
Proof.
  intros Hs. unfold SoaParser.find_schedule_end.
  pose proof (schedule_end_loop_spec cols (drop start all_rows) start 0 0
                (length all_rows)) as H.
  rewrite length_drop in H. specialize (H ltac:(lia)). cbv zeta in H |- *.
  set (e := schedule_end_loop cols (drop start all_rows) start 0 0 (length all_rows))
    in *.
  destruct H as [Hb Hm]. split; [exact Hb|]. intros He.
  destruct (Hm He) as [Hmin (row & Hrow & Hne & Hmark)].
  split.
  - rewrite take_drop_commute in Hmin.
    replace (start + (e - start)) with e in Hmin by lia. exact Hmin.
  - exists row. rewrite lookup_drop in Hrow.
    replace (start + (e - start)) with e in Hrow by lia. auto.
Qed.

(** *** The procedures *)

Local Abbreviation add_procedure :=
  (add_procedure extract_complete_visit_identifier cell_has_marker
                 procedure_filters).

(** The marks of one row. *)
Definition mark_row (procedure : string) (row : list string)
           (m : schedule_map) (cv : nat * string) : schedule_map :=
  if cell_has_marker (default EmptyString (row !! cv.1))
  then <[cv.2 := default [] (m !! cv.2) ++ [procedure]]> m
  else m.

(** [procedure] has a mark under some visit. *)
Definition has_mark (m : schedule_map) (procedure : string) : Prop :=
  exists v l, m !! v = Some l /\ procedure ∈ l.

Lemma mark_row_keeps procedure row cv m v l :
  m !! v = Some l ->
  exists l', mark_row procedure row m cv !! v = Some l'
             /\ forall p, p ∈ l -> p ∈ l'.
Proof.
  intros H. unfold mark_row, schedule_map in *.
  destruct (cell_has_marker _); [|eauto].
  destruct (decide (cv.2 = v)) as [E|Hne].
  - rewrite E, lookup_insert_eq, H. eexists. split; [reflexivity|].
    intros p Hp. apply elem_of_app. left. exact Hp.
  - rewrite lookup_insert_ne by exact Hne. eauto.
Qed.

Lemma mark_rows_keep procedure row : forall cols m v l,
  m !! v = Some l ->
  exists l', fold_left (mark_row procedure row) cols m !! v = Some l'
             /\ forall p, p ∈ l -> p ∈ l'.
Proof.
  induction cols as [|cv cols IH]; intros m v l H; cbn [fold_left]; [eauto|].
  destruct (mark_row_keeps procedure row cv m v l H) as (l1 & H1 & Hsub).
  destruct (IH _ v l1 H1) as (l2 & H2 & Hsub2). eauto.
Qed.

Lemma mark_rows_mark procedure row : forall cols m,
  row_has_markers cell_has_marker cols row = true ->
  has_mark (fold_left (mark_row procedure row) cols m) procedure.
Proof.
  unfold row_has_markers.
  induction cols as [|cv cols IH]; intros m H; cbn [existsb fold_left] in *;
    [discriminate|].
  apply orb_true_iff in H. destruct H as [H|H]; [|apply IH, H].
  assert (Hm : mark_row procedure row m cv !! cv.2
               = Some (default [] (m !! cv.2) ++ [procedure])).
  { unfold mark_row, schedule_map in *.
    destruct (row !! cv.1) as [cell|]; [|discriminate].
    simpl in *. rewrite H. apply lookup_insert_eq. }
  destruct (mark_rows_keep procedure row cols _ _ _ Hm) as (l' & Hl' & Hsub).
  exists cv.2, l'. split; [exact Hl'|]. apply Hsub, elem_of_app. right. left.
Qed.

Lemma mark_rows_sound procedure row (P : string -> list string -> Prop) all :
  (forall v l, P v l -> v ∈ map snd all -> P v (l ++ [procedure])) ->
  (forall v, v ∈ map snd all -> P v [procedure]) ->
  forall cols m,
    (forall cv, cv ∈ cols -> cv ∈ all) ->
    (forall v l, m !! v = Some l -> P v l) ->
    forall v l, fold_left (mark_row procedure row) cols m !! v = Some l -> P v l.
Proof.
  intros Hgrow Hnew.
  induction cols as [|cv cols IH]; intros m Hin Hm v l H; cbn [fold_left] in H;
    [apply Hm, H|].
  apply (IH (mark_row procedure row m cv)); [intros c Hc; apply Hin; right; exact Hc| |exact H].
  intros v' l' H'. unfold mark_row, schedule_map in *.
  destruct (cell_has_marker _); [|apply Hm, H'].
  assert (Hv : cv.2 ∈ map snd all).
  { apply list_elem_of_fmap. exists cv. split; [reflexivity|]. apply Hin. left. }
  apply lookup_insert_Some in H'. destruct H' as [[<- <-]|[_ H']]; [|apply Hm, H'].
  destruct (m !! cv.2) as [l0|] eqn:E; cbn [default].
  - apply Hgrow; [apply Hm, E|exact Hv].
  - apply Hnew, Hv.
Qed.

(** What the loop over the rows keeps true. *)
Definition procedures_state (cols : list (nat * string))
           (s : schedule_map * list string) : Prop :=
  NoDup s.2
  /\ (forall v l, s.1 !! v = Some l ->
        v ∈ map snd cols /\ l <> [] /\ forall p, p ∈ l -> p ∈ s.2)
  /\ (forall p, p ∈ s.2 -> has_mark s.1 p).

Lemma add_procedure_state cols s row :
  procedures_state cols s -> procedures_state cols (add_procedure cols s row).
Proof.
  intros Hs. pose proof Hs as (Hnd & Hkeys & Hmarks).
  unfold SoaParser.add_procedure.
  destruct row as [|first rest]; [exact Hs|].
  set (row := first :: rest). set (procedure := Py.strip first).
  destruct (skip_row _ _ procedure); [exact Hs|].
  destruct (row_has_markers cell_has_marker cols row) eqn:Em; [|exact Hs].
  fold (mark_row procedure row).
  set (order := if bool_decide (procedure ∈ s.2) then s.2 else s.2 ++ [procedure]).
  assert (Hold : forall p, p ∈ s.2 -> p ∈ order).
  { intros p Hp. unfold order. case_bool_decide; [exact Hp|].
    apply elem_of_app. left. exact Hp. }
  assert (Hnew : procedure ∈ order).
  { unfold order. case_bool_decide as E; [exact E|]. apply elem_of_app. right. left. }
  split; [|split]; cbn [fst snd].
  - unfold order. case_bool_decide as E; [exact Hnd|].
    apply NoDup_app. split; [exact Hnd|]. split; [|apply NoDup_singleton].
    intros x Hx Hx'. apply list_elem_of_singleton in Hx'. subst x. exact (E Hx).
  - apply (mark_rows_sound procedure row
             (fun v l => v ∈ map snd cols /\ l <> [] /\ forall p, p ∈ l -> p ∈ order)
             cols).
    + intros v l (Hv & _ & Hl) _. split; [exact Hv|]. split.
      * destruct l; discriminate.
      * intros p Hp. apply elem_of_app in Hp. destruct Hp as [Hp|Hp]; [auto|].
        apply list_elem_of_singleton in Hp. subst p. exact Hnew.
    + intros v Hv. split; [exact Hv|]. split; [discriminate|].
      intros p Hp. apply list_elem_of_singleton in Hp. subst p. exact Hnew.
    + auto.
    + intros v l Hl. destruct (Hkeys v l Hl) as (Hv & Hne & Hsub).
      split; [exact Hv|]. split; [exact Hne|]. auto.
  - intros p Hp. unfold order in Hp.
    assert (Hcase : p ∈ s.2 \/ p = procedure).
    { case_bool_decide; [left; exact Hp|]. apply elem_of_app in Hp.
      destruct Hp as [Hp|Hp]; [left; exact Hp|right].
      apply list_elem_of_singleton in Hp. exact Hp. }
    destruct Hcase as [Hp'| ->]; [|apply mark_rows_mark, Em].
    destruct (Hmarks p Hp') as (v & l & Hl & Hpl).
    destruct (mark_rows_keep procedure row cols s.1 v l Hl) as (l' & Hl' & Hsub).
    exists v, l'. split; [exact Hl'|]. apply Hsub, Hpl.
Qed.

Lemma add_procedures_state cols : forall rows s,
  procedures_state cols s ->
  procedures_state cols (fold_left (add_procedure cols) rows s).
Proof.
  induction rows as [|row rows IH]; intros s H; cbn [fold_left]; [exact H|].
  apply IH, add_procedure_state, H.
Qed.

(** *** The sheet written *)

(** A line of the sheet: the procedure, then a mark or nothing for each
    visit, with one mark at least. *)
Definition procedure_line (visits : list string) (procedure : string)
           (line : list string) : Prop :=
  exists marks,
    line = procedure :: marks
    /\ length marks = length visits
    /\ "X" ∈ marks
    /\ Forall (fun c => c = "X" \/ c = "") marks.

Lemma schedule_csv_lines cols (s : schedule_map * list string) visits :
  procedures_state cols s ->
  map snd cols = visits ->
  Forall2 (procedure_line visits) s.2 (tail (schedule_csv s.1 visits s.2)).
Proof.
  intros (_ & Hkeys & Hmarks) Hv. unfold schedule_csv. cbn [tail].
  apply Forall2_fmap_r. apply Forall2_same_length_lookup_2; [reflexivity|].
  intros i p p' Hp Hp'. rewrite Hp in Hp'. injection Hp' as <-.
  eexists. split; [reflexivity|]. split; [apply length_map|]. split.
  - destruct (Hmarks p (list_elem_of_lookup_2 _ _ _ Hp)) as (v & l & Hl & Hpl).
    apply list_elem_of_fmap. exists v. split.
    + rewrite Hl. cbn [default]. rewrite bool_decide_eq_true_2 by exact Hpl.
      reflexivity.
    + rewrite <- Hv. apply (Hkeys v l Hl).
  - apply Forall_forall. intros c Hc. apply list_elem_of_fmap in Hc.
    destruct Hc as (v & -> & _). case_bool_decide; auto.
Qed.

End Facts.

End ScheduleFacts.

(** X16: the header row of the schedule is the first of the best rows: the
    row [detect_visit_header_row] returns is a non-empty row of the tables
    whose score (distinct visit identifiers, plus 2 for each header keyword
    found) reaches [min_visit_count] and is not 0, no non-empty row scores
    higher and every non-empty row before it scores strictly lower; nothing
    is returned only when no non-empty row has a score that reaches
    [min_visit_count] and is not 0. *)
Theorem header_row_is_the_first_best_row
        (extract_complete_visit_identifier : string -> option string)
        (header_keyword_hits : string -> nat) (min_visit_count : nat)
        (all_rows : list (list string)) :
  let score :=
    SoaParser.row_score extract_complete_visit_identifier header_keyword_hits in
  match SoaParser.detect_visit_header_row extract_complete_visit_identifier
          header_keyword_hits min_visit_count all_rows with
  | Some row =>
      exists idx,
        all_rows !! idx = Some row
        /\ row <> []
        /\ min_visit_count <= score row
        /\ 0 < score row
        /\ (forall r, r ∈ all_rows -> r <> [] -> score r <= score row)
        /\ (forall i r, i < idx -> all_rows !! i = Some r -> r <> [] ->
                        score r < score row)
  | None =>
      forall r, r ∈ all_rows -> r <> [] ->
                score r < min_visit_count \/ score r = 0
  end.
Proof.
  intros score.
  pose proof (ScheduleFacts.detect_visit_header_row_state
                extract_complete_visit_identifier header_keyword_hits
                min_visit_count all_rows) as H.
  destruct (SoaParser.detect_visit_header_row extract_complete_visit_identifier
              header_keyword_hits min_visit_count all_rows) as [row|].
  - destruct H as [idx H]. exists idx. exact H.
  - exact H.
Qed.

(** X17: the schedule is never cut short of [min_procedures] procedures:
    for a start inside the rows, the index [find_schedule_end] returns lies
    between the start and the number of rows, and when it is less than the
    number of rows, the row at that index is a non-empty row without a
    marker under any visit column and at least [min_procedures] non-empty
    rows between the start and it have such a marker. *)
Theorem schedule_end_keeps_min_procedures
        (end_cell_has_marker section_break : string -> bool)
        (min_procedures consecutive_threshold : nat)
        (all_rows : list (list string)) (column_to_visit : list (nat * string))
        (start_from : nat) :
  start_from <= length all_rows ->
  let end_index :=
    SoaParser.find_schedule_end end_cell_has_marker section_break min_procedures
      consecutive_threshold all_rows column_to_visit start_from in
  start_from <= end_index <= length all_rows
  /\ (end_index < length all_rows ->
      min_procedures
      <= length
           (List.filter
              (fun row =>
                 match row with
                 | [] => false
                 | _ => SoaParser.row_has_markers end_cell_has_marker
                          column_to_visit row
                 end)
              (drop start_from (take end_index all_rows)))
      /\ exists row,
           all_rows !! end_index = Some row /\ row <> []
           /\ SoaParser.row_has_markers end_cell_has_marker column_to_visit row
              = false).
Proof.
  intros Hstart end_index.
  destruct (ScheduleFacts.find_schedule_end_spec end_cell_has_marker section_break
              min_procedures consecutive_threshold all_rows column_to_visit
              start_from Hstart) as [Hbounds Hcut].
  split; [exact Hbounds|]. intros Hend.
  destruct (Hcut Hend) as [Hmin Hrow]. split; [exact Hmin|exact Hrow].
Qed.

Lemma schedule_end_keeps_min_procedures_witness :
  let marker := fun cell : string => bool_decide (cell = "X") in
  let rows := [["ECG"; "X"]; ["Notes"; ""]; ["Labs"; "X"]] in
  0 <= SoaParser.find_schedule_end marker (fun _ => false) 1 0 rows [(1, "V1")] 0
    <= 3
  /\ (SoaParser.find_schedule_end marker (fun _ => false) 1 0 rows [(1, "V1")] 0 < 3 ->
      1 <= length
             (List.filter
                (fun row =>
                   match row with
                   | [] => false
                   | _ => SoaParser.row_has_markers marker [(1, "V1")] row
                   end)
                (drop 0 (take (SoaParser.find_schedule_end marker (fun _ => false)
                                 1 0 rows [(1, "V1")] 0) rows)))
      /\ exists row,
           rows !! SoaParser.find_schedule_end marker (fun _ => false) 1 0 rows
                     [(1, "V1")] 0 = Some row
           /\ row <> []
           /\ SoaParser.row_has_markers marker [(1, "V1")] row = false).
Proof.
  intros marker rows.
  apply (schedule_end_keeps_min_procedures marker (fun _ => false) 1 0 rows
           [(1, "V1")] 0).
  simpl. lia.
Defined.

(** X18: the schedule sheet [parse_soa] writes has a mark in every line:
    when [parse_soa] returns, it returns the path it was given, and the
    sheet is a header line [Procedure] followed by the visits (at least one,
    all different) and then at least one procedure line; the procedure
    lines carry different procedures, and each has, after the procedure,
    one cell for each visit, [X] or empty, with at least one [X]. *)
Theorem parse_soa_writes_marked_procedures
        (extract_complete_visit_identifier : string -> option string)
        (header_keyword_hits : string -> nat) (min_visit_count : nat)
        (cell_has_marker end_cell_has_marker section_break : string -> bool)
        (min_procedures consecutive_threshold : nat)
        (procedure_filters : list string)
        (find_all_schedule_tables : node -> list node)
        (protocol_data : node) (output_csv path : string)
        (sheet : list (list string)) :
  SoaParser.parse_soa extract_complete_visit_identifier header_keyword_hits
    min_visit_count cell_has_marker end_cell_has_marker section_break
    min_procedures consecutive_threshold procedure_filters
    find_all_schedule_tables protocol_data output_csv
  = Returned (path, sheet) ->
  path = output_csv
  /\ exists visits procedures lines,
       sheet = ("Procedure" :: visits) :: lines
       /\ visits <> [] /\ NoDup visits
       /\ procedures <> [] /\ NoDup procedures
       /\ Forall2
            (fun procedure line =>
               exists marks,
                 line = procedure :: marks
                 /\ length marks = length visits
                 /\ "X" ∈ marks
                 /\ Forall (fun c => c = "X" \/ c = "") marks)
            procedures lines.
Proof.
  unfold SoaParser.parse_soa, SoaParser.parse_protocol_schedule.
  destruct (find_all_schedule_tables protocol_data) as [|t ts]; [discriminate|].
  set (all_rows := SoaParser.table_rows (t :: ts)).
  destruct (SoaParser.detect_visit_header_row _ _ _ all_rows) as [[|c visit_row]|];
    [discriminate| |discriminate].
  set (header := c :: visit_row).
  pose proof (SoaParserFacts.build_columns_inv extract_complete_visit_identifier
                header) as (_ & Hnd & _ & _ & Hmap).
  set (cols := SoaParser.build_columns extract_complete_visit_identifier header) in *.
  destruct (SoaParser.visit_order cols) as [|v vs] eqn:Ev; [discriminate|].
  match goal with
  | |- context [fold_left ?f ?body (∅, [])] =>
      pose proof (ScheduleFacts.add_procedures_state
                    extract_complete_visit_identifier cell_has_marker
                    procedure_filters (SoaParser.column_to_visit cols) body (∅, []))
        as Hstate;
      destruct (fold_left f body (∅, [])) as [schedule procedures] eqn:Ef
  end.
  assert (Hs : ScheduleFacts.procedures_state (SoaParser.column_to_visit cols)
                 (schedule, procedures)).
  { apply Hstate. split; [constructor|]. split.
    - intros v' l H. cbn [fst] in H. unfold SoaParser.schedule_map in H.
      rewrite lookup_empty in H. discriminate.
    - intros p Hp. inversion Hp. }
  clear Hstate. case_bool_decide as Hempty; [discriminate|].
  intros [= <- <-]. split; [reflexivity|].
  exists (v :: vs), procedures,
    (tail (SoaParser.schedule_csv schedule (v :: vs) procedures)).
  split; [reflexivity|]. split; [discriminate|]. split; [exact Hnd|].
  pose proof Hs as (Hnp & Hkeys & _). cbn [fst snd] in Hnp, Hkeys.
  split; [|split; [exact Hnp|]].
  - intros ->. apply Hempty. unfold SoaParser.schedule_map in *.
    apply map_eq. intros k. rewrite lookup_empty.
    destruct (schedule !! k) as [l|] eqn:E; [|reflexivity].
    destruct (Hkeys k l E) as (_ & Hne & Hsub).
    destruct l as [|p l]; [congruence|].
    specialize (Hsub p ltac:(left)). inversion Hsub.
  - exact (ScheduleFacts.schedule_csv_lines
             (SoaParser.column_to_visit cols) (schedule, procedures) (v :: vs)
             Hs Hmap).
Qed.

Definition sample_schedule : node :=
  Node "Document Root" "" ""
    [ Node "Table" "" "//Document/Table"
        [ Node "TR" "" ""
            [ Node "TH" "Procedure" "" []; Node "TH" "V1" "" [];
              Node "TH" "V2" "" [] ];
          Node "TR" "" ""
            [ Node "TD" "ECG" "" []; Node "TD" "X" "" []; Node "TD" "" "" [] ];
          Node "TR" "" ""
            [ Node "TD" "Notes" "" []; Node "TD" "" "" []; Node "TD" "" "" [] ];
          Node "TR" "" ""
            [ Node "TD" "Labs" "" []; Node "TD" "X" "" []; Node "TD" "X" "" [] ] ] ].

Lemma parse_soa_writes_marked_procedures_witness :
  "schedule.csv" = "schedule.csv"
  /\ exists visits procedures lines,
       [ ["Procedure"; "V1"; "V2"]; ["ECG"; "X"; ""]; ["Labs"; "X"; "X"] ]
       = ("Procedure" :: visits) :: lines
       /\ visits <> [] /\ NoDup visits
       /\ procedures <> [] /\ NoDup procedures
       /\ Forall2
            (fun procedure line =>
               exists marks,
                 line = procedure :: marks
                 /\ length marks = length visits
                 /\ "X" ∈ marks
                 /\ Forall (fun c => c = "X" \/ c = "") marks)
            procedures lines.
Proof.
  apply (parse_soa_writes_marked_procedures
           SoaParser.visit_or_period_identifier (fun _ => 0) 2
           (fun cell => bool_decide (cell = "X"))
           (fun cell => bool_decide (cell = "X")) (fun _ => false) 25 25 []
           (fun data => SoaParser.find_nodes_by_name data "Table")
           sample_schedule "schedule.csv" "schedule.csv").
  vm_compute. reflexivity.
Defined.

(** ** Cell references of the sheet writer *)

Module SheetFacts.
Import SheetWriter.

(** The letters of a column, as a list. *)
Definition letters (n : nat) : list ascii := rev (col_letters n n []).

(** The number a text of letters stands for, [A] being 1 and [Z] 26. *)
Definition value (l : list ascii) : nat :=
  fold_left (fun acc c => 26 * acc + (nat_of_ascii c - 64)) l 0.

Lemma col_letters_fuel : forall f1 f2 n result,
  n <= f1 -> n <= f2 -> col_letters f1 n result = col_letters f2 n result.
Proof.
  induction f1 as [|f1 IH]; intros f2 n result H1 H2.
  - replace n with 0 by lia. destruct f2; reflexivity.
  - destruct n as [|m]; [destruct f2; reflexivity|].
    destruct f2 as [|f2]; [lia|]. cbn [col_letters].
    assert (m / 26 <= m) by (apply Nat.Div0.div_le_upper_bound; lia).
    apply IH; lia.
Qed.

Lemma col_letters_app : forall fuel n result,
  col_letters fuel n result = result ++ col_letters fuel n [].
Proof.
  induction fuel as [|fuel IH]; intros n result.
  - destruct n; cbn [col_letters]; rewrite app_nil_r; reflexivity.
  - destruct n as [|m]; cbn [col_letters]; [rewrite app_nil_r; reflexivity|].
    rewrite IH, (IH _ ([] ++ _)), app_assoc. reflexivity.
Qed.

Lemma letters_S m :
  letters (S m) = letters (m / 26) ++ [ascii_of_nat (65 + m mod 26)].
Proof.
  unfold letters. cbn [col_letters app].
  rewrite (col_letters_app m (m / 26) [ascii_of_nat (65 + m mod 26)]).
  rewrite rev_app_distr. cbn [rev app]. f_equal. f_equal.
  assert (m / 26 <= m) by (apply Nat.Div0.div_le_upper_bound; lia).
  apply col_letters_fuel; lia.
Qed.

Lemma value_snoc l c : value (l ++ [c]) = 26 * value l + (nat_of_ascii c - 64).
Proof. unfold value. rewrite fold_left_app. reflexivity. Qed.

Lemma letter_code r : r < 26 -> nat_of_ascii (ascii_of_nat (65 + r)) = 65 + r.
Proof. intros H. apply nat_ascii_embedding. lia. Qed.

Lemma value_letters : forall n, value (letters n) = n.
Proof.
  induction n as [n IH] using lt_wf_ind. destruct n as [|m]; [reflexivity|].
  assert (Hd : m / 26 <= m) by (apply Nat.Div0.div_le_upper_bound; lia).
  pose proof (Nat.mod_upper_bound m 26 ltac:(lia)) as Hr.
  rewrite letters_S, value_snoc, IH by lia. rewrite letter_code by exact Hr.
  pose proof (Nat.div_mod_eq m 26). lia.
Qed.

Lemma letters_upper : forall n,
  Forall (fun c => Py.is_upper_ascii c = true) (letters n).
Proof.
  induction n as [n IH] using lt_wf_ind. destruct n as [|m]; [constructor|].
  assert (Hd : m / 26 <= m) by (apply Nat.Div0.div_le_upper_bound; lia).
  pose proof (Nat.mod_upper_bound m 26 ltac:(lia)) as Hr.
  rewrite letters_S. apply Forall_app. split; [apply IH; lia|].
  constructor; [|constructor]. unfold Py.is_upper_ascii.
  rewrite letter_code by exact Hr. apply andb_true_iff.
  split; apply Nat.leb_le; lia.
Qed.

Lemma chars_col_to_letter n : Py.chars (_col_to_letter n) = letters n.
Proof. unfold _col_to_letter, Py.chars. apply list_ascii_of_string_of_list_ascii. Qed.

Lemma upper_not_digit c :
  Py.is_upper_ascii c = true -> TextFacts.digit c = false.
Proof.
  unfold Py.is_upper_ascii, TextFacts.digit, PathTests.is_digit.
  intros H. apply andb_true_iff in H. destruct H as [H _]. apply Nat.leb_le in H.
  apply andb_false_iff. right. apply Nat.leb_gt. lia.
Qed.

(** A text of letters followed by digits splits in one way only. *)
Lemma letters_digits_split : forall a a' d d' : list ascii,
  Forall (fun c => TextFacts.digit c = false) a ->
  Forall (fun c => TextFacts.digit c = false) a' ->
  Forall (fun c => TextFacts.digit c = true) d ->
  Forall (fun c => TextFacts.digit c = true) d' ->
  a ++ d = a' ++ d' -> a = a' /\ d = d'.
Proof.
  induction a as [|c a IH]; intros a' d d' Ha Ha' Hd Hd' H.
  - destruct a' as [|c' a']; [auto|]. cbn [app] in H. subst d.
    inversion Hd; subst. inversion Ha'; subst. congruence.
  - destruct a' as [|c' a'].
    + cbn [app] in H. subst d'. inversion Hd'; subst. inversion Ha; subst.
      congruence.
    + cbn [app] in H. injection H as -> H.
      inversion Ha; subst. inversion Ha'; subst.
      destruct (IH a' d d') as [-> ->]; auto.
Qed.

End SheetFacts.

(** X19: the letters of a column are its number in the bijective base 26:
    [_col_to_letter] returns capital letters only, the empty text for 0
    alone, and reading the letters back as digits 1 to 26 gives the column
    number; so two cell references [letters + row] are equal only for the
    same column and the same row. *)
Theorem cell_references_are_distinct (col_idx row_idx col_idx' row_idx' : nat) :
  Forall (fun c => Py.is_upper_ascii c = true)
         (Py.chars (SheetWriter._col_to_letter col_idx))
  /\ SheetFacts.value (Py.chars (SheetWriter._col_to_letter col_idx)) = col_idx
  /\ (SheetWriter.cell_ref col_idx row_idx = SheetWriter.cell_ref col_idx' row_idx'
      <-> col_idx = col_idx' /\ row_idx = row_idx').
Proof.
  rewrite SheetFacts.chars_col_to_letter.
  split; [apply SheetFacts.letters_upper|].
  split; [apply SheetFacts.value_letters|].
  split; [|intros [-> ->]; reflexivity].
  intros H. unfold SheetWriter.cell_ref in H.
  apply (f_equal Py.chars) in H. rewrite !TextFacts.chars_append in H.
  rewrite !SheetFacts.chars_col_to_letter in H.
  apply SheetFacts.letters_digits_split in H.
  - destruct H as [Hl Hd]. split.
    + rewrite <- (SheetFacts.value_letters col_idx), Hl.
      apply SheetFacts.value_letters.
    + apply SoaParserFacts.str_of_nat_injective, TextFacts.chars_inj, Hd.
  - eapply Forall_impl; [apply SheetFacts.letters_upper|].
    apply SheetFacts.upper_not_digit.
  - eapply Forall_impl; [apply SheetFacts.letters_upper|].
    apply SheetFacts.upper_not_digit.
  - apply TextFacts.str_of_nat_digits.
  - apply TextFacts.str_of_nat_digits.
Qed.

(** ** Event names of the schedule grid *)

Module LayoutFacts.
Import ScheduleLayout.

Lemma lower_char_not_upper c : Py.is_upper_ascii (Py.lower_char c) = false.
Proof.
  unfold Py.lower_char.
  destruct (Py.is_upper_ascii c) eqn:E; cbn [orb].
  - unfold Py.is_upper_ascii in *. apply andb_true_iff in E. destruct E as [E1 E2].
    apply Nat.leb_le in E1. apply Nat.leb_le in E2.
    rewrite nat_ascii_embedding by lia.
    apply andb_false_iff. right. apply Nat.leb_gt. lia.
  - destruct (Py.is_upper_latin c) eqn:L; [|exact E].
    unfold Py.is_upper_latin in L. unfold Py.is_upper_ascii.
    pose proof (nat_ascii_bounded c) as Hb.
    assert (Hn : 192 <= nat_of_ascii c <= 222).
    { apply orb_true_iff in L. destruct L as [L|L]; apply andb_true_iff in L;
        destruct L as [L1 L2]; apply Nat.leb_le in L1; apply Nat.leb_le in L2; lia. }
    rewrite nat_ascii_embedding by lia.
    apply andb_false_iff. right. apply Nat.leb_gt. lia.
Qed.

Lemma lower_chars s :
  Forall (fun c => Py.is_upper_ascii c = false) (Py.chars (Py.lower s)).
Proof.
  induction s as [|c s IH]; [constructor|].
  constructor; [apply lower_char_not_upper|exact IH].
Qed.

(** A pattern that begins with a capital letter finds nothing in a text
    without capital letters. *)
Lemma search_capital c literal blanks : forall s prev_word,
  Py.is_upper_ascii c = true ->
  Forall (fun d => Py.is_upper_ascii d = false) (Py.chars s) ->
  search (String c literal) blanks prev_word s = None.
Proof.
  induction s as [|d s IH]; intros prev_word Hc Hs; cbn [search].
  - destruct prev_word; reflexivity.
  - inversion Hs as [|? ? Hd Hs']; subst.
    assert (Hm : match_here (String c literal) blanks (String d s) = None).
    { unfold match_here. cbn [after_literal].
      destruct (ascii_dec c d) as [->|_]; [congruence|reflexivity]. }
    rewrite Hm. destruct prev_word; apply IH; assumption.
Qed.

End LayoutFacts.

(** X20: the label of a visit never reaches its event name: the patterns
    looked for in the label begin with a capital [V] or [P], and the label
    is searched after it has been put in lower case.  So [make_event_name]
    returns the name configured for screening, randomisation or RTSM when
    the group (stripped, in lower case) holds [screen], [random] or [rtsm],
    and [V] followed by the position of the visit plus one otherwise,
    whatever the label. *)
Theorem make_event_name_ignores_the_label
        (mapping : ScheduleLayout.event_mapping) (group label : string)
        (idx : nat) :
  ScheduleLayout.make_event_name mapping group label idx
  = let g := Py.lower (Py.strip group) in
    if Py.contains g "screen" then ScheduleLayout.screening mapping
    else if Py.contains g "random" then ScheduleLayout.random mapping
    else if Py.contains g "rtsm" then ScheduleLayout.rtsm mapping
    else String.append "V" (str_of_nat (idx + 1)).
Proof.
  unfold ScheduleLayout.make_event_name. cbv zeta.
  destruct (Py.contains (Py.lower (Py.strip group)) "screen"); [reflexivity|].
  destruct (Py.contains (Py.lower (Py.strip group)) "random"); [reflexivity|].
  destruct (Py.contains (Py.lower (Py.strip group)) "rtsm"); [reflexivity|].
  pose proof (LayoutFacts.lower_chars (Py.strip label)) as Hl.
  rewrite (LayoutFacts.search_capital "V" "" true _ false eq_refl Hl).
  rewrite (LayoutFacts.search_capital "V" "isit" true _ false eq_refl Hl).
  rewrite (LayoutFacts.search_capital "P" "" false _ false eq_refl Hl).
  reflexivity.
Qed.

(** ** Texts without a common character *)

Module DisjointFacts.
Import Difflib DifflibFacts IdentityFacts.

Lemma occurrences_absent c l : forall start,
  c ∉ l -> occurrences c l start = [].
Proof.
  induction l as [|x l IH]; intros start H; [reflexivity|].
  cbn [occurrences]. rewrite bool_decide_eq_false_2.
  - apply IH. intros Hc. apply H. right. exact Hc.
  - intros ->. apply H. left.
Qed.

Section Disjoint.
Variables a b : list ascii.
Hypothesis Hdisjoint : forall c, c ∈ a -> c ∉ b.

Lemma b2j_absent c : c ∉ b -> default [] (b2j b !! c) = [].
Proof.
  intros Hc. pose proof (b2j_full_occurrences b c) as Hfull.
  rewrite (occurrences_absent c b 0 Hc) in Hfull.
  unfold b2j. destruct (200 <=? length b)%nat; [|exact Hfull]. cbv zeta.
  destruct (filter (fun kv : ascii * list nat =>
                      (length kv.2 <= length b / 100 + 1)%nat)
                   (b2j_full b) !! c) as [v|] eqn:E; [|reflexivity].
  apply map_lookup_filter_Some in E. destruct E as [E _].
  rewrite E in Hfull. exact Hfull.
Qed.

Lemma scan_rows_disjoint blo bhi : forall rows j2len bst,
  scan_rows a b blo bhi rows j2len bst = bst.
Proof.
  induction rows as [|i rows IH]; intros j2len bst; cbn [scan_rows]; [reflexivity|].
  destruct (a !! i) as [c|] eqn:E.
  - rewrite b2j_absent by (apply Hdisjoint; eapply list_elem_of_lookup_2, E).
    cbn [scan_row]. apply IH.
  - cbn [scan_row]. apply IH.
Qed.

Lemma same_at_disjoint i j : same_at a b i j = false.
Proof.
  unfold same_at. destruct (a !! i) as [c|] eqn:Ea; [|reflexivity].
  destruct (b !! j) as [d|] eqn:Eb; [|reflexivity].
  apply bool_decide_eq_false_2. intros ->.
  apply (Hdisjoint d); eapply list_elem_of_lookup_2; eassumption.
Qed.

Lemma extend_left_disjoint junk alo blo i j size :
  extend_left a b junk alo blo i j size = (i, j, size).
Proof.
  destruct i as [|i]; [reflexivity|]. destruct j as [|j]; [reflexivity|].
  cbn [extend_left]. rewrite same_at_disjoint, !andb_false_r. reflexivity.
Qed.

Lemma extend_right_disjoint junk n ahi bhi i j size :
  extend_right a b junk n ahi bhi i j size = size.
Proof.
  destruct n as [|n]; [reflexivity|].
  cbn [extend_right]. rewrite same_at_disjoint, !andb_false_r. reflexivity.
Qed.

Lemma find_longest_match_disjoint alo ahi blo bhi :
  find_longest_match a b alo ahi blo bhi = mkMatch alo blo 0.
Proof.
  unfold find_longest_match. rewrite scan_rows_disjoint.
  rewrite !extend_left_disjoint, !extend_right_disjoint. reflexivity.
Qed.

Lemma ratio_disjoint :
  ratio a b = calculate_ratio 0 (length a + length b).
Proof.
  unfold ratio, ratio_opt, get_matching_blocks, blocks_fuel.
  replace (2 * length a + 2) with (S (S (2 * length a))) by lia.
  cbn [blocks_loop]. rewrite find_longest_match_disjoint. reflexivity.
Qed.

End Disjoint.

End DisjointFacts.

(** X21: a form label that has no character in common with a procedure
    (both in lower case when the comparison ignores case) has similarity 0
    to it, so a label that shares no character with any procedure stays
    unmapped, whatever the threshold. *)
Theorem label_without_common_character_is_unmapped
        (threshold : Q) (case_insensitive : bool)
        (proc_order : list string) (form_label : string) :
  let text := fun s : string =>
                Py.chars (if case_insensitive then Py.lower s else s) in
  (forall p c, In p proc_order -> c ∈ text p -> c ∉ text form_label) ->
  CommonMatrix.label_mapping
    (fun q l => CommonMatrix.fuzzy_match q l case_insensitive)
    threshold proc_order form_label
  = CommonMatrix.Unmapped.
Proof.
  intros text Hno.
  set (score := fun q l => CommonMatrix.fuzzy_match q l case_insensitive).
  pose proof (MatrixFacts.best_match_state score threshold form_label proc_order)
    as H.
  unfold MatrixFacts.loop_state in H.
  unfold CommonMatrix.label_mapping, CommonMatrix.mapping_of.
  destruct (CommonMatrix.best_proc
              (CommonMatrix.best_match score threshold proc_order form_label))
    as [q|]; [|reflexivity].
  destruct H as (_ & Hq & _ & Hpos & _).
  destruct q as [|c q]; [reflexivity|]. exfalso.
  assert (Hin : In (String c q) proc_order).
  { apply list_elem_of_In. eapply list_elem_of_lookup_2, Hq. }
  change (0 < Difflib.ratio (text (String c q)) (text form_label))%Q in Hpos.
  rewrite (DisjointFacts.ratio_disjoint (text (String c q)) (text form_label))
    in Hpos by (intros d; apply Hno, Hin).
  unfold Difflib.calculate_ratio in Hpos.
  assert (Hlen : length (text (String c q)) + length (text form_label) <> 0).
  { unfold text. destruct case_insensitive; cbn; lia. }
  destruct (Nat.eqb_spec (length (text (String c q)) + length (text form_label)) 0)
    as [E|_]; [congruence|].
  discriminate Hpos.
Qed.

Lemma label_without_common_character_is_unmapped_witness :
  CommonMatrix.label_mapping
    (fun q l => CommonMatrix.fuzzy_match q l true) 0 ["ECG"; "Labs"] "tumour"
  = CommonMatrix.Unmapped.
Proof.
  apply (label_without_common_character_is_unmapped 0 true ["ECG"; "Labs"] "tumour").
  intros p c Hp Hc Hl. apply list_elem_of_In in Hc, Hl.
  destruct Hp as [<-|[<-|[]]]; cbn in Hc, Hl;
    repeat (destruct Hc as [Hc|Hc];
            [subst c; repeat (destruct Hl as [Hl|Hl]; [discriminate Hl|]); exact Hl|]);
    exact Hc.
Defined.

(** ** The forms of a document *)

Module SubtreeFacts.
Import Subtree.

Lemma nodes_self n : In n (nodes n).
Proof. destruct n. left. reflexivity. Qed.

Lemma nodes_child name text path children c m :
  In c children -> In m (nodes c) -> In m (nodes (Node name text path children)).
Proof.
  intros Hc Hm. cbn [nodes]. right. apply in_flat_map. exists c. auto.
Qed.

Lemma nodes_trans : forall n m k,
  In m (nodes n) -> In k (nodes m) -> In k (nodes n).
Proof.
  induction n as [name text path children IH] using node_ind.
  intros m k Hm Hk. cbn [nodes] in Hm. destruct Hm as [<-|Hm]; [exact Hk|].
  apply in_flat_map in Hm. destruct Hm as (c & Hc & Hm).
  apply (nodes_child _ _ _ _ c); [exact Hc|].
  rewrite Forall_forall in IH.
  apply (IH c (proj2 (list_elem_of_In _ _) Hc) m k Hm Hk).
Qed.

(** A loop over the children of a node reaches what one of its rounds
    reaches, when no round takes back what another has put. *)
Lemma fold_left_reaches {S : Type} (f : S -> node -> S)
      (inv : S -> Prop) (holds : S -> Prop) (children : list node) (c : node) :
  In c children ->
  (forall c', In c' children -> forall s, inv s -> inv (f s c')) ->
  (forall c', In c' children -> forall s, holds s -> holds (f s c')) ->
  (forall s, inv s -> holds (f s c)) ->
  forall s, inv s -> holds (fold_left f children s).
Proof.
  intros Hc Hinv Hkeep Hreach.
  assert (Hrest : forall l,
            (forall c', In c' l -> forall s, holds s -> holds (f s c')) ->
            forall s', holds s' -> holds (fold_left f l s')).
  { induction l as [|d l IHl]; intros Hk s' Hs'; [exact Hs'|]. cbn [fold_left].
    apply IHl; [intros c'' H''; apply Hk; right; exact H''|].
    apply Hk; [left; reflexivity|exact Hs']. }
  induction children as [|c' children IH]; intros s Hs; [destruct Hc|].
  cbn [fold_left]. destruct Hc as [->|Hc].
  - apply Hrest; [intros c'' H''; apply Hkeep; right; exact H''|].
    apply Hreach, Hs.
  - apply IH.
    + exact Hc.
    + intros c'' H''. apply Hinv. right. exact H''.
    + intros c'' H''. apply Hkeep. right. exact H''.
    + apply Hinv; [left; reflexivity|exact Hs].
Qed.

End SubtreeFacts.

Module FormsFacts.
Import StudyForms StudyFormsFacts Subtree SubtreeFacts.

(** *** [get_text] *)

Definition own_text (n : node) : string := Py.strip (node_text n).

Definition first_text (l : list node) : string :=
  default "" (head (List.filter Py.truthy (map own_text l))).

Lemma first_text_app l1 l2 :
  first_text (l1 ++ l2)
  = if Py.truthy (first_text l1) then first_text l1 else first_text l2.
Proof.
  unfold first_text. rewrite map_app, List.filter_app.
  destruct (List.filter Py.truthy (map own_text l1)) as [|x l] eqn:E.
  - reflexivity.
  - cbn [app head default].
    assert (Hx : Py.truthy x = true).
    { assert (H : In x (List.filter Py.truthy (map own_text l1)))
        by (rewrite E; left; reflexivity).
      apply filter_In in H. exact (proj2 H). }
    simpl. rewrite Hx. reflexivity.
Qed.

Lemma get_text_first : forall n, get_text n = first_text (nodes n).
Proof.
  induction n as [name text path children IH] using node_ind.
  cbn [get_text nodes].
  change (Node name text path children :: flat_map nodes children)
    with ([Node name text path children] ++ flat_map nodes children).
  rewrite first_text_app.
  assert (Hown : first_text [Node name text path children]
                 = if Py.truthy (Py.strip text) then Py.strip text else "").
  { unfold first_text, own_text. cbn [map node_text List.filter].
    destruct (Py.truthy (Py.strip text)); reflexivity. }
  rewrite Hown. destruct (Py.truthy (Py.strip text)) eqn:E; [rewrite E; reflexivity|].
  cbn [Py.truthy]. clear Hown E.
  induction IH as [|c children Hc _ IHc]; [reflexivity|].
  cbn [flat_map]. rewrite first_text_app, <- Hc, IHc. reflexivity.
Qed.

(** *** The forms found *)

Section Found.
Variable is_valid_form_name : string -> bool.
Variable is_valid_form_label : string -> bool.
Variable data : node.

Local Abbreviation find_forms_in_node :=
  (find_forms_in_node is_valid_form_name is_valid_form_label).
Local Abbreviation find_h1_sections :=
  (find_h1_sections is_valid_form_name is_valid_form_label).
Local Abbreviation process_h1_section :=
  (process_h1_section is_valid_form_name is_valid_form_label).

Definition section_text (h1_node : node) : string :=
  let t := get_text h1_node in
  if is_valid_form_label t then t else "Unknown Section".

(** What holds of every form found. *)
Definition sound (f : form) : Prop :=
  is_valid_form_name (form_name f) = true
  /\ form_name f = get_text (form_node f)
  /\ In (parent_h1_node f) (nodes data)
  /\ Py.startswith (node_name (parent_h1_node f)) "H1" = true
  /\ In (form_node f) (nodes (parent_h1_node f))
  /\ h1_text f = section_text (parent_h1_node f)
  /\ (form_label f = h1_text f
      \/ (form_label f <> ""
          /\ is_valid_form_label (form_label f) = true
          /\ is_valid_form_name (form_label f) = false)).

Definition label_ok (current_label : option string) : Prop :=
  match current_label with
  | None => True
  | Some l => is_valid_form_label l = true /\ is_valid_form_name l = false
  end.

Lemma find_forms_in_node_sound h1_node :
  In h1_node (nodes data) ->
  Py.startswith (node_name h1_node) "H1" = true ->
  forall n, In n (nodes h1_node) ->
  forall current_label s,
    label_ok current_label ->
    Forall sound s.1 ->
    Forall sound
      (find_forms_in_node (section_text h1_node) h1_node n current_label s).1.
Proof.
  intros Hh1 Hname.
  induction n as [name text path children IH] using node_ind.
  intros Hn current_label s Hl Hs. cbn [StudyForms.find_forms_in_node].
  set (n := Node name text path children) in *.
  set (label' := if Py.startswith name "H2" && is_valid_form_label (get_text n)
                    && negb (is_valid_form_name (get_text n))
                 then Some (get_text n) else current_label).
  assert (Hl' : label_ok label').
  { unfold label'.
    destruct (Py.startswith name "H2" && is_valid_form_label (get_text n)
              && negb (is_valid_form_name (get_text n))) eqn:E; [|exact Hl].
    apply andb_true_iff in E. destruct E as [E E3].
    apply andb_true_iff in E. destruct E as [_ E2].
    apply negb_true_iff in E3. split; assumption. }
  match goal with |- Forall sound (fold_left ?f children ?s0).1 =>
    apply (fold_left_invariant f (fun s => Forall sound s.1)) end.
  - rewrite Forall_forall in IH. apply Forall_forall. intros c Hc a Ha.
    apply IH; [exact Hc| |exact Hl'|exact Ha].
    apply (nodes_trans h1_node n c Hn).
    apply (nodes_child _ _ _ _ c); [apply list_elem_of_In, Hc|apply nodes_self].
  - destruct (is_valid_form_name (get_text n)) eqn:Ev; [|exact Hs].
    case_bool_decide; [exact Hs|]. cbn [fst]. apply Forall_app.
    split; [exact Hs|]. constructor; [|constructor].
    unfold sound. cbn [form_name form_node parent_h1_node h1_text form_label].
    repeat (split; [first [assumption|reflexivity]|]).
    destruct label' as [l|]; [|left; reflexivity].
    destruct l as [|c l]; [left; reflexivity|]. right. cbn [Py.truthy].
    split; [discriminate|exact Hl'].
Qed.

Lemma find_h1_sections_sound : forall n, In n (nodes data) ->
  forall s, Forall sound s.1 -> Forall sound (find_h1_sections n s).1.
Proof.
  induction n as [name text path children IH] using node_ind.
  intros Hn s Hs. cbn [StudyForms.find_h1_sections].
  set (n := Node name text path children) in *.
  match goal with |- Forall sound (fold_left ?f children ?s0).1 =>
    apply (fold_left_invariant f (fun s => Forall sound s.1)) end.
  - rewrite Forall_forall in IH. apply Forall_forall. intros c Hc a Ha.
    apply IH; [exact Hc| |exact Ha].
    apply (nodes_trans data n c Hn).
    apply (nodes_child _ _ _ _ c); [apply list_elem_of_In, Hc|apply nodes_self].
  - destruct (Py.startswith name "H1") eqn:E; [|exact Hs].
    unfold StudyForms.process_h1_section. fold (section_text n).
    apply find_forms_in_node_sound; [exact Hn|exact E|apply nodes_self|exact I|exact Hs].
Qed.

(** A form of the given name has been found. *)
Definition has_form (text : string) (s : forms_state) : Prop :=
  exists f, In f s.1 /\ form_name f = text.

Lemma find_forms_in_node_keeps h1_text h1_node text : forall n current_label s,
  has_form text s ->
  has_form text (find_forms_in_node h1_text h1_node n current_label s).
Proof.
  induction n as [name t path children IH] using node_ind.
  intros current_label s Hs. cbn [StudyForms.find_forms_in_node].
  match goal with |- has_form text (fold_left ?f children ?s0) =>
    apply (fold_left_invariant f (has_form text)) end.
  - eapply Forall_impl; [exact IH|]. intros c Hc a Ha. apply Hc, Ha.
  - destruct Hs as (f & Hf & Hname).
    destruct (is_valid_form_name _); [|exists f; auto].
    case_bool_decide; [exists f; auto|]. exists f. cbn [fst].
    split; [apply in_or_app; left; exact Hf|exact Hname].
Qed.

Lemma find_forms_in_node_finds h1_text h1_node : forall n current_label s m,
  forms_inv s ->
  In m (nodes n) ->
  is_valid_form_name (get_text m) = true ->
  has_form (get_text m) (find_forms_in_node h1_text h1_node n current_label s).
Proof.
  induction n as [name t path children IH] using node_ind.
  intros current_label s m Hs Hm Hv. cbn [StudyForms.find_forms_in_node].
  set (n := Node name t path children) in *.
  set (label' := if Py.startswith name "H2" && is_valid_form_label (get_text n)
                    && negb (is_valid_form_name (get_text n))
                 then Some (get_text n) else current_label).
  match goal with |- has_form _ (fold_left ?f children ?s0) =>
    set (step := f); set (s1 := s0) end.
  assert (Hs1 : forms_inv s1).
  { unfold s1. destruct (is_valid_form_name (get_text n)); [|exact Hs].
    case_bool_decide as Hin; [exact Hs|].
    match goal with |- forms_inv (_ ++ [?f], _) =>
      apply (forms_inv_add s f) end; assumption. }
  cbn [nodes] in Hm. destruct Hm as [<-|Hm].
  - assert (Hv' : is_valid_form_name (get_text n) = true) by exact Hv.
    apply (fold_left_invariant step (has_form (get_text n))).
    + apply Forall_forall. intros c _ a Ha. apply find_forms_in_node_keeps, Ha.
    + unfold s1. rewrite Hv'. case_bool_decide as Hin.
      * apply (proj2 Hs) in Hin. apply in_map_iff in Hin.
        destruct Hin as (f & Hk & Hf). exists f. split; [exact Hf|].
        unfold form_key in Hk. congruence.
      * eexists. cbn [fst]. split; [apply in_or_app; right; left; reflexivity|].
        reflexivity.
  - apply in_flat_map in Hm. destruct Hm as (c & Hc & Hm).
    apply (fold_left_reaches step forms_inv (has_form (get_text m)) children c Hc).
    + intros c' _ s' Hs'. apply find_forms_in_node_inv, Hs'.
    + intros c' _ s' Hs'. apply find_forms_in_node_keeps, Hs'.
    + intros s' Hs'. rewrite Forall_forall in IH.
      apply (IH c (proj2 (list_elem_of_In _ _) Hc)); assumption.
    + exact Hs1.
Qed.

Lemma find_h1_sections_keeps text : forall n s,
  has_form text s -> has_form text (find_h1_sections n s).
Proof.
  induction n as [name t path children IH] using node_ind.
  intros s Hs. cbn [StudyForms.find_h1_sections].
  match goal with |- has_form text (fold_left ?f children ?s0) =>
    apply (fold_left_invariant f (has_form text)) end.
  - eapply Forall_impl; [exact IH|]. intros c Hc a Ha. apply Hc, Ha.
  - destruct (Py.startswith name "H1"); [|exact Hs].
    apply find_forms_in_node_keeps, Hs.
Qed.

Lemma find_h1_sections_finds : forall n s h1_node m,
  forms_inv s ->
  In h1_node (nodes n) ->
  Py.startswith (node_name h1_node) "H1" = true ->
  In m (nodes h1_node) ->
  is_valid_form_name (get_text m) = true ->
  has_form (get_text m) (find_h1_sections n s).
Proof.
  induction n as [name t path children IH] using node_ind.
  intros s h1_node m Hs Hh Hname Hm Hv. cbn [StudyForms.find_h1_sections].
  set (n := Node name t path children) in *.
  match goal with |- has_form _ (fold_left ?f children ?s0) =>
    set (step := f); set (s1 := s0) end.
  assert (Hs1 : forms_inv s1).
  { unfold s1. destruct (Py.startswith name "H1"); [|exact Hs].
    apply find_forms_in_node_inv, Hs. }
  cbn [nodes] in Hh. destruct Hh as [<-|Hh].
  - apply (fold_left_invariant step (has_form (get_text m))).
    + apply Forall_forall. intros c _ a Ha. apply find_h1_sections_keeps, Ha.
    + unfold s1. cbn [node_name] in Hname. rewrite Hname.
      apply find_forms_in_node_finds; assumption.
  - apply in_flat_map in Hh. destruct Hh as (c & Hc & Hh).
    apply (fold_left_reaches step forms_inv (has_form (get_text m)) children c Hc).
    + intros c' _ s' Hs'. apply find_h1_sections_inv, Hs'.
    + intros c' _ s' Hs'. apply find_h1_sections_keeps, Hs'.
    + intros s' Hs'. rewrite Forall_forall in IH.
      apply (IH c (proj2 (list_elem_of_In _ _) Hc) s' h1_node m); assumption.
    + exact Hs1.
Qed.

End Found.

End FormsFacts.

(** ** The items of a form *)

Module ItemsFacts.
Import StudyForms StudyFormsFacts.

Section Items.
Variable is_valid_form_label : string -> bool.
Variable is_metadata_table : node -> bool.
Variable is_instruction : string -> bool.
Variable is_valid_option_content : node -> bool.

Local Abbreviation items_data :=
  (items_data is_valid_form_label is_metadata_table is_instruction
     is_valid_option_content).
Local Abbreviation process_row :=
  (process_row is_valid_form_label is_instruction is_valid_option_content).
Local Abbreviation has_option_child := (has_option_child is_valid_option_content).

(** A group is the empty text, or the text of a row of one cell that is a
    valid label and no instruction. *)
Definition group_ok (group : string) : Prop :=
  group = ""
  \/ (is_valid_form_label group = true /\ is_instruction group = false).

(** What holds of every item found. *)
Definition item_ok (it : item) : Prop :=
  item_name it <> ""
  /\ is_instruction (item_name it) = false
  /\ group_ok (item_group it)
  /\ exists cell,
       option_td_node it = Some cell
       /\ (is_valid_option_content cell = true \/ has_option_child cell = true).

Lemma three_column_row_ok group q o :
  group_ok group ->
  Forall item_ok (three_column_row is_instruction is_valid_option_content group q o).
Proof.
  intros Hg. unfold three_column_row.
  destruct (paragraph_text q) as [t|]; [|constructor].
  destruct (Py.truthy t) eqn:Et; cbn [negb orb]; [|constructor].
  destruct (negb (Py.truthy (Py.strip t)) || only_asterisks t); [constructor|].
  destruct (is_instruction t) eqn:Ei; [constructor|].
  destruct (is_valid_option_content o) eqn:Eo; cbn [negb]; [|constructor].
  constructor; [|constructor]. split; [destruct t; discriminate|].
  split; [exact Ei|]. split; [exact Hg|]. exists o. auto.
Qed.

Lemma two_column_cell_ok group prev cell :
  group_ok group ->
  Forall item_ok (two_column_cell is_instruction is_valid_option_content
                    group prev cell).
Proof.
  intros Hg. unfold two_column_cell.
  destruct (has_option_child cell) eqn:Eo; [|constructor].
  set (from_sub := match find_nodes_by_name_pattern prev "Sub" with
                   | [] => ""
                   | sub :: _ =>
                       if Py.truthy (Py.strip (get_text sub))
                          && negb (Py.startswith (Py.strip (get_text sub)) "[")
                       then Py.strip (get_text sub) else ""
                   end).
  set (name_text := if Py.truthy from_sub then Some from_sub
                    else match paragraph_text prev with
                         | Some t =>
                             if negb (Py.truthy t) || only_asterisks t
                             then None else Some t
                         | None => None
                         end).
  assert (Hname : forall t, name_text = Some t -> t <> "").
  { intros t. unfold name_text. destruct (Py.truthy from_sub) eqn:Es.
    - intros [= <-]. destruct from_sub; discriminate.
    - destruct (paragraph_text prev) as [t'|]; [|discriminate].
      destruct (Py.truthy t') eqn:Et; cbn [negb orb]; [|discriminate].
      destruct (only_asterisks t'); [discriminate|].
      intros [= <-]. destruct t'; discriminate. }
  destruct name_text as [t|]; [|constructor].
  destruct (is_instruction t) eqn:Ei; [constructor|].
  constructor; [|constructor]. split; [apply Hname; reflexivity|].
  split; [exact Ei|]. split; [exact Hg|]. exists cell. auto.
Qed.

Lemma two_column_cells_ok group cells : forall prev,
  group_ok group ->
  Forall item_ok (two_column_cells is_instruction is_valid_option_content
                    group prev cells).
Proof.
  induction cells as [|cell rest IH]; intros prev Hg; cbn [two_column_cells];
    [constructor|].
  apply Forall_app. split; [apply two_column_cell_ok, Hg|apply IH, Hg].
Qed.

Definition items_state (s : string * list item) : Prop :=
  group_ok s.1 /\ Forall item_ok s.2.

Lemma process_row_ok tr s : items_state s -> items_state (process_row tr s).
Proof.
  intros [Hg Hitems]. unfold StudyForms.process_row.
  set (cells := List.filter _ _).
  assert (Hsame : forall l, Forall item_ok l -> items_state (s.1, s.2 ++ l)).
  { intros l Hl. split; [exact Hg|]. cbn [snd]. apply Forall_app. auto. }
  destruct (match cells with [c] => _ | _ => None end) as [t|] eqn:Eh.
  - split; [|exact Hitems]. cbn [fst].
    destruct cells as [|c [|? ?]]; try discriminate.
    destruct (is_valid_form_label (get_text c)) eqn:E1; [|discriminate].
    destruct (is_instruction (get_text c)) eqn:E2; [discriminate|].
    cbn [negb andb] in Eh. injection Eh as <-. right. auto.
  - destruct cells as [|c0 [|c1 [|c2 [|c3 rest]]]].
    + split; assumption.
    + apply Hsame, two_column_cells_ok, Hg.
    + apply Hsame, two_column_cells_ok, Hg.
    + apply Hsame, three_column_row_ok, Hg.
    + apply Hsame, two_column_cells_ok, Hg.
Qed.

Lemma items_data_ok form_node : Forall item_ok (items_data form_node).
Proof.
  unfold StudyForms.items_data.
  match goal with |- Forall _ (fold_left ?f ?l ?s0).2 =>
    enough (H : items_state (fold_left f l s0)) by apply H;
    apply (fold_left_invariant f items_state) end.
  - apply Forall_forall. intros table _ s Hs. unfold process_table.
    destruct (is_metadata_table table); [exact Hs|].
    match goal with |- items_state (fold_left ?f ?l ?s0) =>
      apply (fold_left_invariant f items_state) end; [|exact Hs].
    apply Forall_forall. intros tr _ s' Hs'. apply process_row_ok, Hs'.
  - split; [left; reflexivity|constructor].
Qed.

End Items.

(** *** Numbering *)

Lemma enumerate_fst {A : Type} (l : list A) : forall start,
  map fst (enumerate start l) = seq start (length l).
Proof.
  induction l as [|x l IH]; intros start; cbn [enumerate map length seq];
    [reflexivity|]. rewrite IH. reflexivity.
Qed.

Lemma enumerate_snd_all {A : Type} (l : list A) : forall start,
  map snd (enumerate start l) = l.
Proof.
  induction l as [|x l IH]; intros start; cbn [enumerate map]; [reflexivity|].
  rewrite IH. reflexivity.
Qed.

End ItemsFacts.

(** ** The rows of the form extractor *)

Module ExtractFacts.
Import FormExtractor FormExtractorFacts.

Section Rows.
Variable is_valid_form_label : string -> bool.
Variable is_valid_form_name : string -> bool.
Variable ignored : string -> bool.
Variable extract_visit_strings : string -> gset string.
Variable extract_trigger_info : string -> option string.
Variable determine_form_source : string -> string -> string -> string -> string.
Variable extract_document_context : node -> string.
Variable required_mappings : node -> gset string.
Variable first_of_set : gset string -> string.
Variable data : node.

Local Abbreviation find_forms_in_node :=
  (find_forms_in_node is_valid_form_label is_valid_form_name ignored
     extract_visit_strings extract_trigger_info determine_form_source
     extract_document_context first_of_set).
Local Abbreviation new_form_row :=
  (new_form_row extract_trigger_info determine_form_source
     extract_document_context first_of_set).

(** What holds of every row written. *)
Definition row_ok (r : form_row) : Prop :=
  is_valid_form_name (fr_name r) = true
  /\ ignored (fr_name r) = false
  /\ (exists form_visits, fr_visits r = visits_string form_visits)
  /\ (fr_dynamic_trigger r = "Yes"
      \/ (fr_dynamic_trigger r = "No" /\ fr_trigger_details r = ""))
  /\ (Py.contains (fr_name r) "[ENR]" = true -> fr_dynamic_trigger r = "No")
  /\ fr_required r
     = (if bool_decide (fr_name r ∈ required_mappings data) then "Yes" else "No").

Lemma new_form_row_ok sc n form_label form_name form_visits :
  is_valid_form_name form_name = true ->
  ignored form_name = false ->
  sc_required sc = required_mappings data ->
  row_ok (new_form_row sc n form_label form_name (visits_string form_visits)).
Proof.
  intros Hv Hi Hr. unfold FormExtractor.new_form_row, row_ok.
  cbn [fr_name fr_visits fr_dynamic_trigger fr_trigger_details fr_required].
  split; [exact Hv|]. split; [exact Hi|]. split; [eauto|].
  split; [|split; [|rewrite Hr; reflexivity]].
  - destruct (negb _); [left; reflexivity|right; split; reflexivity].
  - intros He. rewrite He. reflexivity.
Qed.

Lemma find_forms_in_node_ok sc n : forall current_label s,
  sc_required sc = required_mappings data ->
  Forall row_ok s.1 ->
  Forall row_ok (find_forms_in_node sc n current_label s).1.
Proof.
  induction n as [name text path children IH] using node_ind.
  intros current_label s Hr Hs. cbn [FormExtractor.find_forms_in_node].
  set (label' := if _ && _ && _ then _ else current_label).
  assert (Hwalk : forall s0, Forall row_ok s0.1 ->
            Forall row_ok
              (fold_left (fun s1 c => find_forms_in_node sc c label' s1)
                         children s0).1).
  { intros s0 Hs0.
    apply (fold_left_invariant _ (fun s => Forall row_ok s.1)); [|exact Hs0].
    eapply Forall_impl; [exact IH|]. intros c Hc a Ha. apply Hc; assumption. }
  destruct (is_valid_form_name _) eqn:Ev; [|apply Hwalk, Hs].
  destruct (ignored _) eqn:Ei; [exact Hs|].
  apply Hwalk. case_bool_decide as Hin; [exact Hs|]. cbn [fst].
  apply Forall_app. split; [exact Hs|]. constructor; [|constructor].
  apply new_form_row_ok; assumption.
Qed.

Lemma extract_forms_with_corrections_ok :
  Forall row_ok
    (extract_forms_with_corrections is_valid_form_label is_valid_form_name
       ignored extract_visit_strings extract_trigger_info determine_form_source
       extract_document_context required_mappings first_of_set data).
Proof.
  unfold extract_forms_with_corrections.
  match goal with |- Forall _ (fold_left ?f ?l ?s0).1 =>
    apply (fold_left_invariant f (fun s => Forall row_ok s.1)) end.
  - apply Forall_forall. intros h1 _ s Hs.
    apply find_forms_in_node_ok; [reflexivity|exact Hs].
  - constructor.
Qed.

End Rows.

End ExtractFacts.

(** X22: [get_text] of the study-specific-forms module returns the first
    text that is not blank among the texts of the node and of the nodes below
    it, in document order, stripped; it returns the empty text when all of
    them are blank. *)
Theorem get_text_is_the_first_text (n : node) :
  StudyForms.get_text n
  = default ""
      (head (List.filter Py.truthy
               (map (fun m => Py.strip (node_text m)) (Subtree.nodes n)))).
Proof.
  rewrite FormsFacts.get_text_first. reflexivity.
Qed.

(** X23: [extract_forms_cleaned] finds the valid form names of the [H1]
    sections and nothing else.  Every form returned has a valid form name,
    which is the text of its node; its node lies in an [H1] node of the
    document, whose text (or [Unknown Section], when that is no valid label)
    is its section text; and its label is that section text or a non-empty
    valid label that is no valid form name.  Conversely every node of an
    [H1] section whose text is a valid form name gives a form of that name. *)
Theorem extract_forms_cleaned_finds_the_valid_names
        (is_valid_form_name is_valid_form_label : string -> bool) (data : node) :
  let forms :=
    StudyForms.extract_forms_cleaned is_valid_form_name is_valid_form_label data in
  (forall f, In f forms ->
     is_valid_form_name (StudyForms.form_name f) = true
     /\ StudyForms.form_name f = StudyForms.get_text (StudyForms.form_node f)
     /\ In (StudyForms.parent_h1_node f) (Subtree.nodes data)
     /\ Py.startswith (node_name (StudyForms.parent_h1_node f)) "H1" = true
     /\ In (StudyForms.form_node f) (Subtree.nodes (StudyForms.parent_h1_node f))
     /\ StudyForms.h1_text f
        = (let t := StudyForms.get_text (StudyForms.parent_h1_node f) in
           if is_valid_form_label t then t else "Unknown Section")
     /\ (StudyForms.form_label f = StudyForms.h1_text f
         \/ (StudyForms.form_label f <> ""
             /\ is_valid_form_label (StudyForms.form_label f) = true
             /\ is_valid_form_name (StudyForms.form_label f) = false)))
  /\ (forall h1_node m,
        In h1_node (Subtree.nodes data) ->
        Py.startswith (node_name h1_node) "H1" = true ->
        In m (Subtree.nodes h1_node) ->
        is_valid_form_name (StudyForms.get_text m) = true ->
        exists f, In f forms /\ StudyForms.form_name f = StudyForms.get_text m).
Proof.
  intros forms. split.
  - intros f Hf.
    pose proof (FormsFacts.find_h1_sections_sound is_valid_form_name
                  is_valid_form_label data data (SubtreeFacts.nodes_self data)
                  ([], ∅) (List.Forall_nil _)) as H.
    rewrite Forall_forall in H. apply (H f). apply list_elem_of_In. exact Hf.
  - intros h1_node m Hh Hname Hm Hv.
    exact (FormsFacts.find_h1_sections_finds is_valid_form_name
             is_valid_form_label data ([], ∅) h1_node m
             StudyFormsFacts.forms_inv_init Hh Hname Hm Hv).
Qed.

(** A document with one section and one form of one item. *)
Definition weight_cell : node := Node "TD" "" "" [Node "LI" "kg" "" []].

Definition weight_form : node :=
  Node "H2" "[VS]" ""
    [Node "Table" "" ""
       [Node "TR" "" "" [Node "TH" "*Weight" "" []; weight_cell]]].

Definition weight_section : node := Node "H1" "Vitals" "" [weight_form].

Definition weight_document : node := Node "Document Root" "" "" [weight_section].

Definition in_brackets (text : string) : bool := Py.startswith text "[".

Lemma extract_forms_cleaned_finds_the_valid_names_witness :
  exists f,
    In f (StudyForms.extract_forms_cleaned in_brackets Py.truthy weight_document)
    /\ StudyForms.form_name f = StudyForms.get_text weight_form.
Proof.
  apply (proj2 (extract_forms_cleaned_finds_the_valid_names
                  in_brackets Py.truthy weight_document) weight_section weight_form).
  - right. left. reflexivity.
  - reflexivity.
  - right. left. reflexivity.
  - reflexivity.
Defined.

(** X24: no instruction and no empty text becomes an item: every item
    [extract_items_from_form] returns has a name that is not empty and is no
    instruction, an option cell that holds valid option content or an option
    child, and a group that is empty or is a valid label and no
    instruction. *)
Theorem extract_items_from_form_keeps_no_instruction
        (is_valid_form_label : string -> bool) (is_metadata_table : node -> bool)
        (is_instruction : string -> bool) (is_valid_option_content : node -> bool)
        (form_node : node) (it : StudyForms.item) :
  In it (StudyForms.extract_items_from_form is_valid_form_label is_metadata_table
           is_instruction is_valid_option_content form_node) ->
  StudyForms.item_name it <> ""
  /\ is_instruction (StudyForms.item_name it) = false
  /\ (StudyForms.item_group it = ""
      \/ (is_valid_form_label (StudyForms.item_group it) = true
          /\ is_instruction (StudyForms.item_group it) = false))
  /\ exists cell,
       StudyForms.option_td_node it = Some cell
       /\ (is_valid_option_content cell = true
           \/ StudyForms.has_option_child is_valid_option_content cell = true).
Proof.
  intros Hit.
  pose proof (StudyFormsFacts.dedup_items_Forall _ _
                (ItemsFacts.items_data_ok is_valid_form_label is_metadata_table
                   is_instruction is_valid_option_content form_node)) as H.
  rewrite Forall_forall in H. apply (H it). apply list_elem_of_In. exact Hit.
Qed.

Lemma extract_items_from_form_keeps_no_instruction_witness :
  "*Weight" <> ""
  /\ false = false
  /\ ("" = "" \/ (Py.truthy "" = true /\ false = false))
  /\ exists cell,
       Some weight_cell = Some cell
       /\ (true = true \/ StudyForms.has_option_child (fun _ => true) cell = true).
Proof.
  apply (extract_items_from_form_keeps_no_instruction
           Py.truthy (fun _ => false) (fun _ => false) (fun _ => true)
           weight_form (StudyForms.mkItem "" "*Weight" (Some weight_cell))).
  left. reflexivity.
Defined.

(** X25: the rows of a form follow its items: among the rows of the sheet,
    those of a form found (the rows with its label and name) are one for
    each of its items (the single placeholder, for a form without items), in
    the order of the items; they carry the names of the items as Item Label
    and the numbers 1, 2, 3, ... as Item Order, and are required exactly when
    the stripped name begins with an asterisk. *)
Theorem rows_of_a_form_follow_its_items
        (is_valid_form_name is_valid_form_label : string -> bool)
        (is_metadata_table : node -> bool) (is_instruction : string -> bool)
        (is_valid_option_content : node -> bool)
        (lbody_values_of : node -> string) (data_type_of : node -> string -> string)
        (field_length_of precision_of number_range_of : string -> string)
        (data : node) (f : StudyForms.form) (streamed : bool) :
  In f (StudyForms.extract_forms_cleaned is_valid_form_name is_valid_form_label data) ->
  let items :=
    StudyForms.items_of_form is_valid_form_label is_metadata_table is_instruction
      is_valid_option_content f in
  let rows :=
    List.filter
      (fun r => bool_decide
                  (StudyForms.row_form_label r = StudyForms.form_label f /\
                   StudyForms.row_form_name r = StudyForms.form_name f))
      (StudyForms.all_item_rows is_valid_form_name is_valid_form_label
         is_metadata_table is_instruction is_valid_option_content
         lbody_values_of data_type_of field_length_of precision_of
         number_range_of streamed data) in
  map StudyForms.row_item_label rows = map StudyForms.item_name items
  /\ map StudyForms.row_item_order rows = seq 1 (length items)
  /\ Forall (fun r =>
               StudyForms.row_required r
               = if Py.startswith (Py.strip (StudyForms.row_item_label r)) "*"
                 then "Y" else "N") rows.
Proof.
  intros Hin items rows.
  assert (Hrows : rows
                  = StudyForms.rows_of_form is_valid_form_label is_metadata_table
                      is_instruction is_valid_option_content lbody_values_of
                      data_type_of field_length_of precision_of number_range_of
                      streamed f).
  { unfold rows, StudyForms.all_item_rows. erewrite List.filter_ext.
    - apply (StudyFormsFacts.rows_of_one_form is_valid_form_label
               is_metadata_table is_instruction is_valid_option_content
               lbody_values_of data_type_of field_length_of precision_of
               number_range_of streamed _ f);
        [apply StudyFormsFacts.extract_forms_cleaned_NoDup|exact Hin].
    - intros r. unfold StudyFormsFacts.row_key, StudyFormsFacts.form_key.
      apply bool_decide_ext. split; [intros [-> ->]; reflexivity|].
      intros E. injection E as -> ->. split; reflexivity. }
  rewrite Hrows. unfold StudyForms.rows_of_form, StudyForms.assign_item_order.
  fold items. rewrite !map_map. cbn [StudyForms.row_of_item
    StudyForms.row_item_label StudyForms.row_item_order].
  split; [|split].
  - rewrite <- (map_map snd StudyForms.item_name).
    rewrite ItemsFacts.enumerate_snd_all. reflexivity.
  - apply ItemsFacts.enumerate_fst.
  - apply Forall_forall. intros r Hr. apply list_elem_of_fmap in Hr.
    destruct Hr as (oi & -> & _). reflexivity.
Qed.

Lemma rows_of_a_form_follow_its_items_witness :
  let f := StudyForms.mkForm "Vitals" "[VS]" "Vitals" weight_form weight_section in
  let rows :=
    List.filter
      (fun r => bool_decide
                  (StudyForms.row_form_label r = "Vitals" /\
                   StudyForms.row_form_name r = "[VS]"))
      (StudyForms.all_item_rows in_brackets Py.truthy (fun _ => false)
         (fun _ => false) (fun _ => true) (fun _ => "kg") (fun _ _ => "Text")
         (fun _ => "") (fun _ => "") (fun _ => "") false weight_document) in
  map StudyForms.row_item_label rows
  = map StudyForms.item_name
        (StudyForms.items_of_form Py.truthy (fun _ => false) (fun _ => false)
           (fun _ => true) f)
  /\ map StudyForms.row_item_order rows
     = seq 1 (length (StudyForms.items_of_form Py.truthy (fun _ => false)
                        (fun _ => false) (fun _ => true) f))
  /\ Forall (fun r =>
               StudyForms.row_required r
               = if Py.startswith (Py.strip (StudyForms.row_item_label r)) "*"
                 then "Y" else "N") rows.
Proof.
  intros f.
  apply (rows_of_a_form_follow_its_items in_brackets Py.truthy (fun _ => false)
           (fun _ => false) (fun _ => true) (fun _ => "kg") (fun _ _ => "Text")
           (fun _ => "") (fun _ => "") (fun _ => "") weight_document f false).
  left. reflexivity.
Defined.

(** X26: the form extractor writes no form it has to ignore: every row of
    [extract_forms_with_corrections] has a valid form name that no ignore
    pattern catches; its visits are a sorted visit text; its dynamic trigger
    is [Yes], or [No] with empty trigger details, and always [No] for a form
    whose name holds [[ENR]]; and it is required exactly when the
    required patterns of the document hold its name. *)
Theorem extract_forms_writes_no_ignored_form
        (is_valid_form_label is_valid_form_name ignored : string -> bool)
        (extract_visit_strings : string -> gset string)
        (extract_trigger_info : string -> option string)
        (determine_form_source : string -> string -> string -> string -> string)
        (extract_document_context : node -> string)
        (required_mappings : node -> gset string)
        (first_of_set : gset string -> string)
        (data : node) (r : FormExtractor.form_row) :
  In r (FormExtractor.extract_forms_with_corrections is_valid_form_label
          is_valid_form_name ignored extract_visit_strings extract_trigger_info
          determine_form_source extract_document_context required_mappings
          first_of_set data) ->
  is_valid_form_name (FormExtractor.fr_name r) = true
  /\ ignored (FormExtractor.fr_name r) = false
  /\ (exists form_visits,
        FormExtractor.fr_visits r = FormExtractor.visits_string form_visits)
  /\ (FormExtractor.fr_dynamic_trigger r = "Yes"
      \/ (FormExtractor.fr_dynamic_trigger r = "No"
          /\ FormExtractor.fr_trigger_details r = ""))
  /\ (Py.contains (FormExtractor.fr_name r) "[ENR]" = true ->
      FormExtractor.fr_dynamic_trigger r = "No")
  /\ FormExtractor.fr_required r
     = (if bool_decide (FormExtractor.fr_name r ∈ required_mappings data)
        then "Yes" else "No").
Proof.
  intros Hr.
  pose proof (ExtractFacts.extract_forms_with_corrections_ok is_valid_form_label
                is_valid_form_name ignored extract_visit_strings
                extract_trigger_info determine_form_source
                extract_document_context required_mappings first_of_set data) as H.
  rewrite Forall_forall in H. apply (H r). apply list_elem_of_In. exact Hr.
Qed.

Definition enrolment_document : node :=
  Node "Document Root" "" ""
    [Node "H1" "Enrolment" ""
       [Node "H2" "Enrolment [ENR]" "" [Node "P" "if V1 applies" "" []]]].

Lemma extract_forms_writes_no_ignored_form_witness :
  let r := FormExtractor.mkFormRow "Enrolment" "Enrolment [ENR]" "Library" ""
             "No" "" "No" in
  Py.contains "Enrolment [ENR]" "[" = true
  /\ false = false
  /\ (exists form_visits, "" = FormExtractor.visits_string form_visits)
  /\ ("No" = "Yes" \/ ("No" = "No" /\ "" = ""))
  /\ (Py.contains "Enrolment [ENR]" "[ENR]" = true -> "No" = "No")
  /\ "No" = (if bool_decide ("Enrolment [ENR]" ∈ (∅ : gset string))
             then "Yes" else "No").
Proof.
  intros r.
  assert (Hr : In r (FormExtractor.extract_forms_with_corrections
                       Py.truthy (fun t => Py.contains t "[") (fun _ => false)
                       (fun _ => ∅)
                       (fun t => if Py.startswith t "if" then Some t else None)
                       (fun _ _ _ _ => "Library") (fun _ => "") (fun _ => ∅)
                       (fun _ => "") enrolment_document)).
  { left. vm_compute. reflexivity. }
  exact (extract_forms_writes_no_ignored_form
           Py.truthy (fun t => Py.contains t "[") (fun _ => false)
           (fun _ => ∅) (fun t => if Py.startswith t "if" then Some t else None)
           (fun _ _ _ _ => "Library") (fun _ => "") (fun _ => ∅) (fun _ => "")
           enrolment_document r Hr).
Defined.

(** ** Visits of a section, texts of a cell *)

Module SectionFacts.
Import FormExtractor FormExtractorFacts Subtree SubtreeFacts.

Section Visits.
Variable is_valid_form_label : string -> bool.
Variable is_valid_form_name : string -> bool.
Variable ignored : string -> bool.
Variable extract_visit_strings : string -> gset string.
Variable extract_trigger_info : string -> option string.
Variable determine_form_source : string -> string -> string -> string -> string.
Variable extract_document_context : node -> string.
Variable required_mappings : node -> gset string.
Variable first_of_set : gset string -> string.
Variable data : node.

Local Abbreviation deep_search_visits := (deep_search_visits extract_visit_strings).
Local Abbreviation find_forms_in_node :=
  (find_forms_in_node is_valid_form_label is_valid_form_name ignored
     extract_visit_strings extract_trigger_info determine_form_source
     extract_document_context first_of_set).

Lemma gather_h1_sections_nodes : forall n h1_node,
  In h1_node (gather_h1_sections n) ->
  In h1_node (nodes n) /\ Py.startswith (node_name h1_node) "H1" = true.
Proof.
  induction n as [name text path children IH] using node_ind.
  intros h1_node H. cbn [gather_h1_sections] in H. apply in_app_or in H.
  destruct H as [H|H].
  - destruct (Py.startswith name "H1") eqn:E; [|destruct H].
    destruct H as [<-|[]]. split; [apply nodes_self|exact E].
  - apply in_flat_map in H. destruct H as (c & Hc & H).
    rewrite Forall_forall in IH.
    destruct (IH c (proj2 (list_elem_of_In _ _) Hc) h1_node H) as [H1 H2].
    split; [|exact H2]. apply (nodes_child _ _ _ _ c); assumption.
Qed.

(** The visits found below a node are among those found below any node
    above it. *)
Lemma deep_search_visits_below : forall n m,
  In m (nodes n) -> deep_search_visits m ⊆ deep_search_visits n.
Proof.
  induction n as [name text path children IH] using node_ind.
  intros m Hm. cbn [nodes] in Hm. destruct Hm as [<-|Hm]; [reflexivity|].
  apply in_flat_map in Hm. destruct Hm as (c & Hc & Hm).
  rewrite Forall_forall in IH.
  pose proof (IH c (proj2 (list_elem_of_In _ _) Hc) m Hm) as Hsub.
  cbn [FormExtractor.deep_search_visits]. intros v Hv.
  apply elem_of_union. right. apply elem_of_union_list.
  exists (deep_search_visits c). split; [|apply Hsub, Hv].
  apply list_elem_of_fmap. exists c. split; [reflexivity|].
  apply list_elem_of_In, Hc.
Qed.

(** The visits of a row are visits of an [H1] section of the document. *)
Definition from_section (r : form_row) : Prop :=
  exists h1_node form_visits,
    In h1_node (gather_h1_sections data)
    /\ fr_visits r = visits_string form_visits
    /\ form_visits ⊆ deep_search_visits h1_node.

Lemma find_forms_in_node_from_section sc h1_node :
  In h1_node (gather_h1_sections data) ->
  sc_visits sc = deep_search_visits h1_node ->
  forall n, In n (nodes h1_node) ->
  forall current_label s,
    Forall from_section s.1 ->
    Forall from_section (find_forms_in_node sc n current_label s).1.
Proof.
  intros Hh Hsc.
  induction n as [name text path children IH] using node_ind.
  intros Hn current_label s Hs. cbn [FormExtractor.find_forms_in_node].
  set (n := Node name text path children) in *.
  set (label' := if _ && _ && _ then _ else current_label).
  assert (Hwalk : forall s0, Forall from_section s0.1 ->
            Forall from_section
              (fold_left (fun s1 c => find_forms_in_node sc c label' s1)
                         children s0).1).
  { intros s0 Hs0.
    apply (fold_left_invariant _ (fun s => Forall from_section s.1)); [|exact Hs0].
    rewrite Forall_forall in IH. apply Forall_forall. intros c Hc a Ha.
    apply IH; [exact Hc| |exact Ha].
    apply (nodes_trans h1_node n c Hn).
    apply (nodes_child _ _ _ _ c); [apply list_elem_of_In, Hc|apply nodes_self]. }
  destruct (is_valid_form_name _); [|apply Hwalk, Hs].
  destruct (ignored _); [exact Hs|].
  apply Hwalk. case_bool_decide as Hin; [exact Hs|]. cbn [fst].
  apply Forall_app. split; [exact Hs|]. constructor; [|constructor].
  exists h1_node. eexists. split; [exact Hh|]. split; [reflexivity|].
  case_bool_decide as He.
  - rewrite Hsc. reflexivity.
  - apply deep_search_visits_below, Hn.
Qed.

Lemma extract_forms_with_corrections_from_section :
  Forall from_section
    (extract_forms_with_corrections is_valid_form_label is_valid_form_name
       ignored extract_visit_strings extract_trigger_info determine_form_source
       extract_document_context required_mappings first_of_set data).
Proof.
  unfold extract_forms_with_corrections.
  match goal with |- Forall _ (fold_left ?f ?l ?s0).1 =>
    apply (fold_left_invariant f (fun s => Forall from_section s.1)) end.
  - apply Forall_forall. intros h1 Hh s Hs.
    apply (find_forms_in_node_from_section _ h1);
      [apply list_elem_of_In, Hh|reflexivity|apply nodes_self|exact Hs].
  - constructor.
Qed.

End Visits.

End SectionFacts.

Module CellFacts.
Import SoaParser.

Definition line_break (c : ascii) : bool :=
  bool_decide (c = ascii_of_nat 10) || bool_decide (c = ascii_of_nat 13).

Lemma blank_newlines_chars s :
  Forall (fun c => line_break c = false) (Py.chars (blank_newlines s)).
Proof.
  induction s as [|c s IH]; [constructor|].
  constructor; [|exact IH]. unfold line_break.
  destruct (bool_decide (c = ascii_of_nat 10) || bool_decide (c = ascii_of_nat 13))
    eqn:E; [reflexivity|exact E].
Qed.

Lemma lstrip_chars (P : ascii -> Prop) s :
  Forall P (Py.chars s) -> Forall P (Py.chars (Py.lstrip s)).
Proof.
  induction s as [|c s IH]; intros H; [constructor|]. cbn [Py.lstrip].
  destruct (Py.is_space c); [|exact H]. inversion H; subst. apply IH. assumption.
Qed.

Lemma rstrip_chars (P : ascii -> Prop) s :
  Forall P (Py.chars s) -> Forall P (Py.chars (Py.rstrip s)).
Proof.
  induction s as [|c s IH]; intros H; [constructor|]. cbn [Py.rstrip].
  inversion H as [|? ? Hc Hs]; subst. specialize (IH Hs).
  destruct (Py.rstrip s) as [|d r].
  - destruct (Py.is_space c); [constructor|]. constructor; [exact Hc|constructor].
  - constructor; [exact Hc|exact IH].
Qed.

Lemma strip_chars (P : ascii -> Prop) s :
  Forall P (Py.chars s) -> Forall P (Py.chars (Py.strip s)).
Proof. intros H. apply rstrip_chars, lstrip_chars, H. Qed.

End CellFacts.

(** X27: the visits of a form are visits of its section: the [Visits] text
    of every row of [extract_forms_with_corrections] is the visit text of a
    set of visits that were all found in one [H1] section of the document
    (below the form itself or, when none is found there, anywhere in the
    section). *)
Theorem visits_of_a_form_come_from_its_section
        (is_valid_form_label is_valid_form_name ignored : string -> bool)
        (extract_visit_strings : string -> gset string)
        (extract_trigger_info : string -> option string)
        (determine_form_source : string -> string -> string -> string -> string)
        (extract_document_context : node -> string)
        (required_mappings : node -> gset string)
        (first_of_set : gset string -> string)
        (data : node) (r : FormExtractor.form_row) :
  In r (FormExtractor.extract_forms_with_corrections is_valid_form_label
          is_valid_form_name ignored extract_visit_strings extract_trigger_info
          determine_form_source extract_document_context required_mappings
          first_of_set data) ->
  exists h1_node form_visits,
    In h1_node (Subtree.nodes data)
    /\ Py.startswith (node_name h1_node) "H1" = true
    /\ FormExtractor.fr_visits r = FormExtractor.visits_string form_visits
    /\ form_visits ⊆ FormExtractor.deep_search_visits extract_visit_strings h1_node.
Proof.
  intros Hr.
  pose proof (SectionFacts.extract_forms_with_corrections_from_section
                is_valid_form_label is_valid_form_name ignored
                extract_visit_strings extract_trigger_info determine_form_source
                extract_document_context required_mappings first_of_set data) as H.
  rewrite Forall_forall in H.
  destruct (H r (proj2 (list_elem_of_In _ _) Hr)) as (h1 & S & Hh & Hv & Hsub).
  destruct (SectionFacts.gather_h1_sections_nodes data h1 Hh) as [Hn Hname].
  exists h1, S. auto.
Qed.

Lemma visits_of_a_form_come_from_its_section_witness :
  exists h1_node form_visits,
    In h1_node (Subtree.nodes enrolment_document)
    /\ Py.startswith (node_name h1_node) "H1" = true
    /\ "" = FormExtractor.visits_string form_visits
    /\ form_visits ⊆ FormExtractor.deep_search_visits (fun _ => ∅) h1_node.
Proof.
  assert (Hr : In (FormExtractor.mkFormRow "Enrolment" "Enrolment [ENR]" "Library"
                     "" "No" "" "No")
                  (FormExtractor.extract_forms_with_corrections
                     Py.truthy (fun t => Py.contains t "[") (fun _ => false)
                     (fun _ => ∅)
                     (fun t => if Py.startswith t "if" then Some t else None)
                     (fun _ _ _ _ => "Library") (fun _ => "") (fun _ => ∅)
                     (fun _ => "") enrolment_document)).
  { left. vm_compute. reflexivity. }
  exact (visits_of_a_form_come_from_its_section
           Py.truthy (fun t => Py.contains t "[") (fun _ => false)
           (fun _ => ∅) (fun t => if Py.startswith t "if" then Some t else None)
           (fun _ _ _ _ => "Library") (fun _ => "") (fun _ => ∅) (fun _ => "")
           enrolment_document _ Hr).
Defined.

(** X28: the cells of a flattened row are on one line: the text
    [get_node_text] gives for a node (its own text and the texts of the
    nodes below it) holds no line feed and no carriage return, and has no
    white space at either end. *)
Theorem get_node_text_is_one_line (n : node) :
  Forall (fun c => c <> ascii_of_nat 10 /\ c <> ascii_of_nat 13)
         (Py.chars (SoaParser.get_node_text n))
  /\ Py.strip (SoaParser.get_node_text n) = SoaParser.get_node_text n.
Proof.
  destruct n as [name text path children]. cbn [SoaParser.get_node_text].
  split; [|apply PyFacts.strip_idempotent].
  eapply Forall_impl; [apply CellFacts.strip_chars, CellFacts.blank_newlines_chars|].
  intros c Hc. unfold CellFacts.line_break in Hc.
  apply orb_false_elim in Hc. destruct Hc as [H1 H2].
  split; [exact (bool_decide_eq_false_1 _ H1)|exact (bool_decide_eq_false_1 _ H2)].
Qed.

(** X29: [find_nodes_by_name] returns the nodes of the tree whose name
    starts with the prefix, the root included, each as often as it occurs
    in the tree and in document order (a node before the nodes below it,
    children from first to last). *)
Theorem find_nodes_by_name_filters_the_tree (name_prefix : string) (root : node) :
  SoaParser.find_nodes_by_name root name_prefix
  = List.filter (fun n => Py.startswith (node_name n) name_prefix)
                (Subtree.nodes root).
Proof.
  induction root as [name text path children IH] using node_ind.
  cbn [SoaParser.find_nodes_by_name Subtree.nodes List.filter node_name].
  assert (Hrest : flat_map (fun c => SoaParser.find_nodes_by_name c name_prefix)
                           children
                  = List.filter (fun n => Py.startswith (node_name n) name_prefix)
                                (flat_map Subtree.nodes children)).
  { induction IH as [|c cs Hc _ IHcs]; [reflexivity|].
    cbn [flat_map]. rewrite List.filter_app, Hc, IHcs. reflexivity. }
  rewrite Hrest. destruct (Py.startswith name name_prefix); reflexivity.
Qed.

